(** * cc-site-cloner: the website mirroring core

    A shallow embedding of [downloadAsset] and [cloneWebsite] (the cloning
    tool of the repository) together with the properties its specification
    states about them.  The rest of the tool set follows: [safeFilename],
    the analysis and the application generator of the same file, the
    directory search of the deployer, the JSON handler and the parsing of
    responses in the orchestrator, with the properties that their code
    shows.

    Conventions of the embedding.
    - JavaScript strings and buffers are [string]s, sequences of bytes
      (UTF-8 for text); [\s] and [trim] take the white space of
      ECMAScript in its UTF-8 form, and [toLowerCase] maps the letters
      [A] to [Z].
    - [path] is Node's POSIX flavour ([path.sep] is ["/"]).
    - Everything outside the program (the [URL] class, [axios], the file
      system, [cheerio], the clock and [Math.random]) is collected in the
      record [Env]; a call that can throw or reject returns a [result].
    - [async] code is sequential state passing over a [State], in a
      monad of state and exceptions; the fetches of one [Promise.all]
      batch are taken in the order they are started.
    - Lines are those of the file that defines [cloneWebsite]. *)

From Stdlib Require Import String Ascii List Arith Bool Lia ZArith.
From Stdlib Require Import Floats.PrimFloat DecimalString.
From stdpp Require Import base option list strings.
From Equations Require Import Equations.
Import ListNotations.

Local Open Scope string_scope.
Local Open Scope list_scope.

(** ** JavaScript string primitives *)

Module Js.

Definition truthy (s : string) : bool :=
  match s with EmptyString => false | _ => true end.

(** [o || d] for an optional string [o] ([None] is [undefined]). *)
Definition or_else (o : option string) (d : string) : string :=
  match o with
  | Some s => if truthy s then s else d
  | None => d
  end.

Definition startsWith (s p : string) : bool := String.prefix p s.

Fixpoint rev_acc (s acc : string) : string :=
  match s with
  | EmptyString => acc
  | String c s' => rev_acc s' (String c acc)
  end.

Definition rev (s : string) : string := rev_acc s EmptyString.

Definition endsWith (s p : string) : bool := String.prefix (rev p) (rev s).

Definition lower_char (c : ascii) : ascii :=
  let n := nat_of_ascii c in
  if Nat.leb 65 n && Nat.leb n 90 then ascii_of_nat (n + 32) else c.

Fixpoint toLowerCase (s : string) : string :=
  match s with
  | EmptyString => EmptyString
  | String c s' => String (lower_char c) (toLowerCase s')
  end.

(** White space: the class [\s] of a regular expression, which is also
    what [trim] removes.  A string holds the UTF-8 bytes of its text, so
    a character of the class is one to three bytes long. *)

(** Its members of one byte: TAB, LF, VT, FF, CR and the space. *)
Definition ascii_space (c : ascii) : bool :=
  let n := nat_of_ascii c in
  (Nat.leb 9 n && Nat.leb n 13) || Nat.eqb n 32.

(** Its member of two bytes: U+00A0. *)
Definition space2 (a b : ascii) : bool :=
  Nat.eqb (nat_of_ascii a) 194 && Nat.eqb (nat_of_ascii b) 160.

(** Its members of three bytes: U+1680; U+2000 to U+200A, U+2028, U+2029
    and U+202F; U+205F; U+3000; U+FEFF. *)
Definition space3 (a b c : ascii) : bool :=
  let x := nat_of_ascii a in
  let y := nat_of_ascii b in
  let z := nat_of_ascii c in
  (Nat.eqb x 225 && Nat.eqb y 154 && Nat.eqb z 128)
  || (Nat.eqb x 226 && Nat.eqb y 128
      && ((Nat.leb 128 z && Nat.leb z 138) || Nat.eqb z 168 || Nat.eqb z 169 || Nat.eqb z 175))
  || (Nat.eqb x 226 && Nat.eqb y 129 && Nat.eqb z 159)
  || (Nat.eqb x 227 && Nat.eqb y 128 && Nat.eqb z 128)
  || (Nat.eqb x 239 && Nat.eqb y 187 && Nat.eqb z 191).

(** The number of bytes of the white-space character that [s] starts
    with; 0 when it starts with none. *)
Definition spaceWidth (s : string) : nat :=
  match s with
  | String a s1 =>
      if ascii_space a then 1
      else match s1 with
           | String b s2 =>
               if space2 a b then 2
               else match s2 with
                    | String c _ => if space3 a b c then 3 else 0
                    | EmptyString => 0
                    end
           | EmptyString => 0
           end
  | EmptyString => 0
  end.

(** The same for the character that a string ends with, read off the
    reversed string [r]. *)
Definition spaceWidthRev (r : string) : nat :=
  match r with
  | String c r1 =>
      if ascii_space c then 1
      else match r1 with
           | String b r2 =>
               if space2 b c then 2
               else match r2 with
                    | String a _ => if space3 a b c then 3 else 0
                    | EmptyString => 0
                    end
           | EmptyString => 0
           end
  | EmptyString => 0
  end.

(** The string without the white space it starts with, [width] telling
    where a white-space character starts; [skip] counts the bytes of the
    current character that are still to be passed over. *)
Fixpoint dropSpaces (width : string -> nat) (skip : nat) (s : string) : string :=
  match s with
  | EmptyString => EmptyString
  | String _ s' =>
      match skip with
      | S k => dropSpaces width k s'
      | O =>
          match width s with
          | S k => dropSpaces width k s'
          | O => s
          end
      end
  end.

Definition trimStart (s : string) : string := dropSpaces spaceWidth 0 s.

Definition trim (s : string) : string :=
  rev (dropSpaces spaceWidthRev 0 (rev (trimStart s))).

(** [s.split(c)] for a one-character separator: never the empty list. *)
Fixpoint split (sep : ascii) (s : string) : list string :=
  match s with
  | EmptyString => [EmptyString]
  | String c s' =>
      if Ascii.eqb c sep then EmptyString :: split sep s'
      else match split sep s' with
           | w :: ws => String c w :: ws
           | [] => [String c EmptyString]
           end
  end.

(** [s.split(/\s+/)]: a maximal run of white space is one separator.
    [skip] counts the bytes of the current white-space character that
    are still to be passed over. *)
Fixpoint splitSpaces_aux (skip : nat) (in_sep : bool) (s : string) : list string :=
  match s with
  | EmptyString => [EmptyString]
  | String c s' =>
      match skip with
      | S k => splitSpaces_aux k in_sep s'
      | O =>
          match spaceWidth s with
          | S k =>
              if in_sep then splitSpaces_aux k true s'
              else EmptyString :: splitSpaces_aux k true s'
          | O =>
              match splitSpaces_aux 0 false s' with
              | w :: ws => String c w :: ws
              | [] => [String c EmptyString]
              end
          end
      end
  end.

Definition splitSpaces (s : string) : list string := splitSpaces_aux 0 false s.

Definition join (sep : string) (l : list string) : string := String.concat sep l.

(** The text of one character, from the bytes of its UTF-8 form. *)
Definition utf8 (bytes : list nat) : string :=
  fold_right (fun n s => String (ascii_of_nat n) s) EmptyString bytes.

(** The no-break space U+00A0, the line separator U+2028, the
    ideographic space U+3000 and the byte order mark U+FEFF. *)
Definition nbsp : string := utf8 [194; 160].
Definition lineSeparator : string := utf8 [226; 128; 168].
Definition ideographicSpace : string := utf8 [227; 128; 128].
Definition byteOrderMark : string := utf8 [239; 187; 191].

Fixpoint map_chars (f : ascii -> ascii) (s : string) : string :=
  match s with
  | EmptyString => EmptyString
  | String c s' => String (f c) (map_chars f s')
  end.

End Js.

(** ** Node's [path] module, POSIX flavour *)

Module Path.

Definition sep : ascii := "/"%char.

Definition isAbsolute (p : string) : bool :=
  match p with String c _ => Ascii.eqb c sep | EmptyString => false end.

Definition hasTrailingSep (p : string) : bool :=
  match Js.rev p with String c _ => Ascii.eqb c sep | EmptyString => false end.

(** One step of [normalizeString]: [acc] is the result so far, last
    segment first. *)
Definition push_segment (allowAboveRoot : bool) (acc : list string) (seg : string)
  : list string :=
  if String.eqb seg "" || String.eqb seg "." then acc
  else if String.eqb seg ".." then
    match acc with
    | top :: rest =>
        if String.eqb top ".." then ".." :: acc else rest
    | [] => if allowAboveRoot then [".."] else []
    end
  else seg :: acc.

Definition normalizeSegments (allowAboveRoot : bool) (p : string) : list string :=
  List.rev (fold_left (push_segment allowAboveRoot) (Js.split sep p) []).

Definition normalizeString (allowAboveRoot : bool) (p : string) : string :=
  Js.join "/" (normalizeSegments allowAboveRoot p).

Definition normalize (p : string) : string :=
  if String.eqb p "" then "."
  else
    let abs := isAbsolute p in
    let trailing := hasTrailingSep p in
    let q := normalizeString (negb abs) p in
    if String.eqb q "" then
      if abs then "/" else if trailing then "./" else "."
    else
      let q' := if trailing then q +:+ "/" else q in
      if abs then "/" +:+ q' else q'.

(** [path.join(a, b)]. *)
Definition join (a b : string) : string :=
  match Js.truthy a, Js.truthy b with
  | false, false => "."
  | true, false => normalize a
  | false, true => normalize b
  | true, true => normalize (a +:+ "/" +:+ b)
  end.

Definition join3 (a b c : string) : string :=
  normalize (Js.join "/" (List.filter Js.truthy [a; b; c])).

(** [path.resolve(p)] in a process whose working directory is [cwd]
    (an absolute path). *)
Definition resolve (cwd p : string) : string :=
  let full :=
    if String.eqb p "" then cwd +:+ "/"
    else if isAbsolute p then p +:+ "/"
    else cwd +:+ "/" +:+ p +:+ "/" in
  "/" +:+ normalizeString false full.

Fixpoint dropSeps (s : string) : string :=
  match s with
  | String c s' => if Ascii.eqb c sep then dropSeps s' else s
  | EmptyString => EmptyString
  end.

Fixpoint dropToSep (s : string) : option string :=
  match s with
  | String c s' => if Ascii.eqb c sep then Some s' else dropToSep s'
  | EmptyString => None
  end.

(** [path.dirname(p)]: the scan runs from the end of [p] down to index 1. *)
Definition dirname (p : string) : string :=
  match p with
  | EmptyString => "."
  | String c0 rest =>
      let hasRoot := Ascii.eqb c0 sep in
      match dropToSep (dropSeps (Js.rev rest)) with
      | None => if hasRoot then "/" else "."
      | Some before =>
          if hasRoot && String.eqb before "" then "//"
          else String c0 (Js.rev before)
      end
  end.

Fixpoint dropCommon (a b : list string) : list string * list string :=
  match a, b with
  | x :: a', y :: b' => if String.eqb x y then dropCommon a' b' else (a, b)
  | _, _ => (a, b)
  end.

(** [path.relative(from, to)]. *)
Definition relative (cwd from to : string) : string :=
  if String.eqb from to then ""
  else
    let f := resolve cwd from in
    let t := resolve cwd to in
    if String.eqb f t then ""
    else
      let '(fs, ts) := dropCommon (normalizeSegments false f) (normalizeSegments false t) in
      Js.join "/" (map (fun _ => "..") fs ++ ts).

End Path.

(** ** Plain objects used as dictionaries

    [urlToLocal] is a plain object keyed by hrefs.  [Object.entries] lists
    string keys in insertion order, so the object is an association list
    without duplicate keys: assigning to a present key keeps its place.
    Hrefs carry a scheme and a colon, so they never name a property of
    [Object.prototype] and are never array indices, which would be listed
    first. *)

Module Obj.

Definition t := list (string * string).

Definition empty : t := [].

Fixpoint get (k : string) (o : t) : option string :=
  match o with
  | [] => None
  | (k', v) :: o' => if String.eqb k k' then Some v else get k o'
  end.

Fixpoint set (k v : string) (o : t) : t :=
  match o with
  | [] => [(k, v)]
  | (k', v') :: o' =>
      if String.eqb k k' then (k', v) :: o' else (k', v') :: set k v o'
  end.

Definition keys (o : t) : list string := map fst o.

Definition entries (o : t) : list (string * string) := o.

(** [o[k]] in a boolean position. *)
Definition has (k : string) (o : t) : bool :=
  match get k o with Some v => Js.truthy v | None => false end.

(** Every binding of [o] is still a binding of [o']. *)
Definition extends (o o' : t) : Prop :=
  forall k v, get k o = Some v -> get k o' = Some v.

End Obj.

(** ** The environment of the program *)

(** The fields of a WHATWG [URL] object that the program reads. *)
Record URL := mkURL {
  href : string;
  origin : string;
  hostname : string;
  pathname : string
}.

Record Headers := mkHeaders {
  userAgent : option string;
  referer : option string
}.

(** The result of a call that may throw (or of a promise that may reject);
    [Thrown] carries [e.message]. *)
Inductive result (A : Type) : Type :=
| Returned (a : A)
| Thrown (msg : string).
Arguments Returned {A} a.
Arguments Thrown {A} msg.

(** A parsed document as the program sees it through [cheerio]: its
    elements in document order, each with a tag name and attributes. *)
Record Element := mkElement {
  tag : string;
  attrs : list (string * string)
}.

Definition Doc := list Element.

Record Env := mkEnv {
  FS : Type;
  (** [new URL(input)] and [new URL(input, base)]; [base] is the href of
      the base. *)
  newURL : string -> option string -> result URL;
  (** [axios.get(url, {headers})]; the first argument numbers the request,
      so that the network may answer the same URL differently over time. *)
  axios_get : nat -> string -> Headers -> result string;
  fs_mkdir : FS -> string -> result FS;
  fs_writeFile : FS -> string -> string -> result FS;
  fs_readFile : FS -> string -> result string;
  (** [Math.floor(Math.random() * USER_AGENTS.length)] at a given request. *)
  random_index : nat -> nat;
  (** [process.cwd()], an absolute path. *)
  cwd : string;
  cwd_absolute : Path.isAbsolute cwd = true;
  (** [Date.now()] as it prints in a template string. *)
  dateNow : string;
  load : string -> Doc;
  html : Doc -> string
}.
Existing Class Env.

(** The state one job runs in.  [requests], [writes] and [console] record,
    oldest first, the URLs handed to [axios.get], the files
    [fs.writeFile] has written and the lines printed; [urlToLocal] is the
    job's object of that name and [assigned] the assignments
    [urlToLocal[k] = v] executed on it since it was created. *)
Record State (E : Env) := mkState {
  disk : FS E;
  tick : nat;
  requests : list string;
  writes : list (string * string);
  console : list string;
  urlToLocal : Obj.t;
  assigned : list (string * string)
}.
Arguments mkState {E}.
Arguments disk {E}.
Arguments tick {E}.
Arguments requests {E}.
Arguments writes {E}.
Arguments console {E}.
Arguments urlToLocal {E}.
Arguments assigned {E}.

(** ** A state and exception monad for [async] code *)

Section Monad.

Context {E : Env}.

Definition M (A : Type) : Type := State E -> result A * State E.

Definition ret {A} (a : A) : M A := fun s => (Returned a, s).

Definition throw {A} (msg : string) : M A := fun s => (Thrown msg, s).

Definition bind {A B} (m : M A) (k : A -> M B) : M B :=
  fun s =>
    match m s with
    | (Returned a, s') => k a s'
    | (Thrown msg, s') => (Thrown msg, s')
    end.

(** [try { m } catch (e) { h(e.message) }]. *)
Definition try_catch {A} (m : M A) (h : string -> M A) : M A :=
  fun s =>
    match m s with
    | (Returned a, s') => (Returned a, s')
    | (Thrown msg, s') => h msg s'
    end.

Definition lift {A} (r : result A) : M A := fun s => (r, s).

Definition log (line : string) : M unit :=
  fun s => (Returned tt,
            mkState (disk s) (tick s) (requests s) (writes s)
                    (console s ++ [line]) (urlToLocal s) (assigned s)).

Definition get (urlStr : string) (headers : Headers) : M string :=
  fun s => (axios_get E (tick s) urlStr headers,
            mkState (disk s) (S (tick s)) (requests s ++ [urlStr]) (writes s)
                    (console s) (urlToLocal s) (assigned s)).

Definition mkdir (dir : string) : M unit :=
  fun s =>
    match fs_mkdir E (disk s) dir with
    | Returned d =>
        (Returned tt,
         mkState d (tick s) (requests s) (writes s) (console s)
                 (urlToLocal s) (assigned s))
    | Thrown msg => (Thrown msg, s)
    end.

Definition writeFile (file data : string) : M unit :=
  fun s =>
    match fs_writeFile E (disk s) file data with
    | Returned d =>
        (Returned tt,
         mkState d (tick s) (requests s) (writes s ++ [(file, data)]) (console s)
                 (urlToLocal s) (assigned s))
    | Thrown msg => (Thrown msg, s)
    end.

Definition readFile (file : string) : M string :=
  fun s => (fs_readFile E (disk s) file, s).

Definition randomIndex : M nat :=
  fun s => (Returned (random_index E (tick s)), s).

(** [const urlToLocal = {}]. *)
Definition newUrlToLocal : M unit :=
  fun s => (Returned tt,
            mkState (disk s) (tick s) (requests s) (writes s) (console s)
                    Obj.empty []).

(** [urlToLocal[k]]. *)
Definition peek (k : string) : M (option string) :=
  fun s => (Returned (Obj.get k (urlToLocal s)), s).

(** [urlToLocal[k] = v]. *)
Definition assign (k v : string) : M unit :=
  fun s => (Returned tt,
            mkState (disk s) (tick s) (requests s) (writes s) (console s)
                    (Obj.set k v (urlToLocal s)) (assigned s ++ [(k, v)])).

Definition snapshot : M Obj.t :=
  fun s => (Returned (urlToLocal s), s).

Fixpoint forEach {A} (f : A -> M unit) (l : list A) : M unit :=
  match l with
  | [] => ret tt
  | x :: l' => bind (f x) (fun _ => forEach f l')
  end.

Fixpoint mapM {A B} (f : A -> M B) (l : list A) : M (list B) :=
  match l with
  | [] => ret []
  | x :: l' => bind (f x) (fun y => bind (mapM f l') (fun ys => ret (y :: ys)))
  end.

Fixpoint foldM {A B} (f : B -> A -> M B) (l : list A) (b : B) : M B :=
  match l with
  | [] => ret b
  | x :: l' => bind (f b x) (fun b' => foldM f l' b')
  end.

End Monad.

Notation "x <- m ;; k" := (bind m (fun x => k))
  (at level 100, m at next level, right associativity).
Notation "m ;;; k" := (bind m (fun _ => k))
  (at level 100, right associativity).

(** ** The program *)

Definition USER_AGENTS : list string :=
  [ "Mozilla/5.0 (Windows NT 10.0; Win64; x64) AppleWebKit/537.36 (KHTML, like Gecko) Chrome/109.0.0.0 Safari/537.36";
    "Mozilla/5.0 (Macintosh; Intel Mac OS X 10_15_7) AppleWebKit/537.36 (KHTML, like Gecko) Chrome/109.0.0.0 Safari/537.36";
    "Mozilla/5.0 (Windows NT 10.0; Win64; x64) AppleWebKit/537.36 (KHTML, like Gecko) Chrome/108.0.0.0 Safari/537.36";
    "Mozilla/5.0 (Macintosh; Intel Mac OS X 10_15_7) AppleWebKit/605.1.15 (KHTML, like Gecko) Version/16.1 Safari/605.1.15";
    "Mozilla/5.0 (X11; Linux x86_64) AppleWebKit/537.36 (KHTML, like Gecko) Chrome/108.0.0.0 Safari/537.36" ].

Definition dquote : ascii := ascii_of_nat 34.
Definition squote : ascii := ascii_of_nat 39.

(** The character class of [safeFilename]. *)
Definition unsafe_char (c : ascii) : bool :=
  existsb (Ascii.eqb c)
    [":"; "?"; "#"; "<"; ">"; "\"; "|"; "*"; dquote]%char.

(** Line 37: every character of the class becomes an underscore. *)
Definition safeFilename (p : string) : string :=
  Js.map_chars (fun c => if unsafe_char c then "_"%char else c) p.

(** Line 49: one leading slash is removed. *)
Definition stripLeadingSlash (p : string) : string :=
  match p with
  | String c p' => if Ascii.eqb c "/" then p' else p
  | EmptyString => p
  end.

Inductive DownloadOutcome : Type :=
| Success (outPath content url : string)
| Failure (url error : string).

Definition ok (r : DownloadOutcome) : bool :=
  match r with Success _ _ _ => true | Failure _ _ => false end.

Definition outcome_url (r : DownloadOutcome) : string :=
  match r with Success _ _ u => u | Failure u _ => u end.

Definition noHeaders : Headers := mkHeaders None None.

(** What [cloneWebsite] returns. *)
Record Manifest := mkManifest {
  status : string;
  message : string;
  dir : string;
  assetsCount : nat;
  failedDownloads : nat
}.

Inductive CloneResult : Type :=
| ErrorString (s : string)
| CloneManifest (m : Manifest).

(** A selector of the form [tag[attr]]. *)
Record Selector := mkSelector {
  sel_tag : string;
  sel_attr : string
}.

(** [assetSelectors], in the order of [Object.entries]. *)
Definition assetSelectors : list (Selector * string) :=
  [ (mkSelector "link" "href", "href");
    (mkSelector "script" "src", "src");
    (mkSelector "img" "src", "src");
    (mkSelector "img" "srcset", "srcset");
    (mkSelector "source" "src", "src");
    (mkSelector "audio" "src", "src");
    (mkSelector "video" "src", "src");
    (mkSelector "video" "poster", "poster");
    (mkSelector "meta" "content", "content");
    (mkSelector "object" "data", "data") ].

(** [$(el).attr(name)]. *)
Fixpoint attr_lookup (name : string) (l : list (string * string)) : option string :=
  match l with
  | [] => None
  | (n, v) :: l' => if String.eqb name n then Some v else attr_lookup name l'
  end.

Definition getAttr (el : Element) (name : string) : option string :=
  attr_lookup name (attrs el).

(** [$(el).attr(name, value)]. *)
Fixpoint attr_update (name value : string) (l : list (string * string))
  : list (string * string) :=
  match l with
  | [] => [(name, value)]
  | (n, v) :: l' =>
      if String.eqb name n then (n, value) :: l' else (n, v) :: attr_update name value l'
  end.

Definition setAttr (el : Element) (name value : string) : Element :=
  mkElement (tag el) (attr_update name value (attrs el)).

Definition matches (sel : Selector) (el : Element) : bool :=
  String.eqb (tag el) (sel_tag sel) &&
  match getAttr el (sel_attr sel) with Some _ => true | None => false end.

(** [assetSet.add(x)]: a [Set] keeps the first insertion of a value. *)
Definition set_add (x : string) (l : list string) : list string :=
  if existsb (String.eqb x) l then l else l ++ [x].

Definition BATCH_SIZE : nat := 5.

Section Program.

Context {E : Env}.

(** Lines 40-63. *)
Definition downloadAsset (urlStr outBaseDir : string) (headers : Headers)
  : M DownloadOutcome :=
  try_catch
    (data <- get urlStr headers ;;
     u <- lift (newURL E urlStr None) ;;
     let rel := safeFilename (stripLeadingSlash (pathname u)) in
     let outPath := Path.join outBaseDir (if Js.truthy rel then rel else "index.html") in
     (if negb (Js.startsWith (Path.resolve (cwd E) outPath)
                             (Path.resolve (cwd E) outBaseDir))
      then throw ("Path traversal attempt: " +:+ urlStr)
      else ret tt) ;;;
     mkdir (Path.dirname outPath) ;;;
     writeFile outPath data ;;;
     ret (Success outPath data urlStr))
    (fun msg => ret (Failure urlStr msg)).

(** Lines 109-112, one entry of a [srcset]. *)
Definition discoverSrcsetPart (base : URL) (assetSet : list string) (part : string)
  : M (list string) :=
  let url := hd "" (Js.splitSpaces (Js.trim part)) in
  if Js.truthy url then
    u <- lift (newURL E url (Some (href base))) ;;
    ret (set_add (href u) assetSet)
  else ret assetSet.

(** Lines 104-120, the callback of [each] for one matched element. *)
Definition discoverElement (base : URL) (attr : string) (assetSet : list string)
           (el : Element) : M (list string) :=
  match getAttr el attr with
  | None => ret assetSet
  | Some value =>
      if negb (Js.truthy value) then ret assetSet
      else if String.eqb attr "srcset" then
        foldM (discoverSrcsetPart base) (Js.split "," value) assetSet
      else
        try_catch
          (u <- lift (newURL E value (Some (href base))) ;;
           ret (set_add (href u) assetSet))
          (fun _ => log ("Invalid URL: " +:+ value) ;;; ret assetSet)
  end.

(** Lines 103-121. *)
Definition discoverAssets (base : URL) (doc : Doc) : M (list string) :=
  foldM (fun assetSet '(selector, attr) =>
           foldM (discoverElement base attr)
                 (List.filter (matches selector) doc) assetSet)
        assetSelectors [].

Definition sleep : M unit := ret tt.

(** Lines 132-138, the callback of [batch.map]. *)
Definition startDownload (urlStr assetsDir : string) (url : string)
  : M DownloadOutcome :=
  i <- randomIndex ;;
  downloadAsset url assetsDir
    (mkHeaders (nth_error USER_AGENTS i) (Some urlStr)).

(** Lines 130-143. *)
Equations? batchLoop (urlStr assetsDir : string) (assetUrls : list string) (i : nat)
           (downloadResults : list DownloadOutcome)
  : M (list DownloadOutcome) by wf (length assetUrls - i) lt :=
  batchLoop urlStr assetsDir assetUrls i downloadResults
    with lt_dec i (length assetUrls) := {
    | left _ =>
        let batch := firstn BATCH_SIZE (skipn i assetUrls) in
        batchResults <- mapM (startDownload urlStr assetsDir) batch ;;
        sleep ;;;
        batchLoop urlStr assetsDir assetUrls (i + BATCH_SIZE)
                  (downloadResults ++ batchResults)
    | right _ => ret downloadResults }.
Proof. unfold BATCH_SIZE. lia. Qed.

(** [path.relative(outDir, p).split(path.sep).join('/')]. *)
Definition localRel (outDir p : string) : string :=
  Js.join "/" (Js.split Path.sep (Path.relative (cwd E) outDir p)).

(** Lines 146-153. *)
Definition processResults (outDir : string) (downloadResults : list DownloadOutcome)
  : M unit :=
  forEach (fun r =>
             match r with
             | Success outPath _ url => assign url (localRel outDir outPath)
             | Failure url error =>
                 log ("❌ Failed: " +:+ url +:+ " - " +:+ error)
             end)
          downloadResults.

(** *** Matching [urlRegex]

    The pattern of line 163 is [url], an opening parenthesis, an optional
    quote, a non-empty greedy run of characters other than the two
    quotes and the closing parenthesis, an optional quote, and a closing
    parenthesis.  The run is followed by a character outside its class,
    so giving back characters of the run never yields a match, and the
    match at a position is decided by the maximal run. *)

Definition is_quote (c : ascii) : bool := Ascii.eqb c squote || Ascii.eqb c dquote.

Definition ref_char (c : ascii) : bool := negb (is_quote c || Ascii.eqb c ")").

Fixpoint span_ref (s : string) : string * string :=
  match s with
  | String c s' =>
      if ref_char c then let '(run, rest) := span_ref s' in (String c run, rest)
      else (EmptyString, s)
  | EmptyString => (EmptyString, EmptyString)
  end.

(** The rest of the pattern after the optional opening quote [pre];
    the result is the matched text and the captured reference. *)
Definition matchBody (pre s : string) : option (string * string) :=
  let '(run, rest) := span_ref s in
  if Js.truthy run then
    match rest with
    | String c rest' =>
        if Ascii.eqb c ")" then Some ("url(" +:+ pre +:+ run +:+ ")", run)
        else
          match rest' with
          | String c' _ =>
              if Ascii.eqb c' ")"
              then Some ("url(" +:+ pre +:+ run +:+ String c ")", run)
              else None
          | EmptyString => None
          end
    | EmptyString => None
    end
  else None.

Definition matchUrlAt (s : string) : option (string * string) :=
  match s with
  | String "u" (String "r" (String "l" (String "(" s1))) =>
      match s1 with
      | String q s2 =>
          if is_quote q then
            match matchBody (String q "") s2 with
            | Some r => Some r
            | None => matchBody "" s1
            end
          else matchBody "" s1
      | EmptyString => None
      end
  | _ => None
  end.

(** A stylesheet cut by the global regex: the matches, leftmost first
    and not overlapping, and the characters between them. *)
Inductive CssPiece : Type :=
| Chr (c : ascii)
| UrlRef (whole ref : string).

Fixpoint cssPieces (skip : nat) (s : string) : list CssPiece :=
  match s with
  | EmptyString => []
  | String c s' =>
      match skip with
      | S k => cssPieces k s'
      | O =>
          match matchUrlAt s with
          | Some (whole, ref) =>
              UrlRef whole ref :: cssPieces (String.length whole - 1) s'
          | None => Chr c :: cssPieces 0 s'
          end
      end
  end.

(** The captures that the [exec] loop of line 166 visits. *)
Definition cssRefs (css : string) : list string :=
  omap (fun p => match p with UrlRef _ ref => Some ref | Chr _ => None end)
       (cssPieces 0 css).

Definition isDataUri (assetRef : string) : bool := Js.startsWith assetRef "data:".

(** Lines 167-181, the body of the [exec] loop. *)
Definition cssFetchRef (outDir assetsDir originalUrl assetRef : string) : M unit :=
  if isDataUri assetRef then ret tt
  else
    try_catch
      (u <- lift (newURL E assetRef (Some originalUrl)) ;;
       let absoluteUrl := href u in
       known <- peek absoluteUrl ;;
       if negb (Js.truthy (Js.or_else known "")) then
         r2 <- downloadAsset absoluteUrl assetsDir noHeaders ;;
         match r2 with
         | Success outPath _ _ => assign absoluteUrl (localRel outDir outPath)
         | Failure _ _ => ret tt
         end
       else ret tt)
      (fun _ => log ("CSS URL error: " +:+ assetRef)).

(** Lines 184-197, the callback of [replace]. *)
Definition cssReplacement (m : Obj.t) (outDir cssFullPath originalUrl : string)
           (whole assetRef : string) : string :=
  if isDataUri assetRef then whole
  else
    match newURL E assetRef (Some originalUrl) with
    | Returned u =>
        match Obj.get (href u) m with
        | Some target =>
            if Js.truthy target then
              let relativeCssPath :=
                Js.join "/"
                  (Js.split Path.sep
                     (Path.relative (cwd E) (Path.dirname cssFullPath)
                                    (Path.join outDir target))) in
              "url('" +:+ relativeCssPath +:+ "')"
            else whole
        | None => whole
        end
    | Thrown _ => whole
    end.

Definition renderPiece (m : Obj.t) (outDir cssFullPath originalUrl : string)
           (p : CssPiece) : string :=
  match p with
  | Chr c => String c ""
  | UrlRef whole ref => cssReplacement m outDir cssFullPath originalUrl whole ref
  end.

(** [cssContentRaw.replace(urlRegex, ...)]. *)
Definition cssRewrite (m : Obj.t) (outDir cssFullPath originalUrl raw : string)
  : string :=
  String.concat "" (map (renderPiece m outDir cssFullPath originalUrl) (cssPieces 0 raw)).

(** Lines 184-201: the rewriting of one stylesheet and its write back. *)
Definition cssRewriteStep (outDir cssFullPath originalUrl cssContentRaw : string)
  : M unit :=
  m <- snapshot ;;
  let cssContent := cssRewrite m outDir cssFullPath originalUrl cssContentRaw in
  if negb (String.eqb cssContent cssContentRaw)
  then writeFile cssFullPath cssContent
  else ret tt.

(** Lines 157-205, the body of the loop over the entries. *)
Definition processCss (outDir assetsDir : string) (entry : string * string) : M unit :=
  let '(originalUrl, localPath) := entry in
  if Js.endsWith (Js.toLowerCase originalUrl) ".css" then
    try_catch
      (let cssFullPath := Path.join outDir localPath in
       cssContentRaw <- readFile cssFullPath ;;
       forEach (cssFetchRef outDir assetsDir originalUrl) (cssRefs cssContentRaw) ;;;
       cssRewriteStep outDir cssFullPath originalUrl cssContentRaw)
      (fun msg => log ("CSS processing failed: " +:+ msg))
  else ret tt.

(** *** Rewriting the document *)

Fixpoint mapR {A B} (f : A -> result B) (l : list A) : result (list B) :=
  match l with
  | [] => Returned []
  | x :: l' =>
      match f x with
      | Returned y =>
          match mapR f l' with
          | Returned ys => Returned (y :: ys)
          | Thrown msg => Thrown msg
          end
      | Thrown msg => Thrown msg
      end
  end.

(** Lines 216-220, the callback of [map] for one entry of a [srcset]. *)
Definition rewriteSrcsetPart (m : Obj.t) (base : URL) (part : string) : result string :=
  let tokens := Js.splitSpaces (Js.trim part) in
  let url := hd "" tokens in
  let descriptors := tl tokens in
  match newURL E url (Some (href base)) with
  | Returned u =>
      let newUrl := Js.or_else (Obj.get (href u) m) url in
      Returned (Js.join " " (newUrl :: descriptors))
  | Thrown msg => Thrown msg
  end.

Definition rewriteSrcset (m : Obj.t) (base : URL) (value : string) : result string :=
  match mapR (rewriteSrcsetPart m base) (Js.split "," value) with
  | Returned parts => Returned (Js.join ", " parts)
  | Thrown msg => Thrown msg
  end.

Definition placeholder (width height : string) : string :=
  "https://placehold.co/" +:+ width +:+ "x" +:+ height
    +:+ "/EEE/31343C?text=Failed+to+Load".

(** Lines 210-235, the callback of [each] for one matched element. *)
Definition mapAttrElement (m : Obj.t) (base : URL) (attr : string) (el : Element)
  : Element :=
  match getAttr el attr with
  | None => el
  | Some value =>
      if negb (Js.truthy value) then el
      else if String.eqb attr "srcset" then
        match rewriteSrcset m base value with
        | Returned newSrcset => setAttr el attr newSrcset
        | Thrown _ => el
        end
      else
        match newURL E value (Some (href base)) with
        | Returned u =>
            let resolvedUrl := href u in
            if Obj.has resolvedUrl m then
              setAttr el attr (Js.or_else (Obj.get resolvedUrl m) "")
            else if existsb (String.eqb attr) ["src"; "poster"] then
              let width := Js.or_else (getAttr el "width") "400" in
              let height := Js.or_else (getAttr el "height") "300" in
              setAttr el "src" (placeholder width height)
            else el
        | Thrown _ => el
        end
  end.

(** Lines 209-236. *)
Definition mapAttr (m : Obj.t) (base : URL) (selector : Selector) (attr : string)
           (doc : Doc) : Doc :=
  map (fun el => if matches selector el then mapAttrElement m base attr el else el) doc.

(** Lines 238-240. *)
Definition rewriteHtml (m : Obj.t) (base : URL) (doc : Doc) : Doc :=
  fold_left (fun d '(selector, attr) => mapAttr m base selector attr d)
            assetSelectors doc.

(** *** The job, lines 66-252 *)

Definition outDirOf (base : URL) : string :=
  Path.join3 (cwd E) "clones" (safeFilename (hostname base) +:+ "_" +:+ dateNow E).

Definition afterValidation (urlStr : string) (base : URL) : M CloneResult :=
  let outDir := outDirOf base in
  let assetsDir := Path.join outDir "assets" in
  mkdir assetsDir ;;;
  i <- randomIndex ;;
  page <- get urlStr (mkHeaders (nth_error USER_AGENTS i) (Some (origin base))) ;;
  let doc := load E page in
  assetUrls <- discoverAssets base doc ;;
  newUrlToLocal ;;;
  downloadResults <- batchLoop urlStr assetsDir assetUrls 0 [] ;;
  processResults outDir downloadResults ;;;
  entries <- snapshot ;;
  forEach (processCss outDir assetsDir) (Obj.entries entries) ;;;
  m <- snapshot ;;
  writeFile (Path.join outDir "index.html") (html E (rewriteHtml m base doc)) ;;;
  ret (CloneManifest
         (mkManifest "success" ("Cloned site to " +:+ outDir) outDir
                     (length (Obj.keys m))
                     (length (List.filter (fun r => negb (ok r)) downloadResults)))).

Definition cloneWebsite (urlStr : string) : M CloneResult :=
  if negb (Js.truthy urlStr) then ret (ErrorString "No URL provided")
  else
    parsed <- try_catch (base <- lift (newURL E urlStr None) ;; ret (Some base))
                        (fun _ => ret None) ;;
    match parsed with
    | None => ret (ErrorString ("Invalid URL: " +:+ urlStr))
    | Some base => afterValidation urlStr base
    end.

End Program.

(** ** A test double for the environment

    A disk that never fails, and a network, a URL parser and an HTML
    parser given by finite tables: what is not in a table fails, as an
    unreachable host or an unparseable URL does. *)

Module Fixture.

Definition Disk := list (string * string).

Fixpoint assoc {A} (k : string) (l : list (string * A)) : option A :=
  match l with
  | [] => None
  | (k', v) :: l' => if String.eqb k k' then Some v else assoc k l'
  end.

Definition http (host path : string) : URL :=
  mkURL ("http://" +:+ host +:+ path) ("http://" +:+ host) host path.

Definition url_key (input : string) (base : option string) : string :=
  match base with
  | Some b => input +:+ " @ " +:+ b
  | None => input
  end.

Definition serialize_attr (a : string * string) : string :=
  " " +:+ fst a +:+ "=" +:+ String dquote (snd a +:+ String dquote "").

Definition serialize (doc : Doc) : string :=
  String.concat ""
    (map (fun el => "<" +:+ tag el +:+ String.concat "" (map serialize_attr (attrs el)) +:+ ">")
         doc).

Definition env (urls : list (string * URL)) (net : list (string * string))
           (pages : list (string * Doc)) : Env :=
  {| FS := Disk;
     newURL := fun input base =>
       match assoc (url_key input base) urls with
       | Some u => Returned u
       | None => Thrown "Invalid URL"
       end;
     axios_get := fun _ url _ =>
       match assoc url net with
       | Some body => Returned body
       | None => Thrown ("getaddrinfo ENOTFOUND " +:+ url)
       end;
     fs_mkdir := fun d _ => Returned d;
     fs_writeFile := fun d file data => Returned (Obj.set file data d);
     fs_readFile := fun d file =>
       match Obj.get file d with
       | Some data => Returned data
       | None => Thrown ("ENOENT: no such file or directory, open '" +:+ file +:+ "'")
       end;
     random_index := fun n => n mod 5;
     cwd := "/work";
     cwd_absolute := eq_refl;
     dateNow := "1700000000000";
     load := fun page => match assoc page pages with Some d => d | None => [] end;
     html := serialize |}.

Definition start (E : Env) (d : FS E) : State E := mkState d 0 [] [] [] Obj.empty [].

(** The page of the end-to-end scenario: one stylesheet with one
    background image, and one image that cannot be fetched. *)
Definition page : Doc :=
  [ mkElement "link" [("rel", "stylesheet"); ("href", "css/style.css")];
    mkElement "img" [("src", "img/missing.png"); ("width", "120")] ].

Definition site : Env :=
  env [ ("http://site.test/", http "site.test" "/");
        ("css/style.css @ http://site.test/", http "site.test" "/css/style.css");
        ("img/missing.png @ http://site.test/", http "site.test" "/img/missing.png");
        ("http://site.test/css/style.css", http "site.test" "/css/style.css");
        ("http://site.test/img/missing.png", http "site.test" "/img/missing.png");
        ("../img/bg.png @ http://site.test/css/style.css", http "site.test" "/img/bg.png");
        ("http://site.test/img/bg.png", http "site.test" "/img/bg.png") ]
      [ ("http://site.test/", "<html>");
        ("http://site.test/css/style.css", "body{background:url(../img/bg.png)}");
        ("http://site.test/img/bg.png", "PNG") ]
      [ ("<html>", page) ].

(** The job on that page, from an empty disk. *)
Definition run : result CloneResult * State site :=
  Eval vm_compute in cloneWebsite (E := site) "http://site.test/" (start site []).

End Fixture.

(** * The vocabulary of the properties *)

(** The rewriting of [srcset] in the words of the specification: each
    entry is cut at white space, the URL token gives way to its local
    path when it has one, and the descriptors follow it unchanged. *)
Definition spec_localOf {E : Env} (m : Obj.t) (base : URL) (url : string) : option string :=
  match newURL E url (Some (href base)) with
  | Returned u =>
      match Obj.get (href u) m with
      | Some target => if Js.truthy target then Some target else None
      | None => None
      end
  | Thrown _ => None
  end.

Definition spec_srcset_entry {E : Env} (m : Obj.t) (base : URL) (part : string) : string :=
  match Js.splitSpaces (Js.trim part) with
  | url :: descriptors =>
      Js.join " " (default url (spec_localOf m base url) :: descriptors)
  | [] => ""
  end.

Definition spec_srcset {E : Env} (m : Obj.t) (base : URL) (value : string) : string :=
  Js.join ", " (map (spec_srcset_entry m base) (Js.split "," value)).

(** The URL token of every entry of a [srcset] value parses. *)
Definition srcset_parses {E : Env} (base : URL) (value : string) : Prop :=
  Forall (fun part =>
            exists u, newURL E (hd "" (Js.splitSpaces (Js.trim part))) (Some (href base))
                      = Returned u)
         (Js.split "," value).

(** [p] is [root] or lies below it; both are resolved paths. *)
Definition within (root p : string) : bool :=
  String.eqb p root || Js.startsWith p (root +:+ "/").

(** The outcome, if a success, names a path that passed the check of
    line 53 against [outBaseDir]. *)
Definition checked {E : Env} (outBaseDir : string) (r : DownloadOutcome) : Prop :=
  match r with
  | Success outPath _ _ =>
      Js.startsWith (Path.resolve (cwd E) outPath) (Path.resolve (cwd E) outBaseDir) = true
  | Failure _ _ => True
  end.

(** The two states agree on [urlToLocal] and on its assignments. *)
Definition same_map {E : Env} (s s' : State E) : Prop :=
  urlToLocal s' = urlToLocal s /\ assigned s' = assigned s.

(** The path of line 50 for a URL whose [pathname] is [p]. *)
Definition outPathOf (outBaseDir p : string) : string :=
  let rel := safeFilename (stripLeadingSlash p) in
  Path.join outBaseDir (if Js.truthy rel then rel else "index.html").

(** The headers of the batch download that is request number [t] of the
    job (lines 133-136). *)
Definition batchHeaders {E : Env} (urlStr : string) (t : nat) : Headers :=
  mkHeaders (nth_error USER_AGENTS (random_index E t)) (Some urlStr).

(** One download seen from outside.  Request number [t] asks for [url]
    with [headers] while the disk is [d]; [r] is the outcome, [ws] what
    was written and [d'] the disk afterwards.  The answer to this one
    request, the URL and the disk decide the outcome, and nothing else
    does. *)
Inductive Attempt {E : Env} (outBaseDir : string) (headers : Headers) (t : nat)
          (d : FS E) (url : string)
  : DownloadOutcome -> list (string * string) -> FS E -> Prop :=
| attempt_unanswered (msg : string) :
    axios_get E t url headers = Thrown msg ->
    Attempt outBaseDir headers t d url (Failure url msg) [] d
| attempt_unparsed (data msg : string) :
    axios_get E t url headers = Returned data ->
    newURL E url None = Thrown msg ->
    Attempt outBaseDir headers t d url (Failure url msg) [] d
| attempt_refused (data : string) (u : URL) :
    axios_get E t url headers = Returned data ->
    newURL E url None = Returned u ->
    Js.startsWith (Path.resolve (cwd E) (outPathOf outBaseDir (pathname u)))
                  (Path.resolve (cwd E) outBaseDir) = false ->
    Attempt outBaseDir headers t d url
            (Failure url ("Path traversal attempt: " +:+ url)) [] d
| attempt_no_directory (data : string) (u : URL) (msg : string) :
    axios_get E t url headers = Returned data ->
    newURL E url None = Returned u ->
    Js.startsWith (Path.resolve (cwd E) (outPathOf outBaseDir (pathname u)))
                  (Path.resolve (cwd E) outBaseDir) = true ->
    fs_mkdir E d (Path.dirname (outPathOf outBaseDir (pathname u))) = Thrown msg ->
    Attempt outBaseDir headers t d url (Failure url msg) [] d
| attempt_not_written (data : string) (u : URL) (d1 : FS E) (msg : string) :
    axios_get E t url headers = Returned data ->
    newURL E url None = Returned u ->
    Js.startsWith (Path.resolve (cwd E) (outPathOf outBaseDir (pathname u)))
                  (Path.resolve (cwd E) outBaseDir) = true ->
    fs_mkdir E d (Path.dirname (outPathOf outBaseDir (pathname u))) = Returned d1 ->
    fs_writeFile E d1 (outPathOf outBaseDir (pathname u)) data = Thrown msg ->
    Attempt outBaseDir headers t d url (Failure url msg) [] d1
| attempt_stored (data : string) (u : URL) (d1 d2 : FS E) :
    axios_get E t url headers = Returned data ->
    newURL E url None = Returned u ->
    Js.startsWith (Path.resolve (cwd E) (outPathOf outBaseDir (pathname u)))
                  (Path.resolve (cwd E) outBaseDir) = true ->
    fs_mkdir E d (Path.dirname (outPathOf outBaseDir (pathname u))) = Returned d1 ->
    fs_writeFile E d1 (outPathOf outBaseDir (pathname u)) data = Returned d2 ->
    Attempt outBaseDir headers t d url
            (Success (outPathOf outBaseDir (pathname u)) data url)
            [(outPathOf outBaseDir (pathname u), data)] d2.

(** The batch downloads of [urls], the first of them being request
    number [t] on the disk [d]: every URL has its own attempt, whatever
    became of the attempts before it.  The attempts are taken in the
    order of the list, which is the order in which [batch.map] starts
    them. *)
Inductive Fetched {E : Env} (urlStr assetsDir : string)
  : nat -> FS E -> list string -> list DownloadOutcome -> list (string * string)
    -> FS E -> Prop :=
| fetched_nil (t : nat) (d : FS E) : Fetched urlStr assetsDir t d [] [] [] d
| fetched_cons (t : nat) (d : FS E) (url : string) (urls : list string)
               (r : DownloadOutcome) (ws : list (string * string)) (d1 : FS E)
               (rs : list DownloadOutcome) (ws' : list (string * string)) (d2 : FS E) :
    Attempt assetsDir (batchHeaders urlStr t) t d url r ws d1 ->
    Fetched urlStr assetsDir (S t) d1 urls rs ws' d2 ->
    Fetched urlStr assetsDir t d (url :: urls) (r :: rs) (ws ++ ws') d2.

(** The text a piece stands for in the stylesheet it was cut from. *)
Definition pieceText (p : CssPiece) : string :=
  match p with
  | Chr c => String c ""
  | UrlRef whole _ => whole
  end.

Fixpoint sdrop (n : nat) (s : string) : string :=
  match n, s with
  | S k, String _ s' => sdrop k s'
  | _, _ => s
  end.

(** What one pass through the body of the [exec] loop did. *)
Inductive FetchEffect {E : Env} (outDir assetsDir originalUrl assetRef : string)
          (s s' : State E) : Prop :=
| fetch_skipped :
    requests s' = requests s -> writes s' = writes s ->
    urlToLocal s' = urlToLocal s -> assigned s' = assigned s ->
    FetchEffect outDir assetsDir originalUrl assetRef s s'
| fetch_failed (u : URL) :
    isDataUri assetRef = false ->
    newURL E assetRef (Some originalUrl) = Returned u ->
    Obj.has (href u) (urlToLocal s) = false ->
    requests s' = requests s ++ [href u] -> writes s' = writes s ->
    urlToLocal s' = urlToLocal s -> assigned s' = assigned s ->
    FetchEffect outDir assetsDir originalUrl assetRef s s'
| fetch_stored (u : URL) (outPath data : string) :
    isDataUri assetRef = false ->
    newURL E assetRef (Some originalUrl) = Returned u ->
    Obj.has (href u) (urlToLocal s) = false ->
    Js.startsWith (Path.resolve (cwd E) outPath) (Path.resolve (cwd E) assetsDir) = true ->
    requests s' = requests s ++ [href u] ->
    writes s' = writes s ++ [(outPath, data)] ->
    urlToLocal s' = Obj.set (href u) (localRel outDir outPath) (urlToLocal s) ->
    assigned s' = assigned s ++ [(href u, localRel outDir outPath)] ->
    FetchEffect outDir assetsDir originalUrl assetRef s s'.

(** [relativeCssPath] of lines 189-192 for the local file [target]. *)
Definition localPath {E : Env} (outDir cssFullPath target : string) : string :=
  Js.join "/" (Js.split Path.sep
                 (Path.relative (cwd E) (Path.dirname cssFullPath) (Path.join outDir target))).

(** The reference that line 193 emits for the local file [target]. *)
Definition localReference {E : Env} (outDir cssFullPath target : string) : string :=
  "url('" +:+ localPath outDir cssFullPath target +:+ "')".

(** [s] holds no separator. *)
Definition sepfree (s : string) : Prop := Js.split Path.sep s = [s].

(** A segment that survives normalisation. *)
Definition clean (seg : string) : Prop :=
  seg <> "" /\ seg <> "." /\ seg <> ".." /\ sepfree seg.

(** From its creation on, [urlToLocal] is the list of the assignments made
    to it: every assignment went to a key that was absent, and no value is
    the empty string, so that a key once given a path keeps it. *)
Record Inv {E : Env} (s : State E) : Prop := mkInv {
  inv_map : urlToLocal s = assigned s;
  inv_keys : NoDup (map fst (assigned s));
  inv_values : Forall (fun kv => Js.truthy (snd kv) = true) (assigned s)
}.

(** Only the console differs between the two states. *)
Definition only_console {E : Env} (s s' : State E) : Prop :=
  disk s' = disk s /\ tick s' = tick s /\ requests s' = requests s /\
  writes s' = writes s /\ urlToLocal s' = urlToLocal s /\ assigned s' = assigned s.

(** The URL token of an entry of a [srcset], when there is one, parses. *)
Definition part_ok {E : Env} (base : URL) (part : string) : Prop :=
  let url := hd "" (Js.splitSpaces (Js.trim part)) in
  Js.truthy url = true -> exists u, newURL E url (Some (href base)) = Returned u.

(** Every [srcset] of an image of the document has parseable URL tokens. *)
Definition srcsets_parse {E : Env} (base : URL) (doc : Doc) : Prop :=
  forall el value,
    In el doc -> matches (mkSelector "img" "srcset") el = true ->
    getAttr el "srcset" = Some value ->
    Forall (part_ok base) (Js.split "," value).

(** The element is harmless for the discovery of attribute [attr]. *)
Definition good_element {E : Env} (base : URL) (attr : string) (el : Element) : Prop :=
  attr = "srcset" ->
  forall value, getAttr el "srcset" = Some value ->
                Forall (part_ok base) (Js.split "," value).

(** The assignments that line 149 makes for the outcomes of the batch. *)
Definition batchAssignments {E : Env} (outDir : string) (results : list DownloadOutcome)
  : list (string * string) :=
  omap (fun r => match r with
                 | Success outPath _ url => Some (url, localRel outDir outPath)
                 | Failure _ _ => None
                 end) results.

(** Between the two states requests were made and assignments recorded,
    every assignment for a URL that was requested. *)
Definition grows {E : Env} (s s' : State E) : Prop :=
  exists reqs asg,
    requests s' = requests s ++ reqs /\
    assigned s' = assigned s ++ asg /\
    incl (map fst asg) reqs.

(** What [urlRegex] can capture: a non-empty string without a quote or a
    closing parenthesis. *)
Definition plain (s : string) : Prop := s <> "" /\ span_ref s = (s, "").

(** The optional quote of [urlRegex]. *)
Definition quote_opt (q : string) : Prop :=
  q = "" \/ q = String squote "" \/ q = String dquote "".

(** The text of a match: [url], a parenthesis, an optional quote, the
    reference, an optional quote and a closing parenthesis. *)
Definition occurrence (pre ref post : string) : string :=
  "url(" +:+ pre +:+ ref +:+ post +:+ ")".

(** The first character of a string. *)
Definition shead (s : string) : option ascii :=
  match s with String c _ => Some c | EmptyString => None end.

(** The greedy run at the head of [t] is not empty. *)
Definition runb (t : string) : bool := Js.truthy (fst (span_ref t)).

(** What follows the greedy run at the head of [t] closes a match: a
    closing parenthesis, or one character and a closing parenthesis. *)
Definition closesb (t : string) : bool :=
  match snd (span_ref t) with
  | String c rest =>
      Ascii.eqb c ")" ||
      match shead rest with Some c' => Ascii.eqb c' ")" | None => false end
  | EmptyString => false
  end.

(** [s'] is the stylesheet [s] in which matches of [urlRegex] have given
    way to occurrences that are [settled], none of them losing an opening
    quote. *)
Inductive Rewritten (settled : string -> string -> Prop) : string -> string -> Prop :=
| rw_nil : Rewritten settled "" ""
| rw_chr (c : ascii) (s s' : string) :
    matchUrlAt (String c s) = None ->
    Rewritten settled s s' ->
    Rewritten settled (String c s) (String c s')
| rw_ref (pre ref post pre' ref' post' rest rest' : string) :
    quote_opt pre -> plain ref -> quote_opt post ->
    quote_opt pre' -> plain ref' -> quote_opt post' ->
    (pre' = "" -> pre = "") ->
    settled (occurrence pre' ref' post') ref' ->
    Rewritten settled rest rest' ->
    Rewritten settled (occurrence pre ref post +:+ rest)
              (occurrence pre' ref' post' +:+ rest').

(** The reference [assetRef] of the stylesheet and its local file mirror
    each other: when the reference resolves to a URL [u] that has the
    local file [target], the path from the stylesheet to [target] is not
    empty, has no quote and no closing parenthesis and, read as a
    reference of the stylesheet, it resolves to [u] again or to a URL
    without a local file, if it resolves at all. *)
Definition mirrored {E : Env} (m : Obj.t) (outDir cssFullPath originalUrl assetRef : string)
  : Prop :=
  forall u target,
    isDataUri assetRef = false ->
    newURL E assetRef (Some originalUrl) = Returned u ->
    Obj.get (href u) m = Some target ->
    Js.truthy target = true ->
    plain (localPath outDir cssFullPath target) /\
    forall u',
      newURL E (localPath outDir cssFullPath target) (Some originalUrl) = Returned u' ->
      href u' = href u \/ Obj.has (href u') m = false.

Section JobVocabulary.

Context {E : Env}.
Variables (urlStr : string) (base : URL).

Definition rootHeaders (s : State E) : Headers :=
  mkHeaders (nth_error USER_AGENTS (random_index E (tick s))) (Some (origin base)).

Definition assetsDirOf : string := Path.join (outDirOf base) "assets".

Definition indexPath : string := Path.join (outDirOf base) "index.html".

(** The manifest of a job that fetched [downloadResults] in its batch
    phase and ended with the map [m]. *)
Definition manifestOf (m : Obj.t) (downloadResults : list DownloadOutcome) : Manifest :=
  mkManifest "success" ("Cloned site to " +:+ outDirOf base) (outDirOf base)
             (length (Obj.keys m))
             (length (List.filter (fun r => negb (ok r)) downloadResults)).

(** The ways [afterValidation] can go from [s], with result [r] and final
    state [s'].  In the last of them [assetUrls] is what discovery found
    on the page and [downloadResults] the outcomes of the batch downloads
    of these URLs, the first of which is the second request of the job. *)
Inductive JobRun (s : State E) (r : result CloneResult) (s' : State E) : Prop :=
| job_mkdir_failed (msg : string) :
    fs_mkdir E (disk s) assetsDirOf = Thrown msg ->
    r = Thrown msg -> s' = s ->
    JobRun s r s'
| job_fetch_failed (d : FS E) (msg : string) :
    fs_mkdir E (disk s) assetsDirOf = Returned d ->
    axios_get E (tick s) urlStr (rootHeaders s) = Thrown msg ->
    r = Thrown msg -> same_map s s' -> writes s' = writes s ->
    JobRun s r s'
| job_discovery_failed (d : FS E) (page msg : string) :
    fs_mkdir E (disk s) assetsDirOf = Returned d ->
    axios_get E (tick s) urlStr (rootHeaders s) = Returned page ->
    ~ srcsets_parse base (load E page) ->
    r = Thrown msg -> same_map s s' -> writes s' = writes s ->
    JobRun s r s'
| job_rewritten (d : FS E) (page : string) (downloadResults : list DownloadOutcome)
                (nestedRequests : list string) (nestedAssigned : list (string * string))
                (s7 : State E) (assetUrls : list string)
                (batchWrites : list (string * string)) (d5 : FS E) :
    fs_mkdir E (disk s) assetsDirOf = Returned d ->
    axios_get E (tick s) urlStr (rootHeaders s) = Returned page ->
    (forall st : State E, fst (discoverAssets base (load E page) st) = Returned assetUrls) ->
    map outcome_url downloadResults = assetUrls ->
    Fetched urlStr assetsDirOf (S (tick s)) d assetUrls downloadResults batchWrites d5 ->
    NoDup (map outcome_url downloadResults) ->
    Forall (checked assetsDirOf) downloadResults ->
    Inv s7 ->
    requests s7 = requests s ++ urlStr :: map outcome_url downloadResults ++ nestedRequests ->
    assigned s7 = batchAssignments (outDirOf base) downloadResults ++ nestedAssigned ->
    incl (map fst nestedAssigned) nestedRequests ->
    match fs_writeFile E (disk s7) indexPath
                       (html E (rewriteHtml (urlToLocal s7) base (load E page))) with
    | Returned d' =>
        r = Returned (CloneManifest (manifestOf (urlToLocal s7) downloadResults)) /\
        s' = mkState d' (tick s7) (requests s7)
                     (writes s7 ++ [(indexPath,
                                     html E (rewriteHtml (urlToLocal s7) base (load E page)))])
                     (console s7) (urlToLocal s7) (assigned s7)
    | Thrown msg => r = Thrown msg /\ s' = s7
    end ->
    JobRun s r s'.

End JobVocabulary.

(** * Test doubles for the examples *)

Module SrcsetFixture.

Definition base : URL := Fixture.http "site.test" "/".

Definition site : Env :=
  Fixture.env
    [ ("a.png @ http://site.test/", Fixture.http "site.test" "/a.png");
      ("b.png @ http://site.test/", Fixture.http "site.test" "/b.png") ]
    [] [].

Definition m : Obj.t := [("http://site.test/a.png", "assets/a.png")].

Definition el : Element :=
  mkElement "img" [("srcset", "a.png 1x, b.png 2x"); ("alt", "logo")].

End SrcsetFixture.

Module AttrFixture.

Definition base : URL := Fixture.http "site.test" "/".

Definition site : Env :=
  Fixture.env
    [ ("app.js @ http://site.test/", Fixture.http "site.test" "/app.js");
      ("logo.png @ http://site.test/", Fixture.http "site.test" "/logo.png");
      ("cover.jpg @ http://site.test/", Fixture.http "site.test" "/cover.jpg") ]
    [] [].

Definition script : Element := mkElement "script" [("src", "app.js")].

Definition img : Element := mkElement "img" [("src", "logo.png"); ("height", "80")].

Definition m : Obj.t := [("http://site.test/logo.png", "assets/logo.png")].

End AttrFixture.

Module DiscoveryFixture.

Definition urls : list (string * URL) :=
  [ ("http://site.test/", Fixture.http "site.test" "/");
    ("ok.png @ http://site.test/", Fixture.http "site.test" "/ok.png");
    ("http://site.test/ok.png", Fixture.http "site.test" "/ok.png") ].

Definition net : list (string * string) :=
  [ ("http://site.test/", "<html>"); ("http://site.test/ok.png", "PNG") ].

(** The same unparseable reference (an IPv6 host that is not closed),
    once in a [srcset] and once in a [src]. *)
Definition page_srcset : Doc :=
  [ mkElement "img" [("src", "ok.png"); ("srcset", "http://[::1 2x")] ].

Definition page_src : Doc :=
  [ mkElement "img" [("src", "ok.png")];
    mkElement "img" [("src", "http://[::1")] ].

Definition site_srcset : Env := Fixture.env urls net [("<html>", page_srcset)].

Definition site_src : Env := Fixture.env urls net [("<html>", page_src)].

End DiscoveryFixture.

Module TraversalFixture.

(** A [data:] URL has an opaque path, which [URL] does not normalise. *)
Definition evil : string := "data:,/../../assets_evil/x".

Definition site : Env :=
  Fixture.env
    [ (evil, mkURL evil "null" "" ",/../../assets_evil/x");
      ("http://site.test/", Fixture.http "site.test" "/");
      (evil +:+ " @ http://site.test/", mkURL evil "null" "" ",/../../assets_evil/x") ]
    [ (evil, "payload"); ("http://site.test/", "<html>") ]
    [ ("<html>", [mkElement "img" [("src", evil)]]) ].

Definition assetsDir : string := "/work/clones/site.test_1700000000000/assets".

Definition outside : string := "/work/clones/site.test_1700000000000/assets_evil/x".

End TraversalFixture.

Module CssFixture.

Definition originalUrl : string := "http://site.test/css/style.css".
Definition outDir : string := "/work/clones/site.test_1700000000000".
Definition assetsDir : string := "/work/clones/site.test_1700000000000/assets".
Definition cssFullPath : string := "/work/clones/site.test_1700000000000/assets/css/style.css".

Definition site : Env :=
  Fixture.env
    [ ("../img/bg.png @ http://site.test/css/style.css", Fixture.http "site.test" "/img/bg.png");
      ("http://site.test/img/bg.png", Fixture.http "site.test" "/img/bg.png") ]
    [ ("http://site.test/img/bg.png", "PNG") ] [].

Definition m : Obj.t :=
  [ ("http://site.test/css/style.css", "assets/css/style.css");
    ("http://site.test/img/bg.png", "assets/img/bg.png") ].

Definition original : string := "body{background:url(../img/bg.png)}".

Definition rewritten : string := "body{background:url('../img/bg.png')}".

Definition state : State site := mkState (E := site) [] 0 [] [] [] m [].

(** The rewrite step on the stylesheet as it was downloaded. *)
Definition step : result unit * State site :=
  Eval vm_compute in cssRewriteStep outDir cssFullPath originalUrl original state.

(** The stylesheet and its image both downloaded, before line 184. *)
Definition fetched : State site :=
  mkState (E := site)
          [ (cssFullPath, original);
            ("/work/clones/site.test_1700000000000/assets/img/bg.png", "PNG") ]
          0 [] [] [] m [].

End CssFixture.

Module NestedFixture.

(** A page with one stylesheet, which names two images; the second of
    them cannot be fetched. *)
Definition page : Doc :=
  [ mkElement "link" [("rel", "stylesheet"); ("href", "css/style.css")] ].

Definition site : Env :=
  Fixture.env
    [ ("http://site.test/", Fixture.http "site.test" "/");
      ("css/style.css @ http://site.test/", Fixture.http "site.test" "/css/style.css");
      ("http://site.test/css/style.css", Fixture.http "site.test" "/css/style.css");
      ("../img/bg.png @ http://site.test/css/style.css", Fixture.http "site.test" "/img/bg.png");
      ("http://site.test/img/bg.png", Fixture.http "site.test" "/img/bg.png");
      ("../img/gone.png @ http://site.test/css/style.css",
       Fixture.http "site.test" "/img/gone.png");
      ("http://site.test/img/gone.png", Fixture.http "site.test" "/img/gone.png") ]
    [ ("http://site.test/", "<html>");
      ("http://site.test/css/style.css",
       "a{background:url(../img/bg.png)} b{background:url(../img/gone.png)}");
      ("http://site.test/img/bg.png", "PNG") ]
    [ ("<html>", page) ].

(** The job on that page, from an empty disk. *)
Definition run : result CloneResult * State site :=
  Eval vm_compute in cloneWebsite (E := site) "http://site.test/" (Fixture.start site []).

End NestedFixture.

Module DataFixture.

Definition originalUrl : string := "http://site.test/css/style.css".
Definition outDir : string := "/work/clones/site.test_1700000000000".
Definition assetsDir : string := "/work/clones/site.test_1700000000000/assets".
Definition cssFullPath : string := "/work/clones/site.test_1700000000000/assets/css/style.css".

(** An inline SVG image that paints with one of its own gradients: the
    reference of the outer [url(...)] is a [data:] URI in double quotes,
    and the URI holds a [url(#g)] of its own. *)
Definition svg : string :=
  "a{background:url(" +:+ String dquote "data:image/svg+xml,<svg fill='url(#g)'/>"
  +:+ String dquote ")}".

Definition svgRewritten : string :=
  "a{background:url(" +:+ String dquote "data:image/svg+xml,<svg fill='url('style.css')'/>"
  +:+ String dquote ")}".

(** A [data:] URI after a space, and one whose scheme is in capitals. *)
Definition spaced : string := "b{background:url( data:,x)}".

Definition capitals : string := "c{background:url(DATA:,x)}".

Definition page : Doc :=
  [ mkElement "link" [("rel", "stylesheet"); ("href", "css/style.css")] ].

(** The parser of URLs resolves [#g] against the stylesheet, drops the
    space before a scheme and writes the scheme in small letters; the
    server answers a request whatever its fragment, and a [data:] URL is
    answered with its own payload. *)
Definition site : Env :=
  Fixture.env
    [ ("http://site.test/", Fixture.http "site.test" "/");
      ("css/style.css @ http://site.test/", Fixture.http "site.test" "/css/style.css");
      ("http://site.test/css/style.css", Fixture.http "site.test" "/css/style.css");
      ("#g @ http://site.test/css/style.css",
       mkURL "http://site.test/css/style.css#g" "http://site.test" "site.test"
             "/css/style.css");
      ("http://site.test/css/style.css#g",
       mkURL "http://site.test/css/style.css#g" "http://site.test" "site.test"
             "/css/style.css");
      (" data:,x @ http://site.test/css/style.css", mkURL "data:,x" "null" "" ",x");
      ("DATA:,x @ http://site.test/css/style.css", mkURL "data:,x" "null" "" ",x");
      ("data:,x", mkURL "data:,x" "null" "" ",x") ]
    [ ("http://site.test/", "<html>");
      ("http://site.test/css/style.css", svg);
      ("http://site.test/css/style.css#g", svg);
      ("data:,x", "x") ]
    [ ("<html>", page) ].

(** The stylesheet [css] downloaded and recorded, before line 156. *)
Definition downloaded (css : string) : State site :=
  mkState (E := site) [(cssFullPath, css)] 0 [] [] []
          [(originalUrl, "assets/css/style.css")] [].

End DataFixture.

Module OfflineFixture.

(** The URL parses, and the host cannot be reached. *)
Definition site : Env :=
  Fixture.env [ ("http://down.test/", Fixture.http "down.test" "/") ] [] [].

End OfflineFixture.

(** * The rest of the tool set

    First the vocabulary of the properties of the cloner that go beyond
    its specification, then the other tools. *)

(** Every character of [s] satisfies [f]. *)
Fixpoint all_chars (f : ascii -> bool) (s : string) : bool :=
  match s with
  | EmptyString => true
  | String c s' => f c && all_chars f s'
  end.

(** What line 37 does to one character. *)
Definition sanitize_char (c : ascii) : ascii := if unsafe_char c then "_"%char else c.

(** The reference [ref] of the page resolves to the absolute URL [u]. *)
Definition resolvesTo {E : Env} (base : URL) (ref u : string) : Prop :=
  exists U, newURL E ref (Some (href base)) = Returned U /\ href U = u.

(** The URL token of an entry of a [srcset] (line 110). *)
Definition srcsetToken (part : string) : string :=
  hd "" (Js.splitSpaces (Js.trim part)).

(** The attribute [attr] of [el] refers to [u]: its value does, or, for
    a [srcset], the URL token of one of its entries. *)
Definition elementRef {E : Env} (base : URL) (attr : string) (el : Element) (u : string)
  : Prop :=
  exists value,
    getAttr el attr = Some value /\ Js.truthy value = true /\
    if String.eqb attr "srcset"
    then exists part,
        In part (Js.split "," value) /\ Js.truthy (srcsetToken part) = true /\
        resolvesTo base (srcsetToken part) u
    else resolvesTo base value u.

(** Some element of the document refers to [u] through an attribute of the
    catalogue. *)
Definition referenced {E : Env} (base : URL) (doc : Doc) (u : string) : Prop :=
  exists sel attr el,
    In (sel, attr) assetSelectors /\ In el doc /\ matches sel el = true /\
    elementRef base attr el u.

(** The tags and the attributes that the catalogue names. *)
Definition cataloguedTags : list string :=
  ["link"; "script"; "img"; "source"; "audio"; "video"; "meta"; "object"].

Definition cataloguedAttrs : list string :=
  ["href"; "src"; "srcset"; "poster"; "content"; "data"].

(** What the rewriting of the document may do to one element. *)
Definition rewrittenElement (el el' : Element) : Prop :=
  tag el' = tag el /\
  (map fst (attrs el') = map fst (attrs el) \/
   map fst (attrs el') = map fst (attrs el) ++ ["src"]) /\
  (forall name, existsb (String.eqb name) cataloguedAttrs = false ->
                getAttr el' name = getAttr el name) /\
  (existsb (String.eqb (tag el)) cataloguedTags = false -> el' = el).

(** Lines 238-240 seen from one element: the passes of [mapAttr] over it. *)
Definition rewriteElement {E : Env} (m : Obj.t) (base : URL) (el : Element) : Element :=
  fold_left (fun e '(selector, attr) =>
               if matches selector e then mapAttrElement m base attr e else e)
            assetSelectors el.

(** What one pass of [mapAttr] may do to an element: the tag stays, an
    attribute is overwritten in place, or [src] is added at the end when
    the element has none. *)
Definition touched (el el' : Element) : Prop :=
  tag el' = tag el /\
  (map fst (attrs el') = map fst (attrs el) \/
   (getAttr el "src" = None /\ map fst (attrs el') = map fst (attrs el) ++ ["src"])) /\
  (forall name, existsb (String.eqb name) cataloguedAttrs = false ->
                getAttr el' name = getAttr el name).

(** The segments of the resolved form of the path [p]. *)
Definition resolvedSegments {E : Env} (p : string) : list string :=
  Path.normalizeSegments false (Path.resolve (cwd E) p).

(** [p] names the directory [root] or something below it: segment by
    segment, its resolved form continues the resolved form of [root]. *)
Definition inside {E : Env} (root p : string) : Prop :=
  exists rest, resolvedSegments p = resolvedSegments root ++ rest.

(** [v] is a relative path that only goes down: a non-empty sequence of
    segments, none of them empty, [.] or [..], joined by [/]. *)
Definition descending (v : string) : Prop :=
  exists segs, segs <> [] /\ Forall clean segs /\ v = Js.join "/" segs.

(** Between the two states files were written, all of them inside [root]. *)
Definition wroteInside {E : Env} (root : string) (s s' : State E) : Prop :=
  exists ws, writes s' = writes s ++ ws /\ Forall (fun w => inside root (fst w)) ws.

(** Every local path recorded in [urlToLocal] only goes down. *)
Definition Located {E : Env} (s : State E) : Prop :=
  Forall (fun kv : string * string => descending (snd kv)) (urlToLocal s).

Module CollisionFixture.

(** Two hosts serve different files under the same path. *)
Definition site : Env :=
  Fixture.env
    [ ("http://a.test/logo.png", Fixture.http "a.test" "/logo.png");
      ("http://b.test/logo.png", Fixture.http "b.test" "/logo.png") ]
    [ ("http://a.test/logo.png", "PNG of a"); ("http://b.test/logo.png", "PNG of b") ]
    [].

Definition assetsDir : string := "/work/clones/a.test_1700000000000/assets".

Definition first : result DownloadOutcome * State site :=
  Eval vm_compute in
    downloadAsset (E := site) "http://a.test/logo.png" assetsDir noHeaders
                  (Fixture.start site []).

Definition second : result DownloadOutcome * State site :=
  Eval vm_compute in
    downloadAsset (E := site) "http://b.test/logo.png" assetsDir noHeaders (snd first).

End CollisionFixture.

(** * JavaScript values and the JSON handler (utils/json-handler.js)

    Lines are those of the file that defines the class [JsonHandler]. *)

(** The values that [JSON.parse] produces.  A number is a double; an
    object lists each of its keys once, in insertion order. *)
Unset Elimination Schemes.
Inductive JsValue : Type :=
| JsNull
| JsBool (b : bool)
| JsNumber (x : PrimFloat.float)
| JsString (s : string)
| JsArray (items : list JsValue)
| JsObject (props : list (string * JsValue)).
Set Elimination Schemes.

(** What the program asks of the JavaScript engine. *)
Record Engine := mkEngine {
  (** [JSON.parse(text)]; [Thrown] carries the message of the SyntaxError. *)
  JSON_parse : string -> result JsValue;
  (** The message of the TypeError that [prop in v] throws when [v] is not
      an object. *)
  inTypeError : string -> JsValue -> string
}.
Existing Class Engine.

Module JsValues.

(** [!!v]. *)
Definition truthy (v : JsValue) : bool :=
  match v with
  | JsNull => false
  | JsBool b => b
  | JsNumber x => negb (PrimFloat.eqb x PrimFloat.zero || PrimFloat.is_nan x)
  | JsString s => Js.truthy s
  | JsArray _ => true
  | JsObject _ => true
  end.

Definition hasKey (prop : string) (props : list (string * JsValue)) : bool :=
  existsb (fun kv => String.eqb prop (fst kv)) props.

(** [prop in v], for the names the program asks about ([step], [content]
    and [tool_name]): no prototype defines them and they are not array
    indices, so only the keys of an object count. *)
Definition inOperator {J : Engine} (prop : string) (v : JsValue) : result bool :=
  match v with
  | JsObject props => Returned (hasKey prop props)
  | JsArray _ => Returned false
  | _ => Thrown (inTypeError J prop v)
  end.

Fixpoint lookup (prop : string) (props : list (string * JsValue)) : option JsValue :=
  match props with
  | [] => None
  | (k, v) :: props' => if String.eqb prop k then Some v else lookup prop props'
  end.

(** [v.prop] for the same names, on a value that is not a primitive;
    [None] is [undefined]. *)
Definition getProp (prop : string) (v : JsValue) : option JsValue :=
  match v with
  | JsObject props => lookup prop props
  | _ => None
  end.

(** [x === s] for a string [s]. *)
Definition isString (x : option JsValue) (s : string) : bool :=
  match x with
  | Some (JsString t) => String.eqb t s
  | _ => false
  end.

End JsValues.

Module JsonHandler.

Definition LF : ascii := ascii_of_nat 10.
Definition CR : ascii := ascii_of_nat 13.
Definition TAB : ascii := ascii_of_nat 9.
Definition FF : ascii := ascii_of_nat 12.
Definition BS : ascii := ascii_of_nat 8.
Definition backslash : ascii := ascii_of_nat 92.

(** [s.replace(/c/g, rep)] for a pattern that is the one character [c]. *)
Fixpoint replaceChar (c : ascii) (rep : string) (s : string) : string :=
  match s with
  | EmptyString => EmptyString
  | String d s' =>
      if Ascii.eqb d c then rep +:+ replaceChar c rep s' else String d (replaceChar c rep s')
  end.

(** The class [\w] of a regular expression without flags. *)
Definition isWord (c : ascii) : bool :=
  let n := nat_of_ascii c in
  (Nat.leb 48 n && Nat.leb n 57) || (Nat.leb 65 n && Nat.leb n 90)
  || (Nat.leb 97 n && Nat.leb n 122) || Nat.eqb n 95.

(** [s.replace(/\b/g, rep)]: in a regular expression [\b] is the empty
    match at a word boundary, where exactly one of the characters before
    and after is of the class [\w], the ends of the string counting as
    characters outside it.  [before] tells whether the character before
    [s] is of the class. *)
Fixpoint atWordBoundaries (rep : string) (before : bool) (s : string) : string :=
  match s with
  | EmptyString => if before then rep else EmptyString
  | String c s' =>
      (if xorb before (isWord c) then rep else EmptyString)
        +:+ String c (atWordBoundaries rep (isWord c) s')
  end.

(** Lines 72-82. *)
Definition escapeSpecialChars (str : JsValue) : JsValue :=
  match str with
  | JsString s =>
      let s1 := replaceChar backslash (String backslash (String backslash "")) s in
      let s2 := replaceChar LF (String backslash "n") s1 in
      let s3 := replaceChar CR (String backslash "r") s2 in
      let s4 := replaceChar TAB (String backslash "t") s3 in
      let s5 := replaceChar FF (String backslash "f") s4 in
      let s6 := atWordBoundaries (String backslash "b") false s5 in
      JsString (replaceChar dquote (String backslash (String dquote "")) s6)
  | _ => str
  end.

(** The characters that [escapeSpecialChars] has a pattern for. *)
Definition escaped (c : ascii) : bool :=
  existsb (Ascii.eqb c) [backslash; LF; CR; TAB; FF; dquote].

Section WithEngine.

Context {E : Env} {J : Engine}.

(** Lines 60-67. *)
Definition isValidJson (jsonString : string) : bool :=
  match JSON_parse J jsonString with
  | Returned _ => true
  | Thrown _ => false
  end.

End WithEngine.

(** Line 90: a carriage return followed by a line feed becomes a line
    feed. *)
Fixpoint crlfToLf (s : string) : string :=
  match s with
  | EmptyString => EmptyString
  | String c s' =>
      match s' with
      | String d s'' =>
          if Ascii.eqb c CR && Ascii.eqb d LF then String LF (crlfToLf s'')
          else String c (crlfToLf s')
      | EmptyString => String c EmptyString
      end
  end.

(** Line 91: two slashes and what follows them on the line are removed.
    [inComment] says that a match has begun. *)
Fixpoint stripLineComments (inComment : bool) (s : string) : string :=
  match s with
  | EmptyString => EmptyString
  | String c s' =>
      if inComment then
        if Ascii.eqb c LF then String c (stripLineComments false s')
        else stripLineComments true s'
      else
        match s' with
        | String d s'' =>
            if Ascii.eqb c "/" && Ascii.eqb d "/" then stripLineComments true s''
            else String c (stripLineComments false s')
        | EmptyString => String c EmptyString
        end
  end.

Definition closer (c : ascii) : bool := Ascii.eqb c "]" || Ascii.eqb c "}".

(** Line 92: a comma, the white space after it and a closing bracket or
    brace become the bracket or brace.  [skip] counts the characters of
    a match that are still to be passed over. *)
Fixpoint dropTrailingCommas (skip : nat) (s : string) : string :=
  match s with
  | EmptyString => EmptyString
  | String c s' =>
      match skip with
      | S k => dropTrailingCommas k s'
      | O =>
          if Ascii.eqb c "," then
            match Js.trimStart s' with
            | String b _ =>
                if closer b
                then dropTrailingCommas
                       (String.length s' - String.length (Js.trimStart s')) s'
                else String c (dropTrailingCommas 0 s')
            | EmptyString => String c (dropTrailingCommas 0 s')
            end
          else String c (dropTrailingCommas 0 s')
      end
  end.

(** Lines 87-93, for a string. *)
Definition sanitize (jsonString : string) : string :=
  dropTrailingCommas 0 (stripLineComments false (crlfToLf (Js.trim jsonString))).

Fixpoint countChar (c : ascii) (s : string) : nat :=
  match s with
  | EmptyString => 0
  | String d s' => (if Ascii.eqb d c then 1 else 0) + countChar c s'
  end.

Fixpoint repeatChar (c : ascii) (n : nat) : string :=
  match n with
  | O => EmptyString
  | S k => String c (repeatChar c k)
  end.

(** Lines 106-114. *)
Definition closeOpenBrackets (cleaned : string) : string :=
  if Js.startsWith cleaned "[" then
    let openCount := countChar "[" cleaned in
    let closeCount := countChar "]" cleaned in
    if Nat.ltb closeCount openCount
    then cleaned +:+ repeatChar "]" (openCount - closeCount)
    else cleaned
  else if Js.startsWith cleaned "{" then
    let openCount := countChar "{" cleaned in
    let closeCount := countChar "}" cleaned in
    if Nat.ltb closeCount openCount
    then cleaned +:+ repeatChar "}" (openCount - closeCount)
    else cleaned
  else cleaned.

(** The first occurrence of [sep] in [s]: what precedes it and what
    follows it. *)
Fixpoint cutAt (sep s : string) : option (string * string) :=
  if Js.startsWith s sep then Some (EmptyString, sdrop (String.length sep) s)
  else
    match s with
    | EmptyString => None
    | String c s' =>
        match cutAt sep s' with
        | Some (before, after) => Some (String c before, after)
        | None => None
        end
    end.

(** Line 125: [jsonPart.split(marker)[1]] when [jsonPart] includes the
    marker. *)
Definition afterMarker (marker jsonPart : string) : string :=
  match cutAt marker jsonPart with
  | None => jsonPart
  | Some (_, after) =>
      match cutAt marker after with
      | Some (second, _) => second
      | None => after
      end
  end.

Definition opener (c : ascii) : bool := Ascii.eqb c "{" || Ascii.eqb c "[".

(** Lines 133-148: the loop at index [i], [rest] being the text from [i]
    on; the result is [startIdx] and [endIdx], [None] standing for -1. *)
Fixpoint scanJson (rest : string) (i : nat) (depth : Z) (inString escapeNext : bool)
         (startIdx : option nat) : option nat * option nat :=
  match rest with
  | EmptyString => (startIdx, None)
  | String ch rest' =>
      if escapeNext then scanJson rest' (S i) depth inString false startIdx
      else if Ascii.eqb ch "\" then scanJson rest' (S i) depth inString true startIdx
      else if Ascii.eqb ch dquote then scanJson rest' (S i) depth (negb inString) false startIdx
      else if inString then scanJson rest' (S i) depth inString false startIdx
      else if opener ch then
        let startIdx' :=
          match startIdx with
          | None => if Z.eqb depth 0 then Some i else None
          | Some _ => startIdx
          end in
        scanJson rest' (S i) (depth + 1) inString false startIdx'
      else if closer ch then
        if Z.eqb (depth - 1) 0 then (startIdx, Some (S i))
        else scanJson rest' (S i) (depth - 1) inString false startIdx
      else scanJson rest' (S i) depth inString false startIdx
  end.

Section WithEngine.

Context {E : Env} {J : Engine}.

(** Lines 122-160: the portion of the text that is tried last. *)
Definition extractPortion (cleaned : string) : option string :=
  let jsonPart := afterMarker "Invalid JSON step:" cleaned in
  match scanJson jsonPart 0 0 false false None with
  | (Some startIdx, Some endIdx) =>
      let candidate := String.substring startIdx (endIdx - startIdx) jsonPart in
      let extracted := sanitize candidate in
      if isValidJson extracted then Some extracted else None
  | _ => None
  end.

(** Lines 98-164, for a string.  Nothing in the two [try] blocks can
    throw: they work on strings, and [isValidJson] catches for itself. *)
Definition fixMalformedJson (jsonString : string) : M string :=
  let cleaned := sanitize jsonString in
  if isValidJson cleaned then ret cleaned
  else
    log "Detected malformed JSON. Attempting to fix..." ;;;
    let cleaned := closeOpenBrackets cleaned in
    if isValidJson cleaned then
      log "Successfully fixed JSON structure" ;;; ret cleaned
    else
      match extractPortion cleaned with
      | Some extracted => log "Extracted valid JSON portion" ;;; ret extracted
      | None =>
          log "Could not automatically fix JSON. Returning original." ;;;
          ret jsonString
      end.

(** Lines 166-181, for a string. *)
Definition safeParse (jsonString : string) (fix_ : bool) : M JsValue :=
  try_catch
    (lift (JSON_parse J jsonString))
    (fun _ =>
       if negb fix_ then ret JsNull
       else
         try_catch
           (fixed <- fixMalformedJson jsonString ;;
            lift (JSON_parse J fixed))
           (fun msg =>
              log ("Failed to fix and parse JSON: " +:+ msg) ;;;
              let snippet := String.substring 0 200 jsonString in
              log ("Problematic JSON snippet: " +:+ snippet +:+
                   (if Nat.ltb 200 (String.length jsonString) then "..." else "")) ;;;
              ret JsNull)).

Definition quoted (s : string) : string := String dquote (s +:+ String dquote "").

(** Lines 193-199: the first required property that [stepObj] lacks. *)
Fixpoint missingProperty (requiredProps : list string) (stepObj : JsValue)
  : result (option string) :=
  match requiredProps with
  | [] => Returned None
  | prop :: rest =>
      match JsValues.inOperator prop stepObj with
      | Returned true => missingProperty rest stepObj
      | Returned false => Returned (Some prop)
      | Thrown msg => Thrown msg
      end
  end.

(** Lines 188-208: the checks on the step once it is an object. *)
Definition checkWorkflowStep (stepObj : JsValue) : M JsValue :=
  if negb (JsValues.truthy stepObj) then
    log "Invalid workflow step: Could not parse JSON" ;;; ret JsNull
  else
    missing <- lift (missingProperty ["step"; "content"] stepObj) ;;
    match missing with
    | Some prop =>
        log ("Invalid workflow step: Missing required property " +:+ quoted prop) ;;;
        ret JsNull
    | None =>
        let kind := JsValues.getProp "step" stepObj in
        if JsValues.isString kind "TOOL" || JsValues.isString kind "OBSERVE" then
          hasTool <- lift (JsValues.inOperator "tool_name" stepObj) ;;
          if negb hasTool then
            log ("Invalid TOOL/OBSERVE step: Missing " +:+ quoted "tool_name" +:+ " property") ;;;
            ret JsNull
          else ret stepObj
        else ret stepObj
    end.

(** Lines 186-209; [JsNull] is [null]. *)
Definition validateWorkflowStep (step : JsValue) : M JsValue :=
  stepObj <- (match step with
              | JsString s => safeParse s true
              | _ => ret step
              end) ;;
  checkWorkflowStep stepObj.

End WithEngine.

End JsonHandler.

(** * The orchestrator (workflow-orchestrator.js)

    Lines are those of that file.  Indices count the characters of a
    string; the code only cuts at ASCII characters, where counting bytes
    and counting UTF-16 units cut at the same places. *)

Module WorkflowOrchestrator.

(** [s.indexOf(c)], the characters before [s] being [i] in number. *)
Fixpoint indexOf_from (c : ascii) (s : string) (i : nat) : option nat :=
  match s with
  | EmptyString => None
  | String d s' => if Ascii.eqb d c then Some i else indexOf_from c s' (S i)
  end.

Definition indexOf (c : ascii) (s : string) : option nat := indexOf_from c s 0.

(** [s.slice(a, b)] for indices [a <= b] within [s]. *)
Definition slice (s : string) (a b : nat) : string := String.substring a (b - a) s.

(** Lines 64-70: the loop at index [i], where [rest] is the text from
    [i] on; it returns the index that follows the closing bracket. *)
Fixpoint arrayEnd (rest : string) (i : nat) (depth : Z) : option nat :=
  match rest with
  | EmptyString => None
  | String c rest' =>
      if Ascii.eqb c "[" then arrayEnd rest' (S i) (depth + 1)
      else if Ascii.eqb c "]" then
        if Z.eqb (depth - 1) 0 then Some (S i) else arrayEnd rest' (S i) (depth - 1)
      else arrayEnd rest' (S i) depth
  end.

(** Lines 60-72; [None] is [null]. *)
Definition extractFirstJsonArray (text : string) : option string :=
  match indexOf "[" text with
  | None => None
  | Some start =>
      match arrayEnd (sdrop start text) start 0 with
      | Some e => Some (slice text start e)
      | None => None
      end
  end.

(** The text up to the first closing brace, brace included. *)
Fixpoint upToBrace (s : string) : option string :=
  match s with
  | EmptyString => None
  | String c s' =>
      if Ascii.eqb c "}" then Some (String c EmptyString)
      else match upToBrace s' with
           | Some body => Some (String c body)
           | None => None
           end
  end.

Definition stepLiteral : string := String dquote ("step" +:+ String dquote "").

(** A match of [objRegex] (line 94) at the head of [s]: an opening
    brace, white space, the literal [step] in double quotes, and the
    shortest text that ends with a closing brace. *)
Definition matchStepObject (s : string) : option string :=
  match s with
  | String "{" s1 =>
      let t := Js.trimStart s1 in
      let ws := String.substring 0 (String.length s1 - String.length t) s1 in
      if Js.startsWith t stepLiteral then
        match upToBrace (sdrop (String.length stepLiteral) t) with
        | Some body => Some ("{" +:+ ws +:+ stepLiteral +:+ body)
        | None => None
        end
      else None
  | _ => None
  end.

(** The matches that the [exec] loop of line 96 visits; [skip] counts
    the characters of the last match that are still to be passed over. *)
Fixpoint stepObjects (skip : nat) (s : string) : list string :=
  match s with
  | EmptyString => []
  | String c s' =>
      match skip with
      | S k => stepObjects k s'
      | O =>
          match matchStepObject s with
          | Some whole => whole :: stepObjects (String.length whole - 1) s'
          | None => stepObjects 0 s'
          end
      end
  end.

Section WithEngine.

Context {E : Env} {J : Engine}.

(** [if (validated) steps.push(validated)]. *)
Definition pushIfTruthy (steps : list JsValue) (validated : JsValue) : list JsValue :=
  if JsValues.truthy validated then steps ++ [validated] else steps.

(** Lines 82-85: the loop over the parsed array.  It stops at the first
    step whose validation throws; the steps pushed before stay in
    [steps].  The boolean says whether it was left by an exception. *)
Fixpoint validateAll (parsed : list JsValue) (steps : list JsValue)
  : M (list JsValue * bool) :=
  match parsed with
  | [] => ret (steps, false)
  | s :: parsed' =>
      r <- try_catch (validated <- JsonHandler.validateWorkflowStep s ;; ret (Some validated))
                     (fun _ => ret None) ;;
      match r with
      | Some validated => validateAll parsed' (pushIfTruthy steps validated)
      | None => ret (steps, true)
      end
  end.

(** Lines 97-103, the body of the [exec] loop for one match. *)
Definition scanObject (steps : list JsValue) (whole : string) : M (list JsValue) :=
  try_catch
    (o <- JsonHandler.safeParse whole true ;;
     if JsValues.truthy o then
       validated <- JsonHandler.validateWorkflowStep o ;;
       ret (pushIfTruthy steps validated)
     else ret steps)
    (fun _ => log ("Ignoring invalid JSON step object: " +:+ whole) ;;; ret steps).

(** Lines 76-91: the steps collected from the first array, and whether
    they are returned at line 86. *)
Definition fromFirstArray (rawContent : string) : M (list JsValue * bool) :=
  match extractFirstJsonArray rawContent with
  | Some jsonArrayStr =>
      parsed <- JsonHandler.safeParse jsonArrayStr true ;;
      match parsed with
      | JsArray items =>
          r <- validateAll items [] ;;
          let '(steps, threw) := r in
          if threw then
            log "Could not parse the main JSON array, falling back to object scanning." ;;;
            ret (steps, false)
          else ret (steps, negb (Nat.eqb (length steps) 0))
      | _ => ret ([], false)
      end
  | None => ret ([], false)
  end.

(** Lines 74-106. *)
Definition parseAIResponse (rawContent : string) : M (list JsValue) :=
  r <- fromFirstArray rawContent ;;
  let '(steps, returned) := r in
  if returned then ret steps
  else foldM scanObject (stepObjects 0 rawContent) steps.

End WithEngine.

End WorkflowOrchestrator.

(** The deterministic orchestrator of lines 229-240, over the tools of
    the cloner module.  Only [cloneWebsite] is spelled out here; the two
    tools that follow it are parameters, and so are the type of the
    analysis and the reading of [generateResult?.appDir]. *)
Module DeterministicOrchestrator.

Section Run.

Context {E : Env}.
Variables (Analysis Generated : Type).
Variable analyzeWebsite : string -> M Analysis.
Variable generateNodeApp : string -> Analysis -> M Generated.
Variable appDir : Generated -> option string.

Definition run (initialRequest : string) : M (option string) :=
  log "Running in deterministic-only mode." ;;;
  let url := List.last (Js.split " " initialRequest) "" in
  cloneResult <- cloneWebsite url ;;
  match cloneResult with
  | CloneManifest man =>
      if Js.truthy (dir man) then
        analysisResult <- analyzeWebsite (dir man) ;;
        generateResult <- generateNodeApp (dir man) analysisResult ;;
        ret (appDir generateResult)
      else throw "Cloning failed in deterministic mode."
  | ErrorString _ => throw "Cloning failed in deterministic mode."
  end.

End Run.

End DeterministicOrchestrator.

(** The request that [main] of workflow-composer.js hands to the
    orchestrator (line 31 of that file). *)
Module WorkflowComposer.

Definition initialRequest (finalUrl : string) : string :=
  "Clone the website " +:+ finalUrl
    +:+ ", analyze its structure, and generate a runnable Node.js application.".

End WorkflowComposer.

(** The excess of opening over closing square brackets in [s]. *)
Fixpoint bracketBalance (s : string) : Z :=
  match s with
  | EmptyString => 0
  | String c s' =>
      ((if Ascii.eqb c "[" then 1 else if Ascii.eqb c "]" then -1 else 0)
       + bracketBalance s')%Z
  end.

(** [r] starts with an opening bracket that is closed, for the first
    time, by the last character of [r]: the brackets of [r] balance, and
    those of no shorter beginning of [r] do. *)
Definition firstClosed (r : string) : Prop :=
  (exists r', r = String "[" r') /\
  bracketBalance r = 0%Z /\
  forall p q, r = p +:+ q -> p <> "" -> q <> "" -> (0 < bracketBalance p)%Z.

(** * The deployer (deploy-latest.js)

    Lines are those of the file that defines [cloneWebsite], in which the
    deployer follows the cloner.  The deployer only reads the file
    system here: [readdir] and [mtimeMs] are what [fs.readdir] (with
    file types) and [fs.stat] answer.  JavaScript numbers are an
    unspecified type [Num]: [Number] reads a run of digits, [falsy] is
    the test [!ts || Number.isNaN(ts)], and [gt x y] says that [x - y]
    is positive.  They are collected in the record [World]. *)

Module DeployLatest.

Record Dirent := mkDirent {
  name : string;
  isDirectory : bool
}.

Definition is_digit (c : ascii) : bool :=
  let n := nat_of_ascii c in Nat.leb 48 n && Nat.leb n 57.

Fixpoint spanDigits (s : string) : string * string :=
  match s with
  | String c s' =>
      if is_digit c then let '(run, rest) := spanDigits s' in (String c run, rest)
      else (EmptyString, s)
  | EmptyString => (EmptyString, EmptyString)
  end.

(** The capture of the pattern of line 498, an underscore and a
    non-empty run of digits that ends the name: the digits that end the
    name, when there are some and an underscore precedes them. *)
Definition trailingNumber (s : string) : option string :=
  let '(digits, rest) := spanDigits (Js.rev s) in
  match digits, rest with
  | String _ _, String "_" _ => Some (Js.rev digits)
  | _, _ => None
  end.

(** The capture of the pattern of line 475: the same, before the
    suffix [_app]. *)
Definition appNumber (s : string) : option string :=
  if Js.endsWith s "_app"
  then trailingNumber (String.substring 0 (String.length s - 4) s)
  else None.

(** What the deployer asks of its environment. *)
Record World := mkWorld {
  Num : Type;
  Number : string -> Num;
  falsy : Num -> bool;
  gt : Num -> Num -> bool;
  readdir : string -> result (list Dirent);
  mtimeMs : string -> result Num
}.
Existing Class World.

Section Latest.

Context {W : World}.

Record Candidate := mkCandidate {
  dir : string;
  ts : Num W
}.

(** Lines 475-482 and 498-504: the time stamp of a directory, from its
    name when the name gives a number that is not zero, from the file
    system otherwise. *)
Definition stamp (m : option string) (full : string) : result (Num W) :=
  match m with
  | Some digits =>
      if falsy W (Number W digits) then mtimeMs W full else Returned (Number W digits)
  | None => mtimeMs W full
  end.

(** [list.sort((a, b) => b.ts - a.ts)]: the sort is stable, so each
    item goes before the first item that it is greater than. *)
Fixpoint insertSorted (x : Candidate) (sorted : list Candidate) : list Candidate :=
  match sorted with
  | [] => [x]
  | y :: sorted' =>
      if gt W (ts x) (ts y) then x :: sorted else y :: insertSorted x sorted'
  end.

Definition sortDescending (l : list Candidate) : list Candidate :=
  fold_left (fun sorted x => insertSorted x sorted) l [].

(** Lines 470-484. *)
Fixpoint collectApps (baseDir : string) (entries : list Dirent) (appDirs : list Candidate)
  : result (list Candidate) :=
  match entries with
  | [] => Returned appDirs
  | entry :: entries' =>
      if negb (isDirectory entry) then collectApps baseDir entries' appDirs
      else if negb (Js.endsWith (name entry) "_app") then collectApps baseDir entries' appDirs
      else
        let full := Path.join baseDir (name entry) in
        match stamp (appNumber (name entry)) full with
        | Returned t => collectApps baseDir entries' (appDirs ++ [mkCandidate full t])
        | Thrown msg => Thrown msg
        end
  end.

(** Lines 467-488; [None] is [null]. *)
Definition findLatestAppDir (baseDir : string) : result (option string) :=
  match readdir W baseDir with
  | Returned entries =>
      match collectApps baseDir entries [] with
      | Returned appDirs =>
          Returned (match sortDescending appDirs with
                    | [] => None
                    | first :: _ => Some (dir first)
                    end)
      | Thrown msg => Thrown msg
      end
  | Thrown msg => Thrown msg
  end.

(** Lines 493-506. *)
Fixpoint collectClones (baseDir : string) (entries : list Dirent) (clones : list Candidate)
  : result (list Candidate) :=
  match entries with
  | [] => Returned clones
  | entry :: entries' =>
      if negb (isDirectory entry) then collectClones baseDir entries' clones
      else if Js.endsWith (name entry) "_app" then collectClones baseDir entries' clones
      else
        let full := Path.join baseDir (name entry) in
        match stamp (trailingNumber (name entry)) full with
        | Returned t => collectClones baseDir entries' (clones ++ [mkCandidate full t])
        | Thrown msg => Thrown msg
        end
  end.

(** Lines 490-510. *)
Definition findLatestCloneDir (baseDir : string) : result (option string) :=
  match readdir W baseDir with
  | Returned entries =>
      match collectClones baseDir entries [] with
      | Returned clones =>
          Returned (match sortDescending clones with
                    | [] => None
                    | first :: _ => Some (dir first)
                    end)
      | Thrown msg => Thrown msg
      end
  | Thrown msg => Thrown msg
  end.

End Latest.

(** The directories that [findLatestCloneDir] considers. *)
Definition isClone (entry : Dirent) : bool :=
  isDirectory entry && negb (Js.endsWith (name entry) "_app").

(** The directories that [findLatestAppDir] considers. *)
Definition isApp (entry : Dirent) : bool :=
  isDirectory entry && Js.endsWith (name entry) "_app".

(** The two loops of the deployer at once: the directories of the
    listing that are [eligible], each with the time stamp read from its
    name by [number], are added to [found]. *)
Fixpoint collectWith {W : World} (eligible : Dirent -> bool)
         (number : string -> option string) (baseDir : string)
         (entries : list Dirent) (found : list Candidate) : result (list Candidate) :=
  match entries with
  | [] => Returned found
  | entry :: entries' =>
      if eligible entry then
        let full := Path.join baseDir (name entry) in
        match stamp (number (name entry)) full with
        | Returned t =>
            collectWith eligible number baseDir entries' (found ++ [mkCandidate full t])
        | Thrown msg => Thrown msg
        end
      else collectWith eligible number baseDir entries' found
  end.

(** A latest directory among the [eligible] ones of the listing: none
    of them has a greater time stamp. *)
Definition latestAmong {W : World} (eligible : Dirent -> bool)
           (number : string -> option string) (baseDir : string)
           (entries : list Dirent) (d : string) : Prop :=
  exists e t,
    In e entries /\ eligible e = true /\
    d = Path.join baseDir (name e) /\
    stamp (number (name e)) (Path.join baseDir (name e)) = Returned t /\
    forall e' t',
      In e' entries -> eligible e' = true ->
      stamp (number (name e')) (Path.join baseDir (name e')) = Returned t' ->
      gt W t' t = false.

(** No item of the list is greater than its first item. *)
Definition headIsGreatest {W : World} (l : list Candidate) : Prop :=
  match l with
  | [] => True
  | first :: _ => Forall (fun c => gt W (ts c) (ts first) = false) l
  end.

End DeployLatest.

(** Every character of [s] is a digit, and there is one. *)
Definition digits (s : string) : Prop :=
  s <> "" /\ all_chars DeployLatest.is_digit s = true.

Module LatestFixture.

(** Numbers as naturals, read from decimal digits. *)
Fixpoint number_acc (s : string) (acc : nat) : nat :=
  match s with
  | EmptyString => acc
  | String c s' => number_acc s' (10 * acc + (nat_of_ascii c - 48))
  end.

Definition Number (s : string) : nat := number_acc s 0.

Definition entries : list DeployLatest.Dirent :=
  [ DeployLatest.mkDirent "a.test_170" true;
    DeployLatest.mkDirent "notes.txt" false;
    DeployLatest.mkDirent "b.test_180" true;
    DeployLatest.mkDirent "b.test_180_app" true;
    DeployLatest.mkDirent "old" true ].

Definition world : DeployLatest.World :=
  {| DeployLatest.Num := nat;
     DeployLatest.Number := Number;
     DeployLatest.falsy := Nat.eqb 0;
     DeployLatest.gt := fun x y => Nat.ltb y x;
     DeployLatest.readdir := fun p =>
       if String.eqb p "/work/clones" then Returned entries else Thrown "ENOENT";
     DeployLatest.mtimeMs := fun p =>
       if String.eqb p "/work/clones/old" then Returned 100 else Thrown "ENOENT" |}.

End LatestFixture.

(** * The analysis of a cloned directory ([analyzeWebsite], lines 260-352)

    What lies below the analysed directory is a finite tree: a file
    carries the answer of [fs.stat] (its size, a natural number), a
    directory the answer of [fs.readdir] (its entries by name); either
    answer may be a failure.  [analyzeHTML] (lines 316-345) reads a page
    with [cheerio]; it catches its own failures, and is taken here as a
    function of the path of the page. *)

Module Analyzer.

Unset Elimination Schemes.
Inductive Tree : Type :=
| File (stat : result nat)
| Directory (listing : result (list (string * Tree))).
Set Elimination Schemes.

Record FileInfo := mkFileInfo {
  path : string;
  size : nat;
  type : string
}.

Record Headings := mkHeadings {
  h1 : nat;
  h2 : nat;
  h3 : nat
}.

Record SectionInfo := mkSectionInfo {
  section_tag : string;
  section_class : string;
  section_id : string
}.

(** What [analyzeHTML] returns for a page it could read. *)
Record Structure := mkStructure {
  title : string;
  metaDescription : string;
  headingStructure : Headings;
  sections : list SectionInfo;
  internalLinks : nat;
  externalLinks : nat;
  scripts : nat;
  stylesheets : nat;
  imageCount : nat
}.

(** The field [pageStructure]: the empty object it starts as, or what
    [analyzeHTML] returned. *)
Inductive PageStructure : Type :=
| NoStructure
| Parsed (p : Structure)
| HtmlError (error : string).

Record Report := mkReport {
  htmlFiles : list FileInfo;
  cssFiles : list FileInfo;
  jsFiles : list FileInfo;
  images : list FileInfo;
  otherAssets : list FileInfo;
  totalSize : nat;
  pageStructure : PageStructure
}.

(** What [analyzeWebsite] resolves to. *)
Inductive Analysis : Type :=
| Analyzed (report : Report)
| AnalysisError (error : string).

(** The loop of [path.extname] over the characters of the path, last
    character first; the result is [startDot], [startPart], [end] and
    [preDotState], [None] standing for -1. *)
Fixpoint extnameScan (reversed : string) (startDot end_ : option nat)
         (matchedSlash : bool) (preDotState : Z) : option nat * nat * option nat * Z :=
  match reversed with
  | EmptyString => (startDot, 0, end_, preDotState)
  | String code reversed' =>
      let i := String.length reversed' in
      if Ascii.eqb code "/" then
        if negb matchedSlash then (startDot, S i, end_, preDotState)
        else extnameScan reversed' startDot end_ matchedSlash preDotState
      else
        let matchedSlash' := match end_ with None => false | Some _ => matchedSlash end in
        let end' := match end_ with None => Some (S i) | Some _ => end_ end in
        if Ascii.eqb code "." then
          match startDot with
          | None => extnameScan reversed' (Some i) end' matchedSlash' preDotState
          | Some _ => extnameScan reversed' startDot end' matchedSlash' 1
          end
        else
          match startDot with
          | Some _ => extnameScan reversed' startDot end' matchedSlash' (-1)
          | None => extnameScan reversed' startDot end' matchedSlash' preDotState
          end
  end.

(** [path.extname(p)]. *)
Definition extname (p : string) : string :=
  let '(startDot, startPart, end_, preDotState) :=
    extnameScan (Js.rev p) None None true 0 in
  match startDot, end_ with
  | Some sd, Some e =>
      if Z.eqb preDotState 0
         || (Z.eqb preDotState 1 && Nat.eqb sd (e - 1) && Nat.eqb sd (startPart + 1))
      then EmptyString
      else String.substring sd (e - sd) p
  | _, _ => EmptyString
  end.

(** The cases of the [switch] of line 292. *)
Inductive Kind : Type := KHtml | KCss | KJs | KImage | KOther.

Definition kindOf (type : string) : Kind :=
  if String.eqb type ".html" then KHtml
  else if String.eqb type ".css" then KCss
  else if String.eqb type ".js" then KJs
  else if existsb (String.eqb type) [".jpg"; ".jpeg"; ".png"; ".gif"; ".svg"; ".webp"]
  then KImage
  else KOther.

Section Analysis.

Context {E : Env}.
Variable analyzeHTML : string -> PageStructure.

(** Lines 283-310: one file that is not a directory. *)
Definition recordFile (fullPath relPath name : string) (fileSize : nat) (report : Report)
  : Report :=
  let fileInfo := mkFileInfo relPath fileSize (Js.toLowerCase (extname name)) in
  let total := totalSize report + fileSize in
  match kindOf (type fileInfo) with
  | KHtml =>
      mkReport (htmlFiles report ++ [fileInfo]) (cssFiles report) (jsFiles report)
               (images report) (otherAssets report) total
               (if String.eqb relPath "index.html" then analyzeHTML fullPath
                else pageStructure report)
  | KCss =>
      mkReport (htmlFiles report) (cssFiles report ++ [fileInfo]) (jsFiles report)
               (images report) (otherAssets report) total (pageStructure report)
  | KJs =>
      mkReport (htmlFiles report) (cssFiles report) (jsFiles report ++ [fileInfo])
               (images report) (otherAssets report) total (pageStructure report)
  | KImage =>
      mkReport (htmlFiles report) (cssFiles report) (jsFiles report)
               (images report ++ [fileInfo]) (otherAssets report) total
               (pageStructure report)
  | KOther =>
      mkReport (htmlFiles report) (cssFiles report) (jsFiles report)
               (images report) (otherAssets report ++ [fileInfo]) total
               (pageStructure report)
  end.

(** Lines 276-311, the body of the loop for the entry [name], which is
    [node]; for a directory, lines 273-313 on its listing. *)
Fixpoint analyzeEntry (dirPath currentPath name : string) (node : Tree) (report : Report)
  : result Report :=
  let fullPath := Path.join currentPath name in
  let relPath := Path.relative (cwd E) dirPath fullPath in
  match node with
  | Directory listing =>
      match listing with
      | Returned entries =>
          (fix loop (entries : list (string * Tree)) (report : Report) : result Report :=
             match entries with
             | [] => Returned report
             | (childName, child) :: entries' =>
                 match analyzeEntry dirPath fullPath childName child report with
                 | Returned report' => loop entries' report'
                 | Thrown msg => Thrown msg
                 end
             end) entries report
      | Thrown msg => Thrown msg
      end
  | File stat =>
      match stat with
      | Returned fileSize => Returned (recordFile fullPath relPath name fileSize report)
      | Thrown msg => Thrown msg
      end
  end.

(** Lines 273-313 on the listing of [currentPath]. *)
Fixpoint analyzeDirectory (dirPath currentPath : string) (entries : list (string * Tree))
         (report : Report) : result Report :=
  match entries with
  | [] => Returned report
  | (name, node) :: entries' =>
      match analyzeEntry dirPath currentPath name node report with
      | Returned report' => analyzeDirectory dirPath currentPath entries' report'
      | Thrown msg => Thrown msg
      end
  end.

Definition emptyReport : Report := mkReport [] [] [] [] [] 0 NoStructure.

(** Lines 260-352; [listing] is the answer of [fs.readdir(dirPath)]. *)
Definition analyzeWebsite (dirPath : string) (listing : result (list (string * Tree)))
  : Analysis :=
  match listing with
  | Returned entries =>
      match analyzeDirectory dirPath dirPath entries emptyReport with
      | Returned report => Analyzed report
      | Thrown msg => AnalysisError ("Analysis failed: " +:+ msg)
      end
  | Thrown msg => AnalysisError ("Analysis failed: " +:+ msg)
  end.

End Analysis.

(** ** The vocabulary of the analysis *)

(** Every [fs.stat] and [fs.readdir] below succeeds. *)
Fixpoint healthy (node : Tree) : bool :=
  match node with
  | File stat => match stat with Returned _ => true | Thrown _ => false end
  | Directory listing =>
      match listing with
      | Returned entries =>
          (fix all (entries : list (string * Tree)) : bool :=
             match entries with
             | [] => true
             | (_, child) :: entries' => healthy child && all entries'
             end) entries
      | Thrown _ => false
      end
  end.

Fixpoint healthyAll (entries : list (string * Tree)) : bool :=
  match entries with
  | [] => true
  | (_, child) :: entries' => healthy child && healthyAll entries'
  end.

(** The names below are proper segments. *)
Fixpoint properNames (node : Tree) : Prop :=
  match node with
  | File _ => True
  | Directory listing =>
      match listing with
      | Returned entries =>
          (fix all (entries : list (string * Tree)) : Prop :=
             match entries with
             | [] => True
             | (childName, child) :: entries' =>
                 clean childName /\ properNames child /\ all entries'
             end) entries
      | Thrown _ => True
      end
  end.

Fixpoint properNamesAll (entries : list (string * Tree)) : Prop :=
  match entries with
  | [] => True
  | (childName, child) :: entries' =>
      clean childName /\ properNames child /\ properNamesAll entries'
  end.

(** The files of the entry [name], in the order of the traversal, each
    with its names from the analysed directory down joined by slashes. *)
Fixpoint filesOf (above : list string) (name : string) (node : Tree) : list FileInfo :=
  match node with
  | File stat =>
      match stat with
      | Returned fileSize =>
          [mkFileInfo (Js.join "/" (above ++ [name])) fileSize
                      (Js.toLowerCase (extname name))]
      | Thrown _ => []
      end
  | Directory listing =>
      match listing with
      | Returned entries =>
          (fix all (entries : list (string * Tree)) : list FileInfo :=
             match entries with
             | [] => []
             | (childName, child) :: entries' =>
                 filesOf (above ++ [name]) childName child ++ all entries'
             end) entries
      | Thrown _ => []
      end
  end.

Fixpoint filesOfAll (above : list string) (entries : list (string * Tree)) : list FileInfo :=
  match entries with
  | [] => []
  | (childName, child) :: entries' =>
      filesOf above childName child ++ filesOfAll above entries'
  end.

Definition hasKind (k : Kind) (f : FileInfo) : bool :=
  match kindOf (type f), k with
  | KHtml, KHtml => true
  | KCss, KCss => true
  | KJs, KJs => true
  | KImage, KImage => true
  | KOther, KOther => true
  | _, _ => false
  end.

Definition sumSizes (l : list FileInfo) : nat := fold_right (fun f n => size f + n) 0 l.

(** [f] is the page [index.html] of the analysed directory itself. *)
Definition isIndexPage (f : FileInfo) : bool :=
  hasKind KHtml f && String.eqb (path f) "index.html".

(** The report after the files [files] have been recorded in [report],
    [page] being what [analyzeHTML] makes of the page [index.html] of the
    analysed directory. *)
Definition recorded (page : PageStructure) (report : Report) (files : list FileInfo)
  : Report :=
  mkReport (htmlFiles report ++ List.filter (hasKind KHtml) files)
           (cssFiles report ++ List.filter (hasKind KCss) files)
           (jsFiles report ++ List.filter (hasKind KJs) files)
           (images report ++ List.filter (hasKind KImage) files)
           (otherAssets report ++ List.filter (hasKind KOther) files)
           (totalSize report + sumSizes files)
           (if existsb isIndexPage files then page else pageStructure report).

(** Induction on the tree below a directory. *)
Fixpoint Tree_induction (P : Tree -> Prop)
         (Hfile : forall stat, P (File stat))
         (Hfailed : forall msg, P (Directory (Thrown msg)))
         (Hdir : forall entries,
             Forall (fun entry : string * Tree => P (snd entry)) entries ->
             P (Directory (Returned entries)))
         (node : Tree) : P node :=
  match node with
  | File stat => Hfile stat
  | Directory (Thrown msg) => Hfailed msg
  | Directory (Returned entries) =>
      Hdir entries
        ((fix all (entries : list (string * Tree))
            : Forall (fun entry : string * Tree => P (snd entry)) entries :=
            match entries with
            | [] => @List.Forall_nil _ (fun entry : string * Tree => P (snd entry))
            | entry :: entries' =>
                @List.Forall_cons _ (fun entry : string * Tree => P (snd entry))
                                  entry entries'
                                  (Tree_induction P Hfile Hfailed Hdir (snd entry))
                                  (all entries')
            end) entries)
  end.

(** The entry is a file named [index.html] whose [fs.stat] succeeds. *)
Definition indexEntry (entry : string * Tree) : bool :=
  String.eqb (fst entry) "index.html"
  && match snd entry with
     | File (Returned _) => true
     | _ => false
     end.

End Analyzer.

Module AnalyzerFixture.

Definition tree : list (string * Analyzer.Tree) :=
  [ ("index.html", Analyzer.File (Returned 120));
    ("assets", Analyzer.Directory (Returned
       [ ("css", Analyzer.Directory (Returned [("style.css", Analyzer.File (Returned 40))]));
         ("logo.PNG", Analyzer.File (Returned 900));
         ("index.html", Analyzer.File (Returned 7)) ])) ].

Definition broken : list (string * Analyzer.Tree) :=
  [ ("index.html", Analyzer.File (Returned 120));
    ("assets", Analyzer.Directory (Thrown "EACCES: permission denied")) ].

Definition page : Analyzer.PageStructure :=
  Analyzer.Parsed
    (Analyzer.mkStructure "Site" "" (Analyzer.mkHeadings 1 0 0) [] 0 0 0 1 1).

Definition analyzeHTML (p : string) : Analyzer.PageStructure :=
  if String.eqb p "/work/clones/site.test_1700000000000/index.html" then page
  else Analyzer.HtmlError "HTML analysis failed: ENOENT".

Definition dir : string := "/work/clones/site.test_1700000000000".

Definition report : Analyzer.Report :=
  Eval vm_compute in
    match Analyzer.analyzeWebsite (E := Fixture.site) analyzeHTML dir (Returned tree) with
    | Analyzer.Analyzed r => r
    | Analyzer.AnalysisError _ => Analyzer.emptyReport
    end.

End AnalyzerFixture.

(** * The application generator (lines 360-443 of the cloner) *)

(** [fs.cp(src, dest, { recursive: true })] on the disk of the
    environment. *)
Class Copying (E : Env) := {
  fs_cp : FS E -> string -> string -> result (FS E)
}.

Module Generator.

(** What [generateNodeApp] resolves to. *)
Inductive Generated : Type :=
| GeneratedApp (status message appDir : string) (nextSteps : list string)
| GenerationError (error : string).

(** [generateResult?.appDir]. *)
Definition appDirOf (g : Generated) : option string :=
  match g with
  | GeneratedApp _ _ appDir _ => Some appDir
  | GenerationError _ => None
  end.

Definition LF : string := String (ascii_of_nat 10) EmptyString.

(** A length or a count in a template literal. *)
Definition numberToString (n : nat) : string := NilZero.string_of_uint (Nat.to_uint n).

(** [(totalSize / 1024 / 1024).toFixed(2)] for a size below 2^53: the
    quotient by 2^20 is exact, and [toFixed] takes the closest number of
    hundredths, the larger one on a tie. *)
Definition megabytes (totalSize : nat) : string :=
  let hundredths := ((200 * N.of_nat totalSize + 2 ^ 20) / 2 ^ 21)%N in
  let whole := NilZero.string_of_uint (N.to_uint (hundredths / 100)) in
  let frac := (hundredths mod 100)%N in
  whole +:+ "." +:+ NilZero.string_of_uint (N.to_uint (frac / 10))
        +:+ NilZero.string_of_uint (N.to_uint (frac mod 10)).

(** [s.replace(pat, rep)] for a string pattern that is not empty: the
    first occurrence only. *)
Fixpoint replaceFirst (pat rep s : string) : string :=
  if String.prefix pat s then rep +:+ sdrop (String.length pat) s
  else match s with
       | EmptyString => EmptyString
       | String c s' => String c (replaceFirst pat rep s')
       end.

(** [s.replace(/\\/g, '/')]. *)
Definition slashes (s : string) : string :=
  Js.map_chars (fun c => if Ascii.eqb c "\" then "/"%char else c) s.

(** Lines 381-385: the route of one page. *)
Definition route (file : Analyzer.FileInfo) : string :=
  let routePath := slashes (replaceFirst ".html" "" (Analyzer.path file)) in
  Js.join LF
    [ "app.get('/" +:+ routePath +:+ "', (req, res) => {";
      "    res.sendFile(path.join(__dirname, 'public', '" +:+ Analyzer.path file +:+ "'));";
      "});" ].

(** [analysis.pageStructure.title] in a template literal, for a report
    that [analyzeWebsite] returned: the empty object and the error object
    of [analyzeHTML] have no title. *)
Definition titleText (page : Analyzer.PageStructure) : string :=
  match page with
  | Analyzer.Parsed p => Analyzer.title p
  | _ => "undefined"
  end.

Section Generation.

Context {E : Env} {C : Copying E}.

(** The message of the [TypeError] that reading the property [name] of
    [undefined] raises. *)
Variable undefinedRead : string -> string.

Definition cp (src dest : string) : M unit :=
  fun s =>
    match fs_cp (disk s) src dest with
    | Returned d =>
        (Returned tt,
         mkState d (tick s) (requests s) (writes s) (console s)
                 (urlToLocal s) (assigned s))
    | Thrown msg => (Thrown msg, s)
    end.

(** Lines 366-391: the text of [app.js]. *)
Definition appJsContent (analysis : Analyzer.Analysis) : result string :=
  match analysis with
  | Analyzer.AnalysisError _ => Thrown (undefinedRead "title")
  | Analyzer.Analyzed report =>
      let others :=
        List.filter (fun f => negb (String.eqb (Analyzer.path f) "index.html"))
                    (Analyzer.htmlFiles report) in
      Returned (Js.join LF
        [ "const express = require('express');";
          "const path = require('path');";
          "const app = express();";
          "const port = process.env.PORT || 3000;";
          "";
          "// Serve static files";
          "app.use(express.static(path.join(__dirname, 'public')));";
          "";
          "// " +:+ titleText (Analyzer.pageStructure report) +:+ " routes";
          "app.get('/', (req, res) => {";
          "    res.sendFile(path.join(__dirname, 'public', 'index.html'));";
          "});";
          "";
          "// Additional routes based on analysis";
          Js.join LF (map route others);
          "";
          "// Start server";
          "app.listen(port, () => {";
          "    console.log(`Server running at http://localhost:${port}`);";
          "    console.log(`Serving "
            +:+ numberToString (length (Analyzer.htmlFiles report)) +:+ " HTML files`);";
          "});" ])
  end.

(** Lines 394-405: [JSON.stringify(packageJson, null, 2)]. *)
Definition packageJson : string :=
  let q := JsonHandler.quoted in
  Js.join LF
    [ "{";
      "  " +:+ q "name" +:+ ": " +:+ q "website-app" +:+ ",";
      "  " +:+ q "version" +:+ ": " +:+ q "1.0.0" +:+ ",";
      "  " +:+ q "description" +:+ ": " +:+ q "Generated from cloned website" +:+ ",";
      "  " +:+ q "main" +:+ ": " +:+ q "app.js" +:+ ",";
      "  " +:+ q "scripts" +:+ ": {";
      "    " +:+ q "start" +:+ ": " +:+ q "node app.js";
      "  },";
      "  " +:+ q "dependencies" +:+ ": {";
      "    " +:+ q "express" +:+ ": " +:+ q "^4.18.2";
      "  }";
      "}" ].

(** Lines 416-426: the text of [ANALYSIS_REPORT.md]. *)
Definition analysisReport (analysis : Analyzer.Analysis) : result string :=
  match analysis with
  | Analyzer.AnalysisError _ => Thrown (undefinedRead "length")
  | Analyzer.Analyzed report =>
      match Analyzer.pageStructure report with
      | Analyzer.Parsed p =>
          Returned
            ("# Website Analysis Report" +:+ LF +:+ LF
             +:+ "## Summary" +:+ LF
             +:+ "- **Pages**: " +:+ numberToString (length (Analyzer.htmlFiles report)) +:+ LF
             +:+ "- **Assets**: "
             +:+ numberToString (length (Analyzer.cssFiles report)
                                 + length (Analyzer.jsFiles report)
                                 + length (Analyzer.images report)) +:+ LF
             +:+ "- **Total Size**: " +:+ megabytes (Analyzer.totalSize report) +:+ " MB"
             +:+ LF +:+ LF
             +:+ "## Structure" +:+ LF
             +:+ "- **Title**: " +:+ Analyzer.title p +:+ LF
             +:+ "- **Sections**: " +:+ numberToString (length (Analyzer.sections p)) +:+ LF
             +:+ "- **Headings**: H1(" +:+ numberToString (Analyzer.h1 (Analyzer.headingStructure p))
             +:+ ") H2(" +:+ numberToString (Analyzer.h2 (Analyzer.headingStructure p))
             +:+ ") H3(" +:+ numberToString (Analyzer.h3 (Analyzer.headingStructure p))
             +:+ ")" +:+ LF)
      | _ => Thrown (undefinedRead "length")
      end
  end.

(** Lines 360-443. *)
Definition generateNodeApp (clonedDir : string) (analysis : Analyzer.Analysis)
  : M Generated :=
  try_catch
    (let appDir := clonedDir +:+ "_app" in
     mkdir appDir ;;;
     appJs <- lift (appJsContent analysis) ;;
     let publicDir := Path.join appDir "public" in
     cp clonedDir publicDir ;;;
     writeFile (Path.join appDir "app.js") appJs ;;;
     writeFile (Path.join appDir "package.json") packageJson ;;;
     reportText <- lift (analysisReport analysis) ;;
     writeFile (Path.join appDir "ANALYSIS_REPORT.md") reportText ;;;
     ret (GeneratedApp "success" ("Node app generated in " +:+ appDir) appDir
                       [ "cd " +:+ appDir; "npm install"; "npm start";
                         "Open http://localhost:3000" ]))
    (fun msg => ret (GenerationError ("App generation failed: " +:+ msg))).

End Generation.

(** The files that [generateNodeApp] writes, in its order. *)
Definition generatedFiles (clonedDir : string) : list string :=
  let appDir := clonedDir +:+ "_app" in
  [ Path.join appDir "app.js"; Path.join appDir "package.json";
    Path.join appDir "ANALYSIS_REPORT.md" ].

(** How far a run of [generateNodeApp] came: the step that failed, or
    [Done]. *)
Inductive Stage : Type :=
| AtMkdir | AtAppJs | AtCopy | AtWriteApp | AtWritePackage | AtReport | AtWriteReport | Done.

(** The number of files written before that step. *)
Definition written (stage : Stage) : nat :=
  match stage with
  | AtMkdir | AtAppJs | AtCopy | AtWriteApp => 0
  | AtWritePackage => 1
  | AtReport | AtWriteReport => 2
  | Done => 3
  end.

(** The analysis is a report with a parsed page. *)
Definition parsedPage (analysis : Analyzer.Analysis) : bool :=
  match analysis with
  | Analyzer.Analyzed report =>
      match Analyzer.pageStructure report with
      | Analyzer.Parsed _ => true
      | _ => false
      end
  | Analyzer.AnalysisError _ => false
  end.

End Generator.

Module GeneratorFixture.

(** A copy that leaves the files of [src] where they are and adds them
    below [dest]. *)
Definition copy (d : Fixture.Disk) (src dest : string) : result Fixture.Disk :=
  Returned
    (d ++ flat_map (fun entry : string * string =>
                      if String.prefix (src +:+ "/") (fst entry)
                      then [(dest +:+ sdrop (String.length src) (fst entry), snd entry)]
                      else [])
                   d).

Definition copying : Copying Fixture.site := @Build_Copying Fixture.site copy.

Definition undefinedRead (name : string) : string :=
  "Cannot read properties of undefined (reading '" +:+ name +:+ "')".

(** The same directory without its page [index.html]. *)
Definition headless : list (string * Analyzer.Tree) :=
  [ ("assets", Analyzer.Directory (Returned
       [ ("index.html", Analyzer.File (Returned 7)) ])) ].

End GeneratorFixture.

(** [s] holds two slashes in a row. *)
Fixpoint hasDoubleSlash (s : string) : bool :=
  match s with
  | EmptyString => false
  | String c s' =>
      match s' with
      | String d _ => (Ascii.eqb c "/" && Ascii.eqb d "/") || hasDoubleSlash s'
      | EmptyString => false
      end
  end.

(** [s] starts with a slash. *)
Definition startsSlash (s : string) : bool :=
  match s with
  | String d _ => Ascii.eqb d "/"
  | EmptyString => false
  end.

(** A step that [validateWorkflowStep] accepts: an object with the keys
    [step] and [content], and with the key [tool_name] when its [step] is
    [TOOL] or [OBSERVE]. *)
Definition validStep (v : JsValue) : bool :=
  match v with
  | JsObject props =>
      JsValues.hasKey "step" props && JsValues.hasKey "content" props &&
      (negb (JsValues.isString (JsValues.lookup "step" props) "TOOL" ||
             JsValues.isString (JsValues.lookup "step" props) "OBSERVE")
       || JsValues.hasKey "tool_name" props)
  | _ => false
  end.

(** A value on which the [in] operator throws. *)
Definition primitive (v : JsValue) : bool :=
  match v with
  | JsObject _ => false
  | JsArray _ => false
  | _ => true
  end.

(** What [validateWorkflowStep] makes of a step once it is parsed:
    [null] for a falsy value, for an array and for an object that is not
    a valid step; the object itself when it is one; and the TypeError of
    the [in] operator for any other value. *)
Definition checkedStep {J : Engine} (stepObj : JsValue) : result JsValue :=
  if negb (JsValues.truthy stepObj) then Returned JsNull
  else
    match stepObj with
    | JsObject _ => Returned (if validStep stepObj then stepObj else JsNull)
    | JsArray _ => Returned JsNull
    | _ => Thrown (inTypeError J "step" stepObj)
    end.

Definition validSteps (steps : list JsValue) : Prop :=
  Forall (fun v => validStep v = true) steps.

Definition isObject (v : JsValue) : bool :=
  match v with
  | JsObject _ => true
  | _ => false
  end.

Module PlanFixture.

(** An engine that parses two texts. *)
Definition think : JsValue :=
  JsObject [("step", JsString "THINK"); ("content", JsString "clone first")].

Definition tool : JsValue :=
  JsObject [("step", JsString "TOOL"); ("tool_name", JsString "cloneWebsite");
            ("input", JsString "http://site.test/")].

Definition planText : string := "plan: [think, tool] done".

Definition engine : Engine :=
  {| JSON_parse := fun text =>
       if String.eqb text "[think, tool]" then Returned (JsArray [think; tool])
       else if String.eqb text "5" then Returned (JsNumber PrimFloat.one)
       else Thrown "Unexpected token";
     inTypeError := fun prop _ => "Cannot use 'in' operator to search for '" +:+ prop +:+ "'" |}.

Definition start : State OfflineFixture.site := Fixture.start OfflineFixture.site [].

End PlanFixture.

(** * Properties *)

#[local] Arguments String.append : simpl nomatch.

(** ** The primitives on small inputs *)

Example path_join_ex1 : Path.join "/out/assets" "img/a.png" = "/out/assets/img/a.png".
Proof. reflexivity. Qed.
Example path_join_ex2 : Path.join "/out/assets" "a/../../x" = "/out/x".
Proof. reflexivity. Qed.
Example path_join_ex3 : Path.join "/out/assets" "img/" = "/out/assets/img/".
Proof. reflexivity. Qed.
Example path_rel_ex1 : Path.relative "/w" "/out/assets/css" "/out/assets/img/a.png" = "../img/a.png".
Proof. reflexivity. Qed.
Example path_rel_ex2 : Path.relative "/w" "/out" "/out/assets/img/a.png" = "assets/img/a.png".
Proof. reflexivity. Qed.
Example path_dirname_ex1 : Path.dirname "/out/assets/css/s.css" = "/out/assets/css".
Proof. reflexivity. Qed.
Example path_dirname_ex2 : Path.dirname "/a//b" = "/a/".
Proof. reflexivity. Qed.
Example path_dirname_ex3 : Path.dirname "/a" = "/".
Proof. reflexivity. Qed.
Example path_resolve_ex1 : Path.resolve "/w" "clones/x/../y/" = "/w/clones/y".
Proof. reflexivity. Qed.
Example js_split_ex : Js.split "," "a.png 1x, b.png 2x" = ["a.png 1x"; " b.png 2x"].
Proof. reflexivity. Qed.
Example js_splitSpaces_ex : Js.splitSpaces (Js.trim "  b.png   2x ") = ["b.png"; "2x"].
Proof. reflexivity. Qed.
Example js_splitSpaces_nbsp :
  Js.splitSpaces (Js.trim ("a.png" +:+ Js.nbsp +:+ "2x")) = ["a.png"; "2x"].
Proof. reflexivity. Qed.
Example js_splitSpaces_mixed :
  Js.splitSpaces ("a" +:+ Js.lineSeparator +:+ " " +:+ Js.ideographicSpace +:+ "b")
  = ["a"; "b"].
Proof. reflexivity. Qed.
Example js_trim_unicode :
  Js.trim (Js.byteOrderMark +:+ Js.nbsp +:+ " a b" +:+ Js.ideographicSpace
           +:+ Js.lineSeparator)
  = "a b".
Proof. reflexivity. Qed.
(** The twenty-five characters of the class, and some of their
    neighbours that are not in it (among them U+0085, U+180E and
    U+200B). *)
Example js_white_space_class :
  forallb (fun bytes => String.eqb (Js.trim (Js.utf8 bytes +:+ "x" +:+ Js.utf8 bytes)) "x")
          [ [9]; [10]; [11]; [12]; [13]; [32]; [194; 160]; [225; 154; 128];
            [226; 128; 128]; [226; 128; 129]; [226; 128; 130]; [226; 128; 131];
            [226; 128; 132]; [226; 128; 133]; [226; 128; 134]; [226; 128; 135];
            [226; 128; 136]; [226; 128; 137]; [226; 128; 138]; [226; 128; 168];
            [226; 128; 169]; [226; 128; 175]; [226; 129; 159]; [227; 128; 128];
            [239; 187; 191] ] = true /\
  forallb (fun bytes =>
             String.eqb (Js.trim (Js.utf8 bytes +:+ "x" +:+ Js.utf8 bytes))
                        (Js.utf8 bytes +:+ "x" +:+ Js.utf8 bytes))
          [ [8]; [14]; [28]; [31]; [33]; [194; 133]; [194; 161]; [195; 160];
            [225; 160; 142]; [226; 128; 139]; [226; 128; 140]; [226; 128; 167];
            [226; 128; 170]; [226; 129; 160]; [227; 128; 129]; [239; 187; 190] ] = true.
Proof. split; vm_compute; reflexivity. Qed.
Example js_trim_keeps_text :
  Js.trim (Js.utf8 [195; 160] +:+ "x" +:+ Js.utf8 [226; 128; 160])
  = Js.utf8 [195; 160] +:+ "x" +:+ Js.utf8 [226; 128; 160].
Proof. reflexivity. Qed.

(** ** Attributes *)

Lemma attr_lookup_update_same name value l :
  attr_lookup name (attr_update name value l) = Some value.
Proof.
  induction l as [|[n v] l IH]; simpl.
  - rewrite String.eqb_refl. reflexivity.
  - destruct (String.eqb name n) eqn:Hn; simpl; rewrite Hn; auto.
Qed.

Lemma getAttr_setAttr_same el name value :
  getAttr (setAttr el name value) name = Some value.
Proof. apply attr_lookup_update_same. Qed.

Lemma truthy_nonempty s : Js.truthy s = true <-> s <> "".
Proof. destruct s; simpl; split; congruence. Qed.

(** ** Rewriting [srcset] (C8) *)

Lemma splitSpaces_aux_nonempty k b s : Js.splitSpaces_aux k b s <> [].
Proof.
  revert k b; induction s as [|c s IH]; intros k b; [destruct k; simpl; congruence|].
  cbn [Js.splitSpaces_aux]. destruct k as [|k]; [|apply IH].
  destruct (Js.spaceWidth (String c s)).
  - destruct (Js.splitSpaces_aux 0 false s); congruence.
  - destruct b; [apply IH | congruence].
Qed.

Lemma rewriteSrcsetPart_spec {E : Env} m base part u :
  newURL E (hd "" (Js.splitSpaces (Js.trim part))) (Some (href base)) = Returned u ->
  rewriteSrcsetPart m base part = Returned (spec_srcset_entry m base part).
Proof.
  unfold rewriteSrcsetPart, spec_srcset_entry, spec_localOf.
  destruct (Js.splitSpaces (Js.trim part)) as [|url descriptors] eqn:Ht.
  { exfalso. eapply splitSpaces_aux_nonempty. exact Ht. }
  simpl. intros ->. f_equal. f_equal. f_equal.
  unfold Js.or_else.
  destruct (Obj.get (href u) m) as [target|]; [|reflexivity].
  destruct (Js.truthy target); reflexivity.
Qed.

Lemma mapR_rewriteSrcsetPart {E : Env} m base parts :
  Forall (fun part =>
            exists u, newURL E (hd "" (Js.splitSpaces (Js.trim part))) (Some (href base))
                      = Returned u) parts ->
  mapR (rewriteSrcsetPart m base) parts = Returned (map (spec_srcset_entry m base) parts).
Proof.
  induction 1 as [|part parts [u Hu] _ IH]; simpl; [reflexivity|].
  rewrite (rewriteSrcsetPart_spec _ _ _ _ Hu), IH. reflexivity.
Qed.

(** C8: on a [srcset] value whose URL tokens all parse, the rewriter of the
    code computes what the specification describes (each entry cut at
    white space, the URL token replaced by its local path when it is
    mapped and kept otherwise, the descriptors kept), the attribute
    receives that value, and on ["a.png 1x, b.png 2x"] with only [a.png]
    mapped, to [assets/a.png], the result is ["assets/a.png 1x, b.png 2x"].
    White space is that of [trim] and of [\s]: a no-break space between
    the URL and its descriptor cuts the entry as a space does, and the
    result has one space there. *)
Theorem C8_srcset_round_trip {E : Env} (m : Obj.t) (base : URL) :
  (forall el value,
      getAttr el "srcset" = Some value -> Js.truthy value = true ->
      srcset_parses base value ->
      rewriteSrcset m base value = Returned (spec_srcset m base value) /\
      getAttr (mapAttrElement m base "srcset" el) "srcset"
        = Some (spec_srcset m base value)) /\
  (forall ua ub,
      newURL E "a.png" (Some (href base)) = Returned ua ->
      newURL E "b.png" (Some (href base)) = Returned ub ->
      Obj.get (href ua) m = Some "assets/a.png" ->
      Obj.get (href ub) m = None ->
      rewriteSrcset m base "a.png 1x, b.png 2x" = Returned "assets/a.png 1x, b.png 2x") /\
  (forall ua,
      newURL E "a.png" (Some (href base)) = Returned ua ->
      Obj.get (href ua) m = Some "assets/a.png" ->
      rewriteSrcset m base ("a.png" +:+ Js.nbsp +:+ "2x") = Returned "assets/a.png 2x" /\
      rewriteSrcset m base (Js.ideographicSpace +:+ "a.png" +:+ Js.lineSeparator +:+ " 1x"
                            +:+ Js.nbsp)
      = Returned "assets/a.png 1x").
Proof.
  split; [|split].
  - intros el value Hget Htruthy Hparse.
    assert (Hr : rewriteSrcset m base value = Returned (spec_srcset m base value)).
    { unfold rewriteSrcset, spec_srcset.
      rewrite (mapR_rewriteSrcsetPart m base _ Hparse). reflexivity. }
    split; [exact Hr|].
    unfold mapAttrElement. rewrite Hget, Htruthy. simpl. rewrite Hr.
    apply getAttr_setAttr_same.
  - intros ua ub Ha Hb Hma Hmb.
    unfold rewriteSrcset. simpl.
    unfold rewriteSrcsetPart. simpl.
    rewrite Ha, Hb, Hma, Hmb. reflexivity.
  - intros ua Ha Hma.
    assert (Htok1 : Js.splitSpaces (Js.trim ("a.png" +:+ Js.nbsp +:+ "2x")) = ["a.png"; "2x"])
      by reflexivity.
    assert (Htok2 : Js.splitSpaces
                      (Js.trim (Js.ideographicSpace +:+ "a.png" +:+ Js.lineSeparator +:+ " 1x"
                                +:+ Js.nbsp)) = ["a.png"; "1x"]) by reflexivity.
    assert (Hsplit1 : Js.split "," ("a.png" +:+ Js.nbsp +:+ "2x")
                      = ["a.png" +:+ Js.nbsp +:+ "2x"]) by reflexivity.
    assert (Hsplit2 : Js.split "," (Js.ideographicSpace +:+ "a.png" +:+ Js.lineSeparator
                                    +:+ " 1x" +:+ Js.nbsp)
                      = [Js.ideographicSpace +:+ "a.png" +:+ Js.lineSeparator +:+ " 1x"
                         +:+ Js.nbsp]) by reflexivity.
    unfold rewriteSrcset. rewrite Hsplit1, Hsplit2. cbn [mapR].
    unfold rewriteSrcsetPart. rewrite Htok1, Htok2. cbn [hd tl].
    rewrite Ha, Hma. split; reflexivity.
Qed.

Lemma C8_srcset_round_trip_witness :
  rewriteSrcset (E := SrcsetFixture.site) SrcsetFixture.m SrcsetFixture.base
                "a.png 1x, b.png 2x"
    = Returned "assets/a.png 1x, b.png 2x" /\
  getAttr (mapAttrElement (E := SrcsetFixture.site) SrcsetFixture.m SrcsetFixture.base
                          "srcset" SrcsetFixture.el) "srcset"
    = Some "assets/a.png 1x, b.png 2x".
Proof.
  destruct (C8_srcset_round_trip (E := SrcsetFixture.site)
              SrcsetFixture.m SrcsetFixture.base) as (Hgen & Hex & _).
  split.
  - eapply Hex; reflexivity.
  - refine (proj2 (Hgen SrcsetFixture.el "a.png 1x, b.png 2x" eq_refl eq_refl _)).
    repeat constructor; eexists; reflexivity.
Defined.

(** ** Rewriting single-valued attributes (C5) *)

(** C5, as stated, fails: a [script] element is neither an image nor a
    media element, its [src] resolves to a URL without a local copy, and
    the rewriter does not leave the value unchanged but puts the
    placeholder image reference there. *)
Lemma C5_counterexample_script_src :
  In (mkSelector "script" "src", "src") assetSelectors /\
  matches (mkSelector "script" "src") AttrFixture.script = true /\
  newURL AttrFixture.site "app.js" (Some (href AttrFixture.base))
    = Returned (Fixture.http "site.test" "/app.js") /\
  Obj.get "http://site.test/app.js" Obj.empty = None /\
  mapAttr (E := AttrFixture.site) Obj.empty AttrFixture.base
          (mkSelector "script" "src") "src" [AttrFixture.script]
    = [mkElement "script"
         [("src", "https://placehold.co/400x300/EEE/31343C?text=Failed+to+Load")]].
Proof. vm_compute. intuition. Qed.

(** C5, amended.  For an element and a single-valued attribute of the
    catalogue whose value resolves to the absolute URL [u]: when [u] has a
    local path the attribute receives it; otherwise, when the attribute is
    [src] (on any element of the catalogue, [script] included), [src]
    receives the placeholder sized from the element's [width] and
    [height], 400 and 300 by default; and when the attribute is neither
    [src] nor [poster] the element is left as it is. *)
Theorem C5_single_valued_attribute {E : Env} (m : Obj.t) (base : URL)
        (attr : string) (el : Element) (value : string) (u : URL) :
  attr <> "srcset" ->
  getAttr el attr = Some value ->
  Js.truthy value = true ->
  newURL E value (Some (href base)) = Returned u ->
  let el' := mapAttrElement m base attr el in
  (forall target,
      Obj.get (href u) m = Some target -> Js.truthy target = true ->
      el' = setAttr el attr target /\ getAttr el' attr = Some target) /\
  (Obj.has (href u) m = false ->
   (attr = "src" ->
    el' = setAttr el "src"
            (placeholder (Js.or_else (getAttr el "width") "400")
                         (Js.or_else (getAttr el "height") "300")) /\
    getAttr el' "src"
      = Some ("https://placehold.co/" +:+ Js.or_else (getAttr el "width") "400" +:+ "x"
                +:+ Js.or_else (getAttr el "height") "300"
                +:+ "/EEE/31343C?text=Failed+to+Load")) /\
   (attr <> "src" -> attr <> "poster" -> el' = el)).
Proof.
  intros Hattr Hget Htruthy Hurl el'. subst el'.
  unfold mapAttrElement. rewrite Hget, Htruthy. simpl.
  destruct (String.eqb attr "srcset") eqn:Hs; [apply String.eqb_eq in Hs; contradiction|].
  rewrite Hurl. split.
  - intros target Hm Ht. unfold Obj.has. rewrite Hm, Ht.
    unfold Js.or_else. rewrite Ht. split; [reflexivity|apply getAttr_setAttr_same].
  - intros Hhas. rewrite Hhas. split.
    + intros ->. simpl. split; [reflexivity|apply getAttr_setAttr_same].
    + intros Hsrc Hposter. simpl.
      destruct (String.eqb attr "src") eqn:H1; [apply String.eqb_eq in H1; contradiction|].
      destruct (String.eqb attr "poster") eqn:H2; [apply String.eqb_eq in H2; contradiction|].
      reflexivity.
Qed.

Lemma C5_single_valued_attribute_witness :
  getAttr (mapAttrElement (E := AttrFixture.site) AttrFixture.m AttrFixture.base
                          "src" AttrFixture.img) "src"
    = Some "assets/logo.png" /\
  getAttr (mapAttrElement (E := AttrFixture.site) Obj.empty AttrFixture.base
                          "src" AttrFixture.img) "src"
    = Some "https://placehold.co/400x80/EEE/31343C?text=Failed+to+Load".
Proof.
  split.
  - refine (proj2 (proj1 (C5_single_valued_attribute (E := AttrFixture.site)
              AttrFixture.m AttrFixture.base "src" AttrFixture.img "logo.png"
              (Fixture.http "site.test" "/logo.png") _ eq_refl eq_refl eq_refl)
              "assets/logo.png" eq_refl eq_refl)).
    discriminate.
  - refine (proj2 (proj1 (proj2 (C5_single_valued_attribute (E := AttrFixture.site)
              Obj.empty AttrFixture.base "src" AttrFixture.img "logo.png"
              (Fixture.http "site.test" "/logo.png") _ eq_refl eq_refl eq_refl)
              eq_refl) eq_refl)).
    discriminate.
Defined.

(** The [poster] branch writes the placeholder to [src], not to [poster]. *)
Example poster_placeholder_goes_to_src :
  mapAttrElement (E := AttrFixture.site) Obj.empty AttrFixture.base "poster"
                 (mkElement "video" [("src", "assets/film.mp4"); ("poster", "cover.jpg")])
  = mkElement "video"
      [("src", "https://placehold.co/400x300/EEE/31343C?text=Failed+to+Load");
       ("poster", "cover.jpg")].
Proof. reflexivity. Qed.

(** ** Unparseable references during discovery (C6) *)

(** C6 at a failing input.  The page has an image whose [srcset] holds an
    unparseable URL token: [new URL] throws outside any [try], discovery
    stops there and the exception leaves [cloneWebsite] before any asset
    is requested.  The same reference in a [src] attribute is reported on
    the console and the job completes. *)
Theorem C6_unparseable_srcset_token_aborts_job :
  (let '(r, s) := cloneWebsite (E := DiscoveryFixture.site_srcset) "http://site.test/"
                               (Fixture.start DiscoveryFixture.site_srcset []) in
   r = Thrown "Invalid URL" /\
   requests s = ["http://site.test/"] /\ writes s = [] /\ console s = []) /\
  (let '(r, s) := cloneWebsite (E := DiscoveryFixture.site_src) "http://site.test/"
                               (Fixture.start DiscoveryFixture.site_src []) in
   (exists man, r = Returned (CloneManifest man)) /\
   requests s = ["http://site.test/"; "http://site.test/ok.png"] /\
   console s = ["Invalid URL: http://[::1"]).
Proof.
  split; vm_compute; repeat split; eauto.
Qed.

(** ** Confinement of written files (C1) *)

(** C1 at a failing input.  The path computed for the URL resolves to a
    sibling of the output directory whose name begins with the name of the
    output directory; the check of line 53 compares strings, lets it
    through, and the file is written outside the output directory, both
    when [downloadAsset] is called alone and in a whole job. *)
Theorem C1_prefix_check_admits_sibling_directory :
  (let '(r, s) := downloadAsset (E := TraversalFixture.site) TraversalFixture.evil
                                TraversalFixture.assetsDir noHeaders
                                (Fixture.start TraversalFixture.site []) in
   r = Returned (Success TraversalFixture.outside "payload" TraversalFixture.evil) /\
   writes s = [(TraversalFixture.outside, "payload")]) /\
  within (Path.resolve "/work" TraversalFixture.assetsDir)
         (Path.resolve "/work" TraversalFixture.outside) = false /\
  (let '(r, s) := cloneWebsite (E := TraversalFixture.site) "http://site.test/"
                               (Fixture.start TraversalFixture.site []) in
   (exists man, r = Returned (CloneManifest man) /\ failedDownloads man = 0) /\
   In (TraversalFixture.outside, "payload") (writes s)).
Proof.
  split; [|split]; vm_compute; repeat split; eauto.
Qed.

(** ** The fetcher and the batch downloader (C4) *)

Lemma same_map_refl {E : Env} (s : State E) : same_map s s.
Proof. split; reflexivity. Qed.

Lemma same_map_trans {E : Env} (s1 s2 s3 : State E) :
  same_map s1 s2 -> same_map s2 s3 -> same_map s1 s3.
Proof. intros [H1 H2] [H3 H4]. split; congruence. Qed.

Section Fetcher.

Context {E : Env}.

(** [downloadAsset] never throws; it makes one request, leaves
    [urlToLocal] and the console alone, and writes one file exactly when
    it succeeds, at a path that passed the check of line 53. *)
Lemma downloadAsset_spec urlStr outBaseDir headers (s : State E) :
  exists r s',
    downloadAsset urlStr outBaseDir headers s = (Returned r, s') /\
    outcome_url r = urlStr /\
    requests s' = requests s ++ [urlStr] /\
    tick s' = S (tick s) /\
    urlToLocal s' = urlToLocal s /\
    assigned s' = assigned s /\
    console s' = console s /\
    match r with
    | Success outPath data _ =>
        Js.startsWith (Path.resolve (cwd E) outPath)
                      (Path.resolve (cwd E) outBaseDir) = true /\
        writes s' = writes s ++ [(outPath, data)]
    | Failure _ _ => writes s' = writes s
    end.
Proof.
  unfold downloadAsset, try_catch, bind, get, lift, mkdir, writeFile, throw, ret.
  simpl.
  destruct (axios_get E (tick s) urlStr headers) as [data|msg]; simpl;
    [|eexists _, _; repeat split; reflexivity].
  destruct (newURL E urlStr None) as [u|msg]; simpl;
    [|eexists _, _; repeat split; reflexivity].
  match goal with
  | |- context [Js.startsWith ?a ?b] => destruct (Js.startsWith a b) eqn:Hcheck
  end; simpl; [|eexists _, _; repeat split; reflexivity].
  match goal with
  | |- context [fs_mkdir E ?d ?p] => destruct (fs_mkdir E d p) as [d1|msg]
  end; simpl; [|eexists _, _; repeat split; reflexivity].
  match goal with
  | |- context [fs_writeFile E ?d ?p ?c] => destruct (fs_writeFile E d p c) as [d2|msg]
  end; simpl; eexists _, _; repeat split; try reflexivity.
  exact Hcheck.
Qed.

Lemma startDownload_returns urlStr assetsDir url (s : State E) :
  exists r s',
    startDownload urlStr assetsDir url s = (Returned r, s') /\ outcome_url r = url /\
    checked assetsDir r /\ same_map s s' /\ requests s' = requests s ++ [url].
Proof.
  unfold startDownload, bind, randomIndex.
  destruct (downloadAsset_spec url assetsDir
              (mkHeaders (nth_error USER_AGENTS (random_index E (tick s))) (Some urlStr)) s)
    as (r & s' & Hrun & Hurl & Hreq & _ & Hmap & Hasg & _ & Hr).
  exists r, s'. split; [exact Hrun|]. split; [exact Hurl|].
  split; [|split; [split; assumption | exact Hreq]].
  destruct r; simpl; [apply Hr | exact I].
Qed.

Lemma mapM_startDownload_returns urlStr assetsDir urls (s : State E) :
  exists rs s',
    mapM (startDownload urlStr assetsDir) urls s = (Returned rs, s') /\
    map outcome_url rs = urls /\
    Forall (checked assetsDir) rs /\ same_map s s' /\ requests s' = requests s ++ urls.
Proof.
  revert s; induction urls as [|url urls IH]; intros s; simpl.
  - exists [], s. rewrite app_nil_r. repeat split; constructor.
  - unfold bind.
    destruct (startDownload_returns urlStr assetsDir url s)
      as (r & s1 & -> & Hr & Hc & Hm & Hq).
    destruct (IH s1) as (rs & s2 & -> & Hrs & Hcs & Hms & Hqs).
    exists (r :: rs), s2. split; [reflexivity|]. split; [simpl; congruence|].
    split; [constructor; assumption|]. split; [eapply same_map_trans; eassumption|].
    rewrite Hqs, Hq, <- app_assoc. reflexivity.
Qed.

Lemma batchLoop_returns urlStr assetsDir assetUrls :
  forall n i downloadResults (s : State E),
    length assetUrls - i <= n ->
    exists rs s',
      batchLoop urlStr assetsDir assetUrls i downloadResults s
        = (Returned (downloadResults ++ rs), s') /\
      map outcome_url rs = skipn i assetUrls /\
      Forall (checked assetsDir) rs /\ same_map s s' /\
      requests s' = requests s ++ skipn i assetUrls.
Proof.
  induction n as [|n IH]; intros i acc s Hn.
  - rewrite batchLoop_equation_1. simpl.
    destruct (lt_dec i (length assetUrls)) as [Hlt|Hge]; [lia|].
    simpl. exists [], s. rewrite skipn_all2 by lia. rewrite !app_nil_r.
    repeat split; constructor.
  - rewrite batchLoop_equation_1. simpl.
    destruct (lt_dec i (length assetUrls)) as [Hlt|Hge]; simpl.
    + unfold bind at 1.
      destruct (mapM_startDownload_returns urlStr assetsDir
                  (firstn BATCH_SIZE (skipn i assetUrls)) s)
        as (rs1 & s1 & -> & Hrs1 & Hc1 & Hm1 & Hq1).
      unfold bind at 1, sleep, ret.
      destruct (IH (i + BATCH_SIZE) (acc ++ rs1) s1)
        as (rs2 & s2 & -> & Hrs2 & Hc2 & Hm2 & Hq2).
      { unfold BATCH_SIZE. lia. }
      assert (Hcut : firstn BATCH_SIZE (skipn i assetUrls) ++ skipn (i + BATCH_SIZE) assetUrls
                     = skipn i assetUrls).
      { rewrite Nat.add_comm, <- skipn_skipn. apply firstn_skipn. }
      exists (rs1 ++ rs2), s2. rewrite app_assoc. split; [reflexivity|].
      split; [rewrite map_app, Hrs1, Hrs2; exact Hcut|].
      split; [apply Forall_app; split; assumption|].
      split; [eapply same_map_trans; eassumption|].
      rewrite Hq2, Hq1, <- app_assoc, Hcut. reflexivity.
    + exists [], s. rewrite skipn_all2 by lia. rewrite !app_nil_r.
      repeat split; constructor.
Qed.

Lemma downloadAsset_attempt url outBaseDir headers (s : State E) :
  exists r ws s',
    downloadAsset url outBaseDir headers s = (Returned r, s') /\
    Attempt outBaseDir headers (tick s) (disk s) url r ws (disk s') /\
    writes s' = writes s ++ ws /\
    requests s' = requests s ++ [url] /\
    tick s' = S (tick s).
Proof.
  unfold downloadAsset, try_catch, bind, get, lift, mkdir, writeFile, throw, ret.
  simpl.
  destruct (axios_get E (tick s) url headers) as [data|msg] eqn:Hget; simpl.
  2:{ eexists _, [], _. split; [reflexivity|]. rewrite app_nil_r.
      repeat split. now apply attempt_unanswered. }
  destruct (newURL E url None) as [u|msg] eqn:Hu; simpl.
  2:{ eexists _, [], _. split; [reflexivity|]. rewrite app_nil_r.
      repeat split. now apply (attempt_unparsed _ _ _ _ _ data). }
  match goal with
  | |- context [Js.startsWith ?a ?b] => destruct (Js.startsWith a b) eqn:Hcheck
  end; simpl.
  2:{ eexists _, [], _. split; [reflexivity|]. rewrite app_nil_r.
      repeat split. apply (attempt_refused _ _ _ _ _ data u); assumption. }
  match goal with
  | |- context [fs_mkdir E ?d ?p] => destruct (fs_mkdir E d p) as [d1|msg] eqn:Hmk
  end; simpl.
  2:{ eexists _, [], _. split; [reflexivity|]. rewrite app_nil_r.
      repeat split. apply (attempt_no_directory _ _ _ _ _ data u); assumption. }
  match goal with
  | |- context [fs_writeFile E ?d ?p ?c] =>
      destruct (fs_writeFile E d p c) as [d2|msg] eqn:Hw
  end; simpl.
  - eexists _, [_], _. split; [reflexivity|]. repeat split.
    apply (attempt_stored _ _ _ _ _ data u d1 d2); assumption.
  - eexists _, [], _. split; [reflexivity|]. rewrite app_nil_r. repeat split.
    apply (attempt_not_written _ _ _ _ _ data u d1); assumption.
Qed.


Lemma startDownload_fetched urlStr assetsDir url (s : State E) :
  exists r ws s',
    startDownload urlStr assetsDir url s = (Returned r, s') /\
    Attempt assetsDir (batchHeaders urlStr (tick s)) (tick s) (disk s) url r ws (disk s') /\
    writes s' = writes s ++ ws /\ tick s' = S (tick s).
Proof.
  unfold startDownload, bind, randomIndex.
  destruct (downloadAsset_attempt url assetsDir (batchHeaders urlStr (tick s)) s)
    as (r & ws & s' & Hrun & Hatt & Hw & _ & Ht).
  exists r, ws, s'. auto.
Qed.

Lemma mapM_startDownload_fetched urlStr assetsDir urls : forall s : State E,
  exists rs ws s',
    mapM (startDownload urlStr assetsDir) urls s = (Returned rs, s') /\
    Fetched urlStr assetsDir (tick s) (disk s) urls rs ws (disk s') /\
    writes s' = writes s ++ ws /\ tick s' = length urls + tick s.
Proof.
  induction urls as [|url urls IH]; intros s; simpl.
  - exists [], [], s. rewrite app_nil_r. repeat split. constructor.
  - unfold bind.
    destruct (startDownload_fetched urlStr assetsDir url s)
      as (r & ws & s1 & -> & Hatt & Hw & Ht).
    destruct (IH s1) as (rs & ws' & s2 & -> & Hf & Hw' & Ht').
    exists (r :: rs), (ws ++ ws'), s2. split; [reflexivity|]. split; [|split].
    + econstructor; [exact Hatt|]. rewrite <- Ht. exact Hf.
    + rewrite Hw', Hw, app_assoc. reflexivity.
    + rewrite Ht', Ht. lia.
Qed.

Lemma Fetched_app urlStr assetsDir l1 : forall t (d : FS E) r1 w1 d1 l2 r2 w2 d2,
  Fetched urlStr assetsDir t d l1 r1 w1 d1 ->
  Fetched urlStr assetsDir (length l1 + t) d1 l2 r2 w2 d2 ->
  Fetched urlStr assetsDir t d (l1 ++ l2) (r1 ++ r2) (w1 ++ w2) d2.
Proof.
  induction l1 as [|url l1 IH]; intros t d r1 w1 d1 l2 r2 w2 d2 H1 H2.
  - inversion H1; subst. exact H2.
  - inversion H1; subst. simpl. rewrite <- app_assoc. econstructor; [eassumption|].
    eapply IH; [eassumption|]. replace (length l1 + S t) with (length (url :: l1) + t)
      by (simpl; lia). exact H2.
Qed.


Lemma batchLoop_fetched urlStr assetsDir assetUrls :
  forall n i downloadResults (s : State E),
    length assetUrls - i <= n ->
    exists rs ws s',
      batchLoop urlStr assetsDir assetUrls i downloadResults s
        = (Returned (downloadResults ++ rs), s') /\
      Fetched urlStr assetsDir (tick s) (disk s) (skipn i assetUrls) rs ws (disk s') /\
      writes s' = writes s ++ ws /\
      tick s' = length (skipn i assetUrls) + tick s.
Proof.
  induction n as [|n IH]; intros i acc s Hn.
  - rewrite batchLoop_equation_1. simpl.
    destruct (lt_dec i (length assetUrls)) as [Hlt|Hge]; [lia|].
    simpl. exists [], [], s. rewrite skipn_all2 by lia. rewrite !app_nil_r.
    repeat split. constructor.
  - rewrite batchLoop_equation_1. simpl.
    destruct (lt_dec i (length assetUrls)) as [Hlt|Hge]; simpl.
    + unfold bind at 1.
      destruct (mapM_startDownload_fetched urlStr assetsDir
                  (firstn BATCH_SIZE (skipn i assetUrls)) s)
        as (rs1 & ws1 & s1 & -> & Hf1 & Hw1 & Ht1).
      unfold bind at 1, sleep, ret.
      destruct (IH (i + BATCH_SIZE) (acc ++ rs1) s1)
        as (rs2 & ws2 & s2 & -> & Hf2 & Hw2 & Ht2).
      { unfold BATCH_SIZE. lia. }
      assert (Hcut : firstn BATCH_SIZE (skipn i assetUrls) ++ skipn (i + BATCH_SIZE) assetUrls
                     = skipn i assetUrls).
      { rewrite Nat.add_comm, <- skipn_skipn. apply firstn_skipn. }
      exists (rs1 ++ rs2), (ws1 ++ ws2), s2. rewrite app_assoc. split; [reflexivity|].
      split; [|split].
      * rewrite <- Hcut. eapply Fetched_app; [exact Hf1|]. rewrite <- Ht1. exact Hf2.
      * rewrite Hw2, Hw1, app_assoc. reflexivity.
      * pose proof (f_equal (@length _) Hcut) as Hlen. rewrite length_app in Hlen. lia.
    + exists [], [], s. rewrite skipn_all2 by lia. rewrite !app_nil_r.
      repeat split. constructor.
Qed.



End Fetcher.


(** ** Stylesheets: the pieces cut by [urlRegex] *)

Lemma app_empty_r (s : string) : s +:+ "" = s.
Proof. induction s; simpl; congruence. Qed.

Lemma app_assoc_s (a b c : string) : (a +:+ b) +:+ c = a +:+ (b +:+ c).
Proof. induction a; simpl; congruence. Qed.

Lemma length_app_s (a b : string) :
  String.length (a +:+ b) = String.length a + String.length b.
Proof. induction a; simpl; congruence. Qed.

Lemma sdrop_app (a b : string) : sdrop (String.length a) (a +:+ b) = b.
Proof. induction a; simpl; [destruct b|]; auto. Qed.

Lemma concat_empty_cons (x : string) (l : list string) :
  String.concat "" (x :: l) = x +:+ String.concat "" l.
Proof. destruct l; simpl; [rewrite app_empty_r|]; reflexivity. Qed.

Lemma span_ref_app s : forall run rest, span_ref s = (run, rest) -> s = run +:+ rest.
Proof.
  induction s as [|c s IH]; simpl; intros run rest H.
  - inversion H. reflexivity.
  - destruct (ref_char c).
    + destruct (span_ref s) as [run' rest'] eqn:Hs. inversion H; subst.
      simpl. f_equal. apply IH. reflexivity.
    + inversion H. reflexivity.
Qed.

Lemma matchBody_prefix pre s whole ref :
  matchBody pre s = Some (whole, ref) ->
  exists rest, "url(" +:+ pre +:+ s = whole +:+ rest.
Proof.
  unfold matchBody. destruct (span_ref s) as [run rest] eqn:Hspan.
  apply span_ref_app in Hspan. subst s.
  destruct (Js.truthy run); [|discriminate].
  destruct rest as [|c rest]; [discriminate|].
  destruct (Ascii.eqb c ")") eqn:Hc.
  - apply Ascii.eqb_eq in Hc. subst c. intros H. inversion H; subst. exists rest.
    simpl. rewrite !app_assoc_s. reflexivity.
  - destruct rest as [|c' rest]; [discriminate|].
    destruct (Ascii.eqb c' ")") eqn:Hc'; [|discriminate].
    apply Ascii.eqb_eq in Hc'. subst c'. intros H. inversion H; subst. exists rest.
    simpl. rewrite !app_assoc_s. reflexivity.
Qed.

Lemma matchUrlAt_prefix s whole ref :
  matchUrlAt s = Some (whole, ref) ->
  exists c rest0 rest, whole = String c rest0 /\ s = whole +:+ rest.
Proof.
  unfold matchUrlAt.
  destruct s as [|c1 s]; [discriminate|].
  destruct (Ascii.eqb c1 "u") eqn:H1;
    [apply Ascii.eqb_eq in H1; subst c1|
     intros H; exfalso; revert H;
     destruct c1 as [[] [] [] [] [] [] [] []]; try discriminate; simpl in H1; discriminate].
  destruct s as [|c2 s]; [discriminate|].
  destruct (Ascii.eqb c2 "r") eqn:H2;
    [apply Ascii.eqb_eq in H2; subst c2|
     intros H; exfalso; revert H;
     destruct c2 as [[] [] [] [] [] [] [] []]; try discriminate; simpl in H2; discriminate].
  destruct s as [|c3 s]; [discriminate|].
  destruct (Ascii.eqb c3 "l") eqn:H3;
    [apply Ascii.eqb_eq in H3; subst c3|
     intros H; exfalso; revert H;
     destruct c3 as [[] [] [] [] [] [] [] []]; try discriminate; simpl in H3; discriminate].
  destruct s as [|c4 s]; [discriminate|].
  destruct (Ascii.eqb c4 "(") eqn:H4;
    [apply Ascii.eqb_eq in H4; subst c4|
     intros H; exfalso; revert H;
     destruct c4 as [[] [] [] [] [] [] [] []]; try discriminate; simpl in H4; discriminate].
  assert (Hbody : forall pre t, matchBody pre t = Some (whole, ref) ->
            exists c rest0 rest, whole = String c rest0 /\
                                 "url(" +:+ pre +:+ t = whole +:+ rest).
  { intros pre t Hm. destruct (matchBody_prefix _ _ _ _ Hm) as [rest Hrest].
    destruct whole as [|c rest0]; [|eauto].
    unfold matchBody in Hm. destruct (span_ref t) as [run r].
    destruct (Js.truthy run); [|discriminate].
    destruct r as [|x r]; [discriminate|].
    destruct (Ascii.eqb x ")"); [discriminate|].
    destruct r as [|y r]; [discriminate|]. destruct (Ascii.eqb y ")"); discriminate. }
  destruct s as [|q s2]; [discriminate|].
  destruct (is_quote q).
  - destruct (matchBody (String q "") s2) as [[w r]|] eqn:Hq.
    + intros H. inversion H; subst. apply (Hbody (String q "") s2) in Hq.
      exact Hq.
    + intros H. apply (Hbody "" (String q s2)) in H. exact H.
  - intros H. apply (Hbody "" (String q s2)) in H. exact H.
Qed.

Lemma cssPieces_text : forall s k,
  k <= String.length s ->
  String.concat "" (map pieceText (cssPieces k s)) = sdrop k s.
Proof.
  induction s as [|c s IH]; intros k Hk.
  - destruct k; reflexivity.
  - destruct k as [|k]; cbn [cssPieces].
    + destruct (matchUrlAt (String c s)) as [[whole ref]|] eqn:Hm; cbn [map pieceText];
        rewrite concat_empty_cons.
      * destruct (matchUrlAt_prefix _ _ _ Hm) as (c0 & rest0 & rest & Hw & Hs).
        subst whole. simpl in Hs. inversion Hs; subst.
        rewrite IH by (rewrite length_app_s; simpl; lia).
        simpl. f_equal. rewrite Nat.sub_0_r. rewrite sdrop_app. reflexivity.
      * rewrite IH by lia. destruct s; reflexivity.
    + simpl in Hk. apply IH. lia.
Qed.

Lemma cssPieces_partition raw :
  String.concat "" (map pieceText (cssPieces 0 raw)) = raw.
Proof. rewrite cssPieces_text by lia. destruct raw; reflexivity. Qed.

(** ** The stylesheet resolver, one reference at a time *)

Lemma has_or_else o k :
  Js.truthy (Js.or_else (Obj.get k o) "") = Obj.has k o.
Proof.
  unfold Obj.has, Js.or_else. destruct (Obj.get k o) as [v|]; [|reflexivity].
  destruct (Js.truthy v) eqn:Hv; [exact Hv | reflexivity].
Qed.

Lemma cssFetchRef_spec {E : Env} outDir assetsDir originalUrl assetRef (s : State E) :
  exists s',
    cssFetchRef outDir assetsDir originalUrl assetRef s = (Returned tt, s') /\
    (isDataUri assetRef = true -> s' = s) /\
    FetchEffect outDir assetsDir originalUrl assetRef s s'.
Proof.
  unfold cssFetchRef. destruct (isDataUri assetRef) eqn:Hdata.
  { exists s. split; [reflexivity|]. split; [reflexivity|]. now apply fetch_skipped. }
  unfold try_catch, bind at 1, lift.
  destruct (newURL E assetRef (Some originalUrl)) as [u|msg] eqn:Hu.
  2:{ eexists. split; [reflexivity|]. split; [discriminate|]. now apply fetch_skipped. }
  unfold bind at 1, peek. rewrite has_or_else.
  destruct (Obj.has (href u) (urlToLocal s)) eqn:Hhas; simpl.
  { exists s. split; [reflexivity|]. split; [discriminate|]. now apply fetch_skipped. }
  unfold bind.
  destruct (downloadAsset_spec (href u) assetsDir noHeaders s)
    as (r & s1 & -> & _ & Hreq & _ & Hmap & Hasg & _ & Hr).
  destruct r as [outPath data url|url err].
  - destruct Hr as [Hcheck Hw]. eexists. split; [reflexivity|]. split; [discriminate|].
    eapply (fetch_stored _ _ _ _ _ _ u outPath data); simpl; try congruence; auto.
  - eexists. split; [reflexivity|]. split; [discriminate|].
    eapply (fetch_failed _ _ _ _ _ _ u); simpl; try congruence; auto.
Qed.

Lemma cssFetchLoop_returns {E : Env} outDir assetsDir originalUrl refs : forall s : State E,
  fst (forEach (cssFetchRef outDir assetsDir originalUrl) refs s) = Returned tt.
Proof.
  induction refs as [|ref refs IH]; intros s; [reflexivity|].
  cbn [forEach]. unfold bind.
  destruct (cssFetchRef_spec outDir assetsDir originalUrl ref s) as (s1 & -> & _).
  apply IH.
Qed.

Lemma cssReplacement_data {E : Env} m outDir cssFullPath originalUrl whole assetRef :
  isDataUri assetRef = true ->
  cssReplacement m outDir cssFullPath originalUrl whole assetRef = whole.
Proof. unfold cssReplacement. intros ->. reflexivity. Qed.

Lemma concat_empty_app (l1 l2 : list string) :
  String.concat "" (l1 ++ l2) = String.concat "" l1 +:+ String.concat "" l2.
Proof.
  induction l1 as [|x l1 IH].
  - reflexivity.
  - change ((x :: l1) ++ l2) with (x :: (l1 ++ l2)).
    rewrite !concat_empty_cons, IH, app_assoc_s. reflexivity.
Qed.

(** A capture of [urlRegex] that starts with [data:] is passed over:
    handling it in the fetch loop changes nothing at all, and its
    replacement is the matched text. *)
Lemma data_capture_passed_over {E : Env}
      (outDir assetsDir cssFullPath originalUrl assetRef : string) :
  isDataUri assetRef = true ->
  (forall s : State E,
      cssFetchRef outDir assetsDir originalUrl assetRef s = (Returned tt, s)) /\
  (forall m whole,
      cssReplacement m outDir cssFullPath originalUrl whole assetRef = whole).
Proof.
  intros Hdata. split.
  - intros s. destruct (cssFetchRef_spec outDir assetsDir originalUrl assetRef s)
      as (s' & Hrun & Hsame & _).
    rewrite Hrun, (Hsame Hdata). reflexivity.
  - intros m whole. now apply cssReplacement_data.
Qed.

(** C9 at failing inputs.  The stylesheet [DataFixture.svg] has one
    [url(...)], whose reference is a [data:] URI in double quotes that
    holds a [url(#g)] of its own.  The regex of line 163 cannot match the
    outer occurrence, since the quote inside the URI ends the run of the
    reference, and matches the inner one instead, with the capture [#g],
    which does not start with [data:].  So the job requests the URL that
    [#g] resolves to, adds it to [urlToLocal], and writes the stylesheet
    back with the text of the [data:] URI changed.  A [data:] URI that
    follows a space, or whose scheme is in capitals, is captured whole;
    the test of lines 168 and 185 does not know it, and it is requested,
    stored, added to [urlToLocal] and replaced by a path. *)
Theorem C9_data_uri_fetched_and_rewritten :
  cssRefs DataFixture.svg = ["#g"] /\
  (let '(r, s) := cloneWebsite (E := DataFixture.site) "http://site.test/"
                               (Fixture.start DataFixture.site []) in
   (exists man, r = Returned (CloneManifest man) /\ assetsCount man = 2) /\
   requests s = [ "http://site.test/"; "http://site.test/css/style.css";
                  "http://site.test/css/style.css#g" ] /\
   urlToLocal s = [ ("http://site.test/css/style.css", "assets/css/style.css");
                    ("http://site.test/css/style.css#g", "assets/css/style.css") ] /\
   In (DataFixture.cssFullPath, DataFixture.svgRewritten) (writes s) /\
   Obj.get DataFixture.cssFullPath (disk s) = Some DataFixture.svgRewritten) /\
  DataFixture.svgRewritten <> DataFixture.svg /\
  cssRefs DataFixture.spaced = [" data:,x"] /\
  cssRefs DataFixture.capitals = ["DATA:,x"] /\
  (let '(_, s) := processCss (E := DataFixture.site) DataFixture.outDir DataFixture.assetsDir
                             (DataFixture.originalUrl, "assets/css/style.css")
                             (DataFixture.downloaded DataFixture.spaced) in
   requests s = ["data:,x"] /\
   urlToLocal s = [ ("http://site.test/css/style.css", "assets/css/style.css");
                    ("data:,x", "assets/,x") ] /\
   writes s = [ ("/work/clones/site.test_1700000000000/assets/,x", "x");
                (DataFixture.cssFullPath, "b{background:url('../,x')}") ]) /\
  (let '(_, s) := processCss (E := DataFixture.site) DataFixture.outDir DataFixture.assetsDir
                             (DataFixture.originalUrl, "assets/css/style.css")
                             (DataFixture.downloaded DataFixture.capitals) in
   requests s = ["data:,x"] /\
   urlToLocal s = [ ("http://site.test/css/style.css", "assets/css/style.css");
                    ("data:,x", "assets/,x") ] /\
   writes s = [ ("/work/clones/site.test_1700000000000/assets/,x", "x");
                (DataFixture.cssFullPath, "c{background:url('../,x')}") ]).
Proof.
  split; [reflexivity|]. split.
  { vm_compute. repeat split; eauto. }
  split; [discriminate|]. split; [reflexivity|]. split; [reflexivity|].
  split; vm_compute; repeat split.
Qed.

(** ** Occurrences of [url(...)] *)

Lemma span_ref_stop s run c rest :
  span_ref s = (run, String c rest) -> ref_char c = false.
Proof.
  revert run. induction s as [|x s IH]; simpl; intros run H; [discriminate|].
  destruct (ref_char x) eqn:Hx.
  - destruct (span_ref s) as [run' rest'] eqn:Hs. injection H as <- ->.
    apply (IH run'). reflexivity.
  - injection H; intros; subst. exact Hx.
Qed.

Lemma span_ref_all s run rest : span_ref s = (run, rest) -> span_ref run = (run, "").
Proof.
  revert run rest. induction s as [|x s IH]; simpl; intros run rest H.
  - injection H as <- <-. reflexivity.
  - destruct (ref_char x) eqn:Hx.
    + destruct (span_ref s) as [run' rest'] eqn:Hs. injection H as <- <-.
      simpl. rewrite Hx, (IH run' rest' eq_refl). reflexivity.
    + injection H as <- <-. reflexivity.
Qed.

(** The run of a string that begins with the plain string [a]. *)
Lemma span_ref_plain_app a b :
  span_ref a = (a, "") ->
  span_ref (a +:+ b) = (a +:+ fst (span_ref b), snd (span_ref b)).
Proof.
  induction a as [|x a IH]; simpl; intros H.
  - destruct (span_ref b); reflexivity.
  - destruct (ref_char x) eqn:Hx; [|discriminate].
    destruct (span_ref a) as [run rest] eqn:Ha. injection H as -> ->.
    rewrite IH by reflexivity. reflexivity.
Qed.

Lemma span_ref_nonref c s : ref_char c = false -> span_ref (String c s) = ("", String c s).
Proof. intros H. simpl. rewrite H. reflexivity. Qed.

Lemma quote_not_ref q : is_quote q = true -> ref_char q = false.
Proof. unfold ref_char. intros ->. reflexivity. Qed.

Lemma nonref_cases c : ref_char c = false -> c = ")"%char \/ is_quote c = true.
Proof.
  unfold ref_char. destruct (is_quote c); [auto|]. simpl.
  destruct (Ascii.eqb c ")") eqn:H; [apply Ascii.eqb_eq in H; auto | discriminate].
Qed.

Lemma quote_opt_cases q :
  quote_opt q -> q = "" \/ exists c, is_quote c = true /\ q = String c "".
Proof.
  intros [->|[->| ->]];
    [left; reflexivity | right; exists squote; split; reflexivity
     | right; exists dquote; split; reflexivity].
Qed.

Lemma plain_head ref :
  plain ref -> exists c r, ref = String c r /\ ref_char c = true.
Proof.
  intros [Hne Hall]. destruct ref as [|c r]; [congruence|].
  exists c, r. split; [reflexivity|]. simpl in Hall.
  destruct (ref_char c); [reflexivity|discriminate].
Qed.

Lemma matchBody_intro pre ref post rest :
  plain ref -> quote_opt post ->
  matchBody pre (ref +:+ post +:+ ")" +:+ rest)
  = Some ("url(" +:+ pre +:+ ref +:+ post +:+ ")", ref).
Proof.
  intros [Hne Hall] Hpost. unfold matchBody.
  rewrite (span_ref_plain_app ref _ Hall).
  apply truthy_nonempty in Hne.
  destruct (quote_opt_cases post Hpost) as [->|(q & Hq & ->)].
  - simpl. rewrite app_empty_r, Hne. reflexivity.
  - change (String q "" +:+ ")" +:+ rest) with (String q (String ")" rest)).
    rewrite (span_ref_nonref q) by (now apply quote_not_ref).
    simpl fst. simpl snd. rewrite app_empty_r, Hne.
    destruct (Ascii.eqb q ")") eqn:Hp.
    + apply Ascii.eqb_eq in Hp. subst q. discriminate.
    + reflexivity.
Qed.

Lemma matchUrlAt_unfold s1 :
  matchUrlAt ("url(" +:+ s1)
  = match s1 with
    | String q s2 =>
        if is_quote q then
          match matchBody (String q "") s2 with
          | Some r => Some r
          | None => matchBody "" s1
          end
        else matchBody "" s1
    | EmptyString => None
    end.
Proof. reflexivity. Qed.

Lemma occurrence_app pre ref post rest :
  occurrence pre ref post +:+ rest = "url(" +:+ pre +:+ ref +:+ post +:+ ")" +:+ rest.
Proof. unfold occurrence. rewrite !app_assoc_s. reflexivity. Qed.

Lemma matchUrlAt_intro pre ref post rest :
  quote_opt pre -> plain ref -> quote_opt post ->
  matchUrlAt (occurrence pre ref post +:+ rest) = Some (occurrence pre ref post, ref).
Proof.
  intros Hpre Href Hpost. rewrite occurrence_app, matchUrlAt_unfold. unfold occurrence.
  destruct (quote_opt_cases pre Hpre) as [->|(q & Hq & ->)].
  - change ("" +:+ ref +:+ post +:+ ")" +:+ rest) with (ref +:+ post +:+ ")" +:+ rest).
    rewrite (matchBody_intro "" ref post rest Href Hpost).
    destruct (plain_head ref Href) as (c & r & -> & Hrc).
    change (String c r +:+ post +:+ ")" +:+ rest) with (String c (r +:+ post +:+ ")" +:+ rest)).
    cbv iota.
    assert (Hnq : is_quote c = false).
    { unfold ref_char in Hrc. destruct (is_quote c); [discriminate|reflexivity]. }
    rewrite Hnq. reflexivity.
  - change (String q "" +:+ ref +:+ post +:+ ")" +:+ rest)
      with (String q (ref +:+ post +:+ ")" +:+ rest)).
    cbv iota. rewrite Hq.
    rewrite (matchBody_intro (String q "") ref post rest Href Hpost). reflexivity.
Qed.

Lemma matchBody_inv pre s whole ref :
  matchBody pre s = Some (whole, ref) ->
  exists post rest,
    plain ref /\ quote_opt post /\
    s = ref +:+ post +:+ ")" +:+ rest /\
    whole = "url(" +:+ pre +:+ ref +:+ post +:+ ")".
Proof.
  unfold matchBody. destruct (span_ref s) as [run rest] eqn:Hspan.
  pose proof (span_ref_app s run rest Hspan) as Hs.
  pose proof (span_ref_all s run rest Hspan) as Hall.
  destruct (Js.truthy run) eqn:Hrun; [|discriminate].
  apply truthy_nonempty in Hrun.
  destruct rest as [|c rest]; [discriminate|].
  pose proof (span_ref_stop _ _ _ _ Hspan) as Hc.
  destruct (Ascii.eqb c ")") eqn:Hp.
  - apply Ascii.eqb_eq in Hp. subst c. intros H. injection H as <- <-.
    exists "", rest. split; [split; assumption|]. split; [left; reflexivity|].
    split; [exact Hs | reflexivity].
  - destruct rest as [|c' rest]; [discriminate|].
    destruct (Ascii.eqb c' ")") eqn:Hp'; [|discriminate].
    apply Ascii.eqb_eq in Hp'. subst c'. intros H. injection H as <- <-.
    exists (String c ""), rest. split; [split; assumption|]. split.
    + destruct (nonref_cases c Hc) as [->|Hq]; [discriminate|].
      unfold is_quote in Hq. apply orb_true_iff in Hq as [Hq|Hq];
        apply Ascii.eqb_eq in Hq; subst c; [right; left|right; right]; reflexivity.
    + split; [exact Hs | reflexivity].
Qed.

Lemma matchUrlAt_some_prefix s r : matchUrlAt s = Some r -> exists s1, s = "url(" +:+ s1.
Proof.
  unfold matchUrlAt. intros H.
  destruct s as [|c1 s]; [discriminate|].
  destruct (Ascii.ascii_dec c1 "u") as [->|H1];
    [|exfalso; destruct c1 as [[] [] [] [] [] [] [] []]; try discriminate; congruence].
  destruct s as [|c2 s]; [discriminate|].
  destruct (Ascii.ascii_dec c2 "r") as [->|H2];
    [|exfalso; destruct c2 as [[] [] [] [] [] [] [] []]; try discriminate; congruence].
  destruct s as [|c3 s]; [discriminate|].
  destruct (Ascii.ascii_dec c3 "l") as [->|H3];
    [|exfalso; destruct c3 as [[] [] [] [] [] [] [] []]; try discriminate; congruence].
  destruct s as [|c4 s]; [discriminate|].
  destruct (Ascii.ascii_dec c4 "(") as [->|H4];
    [|exfalso; destruct c4 as [[] [] [] [] [] [] [] []]; try discriminate; congruence].
  exists s. reflexivity.
Qed.

Lemma is_quote_opt q : is_quote q = true -> quote_opt (String q "").
Proof.
  unfold is_quote. intros H. apply orb_true_iff in H as [H|H];
    apply Ascii.eqb_eq in H; subst q; [right; left | right; right]; reflexivity.
Qed.

Lemma matchUrlAt_inv s whole ref :
  matchUrlAt s = Some (whole, ref) ->
  exists pre post rest,
    quote_opt pre /\ quote_opt post /\ plain ref /\
    whole = occurrence pre ref post /\ s = whole +:+ rest.
Proof.
  intros H. destruct (matchUrlAt_some_prefix _ _ H) as [s1 ->].
  rewrite matchUrlAt_unfold in H.
  assert (Hbody : forall pre t,
             quote_opt pre -> matchBody pre t = Some (whole, ref) ->
             exists post rest,
               quote_opt pre /\ quote_opt post /\ plain ref /\
               whole = occurrence pre ref post /\
               "url(" +:+ pre +:+ t = whole +:+ rest).
  { intros pre t Hpre Hm.
    destruct (matchBody_inv _ _ _ _ Hm) as (post & rest & Href & Hpost & -> & ->).
    exists post, rest. repeat (split; [assumption|]). split; [reflexivity|].
    symmetry. apply (occurrence_app pre ref post rest). }
  destruct s1 as [|q s2]; [discriminate|].
  destruct (is_quote q) eqn:Hq.
  - destruct (matchBody (String q "") s2) as [r|] eqn:Hm.
    + injection H as ->.
      destruct (Hbody (String q "") s2 (is_quote_opt q Hq) Hm)
        as (post & rest & H1 & H2 & H3 & H4 & H5).
      exists (String q ""), post, rest. repeat (split; [assumption|]). exact H5.
    + destruct (Hbody "" (String q s2) (or_introl eq_refl) H)
        as (post & rest & H1 & H2 & H3 & H4 & H5).
      exists "", post, rest. repeat (split; [assumption|]). exact H5.
  - destruct (Hbody "" (String q s2) (or_introl eq_refl) H)
      as (post & rest & H1 & H2 & H3 & H4 & H5).
    exists "", post, rest. repeat (split; [assumption|]). exact H5.
Qed.

(** *** Cutting a stylesheet, one piece at a time *)

Lemma cssPieces_skip a b : cssPieces (String.length a) (a +:+ b) = cssPieces 0 b.
Proof. induction a as [|c a IH]; simpl; [reflexivity | exact IH]. Qed.

Lemma cssPieces_match whole ref rest :
  matchUrlAt (whole +:+ rest) = Some (whole, ref) ->
  cssPieces 0 (whole +:+ rest) = UrlRef whole ref :: cssPieces 0 rest.
Proof.
  intros H. destruct (matchUrlAt_prefix _ _ _ H) as (c & w0 & _ & -> & _).
  change (String c w0 +:+ rest) with (String c (w0 +:+ rest)) in *.
  cbn [cssPieces]. rewrite H. f_equal.
  replace (String.length (String c w0) - 1) with (String.length w0) by (simpl; lia).
  apply cssPieces_skip.
Qed.

Lemma cssPieces_chr c s :
  matchUrlAt (String c s) = None ->
  cssPieces 0 (String c s) = Chr c :: cssPieces 0 s.
Proof. intros H. cbn [cssPieces]. rewrite H. reflexivity. Qed.

(** *** Scanning a rewritten stylesheet *)

Lemma runb_head t :
  runb t = match t with String c _ => ref_char c | EmptyString => false end.
Proof.
  unfold runb. destruct t as [|c t]; [reflexivity|]. simpl.
  destruct (ref_char c); [|reflexivity]. destruct (span_ref t); reflexivity.
Qed.

Lemma matchBody_none_iff pre t : matchBody pre t = None <-> runb t && closesb t = false.
Proof.
  unfold matchBody, runb, closesb. destruct (span_ref t) as [run rest]. simpl.
  destruct (Js.truthy run); simpl; [|tauto].
  destruct rest as [|c rest]; [tauto|].
  destruct (Ascii.eqb c ")"); simpl; [split; intros H; discriminate H|].
  destruct rest as [|c' rest]; simpl; [tauto|].
  destruct (Ascii.eqb c' ")"); simpl; [split; intros H; discriminate H | tauto].
Qed.

Lemma closesb_ref c t : ref_char c = true -> closesb (String c t) = closesb t.
Proof.
  intros H. unfold closesb. simpl. rewrite H. destruct (span_ref t); reflexivity.
Qed.

Lemma closesb_nonref c t :
  ref_char c = false ->
  closesb (String c t)
  = Ascii.eqb c ")" || match shead t with Some c' => Ascii.eqb c' ")" | None => false end.
Proof.
  intros H. unfold closesb. simpl. rewrite H. simpl.
  destruct (Ascii.eqb c ")"); [reflexivity|]. destruct t; reflexivity.
Qed.

Lemma closesb_plain_app a b : span_ref a = (a, "") -> closesb (a +:+ b) = closesb b.
Proof.
  intros H. unfold closesb. rewrite (span_ref_plain_app a b H). reflexivity.
Qed.

Lemma closesb_url t : closesb ("url(" +:+ t) = closesb t.
Proof. apply (closesb_plain_app "url(" t). reflexivity. Qed.

Lemma closesb_occurrence_bare ref post rest :
  plain ref -> quote_opt post -> closesb (occurrence "" ref post +:+ rest) = true.
Proof.
  intros [_ Hall] Hpost. rewrite occurrence_app, closesb_url.
  change ("" +:+ ref +:+ post +:+ ")" +:+ rest) with (ref +:+ post +:+ ")" +:+ rest).
  rewrite (closesb_plain_app ref _ Hall).
  destruct (quote_opt_cases post Hpost) as [->|(q & Hq & ->)].
  - reflexivity.
  - change (String q "" +:+ ")" +:+ rest) with (String q (String ")" rest)).
    rewrite closesb_nonref by (now apply quote_not_ref). simpl. apply orb_true_r.
Qed.

Lemma closesb_occurrence_quoted q ref post rest :
  is_quote q = true -> plain ref ->
  closesb (occurrence (String q "") ref post +:+ rest) = false.
Proof.
  intros Hq Href. rewrite occurrence_app, closesb_url.
  change (String q "" +:+ ref +:+ post +:+ ")" +:+ rest)
    with (String q (ref +:+ post +:+ ")" +:+ rest)).
  rewrite closesb_nonref by (now apply quote_not_ref).
  destruct (plain_head ref Href) as (c & r & -> & Hc).
  change (shead (String c r +:+ post +:+ ")" +:+ rest)) with (Some c).
  unfold is_quote in Hq. unfold ref_char, is_quote in Hc.
  destruct (Ascii.eqb q ")") eqn:Hqp.
  - apply Ascii.eqb_eq in Hqp. subst q. discriminate.
  - destruct (Ascii.eqb c ")"); [|reflexivity].
    rewrite orb_true_r in Hc. discriminate.
Qed.

Section Rescan.

Variable settled : string -> string -> Prop.

Lemma Rewritten_head s s' : Rewritten settled s s' -> shead s = shead s'.
Proof.
  destruct 1; [reflexivity | reflexivity |].
  rewrite !occurrence_app. reflexivity.
Qed.

Lemma Rewritten_cons_inv t x t0' :
  Rewritten settled t (String x t0') -> x <> "u"%char ->
  exists t0, t = String x t0 /\ Rewritten settled t0 t0'.
Proof.
  intros H Hx. inversion H as [|c s s' Hm Hr|pre ref post pre' ref' post' rest rest'];
    subst.
  - eauto.
  - exfalso. apply Hx. reflexivity.
Qed.

Lemma Rewritten_closesb s s' :
  Rewritten settled s s' -> closesb s' = true -> closesb s = true.
Proof.
  induction 1 as [|c t t' Hm Hr IH
                  |pre ref post pre' ref' post' rest rest' Hpre Href Hpost
                     Hpre' Href' Hpost' Hbare _ _ _]; intros Hc.
  - exact Hc.
  - destruct (ref_char c) eqn:Hrc.
    + rewrite closesb_ref in * by exact Hrc. auto.
    + rewrite closesb_nonref in * by exact Hrc.
      rewrite (Rewritten_head _ _ Hr). exact Hc.
  - destruct (quote_opt_cases pre' Hpre') as [->|(q & Hq & ->)].
    + rewrite (Hbare eq_refl). now apply closesb_occurrence_bare.
    + rewrite closesb_occurrence_quoted in Hc by assumption. discriminate.
Qed.

Lemma Rewritten_body pre pre' t t' :
  Rewritten settled t t' -> matchBody pre t = None -> matchBody pre' t' = None.
Proof.
  intros Hr. rewrite !matchBody_none_iff, !runb_head.
  pose proof (Rewritten_head _ _ Hr) as Hh.
  pose proof (Rewritten_closesb _ _ Hr) as Hc.
  destruct t as [|c t0], t' as [|c' t0']; simpl in Hh; try discriminate; [tauto|].
  injection Hh as <-. destruct (ref_char c); simpl; [|tauto].
  destruct (closesb (String c t0')); [|tauto]. intros H. rewrite Hc in H; auto.
Qed.

(** A position of the stylesheet where the regex did not match does not
    match after the rewriting either. *)
Lemma Rewritten_no_match s s' :
  Rewritten settled s s' -> matchUrlAt s = None -> matchUrlAt s' = None.
Proof.
  intros Hr Hnone. destruct (matchUrlAt s') as [r|] eqn:Hsome; [exfalso|reflexivity].
  destruct (matchUrlAt_some_prefix _ _ Hsome) as [t4' ->].
  inversion Hr as [|c t t' Hm Hr1|pre ref post pre' ref' post' rest rest'
                     Hpre Href Hpost]; subst.
  2:{ rewrite (matchUrlAt_intro pre ref post rest Hpre Href Hpost) in Hnone. discriminate. }
  destruct (Rewritten_cons_inv _ _ _ Hr1) as (t1 & -> & Hr2); [discriminate|].
  destruct (Rewritten_cons_inv _ _ _ Hr2) as (t2 & -> & Hr3); [discriminate|].
  destruct (Rewritten_cons_inv _ _ _ Hr3) as (t4 & -> & Hr4); [discriminate|].
  change (String "u" (String "r" (String "l" (String "(" t4)))) with ("url(" +:+ t4) in Hnone.
  rewrite matchUrlAt_unfold in Hnone, Hsome.
  destruct t4' as [|q t5']; [discriminate|].
  destruct (is_quote q) eqn:Hq.
  - destruct (Rewritten_cons_inv _ _ _ Hr4) as (t5 & -> & Hr5).
    { intros ->. discriminate. }
    rewrite Hq in Hnone.
    destruct (matchBody (String q "") t5) as [r0|] eqn:Hb; [discriminate|].
    rewrite (Rewritten_body _ (String q "") _ _ Hr5 Hb) in Hsome.
    assert (Hno : matchBody "" (String q t5') = None).
    { apply matchBody_none_iff. rewrite runb_head, (quote_not_ref q Hq). reflexivity. }
    congruence.
  - pose proof (Rewritten_head _ _ Hr4) as Hh.
    destruct t4 as [|q0 t5]; [discriminate|]. injection Hh as ->.
    rewrite Hq in Hnone.
    rewrite (Rewritten_body _ "" _ _ Hr4 Hnone) in Hsome. discriminate.
Qed.

End Rescan.

(** *** The rewriting, applied twice *)

Section Idempotence.

Context {E : Env}.
Variables (m : Obj.t) (outDir cssFullPath originalUrl : string).

Let rewrite := cssRewrite m outDir cssFullPath originalUrl.
Let replacement := cssReplacement m outDir cssFullPath originalUrl.

Lemma cssRewrite_chr c s :
  matchUrlAt (String c s) = None -> rewrite (String c s) = String c (rewrite s).
Proof.
  intros H. unfold rewrite, cssRewrite. rewrite (cssPieces_chr c s H).
  rewrite map_cons, concat_empty_cons. reflexivity.
Qed.

Lemma cssRewrite_match whole ref rest :
  matchUrlAt (whole +:+ rest) = Some (whole, ref) ->
  rewrite (whole +:+ rest) = replacement whole ref +:+ rewrite rest.
Proof.
  intros H. unfold rewrite, cssRewrite. rewrite (cssPieces_match whole ref rest H).
  rewrite map_cons, concat_empty_cons. reflexivity.
Qed.

Lemma cssReplacement_cases whole ref :
  replacement whole ref = whole \/
  exists u target,
    isDataUri ref = false /\ newURL E ref (Some originalUrl) = Returned u /\
    Obj.get (href u) m = Some target /\ Js.truthy target = true /\
    replacement whole ref = localReference outDir cssFullPath target.
Proof.
  unfold replacement, cssReplacement.
  destruct (isDataUri ref) eqn:Hd; [left; reflexivity|].
  destruct (newURL E ref (Some originalUrl)) as [u|msg] eqn:Hu; [|left; reflexivity].
  destruct (Obj.get (href u) m) as [target|] eqn:Hm; [|left; reflexivity].
  destruct (Js.truthy target) eqn:Ht; [|left; reflexivity].
  right. exists u, target. repeat split; auto.
Qed.

Lemma localReference_occurrence target :
  localReference outDir cssFullPath target
  = occurrence (String squote "") (localPath outDir cssFullPath target) (String squote "").
Proof. reflexivity. Qed.

(** A stylesheet that was rewritten is left as it is by the rewriting. *)
Lemma Rewritten_fixed s s' :
  Rewritten (fun whole ref => replacement whole ref = whole) s s' -> rewrite s' = s'.
Proof.
  induction 1 as [|c t t' Hm Hr IH
                  |pre ref post pre' ref' post' rest rest' Hpre Href Hpost
                     Hpre' Href' Hpost' Hbare Hsettled Hr IH].
  - reflexivity.
  - rewrite cssRewrite_chr, IH; [reflexivity|].
    eapply Rewritten_no_match; [apply rw_chr; eassumption | exact Hm].
  - rewrite (cssRewrite_match _ ref' rest'), Hsettled, IH; [reflexivity|].
    now apply matchUrlAt_intro.
Qed.

Lemma cssRefs_chr c s :
  matchUrlAt (String c s) = None -> cssRefs (String c s) = cssRefs s.
Proof. intros H. unfold cssRefs. rewrite (cssPieces_chr c s H). reflexivity. Qed.

Lemma cssRefs_match whole ref rest :
  matchUrlAt (whole +:+ rest) = Some (whole, ref) ->
  cssRefs (whole +:+ rest) = ref :: cssRefs rest.
Proof. intros H. unfold cssRefs. rewrite (cssPieces_match whole ref rest H). reflexivity. Qed.

(** What the rewriter writes for a mirrored reference is left as it is
    by the rewriter. *)
Lemma mirrored_settled ref u target :
  mirrored m outDir cssFullPath originalUrl ref ->
  isDataUri ref = false ->
  newURL E ref (Some originalUrl) = Returned u ->
  Obj.get (href u) m = Some target ->
  Js.truthy target = true ->
  plain (localPath outDir cssFullPath target) /\
  replacement (localReference outDir cssFullPath target)
              (localPath outDir cssFullPath target)
  = localReference outDir cssFullPath target.
Proof.
  intros Hmir Hd Hu Hget Ht. destruct (Hmir u target Hd Hu Hget Ht) as [Hplain Hback].
  split; [exact Hplain|]. unfold replacement, cssReplacement.
  destruct (isDataUri (localPath outDir cssFullPath target)); [reflexivity|].
  destruct (newURL E (localPath outDir cssFullPath target) (Some originalUrl))
    as [u'|msg] eqn:Hu'; [|reflexivity].
  destruct (Hback u' eq_refl) as [Hsame|Hnone].
  - rewrite Hsame, Hget, Ht. reflexivity.
  - unfold Obj.has in Hnone. destruct (Obj.get (href u') m) as [target'|]; [|reflexivity].
    rewrite Hnone. reflexivity.
Qed.

Lemma cssRewrite_Rewritten : forall n raw,
  String.length raw <= n ->
  Forall (mirrored m outDir cssFullPath originalUrl) (cssRefs raw) ->
  Rewritten (fun whole ref => replacement whole ref = whole) raw (rewrite raw).
Proof.
  induction n as [|n IH]; intros raw Hlen Hall.
  { destruct raw; [apply rw_nil | simpl in Hlen; lia]. }
  destruct (matchUrlAt raw) as [[whole ref]|] eqn:Hm.
  - destruct (matchUrlAt_inv _ _ _ Hm) as (pre & post & rest & Hpre & Hpost & Href & Hw & ->).
    rewrite (cssRefs_match whole ref rest Hm) in Hall.
    inversion Hall as [|? ? Hpiece Hrest]; subst.
    rewrite (cssRewrite_match _ ref rest Hm).
    assert (Hlen' : String.length rest <= n).
    { rewrite occurrence_app, !length_app_s in Hlen. simpl in Hlen. lia. }
    specialize (IH rest Hlen' Hrest).
    destruct (cssReplacement_cases (occurrence pre ref post) ref)
      as [Hsame|(u & target & Hd & Hu & Hget & Ht & Hnew)].
    + rewrite Hsame. apply rw_ref; auto.
    + rewrite Hnew, localReference_occurrence.
      destruct (mirrored_settled ref u target Hpiece Hd Hu Hget Ht) as [Hplain Hfix].
      apply rw_ref; auto.
      * right; left; reflexivity.
      * right; left; reflexivity.
      * discriminate.
  - destruct raw as [|c s]; [apply rw_nil|].
    rewrite (cssRefs_chr c s Hm) in Hall.
    rewrite (cssRewrite_chr c s Hm). apply rw_chr; [exact Hm|].
    apply IH; [simpl in Hlen; lia | exact Hall].
Qed.

Lemma cssRewrite_idempotent raw :
  Forall (mirrored m outDir cssFullPath originalUrl) (cssRefs raw) ->
  rewrite (rewrite raw) = rewrite raw.
Proof.
  intros Hall. apply (Rewritten_fixed raw).
  apply (cssRewrite_Rewritten (String.length raw)); [lia | exact Hall].
Qed.

(** What a pass does to one occurrence whose reference has a local file. *)
Lemma cssRewrite_occurrence raw pre whole assetRef post u target :
  cssPieces 0 raw = pre ++ UrlRef whole assetRef :: post ->
  isDataUri assetRef = false ->
  newURL E assetRef (Some originalUrl) = Returned u ->
  Obj.get (href u) m = Some target ->
  Js.truthy target = true ->
  rewrite raw
  = String.concat "" (map (renderPiece m outDir cssFullPath originalUrl) pre)
    +:+ localReference outDir cssFullPath target
    +:+ String.concat "" (map (renderPiece m outDir cssFullPath originalUrl) post).
Proof.
  intros Hpieces Hd Hu Hget Ht. unfold rewrite, cssRewrite.
  rewrite Hpieces, map_app, concat_empty_app, map_cons, concat_empty_cons.
  simpl renderPiece. unfold cssReplacement. rewrite Hd, Hu, Hget, Ht. reflexivity.
Qed.

End Idempotence.

(** ** Rewriting a stylesheet (C7) *)

(** C7, as stated, fails.  The one [url()] of the stylesheet names, from
    the directory where the stylesheet lies on disk, a file that exists,
    the local copy of the URL that the reference resolves to.  The
    rewriter writes the reference in single quotes all the same, so the
    text changes and the stylesheet is written back. *)
Lemma C7_counterexample_unquoted_local_reference :
  cssRefs CssFixture.original = ["../img/bg.png"] /\
  newURL CssFixture.site "../img/bg.png" (Some CssFixture.originalUrl)
    = Returned (Fixture.http "site.test" "/img/bg.png") /\
  Obj.get "http://site.test/img/bg.png" (urlToLocal CssFixture.fetched)
    = Some "assets/img/bg.png" /\
  Path.join (Path.dirname CssFixture.cssFullPath) "../img/bg.png"
    = Path.join CssFixture.outDir "assets/img/bg.png" /\
  fs_readFile CssFixture.site (disk CssFixture.fetched)
              (Path.join (Path.dirname CssFixture.cssFullPath) "../img/bg.png")
    = Returned "PNG" /\
  cssRewrite (E := CssFixture.site) (urlToLocal CssFixture.fetched) CssFixture.outDir
             CssFixture.cssFullPath CssFixture.originalUrl CssFixture.original
    = CssFixture.rewritten /\
  CssFixture.rewritten <> CssFixture.original /\
  (let '(r, s) := cssRewriteStep CssFixture.outDir CssFixture.cssFullPath
                                 CssFixture.originalUrl CssFixture.original
                                 CssFixture.fetched in
   r = Returned tt /\
   writes s = [(CssFixture.cssFullPath, CssFixture.rewritten)] /\
   Obj.get CssFixture.cssFullPath (disk s) = Some CssFixture.rewritten).
Proof. vm_compute. repeat split; discriminate. Qed.

(** C7, amended.  A pass of the rewriter writes every occurrence whose
    reference resolves to a URL with a local file as the reference to
    that file in single quotes, whatever the occurrence looked like, and
    so it may change a stylesheet whose references already name the local
    files.  On its own output it is idempotent: when the references of
    the stylesheet and their local files mirror each other (the path
    written for a reference is not empty, holds no quote and no closing
    parenthesis and, resolved against the URL of the stylesheet, gives
    the URL of the reference again or one without a local file),
    rewriting the rewritten text gives the same text again, and a second
    run of the step, on the rewritten text and in the state the first run
    left, changes nothing, the disk included.  For any stylesheet, when
    the rewritten text equals the text read the step changes nothing, and
    otherwise the one file it may write is the stylesheet, with the
    rewritten text; so in the job, once the references of a stylesheet
    have been fetched, the stylesheet is either left as it was read or
    written once, with the rewritten text. *)
Theorem C7_css_rewrite_idempotent_and_gated {E : Env}
        (outDir cssFullPath originalUrl raw : string) (s : State E) :
  let rewrite := cssRewrite (urlToLocal s) outDir cssFullPath originalUrl in
  let render := renderPiece (urlToLocal s) outDir cssFullPath originalUrl in
  (forall pre whole assetRef post u target,
      cssPieces 0 raw = pre ++ UrlRef whole assetRef :: post ->
      isDataUri assetRef = false ->
      newURL E assetRef (Some originalUrl) = Returned u ->
      Obj.get (href u) (urlToLocal s) = Some target ->
      Js.truthy target = true ->
      rewrite raw
      = String.concat "" (map render pre)
        +:+ localReference outDir cssFullPath target
        +:+ String.concat "" (map render post)) /\
  (Forall (mirrored (urlToLocal s) outDir cssFullPath originalUrl) (cssRefs raw) ->
   rewrite (rewrite raw) = rewrite raw /\
   forall r s1,
     cssRewriteStep outDir cssFullPath originalUrl raw s = (r, s1) ->
     cssRewriteStep outDir cssFullPath originalUrl (rewrite raw) s1 = (Returned tt, s1)) /\
  (rewrite raw = raw ->
   cssRewriteStep outDir cssFullPath originalUrl raw s = (Returned tt, s)) /\
  (rewrite raw <> raw ->
   cssRewriteStep outDir cssFullPath originalUrl raw s
   = writeFile cssFullPath (rewrite raw) s) /\
  (forall r s',
      cssRewriteStep outDir cssFullPath originalUrl raw s = (r, s') ->
      writes s' <> writes s ->
      rewrite raw <> raw /\
      writes s' = writes s ++ [(cssFullPath, rewrite raw)]) /\
  (forall assetsDir localPath (s0 : State E),
      cssFullPath = Path.join outDir localPath ->
      Js.endsWith (Js.toLowerCase originalUrl) ".css" = true ->
      fs_readFile E (disk s0) cssFullPath = Returned raw ->
      let s1 := snd (forEach (cssFetchRef outDir assetsDir originalUrl) (cssRefs raw) s0) in
      let text := cssRewrite (urlToLocal s1) outDir cssFullPath originalUrl raw in
      let '(r, s') := processCss outDir assetsDir (originalUrl, localPath) s0 in
      r = Returned tt /\
      (text = raw -> s' = s1) /\
      (text <> raw ->
       urlToLocal s' = urlToLocal s1 /\ requests s' = requests s1 /\
       match fs_writeFile E (disk s1) cssFullPath text with
       | Returned d =>
           disk s' = d /\ writes s' = writes s1 ++ [(cssFullPath, text)] /\
           console s' = console s1
       | Thrown msg =>
           disk s' = disk s1 /\ writes s' = writes s1 /\
           console s' = console s1 ++ ["CSS processing failed: " +:+ msg]
       end)).
Proof.
  intros rewrite render.
  assert (Hgate : forall text (s0 : State E),
             urlToLocal s0 = urlToLocal s -> rewrite text = text ->
             cssRewriteStep outDir cssFullPath originalUrl text s0 = (Returned tt, s0)).
  { intros text s0 Hmap Heq. unfold cssRewriteStep, bind, snapshot. rewrite Hmap.
    fold rewrite. rewrite Heq, String.eqb_refl. reflexivity. }
  assert (Hmap : forall r s1,
             cssRewriteStep outDir cssFullPath originalUrl raw s = (r, s1) ->
             urlToLocal s1 = urlToLocal s).
  { intros r s1 Hrun. unfold cssRewriteStep, bind, snapshot in Hrun.
    destruct (negb (String.eqb (cssRewrite (urlToLocal s) outDir cssFullPath originalUrl raw)
                               raw)).
    - unfold writeFile in Hrun.
      destruct (fs_writeFile E (disk s) cssFullPath _); injection Hrun as <- <-; reflexivity.
    - injection Hrun as <- <-. reflexivity. }
  split; [|split; [|split; [|split; [|split]]]].
  - intros pre whole assetRef post u target. apply cssRewrite_occurrence.
  - intros Hmirrored.
    pose proof (cssRewrite_idempotent _ _ _ _ raw Hmirrored) as Heq.
    split; [exact Heq|]. intros r s1 Hrun. apply Hgate; [eapply Hmap; exact Hrun | exact Heq].
  - apply Hgate. reflexivity.
  - intros Hne. unfold cssRewriteStep, bind, snapshot. fold rewrite.
    apply String.eqb_neq in Hne. rewrite Hne. reflexivity.
  - intros r s' Hrun Hw.
    unfold cssRewriteStep, bind, snapshot in Hrun. fold rewrite in Hrun.
    destruct (String.eqb (rewrite raw) raw) eqn:Heq; simpl in Hrun.
    + injection Hrun as <- <-. contradiction.
    + apply String.eqb_neq in Heq. split; [exact Heq|].
      unfold writeFile in Hrun.
      destruct (fs_writeFile E (disk s) cssFullPath (rewrite raw));
        injection Hrun as <- <-; [reflexivity | contradiction].
  - intros assetsDir localPath s0 Hpath Hcss Hread s1 text.
    unfold processCss. rewrite Hcss. unfold try_catch, bind at 1, readFile.
    rewrite <- Hpath, Hread. unfold bind at 1.
    pose proof (cssFetchLoop_returns outDir assetsDir originalUrl (cssRefs raw) s0) as Hloop.
    fold s1 in Hloop.
    destruct (forEach (cssFetchRef outDir assetsDir originalUrl) (cssRefs raw) s0)
      as [r1 s1'] eqn:Hfetch.
    simpl in Hloop, s1. subst r1 s1.
    unfold cssRewriteStep, bind, snapshot. fold text.
    destruct (String.eqb text raw) eqn:Heq; simpl.
    + apply String.eqb_eq in Heq. split; [reflexivity|]. split; [reflexivity|].
      intros Hne. contradiction.
    + apply String.eqb_neq in Heq. unfold writeFile, log.
      destruct (fs_writeFile E (disk s1') cssFullPath text) as [d|msg];
        (split; [reflexivity|]); (split; [intros Hsame; contradiction|]);
        intros _; simpl; repeat split.
Qed.

Lemma C7_css_rewrite_idempotent_and_gated_witness :
  cssRewrite (E := CssFixture.site) CssFixture.m CssFixture.outDir CssFixture.cssFullPath
             CssFixture.originalUrl CssFixture.original = CssFixture.rewritten /\
  cssRewrite (E := CssFixture.site) CssFixture.m CssFixture.outDir CssFixture.cssFullPath
             CssFixture.originalUrl CssFixture.rewritten = CssFixture.rewritten /\
  writes (snd CssFixture.step) = [(CssFixture.cssFullPath, CssFixture.rewritten)] /\
  cssRewriteStep CssFixture.outDir CssFixture.cssFullPath CssFixture.originalUrl
                 CssFixture.rewritten (snd CssFixture.step)
  = (Returned tt, snd CssFixture.step).
Proof.
  destruct (C7_css_rewrite_idempotent_and_gated (E := CssFixture.site) CssFixture.outDir
              CssFixture.cssFullPath CssFixture.originalUrl CssFixture.original
              CssFixture.state)
    as (_ & Hidem & _ & _ & Hgate & _).
  assert (Hfirst : cssRewrite (E := CssFixture.site) CssFixture.m CssFixture.outDir
                     CssFixture.cssFullPath CssFixture.originalUrl CssFixture.original
                   = CssFixture.rewritten) by (vm_compute; reflexivity).
  assert (Hmirrored : Forall (mirrored (E := CssFixture.site) (urlToLocal CssFixture.state)
                                CssFixture.outDir CssFixture.cssFullPath
                                CssFixture.originalUrl)
                             (cssRefs CssFixture.original)).
  { vm_compute cssRefs. constructor; [|constructor].
    intros u target _ Hu. vm_compute in Hu. injection Hu as <-.
    intros Hm. vm_compute in Hm. injection Hm as <-. intros _.
    split; [split; [discriminate | vm_compute; reflexivity]|].
    intros u' Hu'. vm_compute in Hu'. injection Hu' as <-. left. reflexivity. }
  assert (Hstep0 : cssRewriteStep CssFixture.outDir CssFixture.cssFullPath
                     CssFixture.originalUrl CssFixture.original CssFixture.state
                   = (fst CssFixture.step, snd CssFixture.step))
    by (vm_compute; reflexivity).
  destruct (Hidem Hmirrored) as [Htwice Hsecond].
  specialize (Hsecond _ _ Hstep0).
  simpl urlToLocal in Htwice, Hsecond. rewrite Hfirst in Htwice, Hsecond.
  split; [exact Hfirst|]. split; [exact Htwice|].
  split; [|exact Hsecond].
  refine (proj2 (Hgate _ _ Hstep0 _)).
  vm_compute. discriminate.
Defined.

(** ** Path algebra *)

Lemma split_nonempty c s : Js.split c s <> [].
Proof.
  destruct s as [|a s]; simpl; [congruence|].
  destruct (Ascii.eqb a c); [congruence|]. destruct (Js.split c s); congruence.
Qed.

Lemma split_app_sep c a b :
  Js.split c (a +:+ String c b) = Js.split c a ++ Js.split c b.
Proof.
  induction a as [|x a IH]; simpl.
  - rewrite Ascii.eqb_refl. reflexivity.
  - rewrite IH. destruct (Ascii.eqb x c); [reflexivity|].
    destruct (Js.split c a) as [|w ws] eqn:Ha; [|reflexivity].
    exfalso. eapply split_nonempty. exact Ha.
Qed.

Lemma join_cons2 sep x y l :
  Js.join sep (x :: y :: l) = x +:+ sep +:+ Js.join sep (y :: l).
Proof. reflexivity. Qed.

Lemma join_split s : Js.join "/" (Js.split Path.sep s) = s.
Proof.
  induction s as [|c s IH]; [reflexivity|]. simpl Js.split.
  destruct (Js.split Path.sep s) as [|w ws] eqn:Hs.
  { exfalso. eapply split_nonempty. exact Hs. }
  destruct (Ascii.eqb c Path.sep) eqn:Hc.
  - apply Ascii.eqb_eq in Hc. subst c. rewrite join_cons2, IH. reflexivity.
  - destruct ws as [|w' ws].
    + simpl in *. congruence.
    + rewrite join_cons2. rewrite join_cons2 in IH. rewrite <- IH. reflexivity.
Qed.

Lemma split_join l :
  l <> [] -> Forall sepfree l -> Js.split Path.sep (Js.join "/" l) = l.
Proof.
  intros Hne Hall. induction Hall as [|x l Hx Hall IH]; [congruence|].
  destruct l as [|y l]; [exact Hx|].
  rewrite join_cons2. change ("/" +:+ Js.join "/" (y :: l))
    with (String Path.sep (Js.join "/" (y :: l))).
  unfold sepfree in Hx. rewrite split_app_sep, Hx, IH by congruence. reflexivity.
Qed.

Lemma split_sepfree s : Forall sepfree (Js.split Path.sep s).
Proof.
  unfold sepfree. induction s as [|c s IH]; simpl.
  - constructor; [reflexivity|constructor].
  - destruct (Ascii.eqb c Path.sep) eqn:Hc.
    + constructor; [reflexivity|exact IH].
    + destruct (Js.split Path.sep s) as [|w ws].
      * constructor; [simpl; now rewrite Hc | constructor].
      * inversion IH as [|? ? Hw Hws]; subst. constructor; [|exact Hws].
        simpl. rewrite Hc, Hw. reflexivity.
Qed.

Lemma push_segment_clean acc seg :
  sepfree seg -> Forall clean acc -> Forall clean (Path.push_segment false acc seg).
Proof.
  intros Hseg Hacc. unfold Path.push_segment.
  destruct (String.eqb seg "") eqn:H1; [exact Hacc|].
  destruct (String.eqb seg ".") eqn:H2; [exact Hacc|]. simpl.
  destruct (String.eqb seg "..") eqn:H3.
  - destruct acc as [|top rest]; [constructor|].
    inversion Hacc as [|? ? Htop Hrest]; subst.
    destruct (String.eqb top "..") eqn:H4; [|exact Hrest].
    apply String.eqb_eq in H4. destruct Htop as (_ & _ & Hdd & _). contradiction.
  - apply String.eqb_neq in H1, H2, H3. constructor; [|exact Hacc]. repeat split; assumption.
Qed.

Lemma fold_push_clean segs : forall acc,
  Forall sepfree segs -> Forall clean acc ->
  Forall clean (fold_left (Path.push_segment false) segs acc).
Proof.
  induction segs as [|seg segs IH]; intros acc Hsegs Hacc; simpl; [exact Hacc|].
  inversion Hsegs; subst. apply IH; [assumption|]. now apply push_segment_clean.
Qed.

Lemma normalizeSegments_clean p : Forall clean (Path.normalizeSegments false p).
Proof.
  unfold Path.normalizeSegments. apply Forall_rev.
  apply fold_push_clean; [apply split_sepfree | constructor].
Qed.

Lemma push_segment_of_clean acc seg :
  clean seg -> Path.push_segment false acc seg = seg :: acc.
Proof.
  intros (H1 & H2 & H3 & _). unfold Path.push_segment.
  apply String.eqb_neq in H1, H2, H3. rewrite H1, H2, H3. reflexivity.
Qed.

Lemma fold_push_of_clean l : forall acc,
  Forall clean l -> fold_left (Path.push_segment false) l acc = List.rev l ++ acc.
Proof.
  induction l as [|x l IH]; intros acc Hl; simpl; [reflexivity|].
  inversion Hl; subst. rewrite push_segment_of_clean by assumption.
  rewrite IH by assumption. rewrite <- app_assoc. reflexivity.
Qed.

Lemma clean_sepfree l : Forall clean l -> Forall sepfree l.
Proof.
  intros H. eapply Forall_impl; [exact H|]. intros s (_ & _ & _ & Hs). exact Hs.
Qed.

(** Normalising a resolved path gives back its segments. *)
Lemma normalizeSegments_resolved l :
  Forall clean l -> Path.normalizeSegments false ("/" +:+ Js.join "/" l) = l.
Proof.
  intros Hl. unfold Path.normalizeSegments.
  change ("/" +:+ Js.join "/" l) with ("" +:+ String Path.sep (Js.join "/" l)).
  rewrite split_app_sep.
  change (Js.split Path.sep "") with [""].
  destruct l as [|x l']; [reflexivity|].
  rewrite split_join; [|congruence|apply clean_sepfree; exact Hl].
  change (fold_left (Path.push_segment false) ([""] ++ x :: l') [])
    with (fold_left (Path.push_segment false) (x :: l') []).
  rewrite fold_push_of_clean by exact Hl.
  rewrite app_nil_r. apply rev_involutive.
Qed.

Lemma normalizeSegments_trailing p :
  Path.normalizeSegments false (p +:+ "/") = Path.normalizeSegments false p.
Proof.
  unfold Path.normalizeSegments.
  change (p +:+ "/") with (p +:+ String Path.sep "").
  rewrite split_app_sep, fold_left_app. reflexivity.
Qed.

Lemma normalizeSegments_push p seg :
  clean seg ->
  Path.normalizeSegments false (p +:+ "/" +:+ seg) = Path.normalizeSegments false p ++ [seg].
Proof.
  intros Hseg. unfold Path.normalizeSegments.
  change (p +:+ "/" +:+ seg) with (p +:+ String Path.sep seg).
  destruct Hseg as (H1 & H2 & H3 & H4). unfold sepfree in H4.
  rewrite split_app_sep, H4, fold_left_app. simpl fold_left.
  rewrite push_segment_of_clean by (repeat split; assumption). reflexivity.
Qed.

Lemma resolve_form cwd p :
  exists l, Forall clean l /\ Path.resolve cwd p = "/" +:+ Js.join "/" l.
Proof.
  unfold Path.resolve, Path.normalizeString.
  eexists. split; [apply normalizeSegments_clean | reflexivity].
Qed.

Lemma isAbsolute_cons p : Path.isAbsolute p = true -> exists p', p = String "/" p'.
Proof.
  destruct p as [|c p']; simpl; [discriminate|]. intros H.
  apply Ascii.eqb_eq in H. subst c. eauto.
Qed.

Lemma resolve_absolute cwd p :
  Path.isAbsolute p = true ->
  Path.resolve cwd p = "/" +:+ Js.join "/" (Path.normalizeSegments false p).
Proof.
  intros Habs. destruct (isAbsolute_cons p Habs) as [p' ->].
  unfold Path.resolve, Path.normalizeString. simpl String.eqb. simpl Path.isAbsolute.
  cbv iota. rewrite normalizeSegments_trailing. reflexivity.
Qed.

Lemma join_cons_nonempty y l :
  l <> [] -> Js.join "/" (y :: l) = y +:+ "/" +:+ Js.join "/" l.
Proof. destruct l; [congruence|reflexivity]. Qed.

Lemma join_snoc l x :
  Js.join "/" (l ++ [x]) = match l with [] => x | _ => Js.join "/" l +:+ "/" +:+ x end.
Proof.
  induction l as [|y l IH]; [reflexivity|].
  change ((y :: l) ++ [x]) with (y :: (l ++ [x])).
  rewrite join_cons_nonempty by (destruct l; discriminate).
  rewrite IH. destruct l as [|z l]; [reflexivity|].
  rewrite (join_cons_nonempty y (z :: l)) by discriminate.
  rewrite !app_assoc_s. reflexivity.
Qed.

Lemma prefix_length p : forall s, String.prefix p s = true -> String.length p <= String.length s.
Proof.
  induction p as [|c p IH]; intros s H; simpl; [lia|].
  destruct s as [|d s]; simpl in H; [discriminate|].
  destruct (Ascii.ascii_dec c d); [|discriminate]. apply IH in H. simpl. lia.
Qed.

Lemma join_eq_empty l : Js.join "/" l = "" -> l = [] \/ l = [""].
Proof.
  destruct l as [|x [|y l]]; simpl; intros H; auto.
  - right. congruence.
  - exfalso. destruct x; discriminate.
Qed.

Lemma dropCommon_suffix a : forall b a' b',
  Path.dropCommon a b = (a', b') -> exists c, a = c ++ a' /\ b = c ++ b'.
Proof.
  induction a as [|x a IH]; intros b a' b' H; simpl in H.
  - inversion H; subst. exists []. split; reflexivity.
  - destruct b as [|y b]; [inversion H; subst; exists []; split; reflexivity|].
    destruct (String.eqb x y) eqn:Hxy.
    + apply String.eqb_eq in Hxy. subst y. destruct (IH _ _ _ H) as (c & -> & ->).
      exists (x :: c). split; reflexivity.
    + inversion H; subst. exists []. split; reflexivity.
Qed.

Lemma rev_acc_app a : forall b acc,
  Js.rev_acc (a +:+ b) acc = Js.rev_acc b (Js.rev_acc a acc).
Proof. induction a as [|c a IH]; intros b acc; simpl; [reflexivity|apply IH]. Qed.

(** The assets directory of an absolute output directory. *)
Lemma join_assets outDir :
  Path.isAbsolute outDir = true ->
  Path.join outDir "assets"
  = "/" +:+ Js.join "/" (Path.normalizeSegments false outDir ++ ["assets"]).
Proof.
  intros Habs. destruct (isAbsolute_cons outDir Habs) as [p' ->].
  assert (Hclean : clean "assets") by (repeat split; discriminate).
  unfold Path.join. simpl Js.truthy. cbv iota.
  pose proof (normalizeSegments_push (String "/" p') "assets" Hclean) as Hsegs.
  assert (Htrail : Path.hasTrailingSep (String "/" p' +:+ "/" +:+ "assets") = false).
  { unfold Path.hasTrailingSep, Js.rev. rewrite rev_acc_app. reflexivity. }
  assert (Hne : String.eqb (String "/" p' +:+ "/" +:+ "assets") "" = false) by reflexivity.
  assert (Hq : Path.isAbsolute (String "/" p' +:+ "/" +:+ "assets") = true) by reflexivity.
  remember (String "/" p' +:+ "/" +:+ "assets") as q eqn:Heqq. clear Heqq.
  unfold Path.normalize, Path.normalizeString.
  rewrite Hne, Hq, Htrail. simpl negb. rewrite Hsegs.
  destruct (String.eqb (Js.join "/" (Path.normalizeSegments false (String "/" p') ++ ["assets"])) "")
    eqn:Hempty; [|reflexivity].
  apply String.eqb_eq in Hempty. rewrite join_snoc in Hempty.
  destruct (Path.normalizeSegments false (String "/" p')) as [|y l]; [discriminate|].
  apply (f_equal String.length) in Hempty. rewrite !length_app_s in Hempty.
  simpl in Hempty. lia.
Qed.

Lemma resolve_assets cwd outDir :
  Path.isAbsolute outDir = true ->
  Path.resolve cwd (Path.join outDir "assets")
  = "/" +:+ Js.join "/" (Path.normalizeSegments false outDir ++ ["assets"]).
Proof.
  intros Habs. rewrite (join_assets outDir Habs).
  rewrite resolve_absolute by reflexivity.
  rewrite normalizeSegments_resolved; [reflexivity|].
  apply Forall_app. split; [apply normalizeSegments_clean|].
  constructor; [repeat split; discriminate | constructor].
Qed.

(** The relative path of a file that passed the check of line 53 against
    the assets directory is never the empty string. *)
Lemma localRel_truthy {E : Env} outDir p :
  Path.isAbsolute outDir = true ->
  Js.startsWith (Path.resolve (cwd E) p)
                (Path.resolve (cwd E) (Path.join outDir "assets")) = true ->
  Js.truthy (localRel outDir p) = true.
Proof.
  intros Habs Hcheck. rewrite (resolve_assets _ _ Habs) in Hcheck.
  unfold localRel. rewrite join_split.
  set (N := Path.normalizeSegments false outDir) in *.
  assert (Hf : Path.resolve (cwd E) outDir = "/" +:+ Js.join "/" N)
    by (apply resolve_absolute; exact Habs).
  assert (Hne : Path.resolve (cwd E) p <> Path.resolve (cwd E) outDir).
  { intros Heq. rewrite Heq, Hf in Hcheck. apply prefix_length in Hcheck.
    rewrite join_snoc in Hcheck. destruct N as [|y l].
    - simpl in Hcheck. lia.
    - rewrite !length_app_s in Hcheck. simpl in Hcheck. lia. }
  apply truthy_nonempty. intros Hrel. apply Hne. clear Hcheck.
  unfold Path.relative in Hrel.
  destruct (String.eqb outDir p) eqn:H1; [apply String.eqb_eq in H1; now subst|].
  destruct (String.eqb (Path.resolve (cwd E) outDir) (Path.resolve (cwd E) p)) eqn:H2;
    [apply String.eqb_eq in H2; now symmetry|].
  destruct (resolve_form (cwd E) p) as (T & HT & Ht).
  rewrite Hf, Ht in Hrel.
  rewrite !normalizeSegments_resolved in Hrel
    by (assumption || apply normalizeSegments_clean).
  destruct (Path.dropCommon N T) as [fs ts] eqn:Hdc.
  destruct (dropCommon_suffix _ _ _ _ Hdc) as (c & HN & HT').
  apply join_eq_empty in Hrel.
  assert (Hfs : fs = []).
  { destruct fs as [|x fs]; [reflexivity|]. destruct Hrel as [Hrel|Hrel]; discriminate. }
  subst fs. simpl in Hrel.
  assert (Hts : ts = []).
  { destruct Hrel as [Hrel|Hrel]; [exact Hrel|]. subst ts. exfalso.
    rewrite HT' in HT. apply Forall_app in HT as [_ HT].
    inversion HT as [|? ? Hx _]; subst. destruct Hx as [Hx _]. now apply Hx. }
  subst ts. rewrite app_nil_r in HN, HT'. rewrite Ht, Hf. congruence.
Qed.

Lemma outDirOf_absolute {E : Env} base : Path.isAbsolute (outDirOf base) = true.
Proof.
  unfold outDirOf, Path.join3.
  destruct (isAbsolute_cons (cwd E) (cwd_absolute E)) as [c' Hc].
  set (name := safeFilename (hostname base) +:+ "_" +:+ dateNow E).
  assert (Hj : exists rest,
             Js.join "/" (List.filter Js.truthy [cwd E; "clones"; name])
             = String "/" rest).
  { rewrite Hc. simpl. destruct (Js.truthy name); eexists; reflexivity. }
  destruct Hj as [rest ->].
  unfold Path.normalize. simpl String.eqb. simpl Path.isAbsolute. cbv iota.
  destruct (String.eqb (Path.normalizeString false (String "/" rest)) "");
    reflexivity.
Qed.

(** ** The invariant of [urlToLocal] *)

Lemma get_none_not_key k o : Obj.get k o = None <-> ~ In k (Obj.keys o).
Proof.
  induction o as [|[k' v'] o IH]; simpl; [tauto|].
  destruct (String.eqb k k') eqn:Hk.
  - apply String.eqb_eq in Hk. subst. split; [discriminate|]. intros H. exfalso. auto.
  - apply String.eqb_neq in Hk. rewrite IH. split; [intros H [Heq|Hin]; auto|tauto].
Qed.

Lemma set_fresh k v o : Obj.get k o = None -> Obj.set k v o = o ++ [(k, v)].
Proof.
  induction o as [|[k' v'] o IH]; simpl; [reflexivity|].
  destruct (String.eqb k k'); [discriminate|]. intros H. rewrite IH by exact H. reflexivity.
Qed.

Lemma get_in_nodup k v o :
  NoDup (Obj.keys o) -> (In (k, v) o <-> Obj.get k o = Some v).
Proof.
  induction o as [|[k' v'] o IH]; simpl; intros Hnd.
  - split; [tauto|discriminate].
  - apply NoDup_cons in Hnd as [Hk' Hnd]. rewrite list_elem_of_In in Hk'.
    destruct (String.eqb k k') eqn:Hk.
    + apply String.eqb_eq in Hk. subst k'. split.
      * intros [Heq|Hin]; [congruence|]. exfalso. apply Hk'.
        change (In k (map fst o)). apply in_map_iff. exists (k, v). auto.
      * intros Heq. left. congruence.
    + apply String.eqb_neq in Hk. rewrite <- IH by exact Hnd. split.
      * intros [Heq|Hin]; [congruence|exact Hin].
      * auto.
Qed.

Lemma Inv_same_map {E : Env} (s s' : State E) : same_map s s' -> Inv s -> Inv s'.
Proof.
  intros [Hm Ha] [H1 H2 H3]. split; rewrite ?Hm, ?Ha; assumption.
Qed.

Lemma has_false_get_none {E : Env} (s : State E) k :
  Inv s -> Obj.has k (urlToLocal s) = false -> Obj.get k (urlToLocal s) = None.
Proof.
  intros [Hm Hk Hv] Hhas. unfold Obj.has in Hhas.
  destruct (Obj.get k (urlToLocal s)) as [v|] eqn:Hget; [|reflexivity].
  exfalso. rewrite Hm in Hget. apply get_in_nodup in Hget; [|exact Hk].
  rewrite Forall_forall in Hv. apply list_elem_of_In in Hget.
  specialize (Hv _ Hget). simpl in Hv. congruence.
Qed.

(** An assignment to an absent key, of a non-empty value, keeps the
    invariant and appends to both lists. *)
Lemma Inv_assign {E : Env} (s s' : State E) k v :
  Inv s -> Obj.get k (urlToLocal s) = None -> Js.truthy v = true ->
  urlToLocal s' = Obj.set k v (urlToLocal s) ->
  assigned s' = assigned s ++ [(k, v)] ->
  Inv s'.
Proof.
  intros [Hm Hk Hv] Hget Ht Hm' Ha'. split.
  - rewrite Hm', Ha', set_fresh by exact Hget. congruence.
  - rewrite Ha', map_app. simpl. apply NoDup_app. split; [exact Hk|]. split.
    + intros x Hx Hx'. apply list_elem_of_In in Hx'. destruct Hx' as [<-|[]].
      apply get_none_not_key in Hget. apply Hget. rewrite Hm.
      apply list_elem_of_In. exact Hx.
    + apply NoDup_singleton.
  - rewrite Ha'. apply Forall_app. split; [exact Hv|]. constructor; [exact Ht|constructor].
Qed.

Lemma cssFetchRef_Inv {E : Env} outDir originalUrl assetRef (s s' : State E) :
  Path.isAbsolute outDir = true ->
  FetchEffect outDir (Path.join outDir "assets") originalUrl assetRef s s' ->
  Inv s -> Inv s'.
Proof.
  intros Habs Heff Hinv. destruct Heff.
  - apply (Inv_same_map s); [split; assumption | exact Hinv].
  - apply (Inv_same_map s); [split; assumption | exact Hinv].
  - eapply Inv_assign; eauto.
    + now apply has_false_get_none.
    + now apply localRel_truthy.
Qed.

(** ** Loops in the monad *)

Lemma foldM_spec {E : Env} {A B} (f : B -> A -> M B) (P : B -> Prop)
      (R : State E -> State E -> Prop) (good : A -> Prop) :
  (forall s, R s s) ->
  (forall s1 s2 s3, R s1 s2 -> R s2 s3 -> R s1 s3) ->
  (forall b x s, P b ->
     exists r s', f b x s = (r, s') /\ R s s' /\
                  (forall b', r = Returned b' -> P b') /\
                  (good x -> exists b', r = Returned b')) ->
  forall l b s, P b ->
    exists r s', foldM f l b s = (r, s') /\ R s s' /\
                 (forall b', r = Returned b' -> P b') /\
                 (Forall good l -> exists b', r = Returned b').
Proof.
  intros Hrefl Htrans Hf. induction l as [|x l IH]; intros b s Hb; simpl.
  - exists (Returned b), s. split; [reflexivity|]. split; [apply Hrefl|].
    split; [intros b' Hb'; inversion Hb'; subst; exact Hb | eauto].
  - unfold bind. destruct (Hf b x s Hb) as (r & s1 & -> & HR & HP & Hgood).
    destruct r as [b1|msg].
    + destruct (IH b1 s1 (HP _ eq_refl)) as (r2 & s2 & -> & HR2 & HP2 & Hgood2).
      exists r2, s2. split; [reflexivity|]. split; [eapply Htrans; eassumption|].
      split; [exact HP2|]. intros Hall. inversion Hall; subst. auto.
    + exists (Thrown msg), s1. split; [reflexivity|]. split; [exact HR|].
      split; [discriminate|]. intros Hall. inversion Hall as [|? ? Hx _]; subst.
      destruct (Hgood Hx) as [b' Hb']. discriminate.
Qed.

(** A loop whose body never throws and keeps an invariant. *)
Lemma forEach_spec {E : Env} {A} (f : A -> M unit) (I : State E -> Prop)
      (R : State E -> State E -> Prop) :
  (forall s, R s s) ->
  (forall s1 s2 s3, R s1 s2 -> R s2 s3 -> R s1 s3) ->
  (forall x s, I s -> exists s', f x s = (Returned tt, s') /\ I s' /\ R s s') ->
  forall l s, I s -> exists s', forEach f l s = (Returned tt, s') /\ I s' /\ R s s'.
Proof.
  intros Hrefl Htrans Hf. induction l as [|x l IH]; intros s Hs; simpl.
  - exists s. split; [reflexivity|]. split; [exact Hs | apply Hrefl].
  - unfold bind. destruct (Hf x s Hs) as (s1 & -> & Hs1 & HR1).
    destruct (IH s1 Hs1) as (s2 & -> & Hs2 & HR2).
    exists s2. split; [reflexivity|]. split; [exact Hs2 | eapply Htrans; eassumption].
Qed.

(** ** Discovery *)

Lemma only_console_refl {E : Env} (s : State E) : only_console s s.
Proof. repeat split. Qed.

Lemma only_console_trans {E : Env} (s1 s2 s3 : State E) :
  only_console s1 s2 -> only_console s2 s3 -> only_console s1 s3.
Proof.
  intros (A1 & A2 & A3 & A4 & A5 & A6) (B1 & B2 & B3 & B4 & B5 & B6).
  repeat split; congruence.
Qed.

Lemma set_add_NoDup x l : NoDup l -> NoDup (set_add x l).
Proof.
  intros Hl. unfold set_add. destruct (existsb (String.eqb x) l) eqn:Hx; [exact Hl|].
  apply NoDup_app. split; [exact Hl|]. split; [|apply NoDup_singleton].
  intros y Hy Hy'. apply list_elem_of_In in Hy'. destruct Hy' as [<-|[]].
  apply list_elem_of_In in Hy.
  assert (Hex : existsb (String.eqb x) l = true).
  { apply existsb_exists. exists x. split; [exact Hy | apply String.eqb_refl]. }
  congruence.
Qed.

Lemma discoverSrcsetPart_spec {E : Env} base assetSet part (s : State E) :
  NoDup assetSet ->
  exists r s',
    discoverSrcsetPart base assetSet part s = (r, s') /\ only_console s s' /\
    (forall set', r = Returned set' -> NoDup set') /\
    (part_ok base part -> exists set', r = Returned set').
Proof.
  intros Hnd. unfold discoverSrcsetPart, part_ok.
  destruct (Js.truthy (hd "" (Js.splitSpaces (Js.trim part)))) eqn:Ht.
  - unfold bind, lift.
    destruct (newURL E (hd "" (Js.splitSpaces (Js.trim part))) (Some (href base)))
      as [u|msg] eqn:Hu.
    + eexists _, s. split; [reflexivity|]. split; [apply only_console_refl|].
      split; [|eauto]. intros set' H. inversion H; subst. now apply set_add_NoDup.
    + eexists _, s. split; [reflexivity|]. split; [apply only_console_refl|].
      split; [discriminate|]. intros H. destruct (H eq_refl) as [u Hu']. discriminate.
  - eexists _, s. split; [reflexivity|]. split; [apply only_console_refl|].
    split; [|eauto]. intros set' H. inversion H; subst. exact Hnd.
Qed.

Lemma discoverElement_spec {E : Env} base attr assetSet el (s : State E) :
  NoDup assetSet ->
  exists r s',
    discoverElement base attr assetSet el s = (r, s') /\ only_console s s' /\
    (forall set', r = Returned set' -> NoDup set') /\
    ((attr = "srcset" ->
      forall value, getAttr el "srcset" = Some value ->
                    Forall (part_ok base) (Js.split "," value)) ->
     exists set', r = Returned set').
Proof.
  intros Hnd. unfold discoverElement.
  destruct (getAttr el attr) as [value|] eqn:Hget.
  2:{ eexists _, s. split; [reflexivity|]. split; [apply only_console_refl|].
      split; [|eauto]. intros set' H. inversion H; subst. exact Hnd. }
  destruct (Js.truthy value); simpl.
  2:{ eexists _, s. split; [reflexivity|]. split; [apply only_console_refl|].
      split; [|eauto]. intros set' H. inversion H; subst. exact Hnd. }
  destruct (String.eqb attr "srcset") eqn:Hattr.
  - apply String.eqb_eq in Hattr. subst attr.
    destruct (foldM_spec (discoverSrcsetPart base) (fun l => NoDup l) only_console
                (part_ok base) only_console_refl only_console_trans
                (fun b x s0 Hb => discoverSrcsetPart_spec base b x s0 Hb)
                (Js.split "," value) assetSet s Hnd)
      as (r & s' & Hrun & HR & HP & Hgood).
    exists r, s'. split; [exact Hrun|]. split; [exact HR|]. split; [exact HP|].
    intros Hok. apply Hgood. apply (Hok eq_refl value Hget).
  - unfold try_catch, bind, lift.
    destruct (newURL E value (Some (href base))) as [u|msg].
    + eexists _, s. split; [reflexivity|]. split; [apply only_console_refl|].
      split; [|eauto]. intros set' H. inversion H; subst. now apply set_add_NoDup.
    + eexists _, _. split; [reflexivity|]. split; [repeat split|].
      split; [|eauto]. intros set' H. inversion H; subst. exact Hnd.
Qed.

Lemma discoverSelector_spec {E : Env} base doc (sa : Selector * string)
      assetSet (s : State E) :
  NoDup assetSet ->
  exists r s',
    foldM (discoverElement base (snd sa))
          (List.filter (matches (fst sa)) doc) assetSet s = (r, s') /\
    only_console s s' /\
    (forall urls, r = Returned urls -> NoDup urls) /\
    (Forall (good_element base (snd sa)) (List.filter (matches (fst sa)) doc) ->
     exists urls, r = Returned urls).
Proof.
  intros Hnd.
  apply (foldM_spec (discoverElement base (snd sa)) (fun l => NoDup l) only_console
           (good_element base (snd sa)) only_console_refl only_console_trans);
    [|exact Hnd].
  intros b el s1 Hb. apply discoverElement_spec. exact Hb.
Qed.

Lemma discoverAssets_spec {E : Env} base doc (s : State E) :
  exists r s',
    discoverAssets base doc s = (r, s') /\ only_console s s' /\
    (forall urls, r = Returned urls -> NoDup urls) /\
    (srcsets_parse base doc -> exists urls, r = Returned urls).
Proof.
  unfold discoverAssets.
  destruct (foldM_spec
              (fun assetSet '(selector, attr) =>
                 foldM (discoverElement base attr)
                       (List.filter (matches selector) doc) assetSet)
              (fun l => NoDup l) only_console
              (fun sa => Forall (good_element base (snd sa))
                                (List.filter (matches (fst sa)) doc))
              only_console_refl only_console_trans) with
    (l := assetSelectors) (b := @nil string) (s := s)
    as (r & s' & Hrun & HR & HP & Hgood).
  - intros b [selector attr] s0 Hb.
    apply (discoverSelector_spec base doc (selector, attr) b s0 Hb).
  - constructor.
  - exists r, s'. split; [exact Hrun|]. split; [exact HR|]. split; [exact HP|].
    intros Hparse. apply Hgood.
    assert (Hother : forall sel attr,
               attr <> "srcset" ->
               Forall (good_element base attr) (List.filter (matches sel) doc)).
    { intros sel attr Hattr. apply Forall_forall. intros el _ Heq. contradiction. }
    unfold assetSelectors.
    repeat (constructor; [first [apply Hother; discriminate | idtac]|]); [|constructor].
    simpl. apply Forall_forall. intros el Hel _ value Hget.
    apply list_elem_of_In in Hel. apply filter_In in Hel as [Hin Hm].
    exact (Hparse el value Hin Hm Hget).
Qed.

(** What discovery returns does not depend on the state it runs in. *)
Lemma foldM_fst_indep {E : Env} {A B} (f : B -> A -> M B) :
  (forall b x (s1 s2 : State E), fst (f b x s1) = fst (f b x s2)) ->
  forall l b (s1 s2 : State E), fst (foldM f l b s1) = fst (foldM f l b s2).
Proof.
  intros Hf. induction l as [|x l IH]; intros b s1 s2; simpl; [reflexivity|].
  unfold bind. specialize (Hf b x s1 s2).
  destruct (f b x s1) as [[b1|msg1] t1], (f b x s2) as [[b2|msg2] t2]; simpl in Hf;
    try discriminate; [|exact Hf].
  injection Hf as ->. apply IH.
Qed.

Lemma discoverSrcsetPart_indep {E : Env} base assetSet part (s1 s2 : State E) :
  fst (discoverSrcsetPart base assetSet part s1)
  = fst (discoverSrcsetPart base assetSet part s2).
Proof.
  unfold discoverSrcsetPart.
  destruct (Js.truthy (hd "" (Js.splitSpaces (Js.trim part)))); [|reflexivity].
  unfold bind, lift.
  destruct (newURL E (hd "" (Js.splitSpaces (Js.trim part))) (Some (href base)));
    reflexivity.
Qed.

Lemma discoverElement_indep {E : Env} base attr assetSet el (s1 s2 : State E) :
  fst (discoverElement base attr assetSet el s1)
  = fst (discoverElement base attr assetSet el s2).
Proof.
  unfold discoverElement. destruct (getAttr el attr) as [value|]; [|reflexivity].
  destruct (negb (Js.truthy value)); [reflexivity|].
  destruct (String.eqb attr "srcset").
  - apply foldM_fst_indep. intros b x t1 t2. apply discoverSrcsetPart_indep.
  - unfold try_catch, bind, lift.
    destruct (newURL E value (Some (href base))); reflexivity.
Qed.

Lemma discoverAssets_indep {E : Env} base doc (s1 s2 : State E) :
  fst (discoverAssets base doc s1) = fst (discoverAssets base doc s2).
Proof.
  unfold discoverAssets. apply foldM_fst_indep. intros b [selector attr] t1 t2.
  apply foldM_fst_indep. intros b' el u1 u2. apply discoverElement_indep.
Qed.

(** ** Recording the batch (lines 146-153) *)



Lemma get_snoc_other k k' v o :
  k <> k' -> Obj.get k o = None -> Obj.get k (o ++ [(k', v)]) = None.
Proof.
  intros Hne Hget. apply get_none_not_key. unfold Obj.keys. rewrite map_app. simpl.
  intros Hin. apply in_app_or in Hin as [Hin|[Heq|[]]]; [|congruence].
  apply get_none_not_key in Hget. contradiction.
Qed.

Lemma processResults_spec {E : Env} outDir results : forall s : State E,
  Path.isAbsolute outDir = true ->
  Inv s ->
  NoDup (map outcome_url results) ->
  Forall (checked (Path.join outDir "assets")) results ->
  (forall r, In r results -> Obj.get (outcome_url r) (urlToLocal s) = None) ->
  exists s',
    processResults outDir results s = (Returned tt, s') /\
    Inv s' /\
    assigned s' = assigned s ++ batchAssignments outDir results /\
    requests s' = requests s /\ writes s' = writes s.
Proof.
  unfold processResults.
  induction results as [|r results IH]; intros s Habs Hinv Hnd Hchk Hfresh; simpl.
  - exists s. split; [reflexivity|]. split; [exact Hinv|].
    split; [symmetry; apply app_nil_r|]. split; reflexivity.
  - apply NoDup_cons in Hnd as [Hr Hnd]. inversion Hchk as [|? ? Hc Hchk']; subst.
    unfold bind at 1. destruct r as [outPath data url|url err].
    + unfold assign at 1.
      set (s1 := mkState (disk s) (tick s) (requests s) (writes s) (console s)
                         (Obj.set url (localRel outDir outPath) (urlToLocal s))
                         (assigned s ++ [(url, localRel outDir outPath)])).
      assert (Hget : Obj.get url (urlToLocal s) = None) by (apply (Hfresh _ (or_introl eq_refl))).
      assert (Hinv1 : Inv s1).
      { eapply (Inv_assign s s1); eauto. now apply localRel_truthy. }
      destruct (IH s1 Habs Hinv1 Hnd Hchk') as (s' & Hrun & Hinv' & Hasg & Hreq & Hw).
      { intros r Hin. simpl. rewrite set_fresh by exact Hget.
        apply get_snoc_other; [|apply Hfresh; now right].
        intros Heq. apply Hr. rewrite <- Heq. simpl.
        apply list_elem_of_In. apply in_map. exact Hin. }
      exists s'. split; [exact Hrun|]. split; [exact Hinv'|].
      split; [|split; assumption].
      rewrite Hasg. simpl. unfold batchAssignments. simpl. rewrite <- app_assoc. reflexivity.
    + unfold log at 1.
      set (s1 := mkState (disk s) (tick s) (requests s) (writes s)
                         (console s ++ ["❌ Failed: " +:+ url +:+ " - " +:+ err])
                         (urlToLocal s) (assigned s)).
      assert (Hinv1 : Inv s1) by (apply (Inv_same_map s); [split; reflexivity|exact Hinv]).
      destruct (IH s1 Habs Hinv1 Hnd Hchk') as (s' & Hrun & Hinv' & Hasg & Hreq & Hw).
      { intros r Hin. apply Hfresh. now right. }
      exists s'. split; [exact Hrun|]. split; [exact Hinv'|]. split; [|split; assumption].
      exact Hasg.
Qed.

(** ** The stylesheet phase (lines 156-206) *)

Lemma grows_refl {E : Env} (s : State E) : grows s s.
Proof.
  exists [], []. rewrite !app_nil_r.
  split; [reflexivity|]. split; [reflexivity|apply incl_nil_l].
Qed.

Lemma grows_trans {E : Env} (s1 s2 s3 : State E) : grows s1 s2 -> grows s2 s3 -> grows s1 s3.
Proof.
  intros (r1 & a1 & Hr1 & Ha1 & Hi1) (r2 & a2 & Hr2 & Ha2 & Hi2).
  exists (r1 ++ r2), (a1 ++ a2). rewrite Hr2, Hr1, Ha2, Ha1, <- !app_assoc.
  split; [reflexivity|]. split; [reflexivity|].
  rewrite map_app. apply incl_app; [apply incl_appl | apply incl_appr]; assumption.
Qed.

Lemma FetchEffect_grows {E : Env} outDir assetsDir originalUrl assetRef (s s' : State E) :
  FetchEffect outDir assetsDir originalUrl assetRef s s' -> grows s s'.
Proof.
  intros [Hr _ _ Ha | u _ _ _ Hr _ _ Ha | u outPath data _ _ _ _ Hr _ _ Ha].
  - exists [], []. rewrite !app_nil_r.
    split; [exact Hr|]. split; [exact Ha | apply incl_nil_l].
  - exists [href u], []. rewrite !app_nil_r.
    split; [exact Hr|]. split; [exact Ha | apply incl_nil_l].
  - exists [href u], [(href u, localRel outDir outPath)].
    split; [exact Hr|]. split; [exact Ha | apply incl_refl].
Qed.

(** A step that leaves requests and assignments alone. *)
Lemma grows_same {E : Env} (s s' : State E) :
  requests s' = requests s -> assigned s' = assigned s -> grows s s'.
Proof.
  intros Hr Ha. exists [], []. rewrite !app_nil_r.
  split; [exact Hr|]. split; [exact Ha | apply incl_nil_l].
Qed.

Section Stylesheets.

Context {E : Env}.
Variable outDir : string.
Hypothesis outDir_absolute : Path.isAbsolute outDir = true.

Lemma cssFetchLoop_spec originalUrl refs (s : State E) :
  Inv s ->
  exists s',
    forEach (cssFetchRef outDir (Path.join outDir "assets") originalUrl) refs s
      = (Returned tt, s') /\
    Inv s' /\ grows s s'.
Proof.
  apply (forEach_spec _ Inv grows grows_refl grows_trans).
  intros assetRef s0 Hinv.
  destruct (cssFetchRef_spec outDir (Path.join outDir "assets") originalUrl assetRef s0)
    as (s' & Hrun & _ & Heff).
  exists s'. split; [exact Hrun|]. split.
  - eapply cssFetchRef_Inv; eassumption.
  - eapply FetchEffect_grows; eassumption.
Qed.

Lemma cssRewriteStep_frame cssFullPath originalUrl raw (s : State E) :
  same_map s (snd (cssRewriteStep outDir cssFullPath originalUrl raw s)) /\
  requests (snd (cssRewriteStep outDir cssFullPath originalUrl raw s)) = requests s.
Proof.
  unfold cssRewriteStep, bind, snapshot.
  destruct (negb _); [|split; [apply same_map_refl|reflexivity]].
  unfold writeFile. destruct (fs_writeFile E _ _ _); simpl; repeat split.
Qed.

Lemma processCss_spec entry (s : State E) :
  Inv s ->
  exists s',
    processCss outDir (Path.join outDir "assets") entry s = (Returned tt, s') /\
    Inv s' /\ grows s s'.
Proof.
  intros Hinv. destruct entry as [originalUrl localPath]. unfold processCss.
  destruct (Js.endsWith (Js.toLowerCase originalUrl) ".css").
  2:{ exists s. split; [reflexivity|]. split; [exact Hinv | apply grows_refl]. }
  unfold try_catch, bind at 1, readFile.
  destruct (fs_readFile E (disk s) (Path.join outDir localPath)) as [raw|msg].
  2:{ eexists. split; [reflexivity|]. split.
      - apply (Inv_same_map s); [split; reflexivity | exact Hinv].
      - apply grows_same; reflexivity. }
  unfold bind at 1.
  destruct (cssFetchLoop_spec originalUrl (cssRefs raw) s Hinv) as (s1 & -> & Hinv1 & Hg1).
  destruct (cssRewriteStep_frame (Path.join outDir localPath) originalUrl raw s1)
    as [Hsame Hreq].
  destruct (cssRewriteStep outDir (Path.join outDir localPath) originalUrl raw s1)
    as [[[]|msg] s2] eqn:Hstep; simpl in Hsame, Hreq.
  - exists s2. split; [reflexivity|]. split; [eapply Inv_same_map; eassumption|].
    eapply grows_trans; [exact Hg1|]. apply grows_same; [exact Hreq | apply Hsame].
  - eexists. split; [reflexivity|]. split.
    + apply (Inv_same_map s2); [split; reflexivity|]. eapply Inv_same_map; eassumption.
    + eapply grows_trans; [exact Hg1|]. apply grows_same; [exact Hreq | apply Hsame].
Qed.

Lemma cssPhase_spec entries (s : State E) :
  Inv s ->
  exists s',
    forEach (processCss outDir (Path.join outDir "assets")) entries s = (Returned tt, s') /\
    Inv s' /\ grows s s'.
Proof.
  apply (forEach_spec _ Inv grows grows_refl grows_trans).
  intros entry s0 Hinv. now apply processCss_spec.
Qed.

End Stylesheets.

(** ** The whole job *)

Section Job.

Context {E : Env}.
Variables (urlStr : string) (base : URL).

Lemma afterValidation_run (s : State E) r s' :
  afterValidation urlStr base s = (r, s') -> JobRun urlStr base s r s'.
Proof.
  unfold afterValidation. fold (assetsDirOf base). fold (indexPath base).
  unfold bind at 1, mkdir.
  destruct (fs_mkdir E (disk s) (assetsDirOf base)) as [d|msg] eqn:Hmk.
  2:{ intros H. injection H as <- <-. now apply (job_mkdir_failed urlStr base _ _ _ msg). }
  unfold bind at 1, randomIndex. simpl tick. unfold bind at 1, get. simpl tick.
  fold (rootHeaders base s).
  destruct (axios_get E (tick s) urlStr (rootHeaders base s)) as [page|msg] eqn:Hget.
  2:{ intros H. injection H as <- <-.
      apply (job_fetch_failed urlStr base _ _ _ d msg); auto. split; reflexivity. }
  unfold bind at 1.
  match goal with
  | |- context [discoverAssets base (load E page) ?s2] =>
      destruct (discoverAssets_spec base (load E page) s2)
        as (rd & s3 & Hdisc & Hcons & Hnd & Hparse); rewrite Hdisc
  end.
  destruct Hcons as (Hd3 & Ht3 & Hr3 & Hw3 & Hm3 & Ha3). simpl in Hd3, Ht3, Hr3, Hw3, Hm3, Ha3.
  destruct rd as [assetUrls|msg].
  2:{ intros H. injection H as <- <-.
      apply (job_discovery_failed urlStr base _ _ _ d page msg); auto.
      - intros Hp. destruct (Hparse Hp) as [urls Hurls]. discriminate.
      - split; simpl; assumption. }
  specialize (Hnd _ eq_refl).
  unfold bind at 1, newUrlToLocal. unfold bind at 1.
  match goal with
  | |- context [batchLoop urlStr (assetsDirOf base) assetUrls 0 [] ?s4] =>
      destruct (batchLoop_returns urlStr (assetsDirOf base) assetUrls (length assetUrls) 0 [] s4)
        as (downloadResults & s5 & Hbatch & Hurls & Hchk & [Hm5 Ha5] & Hr5); [lia|];
        destruct (batchLoop_fetched urlStr (assetsDirOf base) assetUrls (length assetUrls)
                    0 [] s4)
          as (rs5 & batchWrites & s5' & Hbatch' & Hfetched & _); [lia|];
        rewrite Hbatch in Hbatch'; injection Hbatch' as <- <-;
        rewrite Hbatch
  end.
  simpl in Hm5, Ha5, Hr5, Hfetched. rewrite Hd3, Ht3 in Hfetched. simpl in Hfetched.
  change (skipn 0 assetUrls) with assetUrls in Hurls, Hr5, Hfetched.
  change ([] ++ downloadResults) with downloadResults.
  assert (Hinv5 : Inv s5).
  { split; rewrite ?Hm5, ?Ha5; [reflexivity|constructor|constructor]. }
  unfold bind at 1.
  destruct (processResults_spec (outDirOf base) downloadResults s5
              (outDirOf_absolute base) Hinv5)
    as (s6 & Hproc & Hinv6 & Ha6 & Hr6 & Hw6).
  { rewrite Hurls. exact Hnd. }
  { exact Hchk. }
  { intros r0 _. rewrite Hm5. reflexivity. }
  rewrite Hproc. unfold bind at 1, snapshot. unfold bind at 1.
  destruct (cssPhase_spec (outDirOf base) (outDirOf_absolute base)
              (Obj.entries (urlToLocal s6)) s6 Hinv6)
    as (s7 & Hcss & Hinv7 & (nestedReq & nestedAsg & Hr7 & Ha7 & Hincl)).
  fold (assetsDirOf base) in Hcss. rewrite Hcss.
  unfold bind at 1. unfold bind at 1, writeFile. intros H.
  apply (job_rewritten urlStr base _ _ _ d page downloadResults nestedReq nestedAsg s7
                        assetUrls batchWrites (disk s5)); auto.
  - intros st.
    match type of Hdisc with
    | discoverAssets _ _ ?s2 = _ =>
        rewrite (discoverAssets_indep base (load E page) st s2), Hdisc
    end.
    reflexivity.
  - rewrite Hurls. exact Hnd.
  - rewrite Hr7, Hr6, Hr5, Hr3, Hurls, <- !app_assoc. reflexivity.
  - rewrite Ha7, Ha6, Ha5. reflexivity.
  - destruct (fs_writeFile E (disk s7) (indexPath base)
                (html E (rewriteHtml (urlToLocal s7) base (load E page))));
      simpl in H; injection H as <- <-; auto.
Qed.

End Job.

Section CloneWebsite.

Context {E : Env}.

Lemma cloneWebsite_empty (s : State E) :
  cloneWebsite "" s = (Returned (ErrorString "No URL provided"), s).
Proof. reflexivity. Qed.

Lemma cloneWebsite_invalid urlStr msg (s : State E) :
  urlStr <> "" -> newURL E urlStr None = Thrown msg ->
  cloneWebsite urlStr s = (Returned (ErrorString ("Invalid URL: " +:+ urlStr)), s).
Proof.
  intros Hne Hu. apply truthy_nonempty in Hne. unfold cloneWebsite. rewrite Hne. simpl.
  unfold bind, try_catch, lift. rewrite Hu. reflexivity.
Qed.

Lemma cloneWebsite_valid urlStr base (s : State E) :
  urlStr <> "" -> newURL E urlStr None = Returned base ->
  cloneWebsite urlStr s = afterValidation urlStr base s.
Proof.
  intros Hne Hu. apply truthy_nonempty in Hne. unfold cloneWebsite. rewrite Hne. simpl.
  unfold bind at 1, try_catch, lift. unfold bind at 1. rewrite Hu. reflexivity.
Qed.

(** Either the job stopped before line 128, or [urlToLocal] satisfies its
    invariant at the end. *)
Lemma cloneWebsite_Inv urlStr (s : State E) r s' :
  cloneWebsite urlStr s = (r, s') ->
  (same_map s s' \/ Inv s') /\ (forall man, r = Returned (CloneManifest man) -> Inv s').
Proof.
  intros Hrun. destruct (String.eqb urlStr "") eqn:Hempty.
  { apply String.eqb_eq in Hempty. subst urlStr. rewrite cloneWebsite_empty in Hrun.
    injection Hrun as <- <-. split; [left; apply same_map_refl | discriminate]. }
  apply String.eqb_neq in Hempty.
  destruct (newURL E urlStr None) as [base|msg] eqn:Hu.
  2:{ rewrite (cloneWebsite_invalid _ _ _ Hempty Hu) in Hrun. injection Hrun as <- <-.
      split; [left; apply same_map_refl | discriminate]. }
  rewrite (cloneWebsite_valid _ _ _ Hempty Hu) in Hrun.
  apply afterValidation_run in Hrun.
  destruct Hrun as [msg _ -> -> | d msg _ _ -> Hsame _ | d page msg _ _ _ -> Hsame _
                   | d page results nreq nasg s7 urls bws d5 _ _ _ _ _ _ _ Hinv _ _ _ Hend].
  - split; [left; apply same_map_refl | discriminate].
  - split; [left; exact Hsame | discriminate].
  - split; [left; exact Hsame | discriminate].
  - assert (Hinv' : Inv s').
    { destruct (fs_writeFile E (disk s7) (indexPath base) _); destruct Hend as [_ ->];
        [apply (Inv_same_map s7); [split; reflexivity | exact Hinv] | exact Hinv]. }
    split; [right; exact Hinv' | intros _ _; exact Hinv'].
Qed.

End CloneWebsite.

Lemma get_app_l k v (o o' : Obj.t) : Obj.get k o = Some v -> Obj.get k (o ++ o') = Some v.
Proof.
  induction o as [|[k' v'] o IH]; simpl; [discriminate|].
  destruct (String.eqb k k'); [auto | exact IH].
Qed.

(** ** Monotonicity of [urlToLocal] (C3) *)

(** C3: in any run of [cloneWebsite], unless the job stops before
    [urlToLocal] exists, the assignments made to [urlToLocal] during the
    job all went to distinct keys, so no key was ever assigned twice; the
    final map, the one the HTML rewriter reads, is the list of these
    assignments; and when an assignment was made its key was absent, and
    the map as it stood just after it, which is what a stylesheet
    rewritten at that time read, is contained in the final map. *)
Theorem C3_url_to_local_assigned_once {E : Env} (urlStr : string) (s : State E)
        (r : result CloneResult) (s' : State E) :
  cloneWebsite urlStr s = (r, s') ->
  let assigned_once :=
    urlToLocal s' = assigned s' /\
    NoDup (map fst (assigned s')) /\
    (forall k v, In (k, v) (assigned s') <-> Obj.get k (urlToLocal s') = Some v) /\
    (forall before k v after,
        assigned s' = before ++ (k, v) :: after ->
        Obj.get k before = None /\
        Obj.extends (before ++ [(k, v)]) (urlToLocal s')) in
  (same_map s s' \/ assigned_once) /\
  (forall man, r = Returned (CloneManifest man) -> assigned_once).
Proof.
  intros Hrun assigned_once.
  assert (Himp : Inv s' -> assigned_once).
  { intros [Hm Hk Hv]. unfold assigned_once. split; [exact Hm|]. split; [exact Hk|]. split.
    - intros k v. rewrite Hm. apply get_in_nodup. exact Hk.
    - intros before k v after Heq. rewrite Hm, Heq. split.
      + rewrite Heq, map_app in Hk. apply NoDup_app in Hk as (_ & Hdisj & _).
        apply get_none_not_key. intros Hin. apply (Hdisj k).
        * apply list_elem_of_In. exact Hin.
        * simpl. left.
      + intros k0 v0 Hget. change (before ++ (k, v) :: after)
          with (before ++ [(k, v)] ++ after). rewrite app_assoc. now apply get_app_l. }
  destruct (cloneWebsite_Inv urlStr s r s' Hrun) as [[Hsame|Hinv] Hman].
  - split; [left; exact Hsame | intros man Hr; apply Himp; eauto].
  - split; [right; now apply Himp | intros man Hr; apply Himp; eauto].
Qed.

Lemma C3_url_to_local_assigned_once_witness :
  assigned (snd Fixture.run)
  = [ ("http://site.test/css/style.css", "assets/css/style.css");
      ("http://site.test/img/bg.png", "assets/img/bg.png") ] /\
  urlToLocal (snd Fixture.run) = assigned (snd Fixture.run) /\
  NoDup (map fst (assigned (snd Fixture.run))).
Proof.
  split; [reflexivity|].
  assert (Hrun : cloneWebsite (E := Fixture.site) "http://site.test/"
                              (Fixture.start Fixture.site [])
                 = (fst Fixture.run, snd Fixture.run)) by (vm_compute; reflexivity).
  destruct (C3_url_to_local_assigned_once (E := Fixture.site) "http://site.test/"
              (Fixture.start Fixture.site []) (fst Fixture.run) (snd Fixture.run) Hrun)
    as [_ Hman].
  destruct (Hman _ eq_refl) as (Hmap & Hkeys & _).
  split; [exact Hmap | exact Hkeys].
Defined.


(** ** The counts of the manifest (C10) *)



(** ** What [cloneWebsite] returns (C2) *)

(** C2, as stated, fails: for a well-formed URL whose root document cannot
    be fetched, [cloneWebsite] returns neither a manifest nor an error
    string; the rejection of [axios.get] at line 85 leaves it. *)
Lemma C2_counterexample_root_fetch_rejects :
  newURL OfflineFixture.site "http://down.test/" None
    = Returned (Fixture.http "down.test" "/") /\
  fst (cloneWebsite (E := OfflineFixture.site) "http://down.test/"
                    (Fixture.start OfflineFixture.site []))
    = Thrown "getaddrinfo ENOTFOUND http://down.test/".
Proof. split; vm_compute; reflexivity. Qed.

(** C2, amended.  [cloneWebsite] returns the string [No URL provided] for
    the empty input and [Invalid URL: ] followed by the input for one
    that does not parse, touching nothing.  For an input that parses, when
    the assets directory can be created, the root document is fetched,
    every [srcset] of an image of the page has parseable URL tokens and
    [index.html] can be written, it returns a manifest of status
    [success] for the output directory, and the last file written is
    [index.html], whole, with the serialisation of the rewritten
    document; no failure of an asset or of a stylesheet prevents this.
    When the fetch of the root document fails, the failure is not caught:
    the call rejects with it, and no file has been written. *)
Theorem C2_clone_returns_or_rejects {E : Env} (urlStr : string) (s : State E) :
  (urlStr = "" ->
   cloneWebsite urlStr s = (Returned (ErrorString "No URL provided"), s)) /\
  (forall msg,
      urlStr <> "" -> newURL E urlStr None = Thrown msg ->
      cloneWebsite urlStr s = (Returned (ErrorString ("Invalid URL: " +:+ urlStr)), s)) /\
  (forall base d page,
      urlStr <> "" -> newURL E urlStr None = Returned base ->
      fs_mkdir E (disk s) (assetsDirOf base) = Returned d ->
      axios_get E (tick s) urlStr (rootHeaders base s) = Returned page ->
      srcsets_parse base (load E page) ->
      (forall d0 data, exists d1, fs_writeFile E d0 (indexPath base) data = Returned d1) ->
      exists man s',
        cloneWebsite urlStr s = (Returned (CloneManifest man), s') /\
        status man = "success" /\ dir man = outDirOf base /\
        exists earlier,
          writes s' = earlier ++ [(indexPath base,
                                   html E (rewriteHtml (urlToLocal s') base (load E page)))]) /\
  (forall base d msg,
      urlStr <> "" -> newURL E urlStr None = Returned base ->
      fs_mkdir E (disk s) (assetsDirOf base) = Returned d ->
      axios_get E (tick s) urlStr (rootHeaders base s) = Thrown msg ->
      exists s', cloneWebsite urlStr s = (Thrown msg, s') /\ writes s' = writes s).
Proof.
  split; [intros ->; apply cloneWebsite_empty|].
  split; [intros msg Hne Hu; now apply (cloneWebsite_invalid urlStr msg)|].
  split.
  - intros base d page Hne Hu Hmk Hget Hparse Hwrite.
    rewrite (cloneWebsite_valid _ _ _ Hne Hu).
    destruct (afterValidation urlStr base s) as [r s'] eqn:Hrun.
    apply afterValidation_run in Hrun.
    destruct Hrun as [msg Hmk' _ _ | d0 msg _ Hget' _ _ _ | d0 page0 msg _ Hget' Hno _ _ _
                     | d0 page0 results nreq nasg s7 urls bws d5 _ Hget' _ _ _ _ _ _ _ _ _ Hend];
      try congruence.
    assert (page0 = page) by congruence. subst page0.
    destruct (Hwrite (disk s7) (html E (rewriteHtml (urlToLocal s7) base (load E page))))
      as [d1 Hd1].
    rewrite Hd1 in Hend. destruct Hend as [-> ->].
    eexists _, _. split; [reflexivity|]. split; [reflexivity|]. split; [reflexivity|].
    exists (writes s7). reflexivity.
  - intros base d msg Hne Hu Hmk Hget.
    rewrite (cloneWebsite_valid _ _ _ Hne Hu).
    destruct (afterValidation urlStr base s) as [r s'] eqn:Hrun.
    apply afterValidation_run in Hrun.
    destruct Hrun as [msg0 Hmk' _ _ | d0 msg0 _ Hget' -> _ Hw | d0 page0 msg0 _ Hget' _ _ _ _
                     | d0 page0 results nreq nasg s7 urls bws d5 _ Hget' _ _ _ _ _ _ _ _ _ _];
      try congruence.
    exists s'. split; [|exact Hw]. congruence.
Qed.

Lemma C2_clone_returns_or_rejects_witness :
  (exists man s',
      cloneWebsite (E := Fixture.site) "http://site.test/" (Fixture.start Fixture.site [])
      = (Returned (CloneManifest man), s') /\
      status man = "success" /\
      dir man = "/work/clones/site.test_1700000000000") /\
  cloneWebsite (E := Fixture.site) "" (Fixture.start Fixture.site [])
    = (Returned (ErrorString "No URL provided"), Fixture.start Fixture.site []) /\
  cloneWebsite (E := Fixture.site) "not a url" (Fixture.start Fixture.site [])
    = (Returned (ErrorString "Invalid URL: not a url"), Fixture.start Fixture.site []) /\
  (exists s',
      cloneWebsite (E := OfflineFixture.site) "http://down.test/"
                   (Fixture.start OfflineFixture.site [])
      = (Thrown "getaddrinfo ENOTFOUND http://down.test/", s')).
Proof.
  destruct (C2_clone_returns_or_rejects (E := Fixture.site) "http://site.test/"
              (Fixture.start Fixture.site [])) as (_ & _ & Hok & _).
  destruct (C2_clone_returns_or_rejects (E := Fixture.site) ""
              (Fixture.start Fixture.site [])) as (Hempty & _).
  destruct (C2_clone_returns_or_rejects (E := Fixture.site) "not a url"
              (Fixture.start Fixture.site [])) as (_ & Hbad & _).
  destruct (C2_clone_returns_or_rejects (E := OfflineFixture.site) "http://down.test/"
              (Fixture.start OfflineFixture.site [])) as (_ & _ & _ & Hdown).
  split; [|split; [|split]].
  - destruct (Hok (Fixture.http "site.test" "/") [] "<html>") as (man & s' & Hrun & Hst & Hdir & _).
    + discriminate.
    + reflexivity.
    + reflexivity.
    + reflexivity.
    + intros el value Hin Hm Hget. vm_compute in Hin.
      destruct Hin as [<-|[<-|[]]]; vm_compute in Hm; discriminate.
    + intros d0 data. eexists. reflexivity.
    + exists man, s'. split; [exact Hrun|]. split; [exact Hst|].
      rewrite Hdir. vm_compute. reflexivity.
  - apply Hempty. reflexivity.
  - apply (Hbad "Invalid URL"); [discriminate | reflexivity].
  - destruct (Hdown (Fixture.http "down.test" "/") [] "getaddrinfo ENOTFOUND http://down.test/")
      as (s' & Hrun & _); [discriminate | reflexivity | reflexivity | reflexivity |].
    exists s'. exact Hrun.
Defined.

(** * Further properties of the cloning tool *)

(** ** [safeFilename] *)


Lemma sanitize_char_eqb c d :
  unsafe_char d = false -> d <> "_"%char ->
  Ascii.eqb (sanitize_char c) d = Ascii.eqb c d.
Proof.
  intros Hd Hu. unfold sanitize_char. destruct (unsafe_char c) eqn:Hc; [|reflexivity].
  destruct (Ascii.eqb c d) eqn:Hcd.
  - apply Ascii.eqb_eq in Hcd. congruence.
  - apply Ascii.eqb_neq. congruence.
Qed.

Lemma safeFilename_cons c p :
  safeFilename (String c p) = String (sanitize_char c) (safeFilename p).
Proof. reflexivity. Qed.




Lemma safeFilename_split p :
  Js.split Path.sep (safeFilename p) = map safeFilename (Js.split Path.sep p).
Proof.
  induction p as [|c p IH]; [reflexivity|]. rewrite safeFilename_cons. simpl Js.split.
  rewrite sanitize_char_eqb by (reflexivity || discriminate). rewrite IH.
  destruct (Ascii.eqb c Path.sep); [reflexivity|].
  destruct (Js.split Path.sep p) as [|w ws] eqn:Hs; [|reflexivity].
  exfalso. eapply split_nonempty. exact Hs.
Qed.

Lemma safeFilename_eqb_empty seg : String.eqb (safeFilename seg) "" = String.eqb seg "".
Proof. destruct seg; reflexivity. Qed.

Lemma safeFilename_eqb_dot seg : String.eqb (safeFilename seg) "." = String.eqb seg ".".
Proof.
  destruct seg as [|c seg]; [reflexivity|]. rewrite safeFilename_cons. simpl.
  rewrite sanitize_char_eqb by (reflexivity || discriminate).
  destruct (Ascii.eqb c "."); [apply safeFilename_eqb_empty|reflexivity].
Qed.

Lemma safeFilename_eqb_dotdot seg : String.eqb (safeFilename seg) ".." = String.eqb seg "..".
Proof.
  destruct seg as [|c seg]; [reflexivity|]. rewrite safeFilename_cons. simpl.
  rewrite sanitize_char_eqb by (reflexivity || discriminate).
  destruct (Ascii.eqb c "."); [apply safeFilename_eqb_dot|reflexivity].
Qed.

Lemma push_segment_safeFilename b acc seg :
  Path.push_segment b (map safeFilename acc) (safeFilename seg)
  = map safeFilename (Path.push_segment b acc seg).
Proof.
  unfold Path.push_segment.
  rewrite safeFilename_eqb_empty, safeFilename_eqb_dot, safeFilename_eqb_dotdot.
  destruct (String.eqb seg "" || String.eqb seg "."); [reflexivity|].
  destruct (String.eqb seg ".."); [|reflexivity].
  destruct acc as [|top rest]; simpl.
  - destruct b; reflexivity.
  - rewrite safeFilename_eqb_dotdot. destruct (String.eqb top ".."); reflexivity.
Qed.

Lemma fold_push_safeFilename b segs : forall acc,
  fold_left (Path.push_segment b) (map safeFilename segs) (map safeFilename acc)
  = map safeFilename (fold_left (Path.push_segment b) segs acc).
Proof.
  induction segs as [|seg segs IH]; intros acc; simpl; [reflexivity|].
  rewrite push_segment_safeFilename. apply IH.
Qed.

(** X2: [safeFilename] touches neither separators nor dots.  The
    segments of the sanitised path are the sanitised segments of the path,
    a segment is [..] (or [.], or empty) after sanitising exactly when it
    was before, and so sanitising commutes with the normalisation that
    [path.join] and [path.resolve] perform: it removes no step upwards. *)
Theorem X2_safeFilename_keeps_dot_segments (p : string) :
  Js.split Path.sep (safeFilename p) = map safeFilename (Js.split Path.sep p) /\
  (forall seg, safeFilename seg = ".." <-> seg = "..") /\
  (forall allowAboveRoot,
      Path.normalizeSegments allowAboveRoot (safeFilename p)
      = map safeFilename (Path.normalizeSegments allowAboveRoot p)).
Proof.
  split; [apply safeFilename_split|]. split.
  - intros seg. rewrite <- !String.eqb_eq. rewrite safeFilename_eqb_dotdot. reflexivity.
  - intros b. unfold Path.normalizeSegments. rewrite safeFilename_split.
    change (@nil string) with (map safeFilename []) at 1.
    rewrite fold_push_safeFilename. symmetry. apply map_rev.
Qed.

(** ** [downloadAsset] *)

(** X3: [downloadAsset] never rejects.  It makes exactly one request, for
    the URL it was given, and returns an outcome that names that URL,
    leaving [urlToLocal] and the console alone.  A success has written
    exactly one file, holding the body that the request returned, at a
    path whose resolved form begins with the resolved base directory; a
    failure has written none. *)
Theorem X3_downloadAsset_one_request_one_file {E : Env}
        (urlStr outBaseDir : string) (headers : Headers) (s : State E) :
  exists r s',
    downloadAsset urlStr outBaseDir headers s = (Returned r, s') /\
    outcome_url r = urlStr /\
    requests s' = requests s ++ [urlStr] /\
    urlToLocal s' = urlToLocal s /\
    console s' = console s /\
    match r with
    | Success outPath data _ =>
        axios_get E (tick s) urlStr headers = Returned data /\
        Js.startsWith (Path.resolve (cwd E) outPath)
                      (Path.resolve (cwd E) outBaseDir) = true /\
        writes s' = writes s ++ [(outPath, data)]
    | Failure _ _ => writes s' = writes s
    end.
Proof.
  unfold downloadAsset, try_catch, bind, get, lift, mkdir, writeFile, throw, ret.
  simpl.
  destruct (axios_get E (tick s) urlStr headers) as [data|msg]; simpl;
    [|eexists _, _; repeat split; reflexivity].
  destruct (newURL E urlStr None) as [u|msg]; simpl;
    [|eexists _, _; repeat split; reflexivity].
  match goal with
  | |- context [Js.startsWith ?a ?b] => destruct (Js.startsWith a b) eqn:Hcheck
  end; simpl; [|eexists _, _; repeat split; reflexivity].
  match goal with
  | |- context [fs_mkdir E ?d ?p] => destruct (fs_mkdir E d p) as [d1|msg]
  end; simpl; [|eexists _, _; repeat split; reflexivity].
  match goal with
  | |- context [fs_writeFile E ?d ?p ?c] => destruct (fs_writeFile E d p c) as [d2|msg]
  end; simpl; eexists _, _; repeat split; try reflexivity.
  exact Hcheck.
Qed.

Lemma downloadAsset_success_path {E : Env} urlStr outBaseDir headers (s s' : State E)
      outPath data url :
  downloadAsset urlStr outBaseDir headers s = (Returned (Success outPath data url), s') ->
  exists u, newURL E urlStr None = Returned u /\ outPath = outPathOf outBaseDir (pathname u).
Proof.
  unfold downloadAsset, try_catch, bind, get, lift, mkdir, writeFile, throw, ret.
  simpl.
  destruct (axios_get E (tick s) urlStr headers) as [body|msg]; simpl; [|discriminate].
  destruct (newURL E urlStr None) as [u|msg]; simpl; [|discriminate].
  match goal with
  | |- context [Js.startsWith ?a ?b] => destruct (Js.startsWith a b) eqn:Hcheck
  end; simpl; [|discriminate].
  match goal with
  | |- context [fs_mkdir E ?d ?p] => destruct (fs_mkdir E d p) as [d1|msg]
  end; simpl; [|discriminate].
  match goal with
  | |- context [fs_writeFile E ?d ?p ?c] => destruct (fs_writeFile E d p c) as [d2|msg]
  end; simpl; [|discriminate].
  intros H. injection H as <- _ _ _. exists u. split; reflexivity.
Qed.

(** X4: the file that [downloadAsset] writes is named after the
    [pathname] of the URL alone.  Two URLs with the same [pathname], on
    different hosts or with different queries, are stored at the same
    path, and the download that comes second replaces the file of the
    first. *)
Theorem X4_same_pathname_same_file {E : Env}
        (url1 url2 outBaseDir : string) (h1 h2 : Headers) (u1 u2 : URL)
        (s1 s1' s2 s2' : State E) (p1 d1 p2 d2 : string) :
  newURL E url1 None = Returned u1 ->
  newURL E url2 None = Returned u2 ->
  pathname u1 = pathname u2 ->
  downloadAsset url1 outBaseDir h1 s1 = (Returned (Success p1 d1 url1), s1') ->
  downloadAsset url2 outBaseDir h2 s2 = (Returned (Success p2 d2 url2), s2') ->
  p1 = p2.
Proof.
  intros Hu1 Hu2 Hpath H1 H2.
  apply downloadAsset_success_path in H1 as (u1' & Hu1' & ->).
  apply downloadAsset_success_path in H2 as (u2' & Hu2' & ->).
  congruence.
Qed.

Lemma X4_same_pathname_same_file_witness :
  fst CollisionFixture.first
    = Returned (Success "/work/clones/a.test_1700000000000/assets/logo.png" "PNG of a"
                        "http://a.test/logo.png") /\
  fst CollisionFixture.second
    = Returned (Success "/work/clones/a.test_1700000000000/assets/logo.png" "PNG of b"
                        "http://b.test/logo.png") /\
  "/work/clones/a.test_1700000000000/assets/logo.png"
    = "/work/clones/a.test_1700000000000/assets/logo.png" /\
  disk (snd CollisionFixture.second)
    = [("/work/clones/a.test_1700000000000/assets/logo.png", "PNG of b")].
Proof.
  split; [reflexivity|]. split; [reflexivity|]. split; [|reflexivity].
  apply (X4_same_pathname_same_file (E := CollisionFixture.site)
           "http://a.test/logo.png" "http://b.test/logo.png" CollisionFixture.assetsDir
           noHeaders noHeaders
           (Fixture.http "a.test" "/logo.png") (Fixture.http "b.test" "/logo.png")
           (Fixture.start CollisionFixture.site []) (snd CollisionFixture.first)
           (snd CollisionFixture.first) (snd CollisionFixture.second)
           _ "PNG of a" _ "PNG of b");
    vm_compute; reflexivity.
Defined.

(** ** Discovery of the assets of a page *)

Lemma set_add_In x l u : In u (set_add x l) <-> In u l \/ u = x.
Proof.
  unfold set_add. destruct (existsb (String.eqb x) l) eqn:Hx.
  - split; [auto|]. intros [H| ->]; [exact H|].
    apply existsb_exists in Hx as (y & Hy & Heq). apply String.eqb_eq in Heq. now subst.
  - rewrite in_app_iff. simpl. intuition congruence.
Qed.

(** A loop that collects into a set what each item contributes. *)
Lemma foldM_collect {E : Env} {A} (f : list string -> A -> M (list string))
      (G : A -> string -> Prop) :
  (forall b x (s : State E) b' s',
      f b x s = (Returned b', s') -> forall u, In u b' <-> In u b \/ G x u) ->
  forall l b (s : State E) b' s',
    foldM f l b s = (Returned b', s') ->
    forall u, In u b' <-> In u b \/ exists x, In x l /\ G x u.
Proof.
  intros Hf. induction l as [|x l IH]; intros b s b' s' Hrun u; simpl in Hrun.
  - injection Hrun as <- <-. split; [auto|]. intros [H|(x & [] & _)]. exact H.
  - unfold bind in Hrun. destruct (f b x s) as [[b1|msg] s1] eqn:Hstep; [|discriminate].
    rewrite (IH _ _ _ _ Hrun u), (Hf _ _ _ _ _ Hstep u). split.
    + intros [[H|H]|(y & Hy & HG)]; [auto| |]; right; eexists; split; eauto; simpl; auto.
    + intros [H|(y & [<-|Hy] & HG)]; [auto|auto|]. right. eauto.
Qed.

Lemma discoverSrcsetPart_collects {E : Env} base b part (s : State E) b' s' :
  discoverSrcsetPart base b part s = (Returned b', s') ->
  forall u, In u b' <->
            In u b \/ (Js.truthy (srcsetToken part) = true /\
                       resolvesTo base (srcsetToken part) u).
Proof.
  unfold discoverSrcsetPart. fold (srcsetToken part).
  destruct (Js.truthy (srcsetToken part)) eqn:Ht.
  - unfold bind, lift, resolvesTo.
    destruct (newURL E (srcsetToken part) (Some (href base))) as [U|msg]; [|discriminate].
    intros H u. injection H as <- <-. rewrite set_add_In. split.
    + intros [H| ->]; [auto|]. right. split; [reflexivity|]. eauto.
    + intros [H|(_ & U' & HU & <-)]; [auto|]. right. congruence.
  - intros H u. injection H as <- <-. split; [auto|]. intros [H|[H _]]; [exact H|discriminate].
Qed.

Lemma discoverElement_collects {E : Env} base attr b el (s : State E) b' s' :
  discoverElement base attr b el s = (Returned b', s') ->
  forall u, In u b' <-> In u b \/ elementRef base attr el u.
Proof.
  unfold discoverElement, elementRef.
  destruct (getAttr el attr) as [value|] eqn:Hget.
  2:{ intros H u. injection H as <- <-. split; [auto|].
      intros [H|(v & Hv & _)]; [exact H|discriminate]. }
  destruct (Js.truthy value) eqn:Ht; simpl.
  2:{ intros H u. injection H as <- <-. split; [auto|].
      intros [H|(v & Hv & Htv & _)]; [exact H|congruence]. }
  destruct (String.eqb attr "srcset") eqn:Hattr.
  - intros Hrun u.
    rewrite (foldM_collect (discoverSrcsetPart base)
               (fun part u => Js.truthy (srcsetToken part) = true /\
                              resolvesTo base (srcsetToken part) u)
               (fun b x s b' s' H => discoverSrcsetPart_collects base b x s b' s' H)
               _ _ _ _ _ Hrun u).
    split.
    + intros [H|(part & Hin & Htok & Hres)]; [auto|]. right.
      exists value. split; [reflexivity|]. split; [exact Ht|]. eauto.
    + intros [H|(v & Hv & _ & part & Hin & Htok & Hres)]; [auto|]. right.
      injection Hv as <-. eauto.
  - unfold try_catch, bind, lift, resolvesTo.
    destruct (newURL E value (Some (href base))) as [U|msg] eqn:HU.
    + intros H u. injection H as <- <-. rewrite set_add_In. split.
      * intros [H| ->]; [auto|]. right. exists value. eauto.
      * intros [H|(v & Hv & _ & U' & HU' & <-)]; [auto|]. right. congruence.
    + unfold log, ret. intros H u. injection H as <- <-. split; [auto|].
      intros [H|(v & Hv & _ & U' & HU' & _)]; [exact H|congruence].
Qed.

Example srcsetToken_nbsp : srcsetToken ("a.png" +:+ Js.nbsp +:+ "2x") = "a.png".
Proof. reflexivity. Qed.

(** X5: the discovery of lines 103-121 makes no request and writes no
    file (it only prints warnings); when it returns, which it does as
    soon as the URL tokens of the [srcset]s of the images parse, the list
    it returns has no duplicates and holds exactly the absolute URLs that
    the catalogued attributes of the document refer to: none is missed,
    and none is made up.  The URL token of an entry of a [srcset] ends at
    the first white space, that of [trim] and [\s]: of the two entries
    of [a.png], a no-break space, [2x], a comma, a space and a no-break
    space, the first refers to [a.png] and the second to nothing. *)
Theorem X5_discovery_collects_the_references {E : Env} (base : URL) (doc : Doc)
        (s : State E) :
  (exists r s',
      discoverAssets base doc s = (r, s') /\
      only_console s s' /\
      (forall assetUrls,
          r = Returned assetUrls ->
          NoDup assetUrls /\ forall u, In u assetUrls <-> referenced base doc u) /\
      (srcsets_parse base doc -> exists assetUrls, r = Returned assetUrls)) /\
  (forall ua,
      newURL E "a.png" (Some (href base)) = Returned ua ->
      fst (discoverAssets base
             [mkElement "img" [("srcset", "a.png" +:+ Js.nbsp +:+ "2x, " +:+ Js.nbsp)]] s)
      = Returned [href ua]).
Proof.
  split; [|intros ua Hua; cbv -[newURL href]; rewrite Hua; reflexivity].
  destruct (discoverAssets_spec base doc s) as (r & s' & Hrun & Hcons & Hnd & Hret).
  exists r, s'. split; [exact Hrun|]. split; [exact Hcons|]. split; [|exact Hret].
  intros assetUrls ->. split; [now apply Hnd|]. intros u.
  unfold discoverAssets in Hrun.
  rewrite (foldM_collect
             (fun assetSet '(selector, attr) =>
                foldM (discoverElement base attr)
                      (List.filter (matches selector) doc) assetSet)
             (fun sa u => exists el, In el (List.filter (matches (fst sa)) doc) /\
                                     elementRef base (snd sa) el u)
             ltac:(intros b [sel attr] s0 b' s0' H u0;
                   exact (foldM_collect (discoverElement base attr) (elementRef base attr)
                            (fun b x s b' s' H => discoverElement_collects base attr b x s b' s' H)
                            _ _ _ _ _ H u0))
             _ _ _ _ _ Hrun u).
  unfold referenced. split.
  - intros [[]|([sel attr] & Hin & el & Hel & Href)]. simpl in Hel, Href.
    apply filter_In in Hel as [Hdoc Hm]. exists sel, attr, el. auto.
  - intros (sel & attr & el & Hin & Hdoc & Hm & Href). right.
    exists (sel, attr). split; [exact Hin|]. exists el. split; [|exact Href].
    apply filter_In. auto.
Qed.

(** ** The rewriting of the document *)

Lemma rewriteHtml_elementwise {E : Env} m base doc :
  rewriteHtml m base doc = map (rewriteElement m base) doc.
Proof.
  unfold rewriteHtml, rewriteElement.
  generalize assetSelectors as sels. intros sels. revert doc.
  induction sels as [|[sel attr] sels IH]; intros doc; simpl.
  - symmetry. apply map_id.
  - rewrite IH. unfold mapAttr. rewrite map_map. reflexivity.
Qed.

Lemma attr_update_names name value l :
  map fst (attr_update name value l) = map fst l \/
  (attr_lookup name l = None /\ map fst (attr_update name value l) = map fst l ++ [name]).
Proof.
  induction l as [|[n v] l IH]; simpl.
  - right. split; reflexivity.
  - destruct (String.eqb name n); [left; reflexivity|].
    destruct IH as [IH|[Hnone IH]]; simpl; [left|right; split; [exact Hnone|]]; congruence.
Qed.

Lemma attr_lookup_update_other name name' value l :
  name <> name' -> attr_lookup name (attr_update name' value l) = attr_lookup name l.
Proof.
  intros Hne. induction l as [|[n v] l IH]; simpl.
  - apply String.eqb_neq in Hne. rewrite Hne. reflexivity.
  - destruct (String.eqb name' n) eqn:Hn'; simpl.
    + apply String.eqb_eq in Hn'. subst n. apply String.eqb_neq in Hne. rewrite Hne.
      reflexivity.
    + destruct (String.eqb name n); [reflexivity|exact IH].
Qed.

Lemma attr_lookup_names name l :
  attr_lookup name l = None <-> ~ In name (map fst l).
Proof.
  induction l as [|[n v] l IH]; simpl; [tauto|].
  destruct (String.eqb name n) eqn:Hn.
  - apply String.eqb_eq in Hn. subst. split; [discriminate|]. intros H. exfalso. auto.
  - apply String.eqb_neq in Hn. rewrite IH. split; [intros H [Heq|Hin]; auto; congruence|tauto].
Qed.

Lemma touched_refl el : touched el el.
Proof. split; [reflexivity|]. split; [left; reflexivity|]. reflexivity. Qed.

Lemma touched_setAttr el attr value :
  existsb (String.eqb attr) cataloguedAttrs = true ->
  (attr = "src" \/ getAttr el attr <> None) ->
  touched el (setAttr el attr value).
Proof.
  intros Hcat Hpresent. split; [reflexivity|]. split.
  - simpl. destruct (attr_update_names attr value (attrs el)) as [H|[Hnone H]]; [left; exact H|].
    destruct Hpresent as [->|Hp]; [right; split; assumption|]. contradiction.
  - intros name Hname. unfold getAttr. simpl. apply attr_lookup_update_other.
    intros ->. congruence.
Qed.

Lemma touched_trans el1 el2 el3 : touched el1 el2 -> touched el2 el3 -> touched el1 el3.
Proof.
  intros (Ht1 & Hn1 & Ho1) (Ht2 & Hn2 & Ho2). split; [congruence|]. split.
  - destruct Hn2 as [Hn2|[Hnone2 Hn2]].
    + rewrite Hn2. destruct Hn1 as [Hn1|[Hnone1 Hn1]]; [left|right]; auto.
    + destruct Hn1 as [Hn1|[Hnone1 Hn1]].
      * right. split; [|congruence]. unfold getAttr in *.
        apply attr_lookup_names. apply attr_lookup_names in Hnone2. congruence.
      * exfalso. unfold getAttr in Hnone2. apply attr_lookup_names in Hnone2.
        apply Hnone2. rewrite Hn1. apply in_app_iff. right. left. reflexivity.
  - intros name Hname. rewrite Ho2, Ho1 by exact Hname. reflexivity.
Qed.

Lemma mapAttrElement_touched {E : Env} m base attr el :
  existsb (String.eqb attr) cataloguedAttrs = true ->
  touched el (mapAttrElement m base attr el).
Proof.
  intros Hcat. unfold mapAttrElement.
  destruct (getAttr el attr) as [value|] eqn:Hget; [|apply touched_refl].
  destruct (negb (Js.truthy value)); [apply touched_refl|].
  assert (Hpresent : getAttr el attr <> None) by congruence.
  destruct (String.eqb attr "srcset").
  - destruct (rewriteSrcset m base value); [|apply touched_refl].
    apply touched_setAttr; auto.
  - destruct (newURL E value (Some (href base))) as [u|msg]; [|apply touched_refl].
    destruct (Obj.has (href u) m); [apply touched_setAttr; auto|].
    destruct (existsb (String.eqb attr) ["src"; "poster"]); [|apply touched_refl].
    apply touched_setAttr; [reflexivity|auto].
Qed.

Lemma rewriteElement_touched {E : Env} m base el :
  touched el (rewriteElement m base el) /\
  (existsb (String.eqb (tag el)) cataloguedTags = false -> rewriteElement m base el = el).
Proof.
  unfold rewriteElement.
  assert (Hgen : forall sels el0,
             Forall (fun sa : Selector * string =>
                       existsb (String.eqb (snd sa)) cataloguedAttrs = true /\
                       existsb (String.eqb (sel_tag (fst sa))) cataloguedTags = true) sels ->
             touched el0
               (fold_left (fun e '(selector, attr) =>
                             if matches selector e then mapAttrElement m base attr e else e)
                          sels el0) /\
             (existsb (String.eqb (tag el0)) cataloguedTags = false ->
              fold_left (fun e '(selector, attr) =>
                           if matches selector e then mapAttrElement m base attr e else e)
                        sels el0 = el0)).
  { induction sels as [|[sel attr] sels IH]; intros el0 Hall; simpl.
    - split; [apply touched_refl|reflexivity].
    - inversion Hall as [|? ? [Hattr Htag] Hall']; subst. simpl in Hattr, Htag.
      destruct (matches sel el0) eqn:Hm.
      + destruct (IH (mapAttrElement m base attr el0) Hall') as [Ht Hfix]. split.
        * eapply touched_trans; [apply mapAttrElement_touched; exact Hattr|exact Ht].
        * intros Hno. exfalso. unfold matches in Hm. apply andb_prop in Hm as [Hm _].
          apply String.eqb_eq in Hm. rewrite Hm in Hno. congruence.
      + apply IH. exact Hall'. }
  apply Hgen. unfold assetSelectors.
  repeat (constructor; [split; reflexivity|]). constructor.
Qed.

(** X6: the rewriting of lines 209-240 works element by element and only
    on attributes.  The rewritten document has the same elements in the
    same order with the same tags; the attributes of an element keep
    their names and their order, [src] being added at the end in the
    only case where the placeholder is put on an element without [src];
    an attribute whose name the catalogue does not mention keeps its
    value; and an element whose tag the catalogue does not mention is
    not changed at all. *)
Theorem X6_rewriting_keeps_the_structure {E : Env} (m : Obj.t) (base : URL) (doc : Doc) :
  length (rewriteHtml m base doc) = length doc /\
  Forall2 rewrittenElement doc (rewriteHtml m base doc).
Proof.
  rewrite rewriteHtml_elementwise. split; [apply length_map|].
  induction doc as [|el doc IH]; simpl; constructor; [|exact IH].
  destruct (rewriteElement_touched m base el) as [(Ht & Hn & Ho) Hfix].
  split; [exact Ht|]. split; [|split; [exact Ho|exact Hfix]].
  destruct Hn as [Hn|[_ Hn]]; [left|right]; exact Hn.
Qed.

(** ** Where a job writes *)

Lemma sepfree_cons c s :
  sepfree (String c s) -> Ascii.eqb c Path.sep = false /\ sepfree s.
Proof.
  unfold sepfree. simpl. destruct (Ascii.eqb c Path.sep); [discriminate|].
  destruct (Js.split Path.sep s) as [|w ws] eqn:Hs.
  - exfalso. eapply split_nonempty. exact Hs.
  - intros H. injection H as -> ->. split; reflexivity.
Qed.

Lemma prefix_cons c a b : String.prefix (String c a) (String c b) = String.prefix a b.
Proof. simpl. destruct (Ascii.ascii_dec c c); [reflexivity|contradiction]. Qed.

Lemma prefix_cons_inv c d a b :
  String.prefix (String c a) (String d b) = true -> c = d /\ String.prefix a b = true.
Proof. simpl. destruct (Ascii.ascii_dec c d); [auto|discriminate]. Qed.

(** A segment followed by a separator is a prefix only of a string that
    starts with the same segment and a separator. *)
Lemma prefix_head x : forall y r r',
  sepfree x -> sepfree y ->
  (r' = "" \/ exists r2, r' = "/" +:+ r2) ->
  String.prefix (x +:+ "/" +:+ r) (y +:+ r') = true ->
  x = y /\ exists r2, r' = "/" +:+ r2 /\ String.prefix r r2 = true.
Proof.
  induction x as [|c x IH]; intros y r r' Hx Hy Hr' Hp.
  - destruct y as [|d y].
    + destruct Hr' as [->|[r2 ->]]; [discriminate|].
      change ("" +:+ "/" +:+ r) with (String "/" r) in Hp.
      change ("" +:+ "/" +:+ r2) with (String "/" r2) in Hp.
      rewrite prefix_cons in Hp. split; [reflexivity|]. eauto.
    + apply sepfree_cons in Hy as [Hd _].
      change ("" +:+ "/" +:+ r) with (String "/" r) in Hp.
      change (String d y +:+ r') with (String d (y +:+ r')) in Hp.
      apply prefix_cons_inv in Hp as [<- _]. discriminate.
  - apply sepfree_cons in Hx as [Hc Hx].
    change (String c x +:+ "/" +:+ r) with (String c (x +:+ "/" +:+ r)) in Hp.
    destruct y as [|d y].
    + destruct Hr' as [->|[r2 ->]]; [discriminate|].
      change ("" +:+ "/" +:+ r2) with (String "/" r2) in Hp.
      apply prefix_cons_inv in Hp as [-> _]. discriminate.
    + apply sepfree_cons in Hy as [Hd Hy].
      change (String d y +:+ r') with (String d (y +:+ r')) in Hp.
      apply prefix_cons_inv in Hp as [<- Hp].
      destruct (IH y r r' Hx Hy Hr' Hp) as [-> Hrest]. split; [reflexivity|exact Hrest].
Qed.

Lemma join_prefix_segments a N : forall T,
  a <> "" -> Forall sepfree N -> Forall sepfree T ->
  String.prefix (Js.join "/" (N ++ [a])) (Js.join "/" T) = true ->
  exists rest, T = N ++ rest /\ rest <> [].
Proof.
  intros T Ha HN. revert T. induction HN as [|x N Hx HN IH]; intros T HT Hp.
  - exists T. split; [reflexivity|]. intros ->. simpl in Hp.
    destruct a; [congruence|discriminate].
  - change ((x :: N) ++ [a]) with (x :: (N ++ [a])) in Hp.
    rewrite join_cons_nonempty in Hp by (destruct N; discriminate).
    destruct T as [|y T].
    { exfalso. change (Js.join "/" []) with "" in Hp.
      destruct x; discriminate. }
    inversion HT as [|? ? Hy HT']; subst.
    assert (Hshape : exists r', Js.join "/" (y :: T) = y +:+ r' /\
                                (r' = "" \/ exists r2, r' = "/" +:+ r2) /\
                                (forall r2, r' = "/" +:+ r2 -> T <> [] /\ r2 = Js.join "/" T)).
    { destruct T as [|z T].
      - exists "". split; [simpl; now rewrite app_empty_r|]. split; [auto|]. discriminate.
      - exists ("/" +:+ Js.join "/" (z :: T)). split; [reflexivity|]. split; [eauto|].
        intros r2 H. injection H as <-. split; [discriminate|reflexivity]. }
    destruct Hshape as (r' & Hj & Hr' & Hinv). rewrite Hj in Hp.
    destruct (prefix_head x y _ r' Hx Hy Hr' Hp) as [<- (r2 & -> & Hp')].
    destruct (Hinv r2 eq_refl) as [HTne ->].
    destruct (IH T HT' Hp') as (rest & -> & Hrest).
    exists rest. split; [reflexivity|exact Hrest].
Qed.

Lemma dropCommon_app N rest : Path.dropCommon N (N ++ rest) = ([], rest).
Proof.
  induction N as [|x N IH]; simpl; [destruct rest; reflexivity|].
  rewrite String.eqb_refl. exact IH.
Qed.

Lemma resolved_injective N T :
  Forall clean N -> Forall clean T ->
  "/" +:+ Js.join "/" N = "/" +:+ Js.join "/" T -> N = T.
Proof.
  intros HN HT Heq.
  rewrite <- (normalizeSegments_resolved N HN), <- (normalizeSegments_resolved T HT).
  congruence.
Qed.

Lemma resolvedSegments_absolute {E : Env} p :
  Path.isAbsolute p = true -> resolvedSegments p = Path.normalizeSegments false p.
Proof.
  intros Habs. unfold resolvedSegments. rewrite resolve_absolute by exact Habs.
  apply normalizeSegments_resolved, normalizeSegments_clean.
Qed.

(** A path that passed the check of line 53 against the assets directory
    lies, segment by segment, below the output directory, and its path
    relative to the output directory is made of those segments. *)
Lemma checked_descends {E : Env} outDir p :
  Path.isAbsolute outDir = true ->
  Js.startsWith (Path.resolve (cwd E) p)
                (Path.resolve (cwd E) (Path.join outDir "assets")) = true ->
  exists rest,
    rest <> [] /\ Forall clean rest /\
    resolvedSegments p = Path.normalizeSegments false outDir ++ rest /\
    localRel outDir p = Js.join "/" rest.
Proof.
  intros Habs Hcheck. rewrite (resolve_assets _ _ Habs) in Hcheck.
  set (N := Path.normalizeSegments false outDir) in *.
  assert (HN : Forall clean N) by apply normalizeSegments_clean.
  destruct (resolve_form (cwd E) p) as (T & HT & Ht).
  rewrite Ht in Hcheck. unfold Js.startsWith in Hcheck.
  change ("/" +:+ Js.join "/" T) with (String "/" (Js.join "/" T)) in Hcheck.
  change ("/" +:+ Js.join "/" (N ++ ["assets"]))
    with (String "/" (Js.join "/" (N ++ ["assets"]))) in Hcheck.
  rewrite prefix_cons in Hcheck.
  destruct (join_prefix_segments "assets" N T) as (rest & -> & Hrest);
    [discriminate | now apply clean_sepfree | now apply clean_sepfree | exact Hcheck |].
  exists rest. split; [exact Hrest|].
  split; [apply Forall_app in HT; apply HT|]. split.
  - unfold resolvedSegments. rewrite Ht. now apply normalizeSegments_resolved.
  - assert (Hf : Path.resolve (cwd E) outDir = "/" +:+ Js.join "/" N)
      by (apply resolve_absolute; exact Habs).
    assert (Hne : Path.resolve (cwd E) outDir <> Path.resolve (cwd E) p).
    { rewrite Hf, Ht. intros Heq. apply resolved_injective in Heq; [|assumption..].
      apply (f_equal (@length string)) in Heq. rewrite length_app in Heq.
      destruct rest; [congruence|simpl in Heq; lia]. }
    unfold localRel. rewrite join_split. unfold Path.relative.
    destruct (String.eqb outDir p) eqn:H1;
      [apply String.eqb_eq in H1; subst p; congruence|].
    destruct (String.eqb (Path.resolve (cwd E) outDir) (Path.resolve (cwd E) p)) eqn:H2;
      [apply String.eqb_eq in H2; congruence|].
    rewrite Hf, Ht. rewrite !normalizeSegments_resolved by assumption.
    rewrite dropCommon_app. reflexivity.
Qed.

Lemma normalizeSegments_push_list p rest :
  rest <> [] -> Forall clean rest ->
  Path.normalizeSegments false (p +:+ "/" +:+ Js.join "/" rest)
  = Path.normalizeSegments false p ++ rest.
Proof.
  intros Hne Hrest. unfold Path.normalizeSegments.
  change (p +:+ "/" +:+ Js.join "/" rest) with (p +:+ String Path.sep (Js.join "/" rest)).
  rewrite split_app_sep, split_join by (assumption || now apply clean_sepfree).
  rewrite fold_left_app, fold_push_of_clean by exact Hrest.
  rewrite rev_app_distr, rev_involutive. reflexivity.
Qed.

Lemma join_clean_nonempty rest :
  rest <> [] -> Forall clean rest -> Js.join "/" rest <> "".
Proof.
  intros Hne Hrest Hj. apply join_eq_empty in Hj as [->| ->]; [congruence|].
  inversion Hrest as [|? ? [Hx _] _]; subst. now apply Hx.
Qed.

(** Joining the output directory with a path that only goes down gives a
    path below the output directory. *)
Lemma join_descending {E : Env} outDir rest :
  Path.isAbsolute outDir = true -> rest <> [] -> Forall clean rest ->
  resolvedSegments (Path.join outDir (Js.join "/" rest))
  = Path.normalizeSegments false outDir ++ rest.
Proof.
  intros Habs Hne Hrest.
  destruct (isAbsolute_cons outDir Habs) as [p' ->].
  pose proof (join_clean_nonempty rest Hne Hrest) as HJ.
  pose proof (normalizeSegments_push_list (String "/" p') rest Hne Hrest) as Hsegs.
  set (S := Path.normalizeSegments false (String "/" p') ++ rest) in *.
  assert (HS : Forall clean S).
  { apply Forall_app. split; [apply normalizeSegments_clean|exact Hrest]. }
  assert (HSne : Js.join "/" S <> "").
  { apply join_clean_nonempty; [|exact HS]. subst S. intros H.
    apply app_eq_nil in H as [_ H]. contradiction. }
  unfold Path.join. simpl Js.truthy.
  destruct (Js.truthy (Js.join "/" rest)) eqn:Ht;
    [|apply truthy_nonempty in HJ; congruence].
  set (q := String "/" p' +:+ "/" +:+ Js.join "/" rest) in *.
  assert (Hq : exists q', q = String "/" q') by (eexists; reflexivity).
  destruct Hq as [q' Hq]. clearbody q. subst q.
  unfold Path.normalize, Path.normalizeString. simpl String.eqb. simpl Path.isAbsolute.
  cbv iota. simpl negb. rewrite Hsegs.
  destruct (String.eqb (Js.join "/" S) "") eqn:Hempty;
    [apply String.eqb_eq in Hempty; contradiction|].
  destruct (Path.hasTrailingSep (String "/" q')).
  - change ("/" +:+ (Js.join "/" S +:+ "/")) with (("/" +:+ Js.join "/" S) +:+ "/").
    rewrite resolvedSegments_absolute by reflexivity.
    rewrite normalizeSegments_trailing. now apply normalizeSegments_resolved.
  - rewrite resolvedSegments_absolute by reflexivity.
    now apply normalizeSegments_resolved.
Qed.

Lemma inside_descending {E : Env} outDir v :
  Path.isAbsolute outDir = true -> descending v -> inside outDir (Path.join outDir v).
Proof.
  intros Habs (rest & Hne & Hrest & ->). exists rest.
  rewrite join_descending by assumption.
  rewrite resolvedSegments_absolute by exact Habs. reflexivity.
Qed.

Lemma inside_checked {E : Env} outDir p :
  Path.isAbsolute outDir = true ->
  Js.startsWith (Path.resolve (cwd E) p)
                (Path.resolve (cwd E) (Path.join outDir "assets")) = true ->
  inside outDir p /\ descending (localRel outDir p).
Proof.
  intros Habs Hcheck.
  destruct (checked_descends outDir p Habs Hcheck) as (rest & Hne & Hrest & Hsegs & Hrel).
  split.
  - exists rest. rewrite Hsegs, resolvedSegments_absolute by exact Habs. reflexivity.
  - exists rest. auto.
Qed.

Lemma wroteInside_refl {E : Env} root (s : State E) : wroteInside root s s.
Proof. exists []. split; [symmetry; apply app_nil_r|constructor]. Qed.

Lemma wroteInside_trans {E : Env} root (s1 s2 s3 : State E) :
  wroteInside root s1 s2 -> wroteInside root s2 s3 -> wroteInside root s1 s3.
Proof.
  intros (w1 & H1 & F1) (w2 & H2 & F2). exists (w1 ++ w2).
  split; [rewrite H2, H1, app_assoc; reflexivity|]. apply Forall_app. auto.
Qed.

Lemma wroteInside_same {E : Env} root (s s' : State E) :
  writes s' = writes s -> wroteInside root s s'.
Proof. intros H. exists []. split; [rewrite H; symmetry; apply app_nil_r|constructor]. Qed.

Lemma Located_set {E : Env} (s s' : State E) k v :
  Located s -> descending v -> urlToLocal s' = Obj.set k v (urlToLocal s) -> Located s'.
Proof.
  unfold Located. intros Hs Hv ->. induction (urlToLocal s) as [|[k' v'] o IH]; simpl.
  - constructor; [exact Hv|constructor].
  - inversion Hs as [|? ? Hv' Ho]; subst.
    destruct (String.eqb k k'); constructor; auto.
Qed.

Lemma Located_same {E : Env} (s s' : State E) :
  urlToLocal s' = urlToLocal s -> Located s -> Located s'.
Proof. unfold Located. intros ->. auto. Qed.

Section Confinement.

Context {E : Env}.
Variable outDir : string.
Hypothesis outDir_absolute : Path.isAbsolute outDir = true.

Lemma startDownload_wrote urlStr url (s : State E) :
  wroteInside outDir s (snd (startDownload urlStr (Path.join outDir "assets") url s)).
Proof.
  unfold startDownload, bind, randomIndex.
  destruct (downloadAsset_spec url (Path.join outDir "assets")
              (mkHeaders (nth_error USER_AGENTS (random_index E (tick s))) (Some urlStr)) s)
    as (r & s' & -> & _ & _ & _ & _ & _ & _ & Hr).
  simpl snd. destruct r as [outPath data u|u err].
  - destruct Hr as [Hcheck Hw]. exists [(outPath, data)]. split; [exact Hw|].
    constructor; [|constructor]. now apply inside_checked.
  - now apply wroteInside_same.
Qed.

Lemma mapM_startDownload_wrote urlStr urls : forall s : State E,
  wroteInside outDir s (snd (mapM (startDownload urlStr (Path.join outDir "assets")) urls s)).
Proof.
  induction urls as [|url urls IH]; intros s; simpl; [apply wroteInside_refl|].
  unfold bind.
  pose proof (startDownload_wrote urlStr url s) as H1.
  destruct (startDownload_returns urlStr (Path.join outDir "assets") url s) as (r & s1 & Hrun & _).
  rewrite Hrun in H1 |- *. simpl snd in H1.
  pose proof (IH s1) as H2.
  destruct (mapM_startDownload_returns urlStr (Path.join outDir "assets") urls s1) as (rs & s2 & Hrun2 & _).
  rewrite Hrun2 in H2 |- *. simpl snd in *.
  eapply wroteInside_trans; eassumption.
Qed.

Lemma batchLoop_wrote urlStr assetUrls :
  forall n i downloadResults (s : State E),
    length assetUrls - i <= n ->
    wroteInside outDir s (snd (batchLoop urlStr (Path.join outDir "assets") assetUrls i downloadResults s)).
Proof.
  induction n as [|n IH]; intros i acc s Hn.
  - rewrite batchLoop_equation_1. simpl.
    destruct (lt_dec i (length assetUrls)) as [Hlt|Hge]; [lia|].
    simpl. apply wroteInside_refl.
  - rewrite batchLoop_equation_1. simpl.
    destruct (lt_dec i (length assetUrls)) as [Hlt|Hge]; simpl; [|apply wroteInside_refl].
    unfold bind at 1.
    pose proof (mapM_startDownload_wrote urlStr (firstn BATCH_SIZE (skipn i assetUrls)) s)
      as H1.
    destruct (mapM_startDownload_returns urlStr (Path.join outDir "assets")
                (firstn BATCH_SIZE (skipn i assetUrls)) s) as (rs1 & s1 & Hrun & _).
    rewrite Hrun in H1 |- *. simpl snd in H1.
    unfold bind at 1, sleep, ret.
    eapply wroteInside_trans; [exact H1|]. apply IH. unfold BATCH_SIZE. lia.
Qed.

Lemma processResults_located results : forall s : State E,
  Forall (checked (Path.join outDir "assets")) results ->
  Located s ->
  exists s',
    processResults outDir results s = (Returned tt, s') /\
    writes s' = writes s /\ Located s'.
Proof.
  unfold processResults.
  induction results as [|r results IH]; intros s Hchk Hloc; simpl.
  - exists s. auto.
  - inversion Hchk as [|? ? Hc Hchk']; subst. unfold bind at 1.
    destruct r as [outPath data url|url err].
    + unfold assign at 1.
      match goal with
      | |- context [forEach _ results ?s1] =>
          destruct (IH s1 Hchk') as (s' & Hrun & Hw & Hloc')
      end.
      { eapply (Located_set s); [exact Hloc| |reflexivity].
        apply (inside_checked outDir outPath outDir_absolute Hc). }
      exists s'. split; [exact Hrun|]. split; [exact Hw|exact Hloc'].
    + unfold log at 1.
      match goal with
      | |- context [forEach _ results ?s1] =>
          destruct (IH s1 Hchk') as (s' & Hrun & Hw & Hloc')
      end.
      { exact Hloc. }
      exists s'. split; [exact Hrun|]. split; [exact Hw|exact Hloc'].
Qed.

Lemma cssFetchLoop_wrote originalUrl refs (s : State E) :
  Located s ->
  exists s',
    forEach (cssFetchRef outDir (Path.join outDir "assets") originalUrl) refs s = (Returned tt, s') /\
    Located s' /\ wroteInside outDir s s'.
Proof.
  apply (forEach_spec _ Located (wroteInside outDir)
           (wroteInside_refl outDir) (wroteInside_trans outDir)).
  intros assetRef s0 Hloc.
  destruct (cssFetchRef_spec outDir (Path.join outDir "assets") originalUrl assetRef s0)
    as (s' & Hrun & _ & Heff).
  exists s'. split; [exact Hrun|].
  destruct Heff as [_ Hw Hm _ | u _ _ _ _ Hw Hm _ | u outPath data _ _ _ Hcheck _ Hw Hm _].
  - split; [now apply (Located_same s0)|now apply wroteInside_same].
  - split; [now apply (Located_same s0)|now apply wroteInside_same].
  - destruct (inside_checked outDir outPath outDir_absolute Hcheck) as [Hin Hdesc].
    split; [eapply Located_set; eassumption|].
    exists [(outPath, data)]. split; [exact Hw|]. constructor; [exact Hin|constructor].
Qed.

Lemma cssRewriteStep_wrote localPath originalUrl raw (s : State E) :
  descending localPath ->
  urlToLocal (snd (cssRewriteStep outDir (Path.join outDir localPath) originalUrl raw s))
    = urlToLocal s /\
  wroteInside outDir s
    (snd (cssRewriteStep outDir (Path.join outDir localPath) originalUrl raw s)).
Proof.
  intros Hdesc. unfold cssRewriteStep, bind, snapshot.
  destruct (negb _); [|split; [reflexivity|apply wroteInside_refl]].
  unfold writeFile. destruct (fs_writeFile E _ _ _); simpl.
  - split; [reflexivity|]. eexists [_]. split; [reflexivity|].
    constructor; [|constructor]. now apply inside_descending.
  - split; [reflexivity|apply wroteInside_refl].
Qed.

Lemma processCss_wrote entry (s : State E) :
  descending (snd entry) ->
  Located s ->
  exists s',
    processCss outDir (Path.join outDir "assets") entry s = (Returned tt, s') /\
    Located s' /\ wroteInside outDir s s'.
Proof.
  intros Hdesc Hloc. destruct entry as [originalUrl localPath]. simpl in Hdesc.
  unfold processCss.
  destruct (Js.endsWith (Js.toLowerCase originalUrl) ".css").
  2:{ exists s. split; [reflexivity|]. split; [exact Hloc|apply wroteInside_refl]. }
  unfold try_catch, bind at 1, readFile.
  destruct (fs_readFile E (disk s) (Path.join outDir localPath)) as [raw|msg].
  2:{ eexists. split; [reflexivity|]. split; [exact Hloc|now apply wroteInside_same]. }
  unfold bind at 1.
  destruct (cssFetchLoop_wrote originalUrl (cssRefs raw) s Hloc) as (s1 & -> & Hloc1 & Hw1).
  destruct (cssRewriteStep_wrote localPath originalUrl raw s1 Hdesc) as [Hmap Hw2].
  destruct (cssRewriteStep outDir (Path.join outDir localPath) originalUrl raw s1)
    as [[[]|msg] s2] eqn:Hstep; simpl in Hmap, Hw2.
  - exists s2. split; [reflexivity|]. split; [now apply (Located_same s1)|].
    eapply wroteInside_trans; eassumption.
  - eexists. split; [reflexivity|]. split.
    + apply (Located_same s2); [reflexivity|]. now apply (Located_same s1).
    + eapply wroteInside_trans; [exact Hw1|].
      eapply wroteInside_trans; [exact Hw2|]. now apply wroteInside_same.
Qed.

Lemma cssPhase_wrote entries : forall s : State E,
  Forall (fun kv : string * string => descending (snd kv)) entries ->
  Located s ->
  exists s',
    forEach (processCss outDir (Path.join outDir "assets")) entries s = (Returned tt, s') /\
    Located s' /\ wroteInside outDir s s'.
Proof.
  induction entries as [|entry entries IH]; intros s Hall Hloc; simpl.
  - exists s. split; [reflexivity|]. split; [exact Hloc|apply wroteInside_refl].
  - inversion Hall as [|? ? Hentry Hall']; subst. unfold bind.
    destruct (processCss_wrote entry s Hentry Hloc) as (s1 & -> & Hloc1 & Hw1).
    destruct (IH s1 Hall' Hloc1) as (s2 & -> & Hloc2 & Hw2).
    exists s2. split; [reflexivity|]. split; [exact Hloc2|].
    eapply wroteInside_trans; eassumption.
Qed.

End Confinement.

Lemma afterValidation_wrote {E : Env} urlStr base (s : State E) r s' :
  afterValidation urlStr base s = (r, s') ->
  wroteInside (outDirOf base) s s' /\
  (forall man, r = Returned (CloneManifest man) -> Located s').
Proof.
  pose proof (outDirOf_absolute base) as Habs.
  unfold afterValidation. fold (assetsDirOf base). fold (indexPath base).
  unfold bind at 1, mkdir.
  destruct (fs_mkdir E (disk s) (assetsDirOf base)) as [d|msg] eqn:Hmk.
  2:{ intros H. injection H as <- <-. split; [apply wroteInside_refl|discriminate]. }
  unfold bind at 1, randomIndex. simpl tick. unfold bind at 1, get. simpl tick.
  destruct (axios_get E (tick s) urlStr _) as [page|msg] eqn:Hget.
  2:{ intros H. injection H as <- <-. split; [now apply wroteInside_same|discriminate]. }
  unfold bind at 1.
  match goal with
  | |- context [discoverAssets base (load E page) ?s2] =>
      destruct (discoverAssets_spec base (load E page) s2)
        as (rd & s3 & Hdisc & Hcons & _ & _); rewrite Hdisc
  end.
  destruct Hcons as (_ & _ & _ & Hw3 & _ & _). simpl in Hw3.
  destruct rd as [assetUrls|msg].
  2:{ intros H. injection H as <- <-. split; [now apply wroteInside_same|discriminate]. }
  unfold bind at 1, newUrlToLocal. unfold bind at 1.
  match goal with
  | |- context [batchLoop urlStr (assetsDirOf base) assetUrls 0 [] ?s4] =>
      pose proof (batchLoop_wrote (outDirOf base) Habs urlStr assetUrls
                    (length assetUrls) 0 [] s4 ltac:(lia)) as Hw5;
      destruct (batchLoop_returns urlStr (assetsDirOf base) assetUrls (length assetUrls) 0 [] s4)
        as (downloadResults & s5 & Hbatch & _ & Hchk & [Hm5 _] & _); [lia|]
  end.
  unfold assetsDirOf in Hw5, Hbatch |- *. rewrite Hbatch in Hw5 |- *.
  simpl in Hm5, Hw5. change ([] ++ downloadResults) with downloadResults.
  assert (Hloc5 : Located s5) by (unfold Located; rewrite Hm5; constructor).
  unfold bind at 1.
  destruct (processResults_located (outDirOf base) Habs downloadResults s5 Hchk Hloc5)
    as (s6 & Hproc & Hw6 & Hloc6).
  rewrite Hproc. unfold bind at 1, snapshot. unfold bind at 1.
  destruct (cssPhase_wrote (outDirOf base) Habs (Obj.entries (urlToLocal s6)) s6 Hloc6 Hloc6)
    as (s7 & Hcss & Hloc7 & Hw7).
  rewrite Hcss.
  assert (Hw07 : wroteInside (outDirOf base) s s7).
  { eapply wroteInside_trans; [|exact Hw7].
    eapply wroteInside_trans; [|apply wroteInside_same; exact Hw6].
    eapply wroteInside_trans; [|exact Hw5].
    apply wroteInside_same. simpl. exact Hw3. }
  unfold bind at 1. unfold bind at 1, writeFile. intros H.
  destruct (fs_writeFile E (disk s7) (indexPath base) _) as [d'|msg];
    simpl in H; injection H as <- <-.
  - split; [|intros _ _; exact Hloc7].
    eapply wroteInside_trans; [exact Hw07|]. eexists [_]. split; [reflexivity|].
    constructor; [|constructor]. unfold indexPath.
    apply (inside_descending (outDirOf base) "index.html" Habs).
    exists ["index.html"]. split; [discriminate|]. split; [|reflexivity].
    constructor; [|constructor]. repeat split; discriminate.
  - split; [exact Hw07|discriminate].
Qed.

(** X7: whatever the page, the network and the disk, every file that a
    job writes lies, segment by segment, inside the directory
    [<cwd>/clones/<host>_<timestamp>] of the job: the downloaded assets
    (which the check of line 53 keeps below that directory, if not below
    its [assets] subdirectory), the stylesheets written back, and
    [index.html].  When the job returns a manifest, every local path in
    [urlToLocal], hence every local reference put into the document and
    the stylesheets, is a relative path made of proper segments: it is
    not empty and has no empty, [.] or [..] segment. *)
Theorem X7_job_writes_inside_its_directory {E : Env} (urlStr : string) (base : URL)
        (s : State E) (r : result CloneResult) (s' : State E) :
  newURL E urlStr None = Returned base ->
  cloneWebsite urlStr s = (r, s') ->
  wroteInside (outDirOf base) s s' /\
  (forall man, r = Returned (CloneManifest man) -> Located s').
Proof.
  intros Hu Hrun. destruct (String.eqb urlStr "") eqn:Hempty.
  { apply String.eqb_eq in Hempty. subst urlStr. rewrite cloneWebsite_empty in Hrun.
    injection Hrun as <- <-. split; [apply wroteInside_refl|discriminate]. }
  apply String.eqb_neq in Hempty.
  rewrite (cloneWebsite_valid _ _ _ Hempty Hu) in Hrun.
  exact (afterValidation_wrote urlStr base s r s' Hrun).
Qed.

Lemma X7_job_writes_inside_its_directory_witness :
  wroteInside (E := Fixture.site) "/work/clones/site.test_1700000000000"
              (Fixture.start Fixture.site []) (snd Fixture.run) /\
  map fst (writes (snd Fixture.run))
  = [ "/work/clones/site.test_1700000000000/assets/css/style.css";
      "/work/clones/site.test_1700000000000/assets/img/bg.png";
      "/work/clones/site.test_1700000000000/assets/css/style.css";
      "/work/clones/site.test_1700000000000/index.html" ].
Proof.
  split; [|reflexivity].
  refine (proj1 (X7_job_writes_inside_its_directory (E := Fixture.site) "http://site.test/"
                   (Fixture.http "site.test" "/") (Fixture.start Fixture.site [])
                   (fst Fixture.run) (snd Fixture.run) eq_refl _)).
  vm_compute. reflexivity.
Defined.

(** * Properties of the orchestrator *)

(** ** [extractFirstJsonArray] *)

Section FirstArray.

Import WorkflowOrchestrator.

Lemma indexOf_from_some c s : forall i k,
  indexOf_from c s i = Some k ->
  exists pre rest,
    s = pre +:+ String c rest /\ k = i + String.length pre /\
    all_chars (fun d => negb (Ascii.eqb d c)) pre = true.
Proof.
  induction s as [|d s IH]; intros i k H; simpl in H; [discriminate|].
  destruct (Ascii.eqb d c) eqn:Hd.
  - apply Ascii.eqb_eq in Hd. subst d. injection H as <-.
    exists "", s. simpl. split; [reflexivity|]. split; [lia|reflexivity].
  - destruct (IH _ _ H) as (pre & rest & -> & -> & Hpre).
    exists (String d pre), rest. simpl. rewrite Hd, Hpre.
    split; [reflexivity|]. split; [lia|reflexivity].
Qed.

Lemma indexOf_from_app c pre rest : forall i,
  all_chars (fun d => negb (Ascii.eqb d c)) pre = true ->
  indexOf_from c (pre +:+ String c rest) i = Some (i + String.length pre).
Proof.
  induction pre as [|d pre IH]; intros i H; simpl.
  - rewrite Ascii.eqb_refl. f_equal. lia.
  - simpl in H. apply andb_prop in H as [Hd Hpre]. apply negb_true_iff in Hd.
    rewrite Hd, IH by exact Hpre. f_equal. lia.
Qed.

Lemma bracketBalance_app a b :
  bracketBalance (a +:+ b) = (bracketBalance a + bracketBalance b)%Z.
Proof. induction a as [|c a IH]; simpl; [reflexivity|]. rewrite IH. lia. Qed.

Lemma substring_app pre r post :
  String.substring (String.length pre) (String.length r) (pre +:+ r +:+ post) = r.
Proof.
  induction pre as [|c pre IH]; simpl; [|exact IH].
  induction r as [|d r IHr]; simpl; [destruct post; reflexivity|].
  rewrite IHr. reflexivity.
Qed.

Lemma slice_app pre r post a b :
  a = String.length pre -> b = a + String.length r -> slice (pre +:+ r +:+ post) a b = r.
Proof.
  intros -> ->. unfold slice.
  replace (String.length pre + String.length r - String.length pre)
    with (String.length r) by lia.
  apply substring_app.
Qed.

(** The loop of lines 64-70 entered at a positive depth [d]: it stops
    after the shortest beginning of the text that brings the depth to
    zero. *)
Lemma arrayEnd_some rest : forall i d e,
  (0 < d)%Z ->
  arrayEnd rest i d = Some e ->
  exists r post,
    rest = r +:+ post /\ e = i + String.length r /\
    (d + bracketBalance r = 0)%Z /\
    forall p q, r = p +:+ q -> q <> "" -> (0 < d + bracketBalance p)%Z.
Proof.
  induction rest as [|c rest IH]; intros i d e Hd H; simpl in H; [discriminate|].
  assert (Hstep : forall d' r,
             (0 < d')%Z ->
             (d' = d + (if Ascii.eqb c "[" then 1 else if Ascii.eqb c "]" then -1 else 0))%Z ->
             (d' + bracketBalance r = 0)%Z ->
             (forall p q, r = p +:+ q -> q <> "" -> (0 < d' + bracketBalance p)%Z) ->
             (d + bracketBalance (String c r) = 0)%Z /\
             forall p q, String c r = p +:+ q -> q <> "" -> (0 < d + bracketBalance p)%Z).
  { intros d' r Hd' Heq Hbal Hpre. split; [cbn [bracketBalance]; lia|].
    intros p q Hpq Hq. destruct p as [|c' p]; [cbn [bracketBalance]; lia|].
    simpl in Hpq. injection Hpq as <- ->. specialize (Hpre p q eq_refl Hq).
    cbn [bracketBalance]. lia. }
  destruct (Ascii.eqb c "[") eqn:Ho.
  - assert (Hd1 : (0 < d + 1)%Z) by lia.
    destruct (IH _ _ _ Hd1 H) as (r & post & -> & -> & Hbal & Hpre).
    exists (String c r), post. split; [reflexivity|]. split; [simpl; lia|].
    apply (Hstep (d + 1)%Z r); [lia|rewrite ?Ho, ?Hc; lia|exact Hbal|exact Hpre].
  - destruct (Ascii.eqb c "]") eqn:Hc.
    + destruct (Z.eqb (d - 1) 0) eqn:Hz.
      * apply Z.eqb_eq in Hz. injection H as <-.
        exists (String c ""), rest. split; [reflexivity|]. split; [simpl; lia|].
        split; [simpl; rewrite Ho, Hc; lia|].
        intros p q Hpq Hq. destruct p as [|c' p]; [simpl; lia|].
        simpl in Hpq. injection Hpq as <- Hp. destruct p; [|discriminate].
        simpl in Hp. subst q. congruence.
      * apply Z.eqb_neq in Hz. assert (Hd1 : (0 < d - 1)%Z) by lia.
        destruct (IH _ _ _ Hd1 H) as (r & post & -> & -> & Hbal & Hpre).
        exists (String c r), post. split; [reflexivity|]. split; [simpl; lia|].
        apply (Hstep (d - 1)%Z r); [lia|rewrite ?Ho, ?Hc; lia|exact Hbal|exact Hpre].
    + destruct (IH _ _ _ Hd H) as (r & post & -> & -> & Hbal & Hpre).
      exists (String c r), post. split; [reflexivity|]. split; [simpl; lia|].
      apply (Hstep d r); [lia|rewrite ?Ho, ?Hc; lia|exact Hbal|exact Hpre].
Qed.

Lemma arrayEnd_app r : forall post i d,
  (0 < d)%Z ->
  (d + bracketBalance r = 0)%Z ->
  (forall p q, r = p +:+ q -> q <> "" -> (0 < d + bracketBalance p)%Z) ->
  arrayEnd (r +:+ post) i d = Some (i + String.length r).
Proof.
  induction r as [|c r IH]; intros post i d Hd Hbal Hpre; [simpl in Hbal; lia|].
  assert (Htail : forall d',
             (d' = d + (if Ascii.eqb c "[" then 1 else if Ascii.eqb c "]" then -1 else 0))%Z ->
             (d' + bracketBalance r = 0)%Z /\
             forall p q, r = p +:+ q -> q <> "" -> (0 < d' + bracketBalance p)%Z).
  { intros d' Heq. split; [cbn [bracketBalance] in Hbal; lia|].
    intros p q -> Hq. specialize (Hpre (String c p) q eq_refl Hq).
    cbn [bracketBalance] in Hpre. lia. }
  assert (Hlen : forall k, S k + String.length r = k + String.length (String c r))
    by (intros k; simpl; lia).
  change (String c r +:+ post) with (String c (r +:+ post)). simpl arrayEnd.
  destruct (Ascii.eqb c "[") eqn:Ho.
  - destruct (Htail (d + 1)%Z) as [Hb Hp]; [lia|].
    rewrite IH by (lia || assumption). f_equal. apply Hlen.
  - destruct (Ascii.eqb c "]") eqn:Hc.
    + destruct (Z.eqb (d - 1) 0) eqn:Hz.
      * apply Z.eqb_eq in Hz. destruct r as [|c' r]; [f_equal; simpl; lia|].
        exfalso. assert (Hq : String c' r <> "") by discriminate.
        specialize (Hpre (String c "") (String c' r) eq_refl Hq).
        simpl in Hpre. rewrite Ho, Hc in Hpre. lia.
      * apply Z.eqb_neq in Hz. destruct (Htail (d - 1)%Z) as [Hb Hp]; [lia|].
        rewrite IH by (lia || assumption). f_equal. apply Hlen.
    + destruct (Htail d) as [Hb Hp]; [lia|].
      rewrite IH by (lia || assumption). f_equal. apply Hlen.
Qed.

Lemma firstClosed_tail r' :
  firstClosed (String "[" r') ->
  (1 + bracketBalance r' = 0)%Z /\
  forall p q, r' = p +:+ q -> q <> "" -> (0 < 1 + bracketBalance p)%Z.
Proof.
  intros (_ & Hbal & Hpre). split; [simpl in Hbal; lia|].
  intros p q -> Hq. assert (Hne : String "[" p <> "") by discriminate.
  specialize (Hpre (String "[" p) q eq_refl Hne Hq).
  simpl in Hpre. lia.
Qed.

(** X8: [extractFirstJsonArray] returns a string exactly when the text,
    from its first opening square bracket on, has a beginning in which the
    square brackets balance, and then it returns the shortest such
    beginning: the text is [pre], the result and [post], where [pre] has
    no opening bracket and the result starts with a bracket that its last
    character closes for the first time.  Every square bracket counts,
    also one inside a string literal.  In all other cases (no opening
    bracket, or brackets that never balance) the result is [null]. *)
Theorem X8_extractFirstJsonArray_shortest_balanced (text r : string) :
  extractFirstJsonArray text = Some r <->
  exists pre post,
    text = pre +:+ r +:+ post /\
    all_chars (fun c => negb (Ascii.eqb c "[")) pre = true /\
    firstClosed r.
Proof.
  unfold extractFirstJsonArray, indexOf. split.
  - destruct (indexOf_from "[" text 0) as [start|] eqn:Hidx; [|discriminate].
    destruct (indexOf_from_some _ _ _ _ Hidx) as (pre & rest & -> & -> & Hpre).
    simpl Nat.add. rewrite sdrop_app. simpl arrayEnd.
    destruct (arrayEnd rest (S (String.length pre)) (0 + 1)) as [e|] eqn:Hend; [|discriminate].
    assert (Hone : (0 < 0 + 1)%Z) by lia.
    destruct (arrayEnd_some _ _ _ _ Hone Hend) as (r0 & post & -> & -> & Hbal & Hp).
    change (pre +:+ String "[" (r0 +:+ post)) with (pre +:+ String "[" r0 +:+ post).
    rewrite (slice_app pre (String "[" r0) post) by (simpl; lia).
    intros H. injection H as <-. exists pre, post. split; [reflexivity|]. split; [exact Hpre|].
    split; [eauto|]. split; [simpl; lia|].
    intros p q Hpq Hpne Hq. destruct p as [|c p]; [congruence|].
    simpl in Hpq. injection Hpq as <- ->. specialize (Hp p q eq_refl Hq). simpl. lia.
  - intros (pre & post & -> & Hpre & Hfc).
    destruct (proj1 Hfc) as [r' ->]. destruct (firstClosed_tail r' Hfc) as [Hbal Hp].
    change (pre +:+ String "[" r' +:+ post) with (pre +:+ String "[" (r' +:+ post)).
    rewrite indexOf_from_app by exact Hpre. simpl Nat.add. rewrite sdrop_app. simpl arrayEnd.
    rewrite arrayEnd_app by (lia || assumption).
    change (pre +:+ String "[" (r' +:+ post)) with (pre +:+ String "[" r' +:+ post).
    rewrite (slice_app pre (String "[" r') post) by (simpl; lia). reflexivity.
Qed.

End FirstArray.

(** ** The deterministic orchestrator and the request of the composer *)

Lemma initialRequest_last_word finalUrl :
  List.last (Js.split " " (WorkflowComposer.initialRequest finalUrl)) "" = "application.".
Proof.
  unfold WorkflowComposer.initialRequest.
  change ", analyze its structure, and generate a runnable Node.js application."
    with (", analyze its structure, and generate a runnable Node.js"
            +:+ String " " "application.").
  rewrite <- !app_assoc_s. rewrite split_app_sep.
  change (Js.split " " "application.") with ["application."].
  apply last_last.
Qed.

(** X9: the deterministic orchestrator takes as URL the last word of the
    request, and the request that the composer builds around the URL the
    user entered always ends with the word [application.]: so, whatever
    the user entered, [cloneWebsite] is called with [application.], and
    the outcome of the run does not depend on the user's URL.  The word
    has no scheme, [new URL] rejects it, [cloneWebsite] answers with an
    error string, and the run throws [Cloning failed in deterministic
    mode.] without a single request made or file written. *)
Theorem X9_deterministic_run_ignores_the_url {E : Env} (Analysis Generated : Type)
        (analyzeWebsite : string -> M Analysis)
        (generateNodeApp : string -> Analysis -> M Generated)
        (appDir : Generated -> option string)
        (finalUrl : string) (s : State E) :
  let run := DeterministicOrchestrator.run Analysis Generated analyzeWebsite
                                           generateNodeApp appDir in
  List.last (Js.split " " (WorkflowComposer.initialRequest finalUrl)) "" = "application." /\
  run (WorkflowComposer.initialRequest finalUrl) s
    = run (WorkflowComposer.initialRequest "") s /\
  (forall msg,
      newURL E "application." None = Thrown msg ->
      exists s',
        run (WorkflowComposer.initialRequest finalUrl) s
          = (Thrown "Cloning failed in deterministic mode.", s') /\
        requests s' = requests s /\ writes s' = writes s /\
        console s' = console s ++ ["Running in deterministic-only mode."]).
Proof.
  intros run. split; [apply initialRequest_last_word|]. subst run.
  unfold DeterministicOrchestrator.run. rewrite !initialRequest_last_word.
  split; [reflexivity|]. intros msg Hu.
  unfold bind at 1, log. unfold bind at 1.
  rewrite (cloneWebsite_invalid "application." msg) by (discriminate || exact Hu).
  eexists. split; [reflexivity|]. simpl. auto.
Qed.

(** * Properties of the JSON handler *)

(** ** [sanitize] *)

Lemma hasDoubleSlash_cons c s :
  hasDoubleSlash (String c s) = (Ascii.eqb c "/" && startsSlash s) || hasDoubleSlash s.
Proof. destruct s as [|d s]; simpl; [now rewrite andb_false_r|reflexivity]. Qed.

Lemma hasDoubleSlash_tail c s : hasDoubleSlash (String c s) = false -> hasDoubleSlash s = false.
Proof. rewrite hasDoubleSlash_cons. intros H. apply orb_false_elim in H. apply H. Qed.

Lemma hasDoubleSlash_sdrop k : forall s,
  hasDoubleSlash s = false -> hasDoubleSlash (sdrop k s) = false.
Proof.
  induction k as [|k IH]; intros s H; [destruct s; exact H|].
  destruct s as [|c s]; [exact H|]. simpl. apply IH. eapply hasDoubleSlash_tail. exact H.
Qed.

Lemma stripLineComments_cons2 c d s :
  JsonHandler.stripLineComments false (String c (String d s))
  = if Ascii.eqb c "/" && Ascii.eqb d "/" then JsonHandler.stripLineComments true s
    else String c (JsonHandler.stripLineComments false (String d s)).
Proof. reflexivity. Qed.

Lemma stripLineComments_spec : forall n s,
  String.length s <= n ->
  (hasDoubleSlash (JsonHandler.stripLineComments true s) = false /\
   startsSlash (JsonHandler.stripLineComments true s) = false) /\
  (hasDoubleSlash (JsonHandler.stripLineComments false s) = false /\
   (startsSlash (JsonHandler.stripLineComments false s) = true ->
    exists s', s = String "/" s' /\ startsSlash s' = false)).
Proof.
  induction n as [|n IH]; intros s Hlen.
  - destruct s; [|simpl in Hlen; lia]. simpl. repeat split; try reflexivity. discriminate.
  - destruct s as [|c s]; [simpl; repeat split; try reflexivity; discriminate|].
    simpl in Hlen. destruct (IH s ltac:(lia)) as [[Ht1 Ht2] [Hf1 Hf2]]. split.
    + simpl. destruct (Ascii.eqb c JsonHandler.LF) eqn:Hc; [|split; assumption].
      apply Ascii.eqb_eq in Hc. subst c. rewrite hasDoubleSlash_cons. simpl.
      split; [exact Hf1|reflexivity].
    + destruct s as [|d s].
      { simpl. split; [reflexivity|]. intros H. apply Ascii.eqb_eq in H. subst c.
        exists "". split; reflexivity. }
      rewrite stripLineComments_cons2.
      destruct (Ascii.eqb c "/" && Ascii.eqb d "/") eqn:Hcd.
      * simpl in Hlen. destruct (IH s ltac:(lia)) as [[Hs1 Hs2] _].
        split; [exact Hs1|]. rewrite Hs2. discriminate.
      * split.
        -- rewrite hasDoubleSlash_cons, Hf1, orb_false_r.
           destruct (Ascii.eqb c "/") eqn:Hc; [|reflexivity]. simpl in Hcd.
           destruct (startsSlash (JsonHandler.stripLineComments false (String d s))) eqn:Hst;
             [|reflexivity].
           destruct (Hf2 eq_refl) as (s' & Heq & _). injection Heq as -> _. discriminate.
        -- simpl startsSlash. intros Hc. rewrite Hc in Hcd. simpl in Hcd.
           apply Ascii.eqb_eq in Hc. subst c. exists (String d s). split; [reflexivity|exact Hcd].
Qed.

Lemma length_sdrop n : forall s, String.length (sdrop n s) = String.length s - n.
Proof.
  induction n as [|n IH]; intros [|c s]; simpl; try reflexivity; try lia. apply IH.
Qed.

Lemma dropSpaces_suffix width s : forall k,
  exists n, n <= String.length s /\ Js.dropSpaces width k s = sdrop n s.
Proof.
  induction s as [|c s IH]; intros k.
  - exists 0. split; [lia | destruct k; reflexivity].
  - cbn [Js.dropSpaces]. destruct k as [|k].
    + destruct (width (String c s)) as [|k].
      * exists 0. split; [lia | reflexivity].
      * destruct (IH k) as (n & Hn & ->). exists (S n). split; [simpl; lia | reflexivity].
    + destruct (IH k) as (n & Hn & ->). exists (S n). split; [simpl; lia | reflexivity].
Qed.

Lemma length_trimStart_le s : String.length (Js.trimStart s) <= String.length s.
Proof.
  destruct (dropSpaces_suffix Js.spaceWidth s 0) as (n & Hn & Heq).
  unfold Js.trimStart. rewrite Heq, length_sdrop. lia.
Qed.

Lemma sdrop_trimStart s :
  sdrop (String.length s - String.length (Js.trimStart s)) s = Js.trimStart s.
Proof.
  destruct (dropSpaces_suffix Js.spaceWidth s 0) as (n & Hn & Heq).
  unfold Js.trimStart. rewrite Heq, length_sdrop.
  replace (String.length s - (String.length s - n)) with n by lia. reflexivity.
Qed.

Lemma dropTrailingCommas_spec s : forall k,
  hasDoubleSlash (sdrop k s) = false ->
  hasDoubleSlash (JsonHandler.dropTrailingCommas k s) = false /\
  (startsSlash (JsonHandler.dropTrailingCommas k s) = true -> startsSlash (sdrop k s) = true).
Proof.
  induction s as [|c s IH]; intros k H.
  - destruct k; simpl; split; auto.
  - destruct k as [|k]; [|simpl; apply IH; exact H].
    change (sdrop 0 (String c s)) with (String c s) in *.
    assert (Hs : hasDoubleSlash s = false) by (eapply hasDoubleSlash_tail; exact H).
    assert (Hkeep : hasDoubleSlash (String c (JsonHandler.dropTrailingCommas 0 s)) = false /\
                    (startsSlash (String c (JsonHandler.dropTrailingCommas 0 s)) = true ->
                     startsSlash (String c s) = true)).
    { destruct (IH 0) as [H1 H2]; [destruct s; exact Hs|]. split; [|auto].
      rewrite hasDoubleSlash_cons, H1, orb_false_r.
      destruct (Ascii.eqb c "/") eqn:Hc; [|reflexivity]. simpl.
      destruct (startsSlash (JsonHandler.dropTrailingCommas 0 s)) eqn:Hst; [|reflexivity].
      specialize (H2 eq_refl). rewrite hasDoubleSlash_cons, Hc in H.
      assert (Hs0 : startsSlash s = true) by (destruct s; exact H2).
      rewrite Hs0 in H. discriminate. }
    simpl JsonHandler.dropTrailingCommas.
    destruct (Ascii.eqb c ",") eqn:Hcomma; [|exact Hkeep].
    destruct (Js.trimStart s) as [|b t] eqn:Htrim; [exact Hkeep|].
    destruct (JsonHandler.closer b) eqn:Hb; [|exact Hkeep].
    pose proof (sdrop_trimStart s) as Hdrop. rewrite Htrim in Hdrop.
    destruct (IH (String.length s - String.length (String b t))) as [H1 H2].
    { apply hasDoubleSlash_sdrop. exact Hs. }
    split; [exact H1|]. intros Hst. specialize (H2 Hst). rewrite Hdrop in H2. simpl in H2.
    apply Ascii.eqb_eq in H2. subst b. discriminate.
Qed.

Lemma sanitize_no_double_slash s : hasDoubleSlash (JsonHandler.sanitize s) = false.
Proof.
  unfold JsonHandler.sanitize. apply dropTrailingCommas_spec.
  match goal with |- context [JsonHandler.stripLineComments false ?t] =>
    destruct (JsonHandler.stripLineComments false t) eqn:Ht; [reflexivity|];
    rewrite <- Ht; apply (stripLineComments_spec (String.length t) t); lia
  end.
Qed.




(** ** [fixMalformedJson] and [safeParse] *)

Lemma no_slash_no_double_slash b :
  all_chars (fun c => negb (Ascii.eqb c "/")) b = true ->
  hasDoubleSlash b = false /\ startsSlash b = false.
Proof.
  induction b as [|c b IH]; [auto|]. simpl all_chars. intros H.
  apply andb_prop in H as [Hc Hb]. apply negb_true_iff in Hc.
  destruct (IH Hb) as [H1 H2]. rewrite hasDoubleSlash_cons, Hc, H1. simpl. auto.
Qed.

Lemma hasDoubleSlash_app a b :
  hasDoubleSlash a = false ->
  all_chars (fun c => negb (Ascii.eqb c "/")) b = true ->
  hasDoubleSlash (a +:+ b) = false.
Proof.
  intros Ha Hb. destruct (no_slash_no_double_slash b Hb) as [Hb1 Hb2].
  induction a as [|c a IH]; [exact Hb1|].
  change (String c a +:+ b) with (String c (a +:+ b)).
  rewrite hasDoubleSlash_cons in Ha |- *. apply orb_false_elim in Ha as [Hhead Htail].
  rewrite (IH Htail), orb_false_r.
  destruct (Ascii.eqb c "/"); [|reflexivity]. simpl in Hhead |- *.
  destruct a; [exact Hb2|exact Hhead].
Qed.

Lemma repeatChar_no_slash c n :
  Ascii.eqb c "/" = false ->
  all_chars (fun d => negb (Ascii.eqb d "/")) (JsonHandler.repeatChar c n) = true.
Proof. intros Hc. induction n as [|n IH]; simpl; [reflexivity|]. now rewrite Hc, IH. Qed.

Lemma closeOpenBrackets_no_double_slash cleaned :
  hasDoubleSlash cleaned = false ->
  hasDoubleSlash (JsonHandler.closeOpenBrackets cleaned) = false.
Proof.
  intros H. unfold JsonHandler.closeOpenBrackets.
  destruct (Js.startsWith cleaned "[").
  - destruct (Nat.ltb _ _); [|exact H].
    apply hasDoubleSlash_app; [exact H|]. now apply repeatChar_no_slash.
  - destruct (Js.startsWith cleaned "{"); [|exact H].
    destruct (Nat.ltb _ _); [|exact H].
    apply hasDoubleSlash_app; [exact H|]. now apply repeatChar_no_slash.
Qed.

Section Repair.

Context {E : Env} {J : Engine}.

Lemma log_only_console line (s : State E) : only_console s (snd (log line s)).
Proof. repeat split. Qed.

Lemma extractPortion_valid cleaned extracted :
  JsonHandler.extractPortion cleaned = Some extracted ->
  JsonHandler.isValidJson extracted = true /\ hasDoubleSlash extracted = false.
Proof.
  unfold JsonHandler.extractPortion.
  destruct (JsonHandler.scanJson _ 0 0 false false None) as [[startIdx|] [endIdx|]];
    try discriminate.
  match goal with
  | |- context [JsonHandler.isValidJson ?x] => destruct (JsonHandler.isValidJson x) eqn:Hv
  end; [|discriminate].
  intros H. injection H as <-. split; [exact Hv|apply sanitize_no_double_slash].
Qed.

Lemma fixMalformedJson_spec jsonString (s : State E) :
  exists fixed s',
    JsonHandler.fixMalformedJson jsonString s = (Returned fixed, s') /\
    only_console s s' /\
    (fixed = jsonString \/
     (JsonHandler.isValidJson fixed = true /\ hasDoubleSlash fixed = false)) /\
    (JsonHandler.isValidJson (JsonHandler.sanitize jsonString) = true ->
     fixed = JsonHandler.sanitize jsonString /\ s' = s).
Proof.
  unfold JsonHandler.fixMalformedJson.
  destruct (JsonHandler.isValidJson (JsonHandler.sanitize jsonString)) eqn:H1.
  { exists (JsonHandler.sanitize jsonString), s. split; [reflexivity|].
    split; [apply only_console_refl|]. split; [|auto].
    right. split; [exact H1|apply sanitize_no_double_slash]. }
  unfold bind at 1, log at 1.
  destruct (JsonHandler.isValidJson
              (JsonHandler.closeOpenBrackets (JsonHandler.sanitize jsonString))) eqn:H2.
  { eexists _, _. split; [reflexivity|]. split; [repeat split|]. split; [|discriminate].
    right. split; [exact H2|].
    apply closeOpenBrackets_no_double_slash, sanitize_no_double_slash. }
  destruct (JsonHandler.extractPortion _) as [extracted|] eqn:H3.
  - eexists _, _. split; [reflexivity|]. split; [repeat split|]. split; [|discriminate].
    right. eapply extractPortion_valid. exact H3.
  - eexists _, _. split; [reflexivity|]. split; [repeat split|]. split; [|discriminate].
    left. reflexivity.
Qed.

(** X11: [fixMalformedJson] only prints.  It returns either its argument
    as it was given, or a text that [JSON.parse] accepts and that holds
    no two slashes in a row, so that a repaired text never holds an
    absolute URL; when the sanitised argument already parses, that is
    what it returns, printing nothing. *)
Theorem X11_fixMalformedJson_valid_or_untouched (jsonString : string) (s : State E) :
  exists fixed s',
    JsonHandler.fixMalformedJson jsonString s = (Returned fixed, s') /\
    only_console s s' /\
    (fixed = jsonString \/
     (JsonHandler.isValidJson fixed = true /\ hasDoubleSlash fixed = false)) /\
    (JsonHandler.isValidJson (JsonHandler.sanitize jsonString) = true ->
     fixed = JsonHandler.sanitize jsonString /\ s' = s).
Proof. apply fixMalformedJson_spec. Qed.

Lemma safeParse_spec jsonString fix_ (s : State E) :
  exists v s',
    JsonHandler.safeParse jsonString fix_ s = (Returned v, s') /\
    only_console s s' /\
    (forall v0, JSON_parse J jsonString = Returned v0 -> v = v0 /\ s' = s) /\
    (forall msg,
        JSON_parse J jsonString = Thrown msg ->
        v = JsNull \/
        (fix_ = true /\
         exists fixed, hasDoubleSlash fixed = false /\ JSON_parse J fixed = Returned v)).
Proof.
  unfold JsonHandler.safeParse, try_catch at 1, lift at 1.
  destruct (JSON_parse J jsonString) as [v0|msg0] eqn:Hparse.
  { exists v0, s. split; [reflexivity|]. split; [apply only_console_refl|].
    split; [|discriminate]. intros v1 H. injection H as <-. auto. }
  destruct fix_; cbn [negb]; cbv beta iota.
  2:{ exists JsNull, s. split; [reflexivity|]. split; [apply only_console_refl|].
      split; [discriminate|]. intros _ _. left. reflexivity. }
  unfold try_catch, bind at 1.
  destruct (fixMalformedJson_spec jsonString s) as (fixed & s1 & -> & Hcons & Hfixed & _).
  unfold lift at 1.
  destruct (JSON_parse J fixed) as [v|msg] eqn:Hfix.
  - exists v, s1. split; [reflexivity|]. split; [exact Hcons|]. split; [discriminate|].
    intros _ _. right. split; [reflexivity|].
    destruct Hfixed as [->|[_ Hds]]; [congruence|]. eauto.
  - eexists JsNull, _. split; [reflexivity|]. split.
    + eapply only_console_trans; [exact Hcons|]. repeat split.
    + split; [discriminate|]. intros _ _. left. reflexivity.
Qed.

(** X12: [safeParse] never throws and only prints.  Of a text that
    [JSON.parse] accepts it returns the parsed value, printing nothing.
    Of any other text it returns [null], unless repairing was asked for
    and succeeded: then it returns the parsed value of a repaired text,
    which holds no two slashes in a row. *)
Theorem X12_safeParse_never_throws (jsonString : string) (fix_ : bool) (s : State E) :
  exists v s',
    JsonHandler.safeParse jsonString fix_ s = (Returned v, s') /\
    only_console s s' /\
    (forall v0, JSON_parse J jsonString = Returned v0 -> v = v0 /\ s' = s) /\
    (forall msg,
        JSON_parse J jsonString = Thrown msg ->
        v = JsNull \/
        (fix_ = true /\
         exists fixed, hasDoubleSlash fixed = false /\ JSON_parse J fixed = Returned v)).
Proof. apply safeParse_spec. Qed.

End Repair.

(** ** [validateWorkflowStep] and [parseAIResponse] *)

Section Steps.

Context {E : Env} {J : Engine}.

Lemma checkWorkflowStep_spec stepObj (s : State E) :
  exists s',
    JsonHandler.checkWorkflowStep stepObj s = (checkedStep stepObj, s') /\
    only_console s s'.
Proof.
  unfold JsonHandler.checkWorkflowStep, checkedStep.
  destruct (negb (JsValues.truthy stepObj)) eqn:Htruthy.
  { eexists. split; [reflexivity|repeat split]. }
  destruct stepObj as [|b|x|str|items|props];
    try (eexists; split; [reflexivity|repeat split]).
  unfold bind at 1, lift at 1. cbn [JsonHandler.missingProperty JsValues.inOperator].
  unfold validStep, JsValues.getProp.
  destruct (JsValues.hasKey "step" props); cbn [andb];
    [|eexists; split; [reflexivity|repeat split]].
  destruct (JsValues.hasKey "content" props); cbn [andb];
    [|eexists; split; [reflexivity|repeat split]].
  destruct (JsValues.isString (JsValues.lookup "step" props) "TOOL"
            || JsValues.isString (JsValues.lookup "step" props) "OBSERVE");
    cbn [negb orb]; [|eexists; split; [reflexivity|apply only_console_refl]].
  unfold bind at 1, lift at 1.
  destruct (JsValues.hasKey "tool_name" props); cbn [negb];
    eexists; (split; [reflexivity|repeat split]).
Qed.

Lemma checkedStep_returned stepObj v :
  checkedStep stepObj = Returned v ->
  (v = JsNull \/ (v = stepObj /\ validStep v = true)) /\
  (JsValues.truthy v = true -> v = stepObj /\ validStep v = true).
Proof.
  unfold checkedStep. destruct (negb (JsValues.truthy stepObj)).
  { intros H. injection H as <-. split; [auto|discriminate]. }
  destruct stepObj as [|b|x|str|items|props]; try discriminate.
  - intros H. injection H as <-. split; [auto|discriminate].
  - destruct (validStep (JsObject props)) eqn:Hv; intros H; injection H as <-.
    + split; [right|]; auto.
    + split; [auto|discriminate].
Qed.

Lemma validateWorkflowStep_spec step (s : State E) :
  exists stepObj s1 s',
    (match step with
     | JsString str => JsonHandler.safeParse str true s = (Returned stepObj, s1)
     | _ => stepObj = step /\ s1 = s
     end) /\
    JsonHandler.validateWorkflowStep step s = (checkedStep stepObj, s') /\
    only_console s s'.
Proof.
  unfold JsonHandler.validateWorkflowStep, bind.
  destruct step as [|b|x|str|items|props];
    try (match goal with
         | |- context [ret ?v s] =>
             destruct (checkWorkflowStep_spec v s) as (s' & Hrun & Hcons);
             exists v, s, s';
             split; [split; reflexivity|split; [exact Hrun|exact Hcons]]
         end).
  destruct (safeParse_spec str true s) as (v & s1 & Hparse & Hcons1 & _).
  rewrite Hparse.
  destruct (checkWorkflowStep_spec v s1) as (s' & Hrun & Hcons).
  exists v, s1, s'. rewrite Hrun. split; [reflexivity|]. split; [reflexivity|].
  eapply only_console_trans; eassumption.
Qed.

(** X13: [validateWorkflowStep] only prints, and never changes a step.
    A step given as a string is first parsed by [safeParse].  Then a
    falsy value, an array, and an object that lacks [step] or [content],
    or that is a [TOOL] or [OBSERVE] step without [tool_name], give
    [null]; an object that passes these checks is returned as it is; and
    any other value (a number, [true], a non-empty string) makes the
    [in] operator throw a TypeError.  So a [TOOL] step without [content]
    is refused, whatever else it holds. *)
Theorem X13_validateWorkflowStep_checks (step : JsValue) (s : State E) :
  (exists stepObj s1 s',
      (match step with
       | JsString str => JsonHandler.safeParse str true s = (Returned stepObj, s1)
       | _ => stepObj = step /\ s1 = s
       end) /\
      JsonHandler.validateWorkflowStep step s = (checkedStep stepObj, s') /\
      only_console s s') /\
  (forall props,
      JsValues.hasKey "content" props = false ->
      fst (JsonHandler.validateWorkflowStep (JsObject props) s) = Returned JsNull).
Proof.
  split; [apply validateWorkflowStep_spec|].
  intros props Hcontent.
  destruct (validateWorkflowStep_spec (JsObject props) s)
    as (stepObj & s1 & s' & [-> _] & -> & _).
  unfold checkedStep, validStep. cbn [fst JsValues.truthy negb].
  rewrite Hcontent, andb_false_r. reflexivity.
Qed.

Lemma pushIfTruthy_valid steps stepObj v :
  validSteps steps -> checkedStep stepObj = Returned v ->
  validSteps (WorkflowOrchestrator.pushIfTruthy steps v).
Proof.
  intros Hsteps Hv. unfold WorkflowOrchestrator.pushIfTruthy.
  destruct (JsValues.truthy v) eqn:Ht; [|exact Hsteps].
  apply checkedStep_returned in Hv as [_ Hv]. destruct (Hv Ht) as [_ Hvalid].
  apply Forall_app. split; [exact Hsteps|]. constructor; [exact Hvalid|constructor].
Qed.

Lemma validateAll_spec parsed : forall steps (s : State E),
  validSteps steps ->
  exists steps' threw s',
    WorkflowOrchestrator.validateAll parsed steps s = (Returned (steps', threw), s') /\
    only_console s s' /\ validSteps steps'.
Proof.
  induction parsed as [|step parsed IH]; intros steps s Hsteps; simpl.
  - exists steps, false, s. split; [reflexivity|]. split; [apply only_console_refl|exact Hsteps].
  - unfold bind at 1, try_catch, bind at 1.
    destruct (validateWorkflowStep_spec step s) as (stepObj & s1 & s2 & _ & -> & Hcons).
    destruct (checkedStep stepObj) as [v|msg] eqn:Hchecked.
    + unfold ret at 1.
      destruct (IH (WorkflowOrchestrator.pushIfTruthy steps v) s2)
        as (steps' & threw & s' & -> & Hcons' & Hvalid).
      { eapply pushIfTruthy_valid; eassumption. }
      exists steps', threw, s'. split; [reflexivity|].
      split; [eapply only_console_trans; eassumption|exact Hvalid].
    + exists steps, true, s2. split; [reflexivity|]. split; [exact Hcons|exact Hsteps].
Qed.

Lemma scanObject_spec steps whole (s : State E) :
  validSteps steps ->
  exists steps' s',
    WorkflowOrchestrator.scanObject steps whole s = (Returned steps', s') /\
    only_console s s' /\ validSteps steps'.
Proof.
  intros Hsteps. unfold WorkflowOrchestrator.scanObject, try_catch, bind at 1.
  destruct (safeParse_spec whole true s) as (o & s1 & -> & Hcons1 & _).
  destruct (JsValues.truthy o) eqn:Ho.
  2:{ exists steps, s1. split; [reflexivity|]. split; [exact Hcons1|exact Hsteps]. }
  unfold bind at 1.
  destruct (validateWorkflowStep_spec o s1) as (stepObj & s2 & s3 & _ & -> & Hcons2).
  destruct (checkedStep stepObj) as [v|msg] eqn:Hchecked.
  - eexists _, s3. split; [reflexivity|].
    split; [eapply only_console_trans; eassumption|].
    eapply pushIfTruthy_valid; eassumption.
  - eexists steps, _. split; [reflexivity|]. split; [|exact Hsteps].
    eapply only_console_trans; [exact Hcons1|].
    eapply only_console_trans; [exact Hcons2|]. repeat split.
Qed.

Lemma fromFirstArray_spec rawContent (s : State E) :
  exists steps returned s',
    WorkflowOrchestrator.fromFirstArray rawContent s = (Returned (steps, returned), s') /\
    only_console s s' /\ validSteps steps.
Proof.
  unfold WorkflowOrchestrator.fromFirstArray.
  destruct (WorkflowOrchestrator.extractFirstJsonArray rawContent) as [jsonArrayStr|].
  2:{ exists [], false, s. split; [reflexivity|]. split; [apply only_console_refl|constructor]. }
  unfold bind at 1.
  destruct (safeParse_spec jsonArrayStr true s) as (parsed & s1 & -> & Hcons1 & _).
  destruct parsed as [|b|x|str|items|props];
    try (exists [], false, s1; split; [reflexivity|]; split; [exact Hcons1|constructor]).
  unfold bind at 1.
  destruct (validateAll_spec items [] s1) as (steps & threw & s2 & -> & Hcons2 & Hvalid);
    [constructor|].
  destruct threw.
  - eexists steps, false, _. split; [reflexivity|]. split; [|exact Hvalid].
    eapply only_console_trans; [exact Hcons1|].
    eapply only_console_trans; [exact Hcons2|]. repeat split.
  - eexists steps, _, s2. split; [reflexivity|]. split; [|exact Hvalid].
    eapply only_console_trans; eassumption.
Qed.

(** X14: [parseAIResponse] never throws and only prints, whatever the
    text and whatever [JSON.parse] makes of its parts; and every step it
    returns is an object that passed the checks of
    [validateWorkflowStep]: it has [step] and [content], and [tool_name]
    when its [step] is [TOOL] or [OBSERVE]. *)
Theorem X14_parseAIResponse_returns_valid_steps (rawContent : string) (s : State E) :
  exists steps s',
    WorkflowOrchestrator.parseAIResponse rawContent s = (Returned steps, s') /\
    only_console s s' /\
    Forall (fun v => validStep v = true) steps.
Proof.
  unfold WorkflowOrchestrator.parseAIResponse, bind at 1.
  destruct (fromFirstArray_spec rawContent s) as (steps & returned & s1 & -> & Hcons1 & Hvalid).
  destruct returned.
  { exists steps, s1. split; [reflexivity|]. split; [exact Hcons1|exact Hvalid]. }
  destruct (foldM_spec WorkflowOrchestrator.scanObject validSteps only_console
              (fun _ => True) only_console_refl only_console_trans) with
    (l := WorkflowOrchestrator.stepObjects 0 rawContent) (b := steps) (s := s1)
    as (r & s' & Hrun & Hcons & HP & Hgood).
  - intros b whole s0 Hb.
    destruct (scanObject_spec b whole s0 Hb) as (steps' & s0' & Hrun & Hcons & Hvalid').
    exists (Returned steps'), s0'. split; [exact Hrun|]. split; [exact Hcons|].
    split; [|eauto]. intros b' H. injection H as <-. exact Hvalid'.
  - exact Hvalid.
  - destruct Hgood as [steps' ->]; [apply Forall_forall; auto|].
    exists steps', s'. split; [exact Hrun|].
    split; [eapply only_console_trans; eassumption|]. now apply HP.
Qed.

Lemma validateAll_objects items : forall steps (s : State E),
  forallb isObject items = true ->
  fst (WorkflowOrchestrator.validateAll items steps s)
  = Returned (steps ++ List.filter validStep items, false).
Proof.
  induction items as [|item items IH]; intros steps s Hobj; simpl.
  - rewrite app_nil_r. reflexivity.
  - simpl in Hobj. apply andb_prop in Hobj as [Hitem Hitems].
    destruct item as [|b|x|str|its|props]; try discriminate.
    unfold bind at 1, try_catch, bind at 1.
    destruct (validateWorkflowStep_spec (JsObject props) s)
      as (stepObj & s1 & s2 & [-> _] & -> & _).
    unfold checkedStep. cbn [JsValues.truthy negb]. unfold ret at 1.
    rewrite IH by exact Hitems. unfold WorkflowOrchestrator.pushIfTruthy.
    destruct (validStep (JsObject props)); cbn [JsValues.truthy].
    + rewrite <- app_assoc. reflexivity.
    + reflexivity.
Qed.

(** X15: when the first bracketed portion of the response parses as an
    array of objects of which at least one is a valid step,
    [parseAIResponse] returns exactly the valid steps of that array, in
    their order; the objects that fail the checks are dropped, and the
    rest of the response is not looked at. *)
Theorem X15_parseAIResponse_filters_the_first_array
        (rawContent jsonArrayStr : string) (items : list JsValue) (s : State E) :
  WorkflowOrchestrator.extractFirstJsonArray rawContent = Some jsonArrayStr ->
  JSON_parse J jsonArrayStr = Returned (JsArray items) ->
  forallb isObject items = true ->
  List.filter validStep items <> [] ->
  fst (WorkflowOrchestrator.parseAIResponse rawContent s)
  = Returned (List.filter validStep items).
Proof.
  intros Hextract Hparse Hobj Hsome.
  unfold WorkflowOrchestrator.parseAIResponse, bind at 1,
    WorkflowOrchestrator.fromFirstArray.
  rewrite Hextract. unfold bind at 1.
  destruct (safeParse_spec jsonArrayStr true s) as (parsed & s1 & -> & _ & Hsame & _).
  destruct (Hsame _ Hparse) as [-> ->]. unfold bind at 1.
  pose proof (validateAll_objects items [] s Hobj) as Hall.
  destruct (WorkflowOrchestrator.validateAll items [] s) as [r s2].
  simpl in Hall. subst r.
  destruct (List.filter validStep items) as [|v vs]; [congruence|]. reflexivity.
Qed.

End Steps.

Lemma X15_parseAIResponse_filters_the_first_array_witness :
  fst (WorkflowOrchestrator.parseAIResponse (E := OfflineFixture.site) (J := PlanFixture.engine)
         PlanFixture.planText PlanFixture.start)
  = Returned [PlanFixture.think].
Proof.
  apply (X15_parseAIResponse_filters_the_first_array (E := OfflineFixture.site)
           (J := PlanFixture.engine) PlanFixture.planText "[think, tool]"
           [PlanFixture.think; PlanFixture.tool] PlanFixture.start);
    [reflexivity|reflexivity|reflexivity|discriminate].
Defined.

(** * Properties of the deployer *)

Section LatestProperties.

Context {W : DeployLatest.World}.

Hypothesis gt_irrefl : forall x, DeployLatest.gt W x x = false.
Hypothesis gt_trans :
  forall x y z,
    DeployLatest.gt W x y = true -> DeployLatest.gt W y z = true ->
    DeployLatest.gt W x z = true.

Lemma insertSorted_In (x : DeployLatest.Candidate) l c :
  In c (DeployLatest.insertSorted x l) <-> c = x \/ In c l.
Proof.
  induction l as [|y l IH]; simpl; [intuition|].
  destruct (DeployLatest.gt W (DeployLatest.ts x) (DeployLatest.ts y)); simpl; [intuition|].
  rewrite IH. intuition.
Qed.

Lemma insertSorted_head (x : DeployLatest.Candidate) l :
  DeployLatest.headIsGreatest l -> DeployLatest.headIsGreatest (DeployLatest.insertSorted x l).
Proof.
  destruct l as [|y l]; simpl.
  - intros _. constructor; [apply gt_irrefl|constructor].
  - intros Hy. destruct (DeployLatest.gt W (DeployLatest.ts x) (DeployLatest.ts y)) eqn:Hxy.
    + simpl. constructor; [apply gt_irrefl|].
      eapply Forall_impl; [exact Hy|]. intros c Hc. simpl in Hc.
      destruct (DeployLatest.gt W (DeployLatest.ts c) (DeployLatest.ts x)) eqn:Hcx;
        [|reflexivity].
      rewrite (gt_trans _ _ _ Hcx Hxy) in Hc. discriminate.
    + simpl. inversion Hy as [|? ? Hyy Hl]; subst. constructor; [exact Hyy|].
      apply Forall_forall. intros c Hc. apply list_elem_of_In, insertSorted_In in Hc.
      destruct Hc as [->|Hc]; [exact Hxy|].
      rewrite Forall_forall in Hl. apply Hl, list_elem_of_In, Hc.
Qed.

Lemma sortDescending_spec (l : list DeployLatest.Candidate) :
  DeployLatest.headIsGreatest (DeployLatest.sortDescending l) /\
  forall c, In c (DeployLatest.sortDescending l) <-> In c l.
Proof.
  unfold DeployLatest.sortDescending.
  assert (Hgen : forall (l acc : list DeployLatest.Candidate),
             DeployLatest.headIsGreatest acc ->
             DeployLatest.headIsGreatest
               (fold_left (fun sorted x => DeployLatest.insertSorted x sorted) l acc) /\
             forall c, In c (fold_left (fun sorted x => DeployLatest.insertSorted x sorted) l acc)
                       <-> In c acc \/ In c l).
  { clear l. induction l as [|x l IH]; intros acc Hacc; simpl.
    - split; [exact Hacc|]. intuition.
    - destruct (IH (DeployLatest.insertSorted x acc) (insertSorted_head x acc Hacc)) as [H1 H2].
      split; [exact H1|]. intros c. rewrite H2, insertSorted_In. intuition. }
  destruct (Hgen l [] I) as [H1 H2]. split; [exact H1|].
  intros c. rewrite H2. simpl. intuition.
Qed.

(** Whoever comes first after the sort belongs to the list and is not
    exceeded in it. *)
Lemma sortDescending_first (l : list DeployLatest.Candidate) first rest :
  DeployLatest.sortDescending l = first :: rest ->
  In first l /\
  forall c, In c l -> DeployLatest.gt W (DeployLatest.ts c) (DeployLatest.ts first) = false.
Proof.
  intros Hsort. destruct (sortDescending_spec l) as [Hmax Hin]. rewrite Hsort in Hmax, Hin.
  split; [apply Hin; now left|]. intros c Hc. simpl in Hmax.
  rewrite Forall_forall in Hmax. apply Hmax, list_elem_of_In, Hin, Hc.
Qed.

Lemma sortDescending_nil (l : list DeployLatest.Candidate) :
  DeployLatest.sortDescending l = [] -> l = [].
Proof.
  intros Hsort. destruct (sortDescending_spec l) as [_ Hin]. rewrite Hsort in Hin.
  destruct l as [|c l]; [reflexivity|]. destruct (proj2 (Hin c) (or_introl eq_refl)).
Qed.

Lemma collectWith_spec eligible number baseDir entries : forall found result,
  DeployLatest.collectWith eligible number baseDir entries found = Returned result ->
  exists new,
    result = found ++ new /\
    (forall c, In c new ->
               exists e, In e entries /\ eligible e = true /\
                         DeployLatest.dir c = Path.join baseDir (DeployLatest.name e) /\
                         DeployLatest.stamp (number (DeployLatest.name e))
                                            (Path.join baseDir (DeployLatest.name e))
                         = Returned (DeployLatest.ts c)) /\
    (forall e, In e entries -> eligible e = true ->
               exists c, In c new /\
                         DeployLatest.stamp (number (DeployLatest.name e))
                                            (Path.join baseDir (DeployLatest.name e))
                         = Returned (DeployLatest.ts c)).
Proof.
  induction entries as [|entry entries IH]; intros found result H; simpl in H.
  - injection H as <-. exists []. rewrite app_nil_r. split; [reflexivity|].
    split; [intros c []|intros e []].
  - destruct (eligible entry) eqn:Hentry.
    + destruct (DeployLatest.stamp _ _) as [t|msg] eqn:Hstamp; [|discriminate].
      destruct (IH _ _ H) as (new & -> & Hsound & Hcomplete).
      set (c0 := DeployLatest.mkCandidate (Path.join baseDir (DeployLatest.name entry)) t).
      exists (c0 :: new). rewrite <- app_assoc. split; [reflexivity|]. split.
      * intros c [<-|Hc].
        -- exists entry. split; [now left|]. split; [exact Hentry|].
           split; [reflexivity|exact Hstamp].
        -- destruct (Hsound c Hc) as (e & He & Hrest'). exists e. split; [now right|auto].
      * intros e [<-|He] Hel.
        -- exists c0. split; [now left|exact Hstamp].
        -- destruct (Hcomplete e He Hel) as (c & Hc & Hs). exists c.
           split; [now right|exact Hs].
    + destruct (IH _ _ H) as (new & -> & Hsound & Hcomplete).
      exists new. split; [reflexivity|]. split.
      * intros c Hc. destruct (Hsound c Hc) as (e & He & Hrest'). exists e.
        split; [now right|auto].
      * intros e [<-|He] Hel; [congruence|auto].
Qed.

Lemma collectWith_none eligible number baseDir entries :
  (forall e, In e entries -> eligible e = false) ->
  forall found, DeployLatest.collectWith eligible number baseDir entries found = Returned found.
Proof.
  induction entries as [|entry rest IH]; intros Hnone found; [reflexivity|].
  simpl. rewrite (Hnone entry (or_introl eq_refl)). apply IH.
  intros e He. apply Hnone. now right.
Qed.

Lemma collectClones_collectWith baseDir entries : forall clones,
  DeployLatest.collectClones baseDir entries clones
  = DeployLatest.collectWith DeployLatest.isClone DeployLatest.trailingNumber
                             baseDir entries clones.
Proof.
  induction entries as [|entry entries IH]; intros clones; [reflexivity|].
  simpl. unfold DeployLatest.isClone.
  destruct (DeployLatest.isDirectory entry); simpl; [|apply IH].
  destruct (Js.endsWith (DeployLatest.name entry) "_app"); simpl; [apply IH|].
  destruct (DeployLatest.stamp _ _); [apply IH|reflexivity].
Qed.

Lemma collectApps_collectWith baseDir entries : forall appDirs,
  DeployLatest.collectApps baseDir entries appDirs
  = DeployLatest.collectWith DeployLatest.isApp DeployLatest.appNumber
                             baseDir entries appDirs.
Proof.
  induction entries as [|entry entries IH]; intros appDirs; [reflexivity|].
  simpl. unfold DeployLatest.isApp.
  destruct (DeployLatest.isDirectory entry); simpl; [|apply IH].
  destruct (Js.endsWith (DeployLatest.name entry) "_app"); simpl; [|apply IH].
  destruct (DeployLatest.stamp _ _); [apply IH|reflexivity].
Qed.

(** What both finders do with the directories they collected. *)
Lemma latest_of_collected eligible number baseDir entries :
  let picked :=
    match DeployLatest.collectWith eligible number baseDir entries [] with
    | Returned found =>
        Returned (match DeployLatest.sortDescending found with
                  | [] => None
                  | first :: _ => Some (DeployLatest.dir first)
                  end)
    | Thrown msg => Thrown msg
    end in
  (forall d, picked = Returned (Some d) ->
             DeployLatest.latestAmong eligible number baseDir entries d) /\
  (picked = Returned None <-> forall e, In e entries -> eligible e = false).
Proof.
  intros picked. subst picked. split.
  - intros d H.
    destruct (DeployLatest.collectWith eligible number baseDir entries [])
      as [found|msg] eqn:Hcollect; [|discriminate].
    destruct (collectWith_spec _ _ _ _ _ _ Hcollect) as (new & -> & Hsound & Hcomplete).
    simpl app in H.
    destruct (DeployLatest.sortDescending new) as [|first rest] eqn:Hsort; [discriminate|].
    injection H as <-.
    destruct (sortDescending_first new first rest Hsort) as [Hfirst Hmax].
    destruct (Hsound first Hfirst) as (e & He & Hel & Hdir & Hstamp).
    exists e, (DeployLatest.ts first). repeat (split; [assumption|]).
    intros e' t' He' Hel' Hstamp'.
    destruct (Hcomplete e' He' Hel') as (c & Hc & Hs).
    assert (t' = DeployLatest.ts c) by congruence. subst t'. now apply Hmax.
  - split.
    + intros H e He.
      destruct (DeployLatest.collectWith eligible number baseDir entries [])
        as [found|msg] eqn:Hcollect; [|discriminate].
      destruct (collectWith_spec _ _ _ _ _ _ Hcollect) as (new & -> & _ & Hcomplete).
      simpl app in H.
      destruct (DeployLatest.sortDescending new) as [|first rest] eqn:Hsort; [|discriminate].
      apply sortDescending_nil in Hsort. subst new.
      destruct (eligible e) eqn:Hel; [|reflexivity].
      destruct (Hcomplete e He Hel) as (c & [] & _).
    + intros Hnone. rewrite (collectWith_none eligible number baseDir entries Hnone).
      reflexivity.
Qed.

(** X16: when [findLatestCloneDir] returns a directory, it is a
    directory of the listing whose name does not end with [_app], and no
    such directory of the listing has a greater time stamp, the time
    stamp of a directory being the number that ends its name after an
    underscore, or its modification time when there is no such number or
    the number is zero.  It returns [null] exactly when the listing has
    no such directory.  The same holds of [findLatestAppDir] for the
    directories whose name ends with [_app], the number being the one
    that precedes this suffix. *)
Theorem X16_finders_pick_a_latest_directory (baseDir : string)
        (entries : list DeployLatest.Dirent) :
  DeployLatest.readdir W baseDir = Returned entries ->
  ((forall d,
       DeployLatest.findLatestCloneDir baseDir = Returned (Some d) ->
       DeployLatest.latestAmong DeployLatest.isClone DeployLatest.trailingNumber
                                baseDir entries d) /\
   (DeployLatest.findLatestCloneDir baseDir = Returned None <->
    forall e, In e entries -> DeployLatest.isClone e = false)) /\
  ((forall d,
       DeployLatest.findLatestAppDir baseDir = Returned (Some d) ->
       DeployLatest.latestAmong DeployLatest.isApp DeployLatest.appNumber
                                baseDir entries d) /\
   (DeployLatest.findLatestAppDir baseDir = Returned None <->
    forall e, In e entries -> DeployLatest.isApp e = false)).
Proof.
  intros Hread. unfold DeployLatest.findLatestCloneDir, DeployLatest.findLatestAppDir.
  rewrite Hread, collectClones_collectWith, collectApps_collectWith.
  split; apply latest_of_collected.
Qed.

End LatestProperties.

Lemma X16_finders_pick_a_latest_directory_witness :
  DeployLatest.findLatestCloneDir (W := LatestFixture.world) "/work/clones"
  = Returned (Some "/work/clones/b.test_180") /\
  DeployLatest.latestAmong (W := LatestFixture.world)
    DeployLatest.isClone DeployLatest.trailingNumber
    "/work/clones" LatestFixture.entries "/work/clones/b.test_180" /\
  DeployLatest.findLatestAppDir (W := LatestFixture.world) "/work/clones"
  = Returned (Some "/work/clones/b.test_180_app").
Proof.
  split; [reflexivity|]. split; [|reflexivity].
  assert (Hirrefl : forall x, DeployLatest.gt LatestFixture.world x x = false)
    by (intros x; apply Nat.ltb_irrefl).
  assert (Htrans : forall x y z,
             DeployLatest.gt LatestFixture.world x y = true ->
             DeployLatest.gt LatestFixture.world y z = true ->
             DeployLatest.gt LatestFixture.world x z = true).
  { intros x y z Hxy Hyz. simpl in *. apply Nat.ltb_lt in Hxy, Hyz. apply Nat.ltb_lt. lia. }
  exact (proj1 (proj1 (X16_finders_pick_a_latest_directory (W := LatestFixture.world)
                         Hirrefl Htrans "/work/clones" LatestFixture.entries eq_refl))
               "/work/clones/b.test_180" eq_refl).
Defined.

(** ** The names of the directories *)

Lemma rev_acc_spec s : forall acc, Js.rev_acc s acc = Js.rev s +:+ acc.
Proof.
  unfold Js.rev. induction s as [|c s IH]; intros acc; [reflexivity|]. simpl.
  rewrite IH, (IH (String c "")), app_assoc_s. reflexivity.
Qed.

Lemma rev_app a b : Js.rev (a +:+ b) = Js.rev b +:+ Js.rev a.
Proof.
  unfold Js.rev at 1. rewrite rev_acc_app. fold (Js.rev a). apply rev_acc_spec.
Qed.

Lemma rev_cons c s : Js.rev (String c s) = Js.rev s +:+ String c "".
Proof. unfold Js.rev at 1. simpl. apply rev_acc_spec. Qed.

Lemma rev_rev s : Js.rev (Js.rev s) = s.
Proof.
  induction s as [|c s IH]; [reflexivity|]. rewrite rev_cons, rev_app, IH. reflexivity.
Qed.

Lemma all_chars_app f a b : all_chars f (a +:+ b) = all_chars f a && all_chars f b.
Proof. induction a as [|c a IH]; simpl; [reflexivity|]. now rewrite IH, andb_assoc. Qed.

Lemma all_chars_rev f s : all_chars f (Js.rev s) = all_chars f s.
Proof.
  induction s as [|c s IH]; [reflexivity|]. rewrite rev_cons, all_chars_app, IH. simpl.
  rewrite andb_true_r. apply andb_comm.
Qed.

Lemma spanDigits_run r t :
  all_chars DeployLatest.is_digit r = true ->
  DeployLatest.spanDigits (r +:+ String "_" t) = (r, String "_" t).
Proof.
  induction r as [|c r IH]; [reflexivity|]. simpl. intros H.
  apply andb_prop in H as [Hc Hr]. rewrite Hc, IH by exact Hr. reflexivity.
Qed.

Lemma trailingNumber_stamp host d :
  digits d -> DeployLatest.trailingNumber (host +:+ "_" +:+ d) = Some d.
Proof.
  intros [Hne Hd]. unfold DeployLatest.trailingNumber.
  rewrite rev_app, rev_app, app_assoc_s. change (Js.rev "_") with "_".
  change ("_" +:+ Js.rev host) with (String "_" (Js.rev host)).
  rewrite spanDigits_run by (rewrite all_chars_rev; exact Hd).
  destruct (Js.rev d) as [|c r] eqn:Hrev.
  - exfalso. apply Hne. rewrite <- (rev_rev d), Hrev. reflexivity.
  - rewrite <- Hrev, rev_rev. reflexivity.
Qed.

Lemma prefix_empty s : String.prefix "" s = true.
Proof. destruct s; reflexivity. Qed.

Lemma substring_prefix a b : String.substring 0 (String.length a) (a +:+ b) = a.
Proof.
  induction a as [|c a IH]; simpl; [destruct b; reflexivity|]. now rewrite IH.
Qed.

(** X17: the deployer reads back the time stamps that the cloner and the
    generator write into the names.  The directory of a job is named
    after the host, an underscore and the digits of [Date.now()] (line
    76), and the application made from it has the same name followed by
    [_app] (lines 362 and 513): of the first name [findLatestCloneDir]
    reads exactly those digits, of the second [findLatestAppDir] reads
    the same digits, and the clone finder reads no number from the name
    of an application. *)
Theorem X17_directory_names_carry_the_time_stamp {E : Env} (base : URL) (host d : string) :
  (digits d ->
   DeployLatest.trailingNumber (host +:+ "_" +:+ d) = Some d /\
   DeployLatest.appNumber ((host +:+ "_" +:+ d) +:+ "_app") = Some d /\
   DeployLatest.trailingNumber ((host +:+ "_" +:+ d) +:+ "_app") = None) /\
  (digits (dateNow E) ->
   DeployLatest.trailingNumber (safeFilename (hostname base) +:+ "_" +:+ dateNow E)
   = Some (dateNow E)).
Proof.
  split; [|apply trailingNumber_stamp].
  intros Hd. split; [now apply trailingNumber_stamp|]. split.
  - pose proof (trailingNumber_stamp host d Hd) as Hx.
    remember (host +:+ "_" +:+ d) as x eqn:Heqx. clear Heqx.
    unfold DeployLatest.appNumber, Js.endsWith. rewrite rev_app.
    change (Js.rev "_app") with "ppa_".
    change ("ppa_" +:+ Js.rev x) with (String "p" (String "p" (String "a" (String "_" (Js.rev x))))).
    rewrite !prefix_cons, prefix_empty.
    rewrite length_app_s.
    replace (String.length x + String.length "_app" - 4) with (String.length x)
      by (simpl; lia).
    rewrite substring_prefix. exact Hx.
  - unfold DeployLatest.trailingNumber. rewrite rev_app. reflexivity.
Qed.

Lemma X17_directory_names_carry_the_time_stamp_witness :
  DeployLatest.trailingNumber "site.test_1700000000000" = Some "1700000000000" /\
  DeployLatest.appNumber "site.test_1700000000000_app" = Some "1700000000000".
Proof.
  assert (Hd : digits "1700000000000") by (split; [discriminate|reflexivity]).
  destruct (proj1 (X17_directory_names_carry_the_time_stamp (E := Fixture.site)
                     (Fixture.http "site.test" "/") "site.test" "1700000000000") Hd)
    as (H1 & H2 & _).
  split; [exact H1|exact H2].
Defined.

(** * Properties of the analysis *)

Lemma healthy_directory entries :
  Analyzer.healthy (Analyzer.Directory (Returned entries)) = Analyzer.healthyAll entries.
Proof.
  simpl. induction entries as [|[name child] entries IH]; [reflexivity|].
  simpl. now rewrite IH.
Qed.

Lemma properNames_directory entries :
  Analyzer.properNames (Analyzer.Directory (Returned entries))
  <-> Analyzer.properNamesAll entries.
Proof.
  simpl. induction entries as [|[name child] entries IH]; [reflexivity|].
  simpl. rewrite IH. reflexivity.
Qed.

Lemma filesOf_directory above name entries :
  Analyzer.filesOf above name (Analyzer.Directory (Returned entries))
  = Analyzer.filesOfAll (above ++ [name]) entries.
Proof.
  simpl. induction entries as [|[childName child] entries IH]; [reflexivity|].
  simpl. now rewrite IH.
Qed.

Section AnalysisProperties.

Context {E : Env}.
Variable analyzeHTML : string -> Analyzer.PageStructure.

Lemma analyzeEntry_directory dirPath currentPath name entries report :
  Analyzer.analyzeEntry analyzeHTML dirPath currentPath name
                        (Analyzer.Directory (Returned entries)) report
  = Analyzer.analyzeDirectory analyzeHTML dirPath (Path.join currentPath name) entries report.
Proof.
  simpl. revert report. induction entries as [|[childName child] entries IH]; intros report;
    [reflexivity|].
  simpl. destruct (Analyzer.analyzeEntry _ _ _ _ _ _); [apply IH|reflexivity].
Qed.

(** Failures: the traversal returns exactly when nothing below fails. *)
Lemma analyzeEntry_healthy dirPath node : forall currentPath name report,
  if Analyzer.healthy node
  then exists report',
      Analyzer.analyzeEntry analyzeHTML dirPath currentPath name node report = Returned report'
  else exists msg,
      Analyzer.analyzeEntry analyzeHTML dirPath currentPath name node report = Thrown msg.
Proof.
  induction node as [stat|msg|entries IH] using Analyzer.Tree_induction; intros currentPath name report.
  - destruct stat as [fileSize|msg]; simpl; eauto.
  - simpl. eauto.
  - rewrite healthy_directory, analyzeEntry_directory.
    generalize (Path.join currentPath name) as here. intros here. revert report.
    induction IH as [|[childName child] entries Hchild _ IHentries]; intros report; simpl.
    + eauto.
    + simpl in Hchild. specialize (Hchild here childName report).
      destruct (Analyzer.healthy child); simpl.
      * destruct Hchild as [report' ->]. apply IHentries.
      * destruct Hchild as [msg ->]. eauto.
Qed.

Lemma analyzeDirectory_healthy dirPath currentPath entries : forall report,
  if Analyzer.healthyAll entries
  then exists report',
      Analyzer.analyzeDirectory analyzeHTML dirPath currentPath entries report
      = Returned report'
  else exists msg,
      Analyzer.analyzeDirectory analyzeHTML dirPath currentPath entries report = Thrown msg.
Proof.
  induction entries as [|[name node] entries IH]; intros report; simpl; [eauto|].
  pose proof (analyzeEntry_healthy dirPath node currentPath name report) as Hnode.
  destruct (Analyzer.healthy node); simpl.
  - destruct Hnode as [report' ->]. apply IH.
  - destruct Hnode as [msg ->]. eauto.
Qed.

(** X18: [analyzeWebsite] never rejects, and it reports all or nothing.
    It returns a report exactly when every [fs.readdir] and every
    [fs.stat] below the directory succeeds; as soon as one of them fails,
    anywhere in the tree, what was collected so far is dropped and the
    result is the error object whose message starts with [Analysis
    failed: ]. *)
Theorem X18_analysis_all_or_nothing (dirPath : string)
        (listing : result (list (string * Analyzer.Tree))) :
  match listing with
  | Returned entries =>
      if Analyzer.healthyAll entries
      then exists report,
          Analyzer.analyzeWebsite analyzeHTML dirPath listing = Analyzer.Analyzed report
      else exists msg,
          Analyzer.analyzeWebsite analyzeHTML dirPath listing
          = Analyzer.AnalysisError ("Analysis failed: " +:+ msg)
  | Thrown msg =>
      Analyzer.analyzeWebsite analyzeHTML dirPath listing
      = Analyzer.AnalysisError ("Analysis failed: " +:+ msg)
  end.
Proof.
  destruct listing as [entries|msg]; [|reflexivity]. unfold Analyzer.analyzeWebsite.
  pose proof (analyzeDirectory_healthy dirPath dirPath entries Analyzer.emptyReport) as H.
  destruct (Analyzer.healthyAll entries); destruct H as [x ->]; eauto.
Qed.

(** ** What the report holds *)

Lemma join_absolute a b :
  Path.isAbsolute a = true -> Js.truthy b = true -> Path.isAbsolute (Path.join a b) = true.
Proof.
  intros Ha Hb. destruct (isAbsolute_cons a Ha) as [a' ->].
  unfold Path.join. simpl Js.truthy. rewrite Hb.
  change (String "/" a' +:+ "/" +:+ b) with (String "/" (a' +:+ "/" +:+ b)).
  unfold Path.normalize. simpl String.eqb. simpl Path.isAbsolute. cbv iota.
  destruct (String.eqb (Path.normalizeString false _) ""); reflexivity.
Qed.

Lemma join_segment a name :
  Path.isAbsolute a = true -> clean name ->
  Path.isAbsolute (Path.join a name) = true /\
  Path.normalizeSegments false (Path.join a name) = Path.normalizeSegments false a ++ [name].
Proof.
  intros Ha Hname.
  assert (Habs : Path.isAbsolute (Path.join a name) = true).
  { apply join_absolute; [exact Ha|]. apply truthy_nonempty. apply Hname. }
  split; [exact Habs|].
  rewrite <- (resolvedSegments_absolute _ Habs).
  apply (join_descending a [name] Ha); [discriminate|].
  constructor; [exact Hname|constructor].
Qed.

Lemma relative_below dirPath full rest :
  Path.isAbsolute dirPath = true -> Path.isAbsolute full = true ->
  Path.normalizeSegments false full = Path.normalizeSegments false dirPath ++ rest ->
  rest <> [] ->
  Path.relative (cwd E) dirPath full = Js.join "/" rest.
Proof.
  intros Hd Hf Hsegs Hrest.
  assert (Hne : Path.resolve (cwd E) dirPath <> Path.resolve (cwd E) full).
  { rewrite !resolve_absolute by assumption. intros Heq.
    apply resolved_injective in Heq; try apply normalizeSegments_clean.
    rewrite Hsegs in Heq. apply (f_equal (@length string)) in Heq.
    rewrite length_app in Heq. destruct rest; [congruence|simpl in Heq; lia]. }
  unfold Path.relative.
  destruct (String.eqb dirPath full) eqn:H1; [apply String.eqb_eq in H1; congruence|].
  destruct (String.eqb (Path.resolve (cwd E) dirPath) (Path.resolve (cwd E) full)) eqn:H2;
    [apply String.eqb_eq in H2; congruence|].
  rewrite !resolve_absolute by assumption.
  rewrite !normalizeSegments_resolved by apply normalizeSegments_clean.
  rewrite Hsegs, dropCommon_app. reflexivity.
Qed.

Lemma recorded_nil page report : Analyzer.recorded page report [] = report.
Proof.
  destruct report. unfold Analyzer.recorded. simpl. rewrite !app_nil_r, Nat.add_0_r.
  reflexivity.
Qed.

Lemma sumSizes_app l1 l2 :
  Analyzer.sumSizes (l1 ++ l2) = Analyzer.sumSizes l1 + Analyzer.sumSizes l2.
Proof. induction l1 as [|f l1 IH]; simpl; [reflexivity|]. rewrite IH. lia. Qed.

Lemma recorded_app page report l1 l2 :
  Analyzer.recorded page (Analyzer.recorded page report l1) l2
  = Analyzer.recorded page report (l1 ++ l2).
Proof.
  unfold Analyzer.recorded. simpl.
  rewrite !List.filter_app, <- !app_assoc, sumSizes_app, Nat.add_assoc, existsb_app.
  destruct (existsb Analyzer.isIndexPage l1), (existsb Analyzer.isIndexPage l2); reflexivity.
Qed.

Lemma join_is_index above name :
  Forall clean above -> clean name ->
  Js.join "/" (above ++ [name]) = "index.html" -> above = [] /\ name = "index.html".
Proof.
  intros Habove Hname Heq.
  assert (Hsplit : Js.split Path.sep (Js.join "/" (above ++ [name])) = above ++ [name]).
  { apply split_join; [destruct above; discriminate|].
    apply clean_sepfree, Forall_app. split; [exact Habove|]. constructor; [exact Hname|constructor]. }
  rewrite Heq in Hsplit. change (Js.split Path.sep "index.html") with ["index.html"] in Hsplit.
  destruct above as [|x [|y above]]; simpl in Hsplit; [|discriminate..].
  injection Hsplit as <-. auto.
Qed.

Lemma recordFile_recorded dirPath above name fileSize report :
  Forall clean above -> clean name ->
  let relPath := Js.join "/" (above ++ [name]) in
  forall fullPath,
    (above = [] -> fullPath = Path.join dirPath name) ->
    Analyzer.recordFile analyzeHTML fullPath relPath name fileSize report
    = Analyzer.recorded (analyzeHTML (Path.join dirPath "index.html")) report
        [Analyzer.mkFileInfo relPath fileSize (Js.toLowerCase (Analyzer.extname name))].
Proof.
  intros Habove Hname relPath fullPath Hfull.
  unfold Analyzer.recordFile, Analyzer.recorded, Analyzer.isIndexPage, Analyzer.hasKind.
  cbn [Analyzer.type Analyzer.path Analyzer.size List.filter existsb Analyzer.sumSizes
       fold_right].
  rewrite Nat.add_0_r.
  destruct (Analyzer.kindOf (Js.toLowerCase (Analyzer.extname name)));
    cbn [andb orb]; rewrite ?app_nil_r; try reflexivity.
  rewrite orb_false_r.
  destruct (String.eqb relPath "index.html") eqn:Hindex; [|reflexivity].
  apply String.eqb_eq in Hindex.
  destruct (join_is_index above name Habove Hname Hindex) as [-> ->].
  rewrite (Hfull eq_refl). reflexivity.
Qed.

(** The traversal of an entry whose names are proper, at a place that
    lies [above] below the analysed directory. *)
Lemma analyzeEntry_recorded dirPath node :
  Path.isAbsolute dirPath = true ->
  forall above currentPath name report report',
    Forall clean above -> clean name -> Analyzer.properNames node ->
    Path.isAbsolute currentPath = true ->
    (above = [] -> currentPath = dirPath) ->
    Path.normalizeSegments false currentPath
    = Path.normalizeSegments false dirPath ++ above ->
    Analyzer.analyzeEntry analyzeHTML dirPath currentPath name node report
    = Returned report' ->
    report' = Analyzer.recorded (analyzeHTML (Path.join dirPath "index.html")) report
                                (Analyzer.filesOf above name node).
Proof.
  intros Hdir.
  induction node as [stat|msg|entries IH] using Analyzer.Tree_induction;
    intros above currentPath name report report' Habove Hname Hproper Hcur Htop Hsegs Hrun.
  - destruct stat as [fileSize|msg]; simpl in Hrun; [|discriminate].
    injection Hrun as <-.
    destruct (join_segment currentPath name Hcur Hname) as [Hfull Hfullsegs].
    rewrite (relative_below dirPath (Path.join currentPath name) (above ++ [name]))
      by (assumption || (rewrite Hfullsegs, Hsegs, <- app_assoc; reflexivity)
          || (destruct above; discriminate)).
    apply recordFile_recorded; [assumption..|]. intros ->. now rewrite Htop.
  - discriminate.
  - rewrite analyzeEntry_directory in Hrun. rewrite filesOf_directory.
    apply properNames_directory in Hproper.
    destruct (join_segment currentPath name Hcur Hname) as [Hfull Hfullsegs].
    assert (Hhere : Path.normalizeSegments false (Path.join currentPath name)
                    = Path.normalizeSegments false dirPath ++ (above ++ [name]))
      by (rewrite Hfullsegs, Hsegs, <- app_assoc; reflexivity).
    assert (Habove' : Forall clean (above ++ [name])).
    { apply Forall_app. split; [exact Habove|]. constructor; [exact Hname|constructor]. }
    revert Hrun. generalize (Path.join currentPath name) Hfull Hhere.
    intros here Hhereabs Hheresegs. revert report Hproper.
    induction IH as [|[childName child] entries Hchild _ IHentries];
      intros report Hproper Hrun; simpl in Hrun.
    + injection Hrun as <-. simpl. symmetry. apply recorded_nil.
    + simpl in Hproper. destruct Hproper as (Hcn & Hcp & Hrest). simpl in Hchild.
      destruct (Analyzer.analyzeEntry analyzeHTML dirPath here childName child report)
        as [report1|msg] eqn:Hstep; [|discriminate].
      rewrite (IHentries _ Hrest Hrun).
      rewrite (Hchild (above ++ [name]) here childName report report1) by
        (assumption || (intros Hnil; destruct above; discriminate)).
      simpl. apply recorded_app.
Qed.

Lemma analyzeDirectory_recorded dirPath entries :
  Path.isAbsolute dirPath = true ->
  forall report report',
    Analyzer.properNamesAll entries ->
    Analyzer.analyzeDirectory analyzeHTML dirPath dirPath entries report = Returned report' ->
    report' = Analyzer.recorded (analyzeHTML (Path.join dirPath "index.html")) report
                                (Analyzer.filesOfAll [] entries).
Proof.
  intros Hdir. induction entries as [|[name node] entries IH];
    intros report report' Hproper Hrun; simpl in Hrun.
  - injection Hrun as <-. symmetry. apply recorded_nil.
  - simpl in Hproper. destruct Hproper as (Hname & Hnode & Hrest).
    destruct (Analyzer.analyzeEntry analyzeHTML dirPath dirPath name node report)
      as [report1|msg] eqn:Hstep; [|discriminate].
    rewrite (IH _ _ Hrest Hrun).
    rewrite (analyzeEntry_recorded dirPath node Hdir [] dirPath name report report1)
      by (assumption || constructor || reflexivity || (rewrite app_nil_r; reflexivity)).
    simpl. apply recorded_app.
Qed.



Lemma deep_files_are_no_index above name node :
  Forall clean above -> above <> [] -> clean name -> Analyzer.properNames node ->
  existsb Analyzer.isIndexPage (Analyzer.filesOf above name node) = false.
Proof.
  revert above name.
  induction node as [stat|msg|entries IH] using Analyzer.Tree_induction;
    intros above name Habove Hne Hname Hproper.
  - destruct stat as [fileSize|msg]; [|reflexivity].
    cbn [Analyzer.filesOf existsb]. rewrite orb_false_r.
    unfold Analyzer.isIndexPage. cbn [Analyzer.path].
    destruct (String.eqb (Js.join "/" (above ++ [name])) "index.html") eqn:Hindex;
      [|apply andb_false_r].
    apply String.eqb_eq in Hindex.
    destruct (join_is_index above name Habove Hname Hindex) as [Hnil _]. congruence.
  - reflexivity.
  - rewrite filesOf_directory. apply properNames_directory in Hproper.
    assert (Habove' : Forall clean (above ++ [name])).
    { apply Forall_app. split; [exact Habove|]. constructor; [exact Hname|constructor]. }
    assert (Hne' : above ++ [name] <> []) by (destruct above; discriminate).
    induction IH as [|[childName child] entries Hchild _ IHentries]; [reflexivity|].
    simpl in Hproper. destruct Hproper as (Hcn & Hcp & Hrest). simpl in Hchild.
    cbn [Analyzer.filesOfAll]. rewrite existsb_app, Hchild by assumption.
    apply IHentries, Hrest.
Qed.

Lemma top_files_index name node :
  clean name -> Analyzer.properNames node ->
  existsb Analyzer.isIndexPage (Analyzer.filesOf [] name node)
  = Analyzer.indexEntry (name, node).
Proof.
  intros Hname Hproper. unfold Analyzer.indexEntry. cbn [fst snd].
  destruct node as [[fileSize|msg]|[entries|msg]].
  - cbn [Analyzer.filesOf existsb app]. rewrite orb_false_r, andb_true_r.
    unfold Analyzer.isIndexPage. cbn [Analyzer.path Js.join].
    change (Js.join "/" [name]) with name.
    destruct (String.eqb name "index.html") eqn:Hindex; [|apply andb_false_r].
    apply String.eqb_eq in Hindex. subst name. reflexivity.
  - simpl. now rewrite andb_false_r.
  - rewrite andb_false_r.
    change (Analyzer.filesOf [] name (Analyzer.Directory (Returned entries)))
      with (Analyzer.filesOf [] name (Analyzer.Directory (Returned entries))).
    rewrite filesOf_directory. apply properNames_directory in Hproper.
    cbn [app]. induction entries as [|[childName child] entries IH]; [reflexivity|].
    simpl in Hproper. destruct Hproper as (Hcn & Hcp & Hrest).
    cbn [Analyzer.filesOfAll]. rewrite existsb_app, IH by exact Hrest.
    rewrite orb_false_r.
    apply deep_files_are_no_index; try assumption; [|discriminate].
    constructor; [exact Hname|constructor].
  - simpl. now rewrite andb_false_r.
Qed.

Lemma files_index entries :
  Analyzer.properNamesAll entries ->
  existsb Analyzer.isIndexPage (Analyzer.filesOfAll [] entries)
  = existsb Analyzer.indexEntry entries.
Proof.
  induction entries as [|[name node] entries IH]; intros Hproper; [reflexivity|].
  simpl in Hproper. destruct Hproper as (Hname & Hnode & Hrest).
  cbn [Analyzer.filesOfAll existsb]. rewrite existsb_app, IH by exact Hrest.
  now rewrite top_files_index.
Qed.

Lemma analyzeWebsite_page dirPath entries report :
  Path.isAbsolute dirPath = true ->
  Analyzer.properNamesAll entries ->
  Analyzer.analyzeWebsite analyzeHTML dirPath (Returned entries) = Analyzer.Analyzed report ->
  Analyzer.pageStructure report
  = if existsb Analyzer.indexEntry entries
    then analyzeHTML (Path.join dirPath "index.html")
    else Analyzer.NoStructure.
Proof.
  intros Hdir Hproper Hrun. unfold Analyzer.analyzeWebsite in Hrun.
  destruct (Analyzer.analyzeDirectory analyzeHTML dirPath dirPath entries Analyzer.emptyReport)
    as [r|msg] eqn:Hwalk; [|discriminate].
  injection Hrun as <-.
  rewrite (analyzeDirectory_recorded dirPath entries Hdir _ _ Hproper Hwalk).
  unfold Analyzer.recorded. cbn [Analyzer.pageStructure Analyzer.emptyReport].
  now rewrite files_index.
Qed.

(** X20: only the page [index.html] of the analysed directory itself is
    parsed.  For a directory given by an absolute path, in which every
    name is a proper segment, [pageStructure] is what [analyzeHTML] makes
    of [index.html] joined to the directory when the directory holds a
    file of exactly that name, and stays the empty object otherwise:
    pages deeper in the tree, also those named [index.html], and pages
    under another name are listed in [htmlFiles] but never parsed. *)
Theorem X20_only_the_top_index_is_parsed (dirPath : string)
        (entries : list (string * Analyzer.Tree)) (report : Analyzer.Report) :
  Path.isAbsolute dirPath = true ->
  Analyzer.properNamesAll entries ->
  Analyzer.analyzeWebsite analyzeHTML dirPath (Returned entries) = Analyzer.Analyzed report ->
  Analyzer.pageStructure report
  = if existsb Analyzer.indexEntry entries
    then analyzeHTML (Path.join dirPath "index.html")
    else Analyzer.NoStructure.
Proof. apply analyzeWebsite_page. Qed.

End AnalysisProperties.

Lemma fixture_names_proper : Analyzer.properNamesAll AnalyzerFixture.tree.
Proof. simpl. unfold clean, sepfree. repeat split; discriminate. Qed.


Lemma X20_only_the_top_index_is_parsed_witness :
  Analyzer.pageStructure AnalyzerFixture.report = AnalyzerFixture.page /\
  length (Analyzer.htmlFiles AnalyzerFixture.report) = 2.
Proof.
  split; [|reflexivity].
  exact (X20_only_the_top_index_is_parsed (E := Fixture.site)
           AnalyzerFixture.analyzeHTML AnalyzerFixture.dir AnalyzerFixture.tree
           AnalyzerFixture.report eq_refl fixture_names_proper eq_refl).
Defined.

(** * Properties of the application generator *)

Section GeneratorProperties.

Context {E : Env} {C : Copying E}.
Variable undefinedRead : string -> string.

Lemma generateNodeApp_run clonedDir analysis (s : State E) :
  let appDir := clonedDir +:+ "_app" in
  let run := Generator.generateNodeApp undefinedRead clonedDir analysis s in
  exists stage : Generator.Stage,
    map fst (writes (snd run))
    = map fst (writes s) ++ take (Generator.written stage) (Generator.generatedFiles clonedDir) /\
    requests (snd run) = requests s /\ console (snd run) = console s /\
    tick (snd run) = tick s /\ urlToLocal (snd run) = urlToLocal s /\
    match stage with
    | Generator.Done =>
        exists appJs reportText,
          Generator.appJsContent undefinedRead analysis = Returned appJs /\
          Generator.analysisReport undefinedRead analysis = Returned reportText /\
          fst run = Returned (Generator.GeneratedApp
                                "success" ("Node app generated in " +:+ appDir) appDir
                                [ "cd " +:+ appDir; "npm install"; "npm start";
                                  "Open http://localhost:3000" ]) /\
          writes (snd run)
          = writes s ++ [ (Path.join appDir "app.js", appJs);
                          (Path.join appDir "package.json", Generator.packageJson);
                          (Path.join appDir "ANALYSIS_REPORT.md", reportText) ]
    | Generator.AtAppJs =>
        exists msg d,
          Generator.appJsContent undefinedRead analysis = Thrown msg /\
          fs_mkdir E (disk s) appDir = Returned d /\ disk (snd run) = d /\
          fst run = Returned (Generator.GenerationError ("App generation failed: " +:+ msg))
    | Generator.AtReport =>
        exists msg,
          Generator.analysisReport undefinedRead analysis = Thrown msg /\
          fst run = Returned (Generator.GenerationError ("App generation failed: " +:+ msg))
    | Generator.AtMkdir =>
        exists msg,
          disk (snd run) = disk s /\
          fst run = Returned (Generator.GenerationError ("App generation failed: " +:+ msg))
    | _ =>
        exists msg appJs,
          Generator.appJsContent undefinedRead analysis = Returned appJs /\
          fst run = Returned (Generator.GenerationError ("App generation failed: " +:+ msg))
    end.
Proof.
  intros appDir run. subst run.
  unfold Generator.generateNodeApp, try_catch, bind, mkdir, Generator.cp, writeFile, lift, ret.
  fold appDir. unfold Generator.generatedFiles. fold appDir.
  generalize Generator.packageJson. intros pkg.
  destruct (fs_mkdir E (disk s) appDir) as [d1|msg] eqn:Hmk; cbn.
  2:{ exists Generator.AtMkdir. cbn. rewrite app_nil_r. repeat split. eauto. }
  destruct (Generator.appJsContent undefinedRead analysis) as [appJs|msg] eqn:Happ; cbn.
  2:{ exists Generator.AtAppJs. cbn. rewrite app_nil_r. repeat split. eauto 10. }
  destruct (fs_cp d1 clonedDir (Path.join appDir "public")) as [d2|msg] eqn:Hcp; cbn.
  2:{ exists Generator.AtCopy. cbn. rewrite app_nil_r. repeat split. eauto. }
  destruct (fs_writeFile E d2 (Path.join appDir "app.js") appJs) as [d3|msg] eqn:Hw1; cbn.
  2:{ exists Generator.AtWriteApp. cbn. rewrite app_nil_r. repeat split. eauto. }
  destruct (fs_writeFile E d3 (Path.join appDir "package.json") pkg) as [d4|msg] eqn:Hw2; cbn.
  2:{ exists Generator.AtWritePackage. cbn. rewrite map_app. repeat split. eauto. }
  destruct (Generator.analysisReport undefinedRead analysis) as [reportText|msg] eqn:Hrep; cbn.
  2:{ exists Generator.AtReport. cbn. rewrite !map_app, <- app_assoc. repeat split. eauto. }
  destruct (fs_writeFile E d4 (Path.join appDir "ANALYSIS_REPORT.md") reportText)
    as [d5|msg] eqn:Hw3; cbn.
  2:{ exists Generator.AtWriteReport. cbn. rewrite !map_app, <- app_assoc. repeat split. eauto. }
  exists Generator.Done. cbn. rewrite !map_app, <- !app_assoc. repeat split.
  exists appJs, reportText. repeat split; now rewrite <- ?app_assoc.
Qed.

(** X21: [generateNodeApp] never rejects, and what it did can be read
    off its result.  A result with [status] and [appDir] means that,
    besides the copy of the clone into [public], [fs.writeFile] wrote the
    three files [app.js], [package.json] and [ANALYSIS_REPORT.md], in
    this order and no other, into the directory named by the clone
    directory followed by [_app]; every other result is an error object
    whose message starts with [App generation failed: ].  In all cases
    the files that [fs.writeFile] wrote are the first ones of these
    three, no request is made and nothing is printed. *)
Theorem X21_generateNodeApp_reports_what_it_did (clonedDir : string)
        (analysis : Analyzer.Analysis) (s : State E) :
  let appDir := clonedDir +:+ "_app" in
  let run := Generator.generateNodeApp undefinedRead clonedDir analysis s in
  (exists g, fst run = Returned g /\
     match g with
     | Generator.GeneratedApp status message dir nextSteps =>
         status = "success" /\ dir = appDir /\
         exists appJs reportText,
           Generator.appJsContent undefinedRead analysis = Returned appJs /\
           Generator.analysisReport undefinedRead analysis = Returned reportText /\
           writes (snd run)
           = writes s ++ [ (Path.join appDir "app.js", appJs);
                           (Path.join appDir "package.json", Generator.packageJson);
                           (Path.join appDir "ANALYSIS_REPORT.md", reportText) ]
     | Generator.GenerationError error =>
         exists msg, error = "App generation failed: " +:+ msg
     end) /\
  (exists k, map fst (writes (snd run))
             = map fst (writes s) ++ take k (Generator.generatedFiles clonedDir)) /\
  requests (snd run) = requests s /\ console (snd run) = console s.
Proof.
  intros appDir run.
  destruct (generateNodeApp_run clonedDir analysis s)
    as (stage & Hfiles & Hreq & Hcon & _ & _ & Hstage).
  fold run appDir in Hfiles, Hreq, Hcon, Hstage.
  split; [|split; [eauto|split; assumption]].
  destruct stage.
  - destruct Hstage as (msg & _ & ->). eexists; split; [reflexivity|]; cbn; eauto.
  - destruct Hstage as (msg & d & _ & _ & _ & ->). eexists; split; [reflexivity|]; cbn; eauto.
  - destruct Hstage as (msg & appJs & _ & ->). eexists; split; [reflexivity|]; cbn; eauto.
  - destruct Hstage as (msg & appJs & _ & ->). eexists; split; [reflexivity|]; cbn; eauto.
  - destruct Hstage as (msg & appJs & _ & ->). eexists; split; [reflexivity|]; cbn; eauto.
  - destruct Hstage as (msg & _ & ->). eexists; split; [reflexivity|]; cbn; eauto.
  - destruct Hstage as (msg & appJs & _ & ->). eexists; split; [reflexivity|]; cbn; eauto.
  - destruct Hstage as (appJs & reportText & Happ & Hrep & -> & Hwrites).
    eexists; split; [reflexivity|]. cbn. repeat split. eauto.
Qed.

Lemma parsedPage_report analysis :
  Generator.parsedPage analysis = false ->
  exists msg, Generator.analysisReport undefinedRead analysis = Thrown msg.
Proof.
  destruct analysis as [report|e]; cbn; [|eauto].
  destruct (Analyzer.pageStructure report); cbn; [eauto|discriminate|eauto].
Qed.

Lemma generateNodeApp_without_page clonedDir analysis (s : State E) :
  Generator.parsedPage analysis = false ->
  let run := Generator.generateNodeApp undefinedRead clonedDir analysis s in
  (exists msg,
      fst run = Returned (Generator.GenerationError ("App generation failed: " +:+ msg))) /\
  (exists k, k <= 2 /\
             map fst (writes (snd run))
             = map fst (writes s) ++ take k (Generator.generatedFiles clonedDir)).
Proof.
  intros Hpage run.
  destruct (parsedPage_report analysis Hpage) as [msg Hrep].
  destruct (generateNodeApp_run clonedDir analysis s)
    as (stage & Hfiles & _ & _ & _ & _ & Hstage).
  fold run in Hfiles, Hstage.
  destruct stage.
  8:{ destruct Hstage as (appJs & reportText & _ & Hrep' & _). congruence. }
  all: split; [|eexists; split; [|exact Hfiles]; cbn; lia].
  - destruct Hstage as (m & _ & ->). eauto.
  - destruct Hstage as (m & d & _ & _ & _ & ->). eauto.
  - destruct Hstage as (m & appJs & _ & ->). eauto.
  - destruct Hstage as (m & appJs & _ & ->). eauto.
  - destruct Hstage as (m & appJs & _ & ->). eauto.
  - destruct Hstage as (m & _ & ->). eauto.
  - destruct Hstage as (m & appJs & _ & ->). eauto.
Qed.

(** X22: without a parsed page there is no application.  When the
    analysis is not a report whose [pageStructure] was parsed (the error
    object of [analyzeWebsite], a report without a page [index.html], a
    report whose page could not be read), [generateNodeApp] returns an
    error object, and [ANALYSIS_REPORT.md] is never written, though
    [app.js] and [package.json] may have been.  For the error object of
    [analyzeWebsite] nothing is written or copied at all: only the
    directory is made. *)
Theorem X22_no_application_without_a_parsed_page (clonedDir : string)
        (analysis : Analyzer.Analysis) (s : State E) :
  Generator.parsedPage analysis = false ->
  let appDir := clonedDir +:+ "_app" in
  let run := Generator.generateNodeApp undefinedRead clonedDir analysis s in
  (exists msg,
      fst run = Returned (Generator.GenerationError ("App generation failed: " +:+ msg))) /\
  (exists k, k <= 2 /\
             map fst (writes (snd run))
             = map fst (writes s) ++ take k (Generator.generatedFiles clonedDir)) /\
  (forall e, analysis = Analyzer.AnalysisError e ->
             writes (snd run) = writes s /\
             forall d, fs_mkdir E (disk s) appDir = Returned d -> disk (snd run) = d).
Proof.
  intros Hpage appDir run.
  destruct (generateNodeApp_without_page clonedDir analysis s Hpage) as [Herr Hfiles].
  split; [exact Herr|]. split; [exact Hfiles|].
  intros e ->. subst run appDir.
  unfold Generator.generateNodeApp, try_catch, bind, mkdir, lift, ret.
  destruct (fs_mkdir E (disk s) (clonedDir +:+ "_app")) as [d1|msg]; cbn.
  - split; [reflexivity|]. intros d [= <-]. reflexivity.
  - split; [reflexivity|]. discriminate.
Qed.

(** X23: the analysis and the generator together.  For a directory given
    by an absolute path, in which every name is a proper segment and
    which holds no file named [index.html] itself, the result of
    [analyzeWebsite] never yields an application: whatever the directory
    holds deeper down and whether the analysis succeeds or not,
    [generateNodeApp] returns an error object and leaves at most [app.js]
    and [package.json] behind. *)
Theorem X23_no_index_page_no_application (analyzeHTML : string -> Analyzer.PageStructure)
        (dirPath clonedDir : string) (entries : list (string * Analyzer.Tree))
        (s : State E) :
  Path.isAbsolute dirPath = true ->
  Analyzer.properNamesAll entries ->
  existsb Analyzer.indexEntry entries = false ->
  let analysis := Analyzer.analyzeWebsite analyzeHTML dirPath (Returned entries) in
  let run := Generator.generateNodeApp undefinedRead clonedDir analysis s in
  Generator.parsedPage analysis = false /\
  (exists msg,
      fst run = Returned (Generator.GenerationError ("App generation failed: " +:+ msg))) /\
  (exists k, k <= 2 /\
             map fst (writes (snd run))
             = map fst (writes s) ++ take k (Generator.generatedFiles clonedDir)).
Proof.
  intros Hdir Hproper Hindex analysis run.
  assert (Hpage : Generator.parsedPage analysis = false).
  { destruct analysis as [report|e] eqn:Hrun; [|reflexivity].
    unfold Generator.parsedPage.
    rewrite (analyzeWebsite_page analyzeHTML dirPath entries report Hdir Hproper Hrun), Hindex.
    reflexivity. }
  split; [exact Hpage|]. apply generateNodeApp_without_page, Hpage.
Qed.

End GeneratorProperties.

Lemma X22_no_application_without_a_parsed_page_witness :
  fst (Generator.generateNodeApp (E := Fixture.site) (C := GeneratorFixture.copying)
         GeneratorFixture.undefinedRead AnalyzerFixture.dir
         (Analyzer.AnalysisError "Analysis failed: EACCES: permission denied")
         (Fixture.start Fixture.site []))
  = Returned (Generator.GenerationError
                "App generation failed: Cannot read properties of undefined (reading 'title')")
  /\ writes (snd (Generator.generateNodeApp (E := Fixture.site) (C := GeneratorFixture.copying)
                    GeneratorFixture.undefinedRead AnalyzerFixture.dir
                    (Analyzer.AnalysisError "Analysis failed: EACCES: permission denied")
                    (Fixture.start Fixture.site []))) = [].
Proof.
  split; [reflexivity|].
  exact (proj1 (proj2 (proj2 (X22_no_application_without_a_parsed_page
                                (E := Fixture.site) (C := GeneratorFixture.copying)
                                GeneratorFixture.undefinedRead AnalyzerFixture.dir
                                (Analyzer.AnalysisError
                                   "Analysis failed: EACCES: permission denied")
                                (Fixture.start Fixture.site []) eq_refl))
                      _ eq_refl)).
Defined.

Lemma headless_names_proper : Analyzer.properNamesAll GeneratorFixture.headless.
Proof. simpl. unfold clean, sepfree. repeat split; discriminate. Qed.

Lemma X23_no_index_page_no_application_witness :
  Generator.parsedPage
    (Analyzer.analyzeWebsite (E := Fixture.site) AnalyzerFixture.analyzeHTML
                             AnalyzerFixture.dir (Returned GeneratorFixture.headless))
  = false /\
  map fst (writes (snd (Generator.generateNodeApp
                          (E := Fixture.site) (C := GeneratorFixture.copying)
                          GeneratorFixture.undefinedRead AnalyzerFixture.dir
                          (Analyzer.analyzeWebsite (E := Fixture.site)
                             AnalyzerFixture.analyzeHTML AnalyzerFixture.dir
                             (Returned GeneratorFixture.headless))
                          (Fixture.start Fixture.site []))))
  = [ "/work/clones/site.test_1700000000000_app/app.js";
      "/work/clones/site.test_1700000000000_app/package.json" ].
Proof.
  split; [|vm_compute; reflexivity].
  exact (proj1 (X23_no_index_page_no_application
                  (E := Fixture.site) (C := GeneratorFixture.copying)
                  GeneratorFixture.undefinedRead AnalyzerFixture.analyzeHTML
                  AnalyzerFixture.dir AnalyzerFixture.dir GeneratorFixture.headless
                  (Fixture.start Fixture.site [])
                  eq_refl headless_names_proper eq_refl)).
Defined.

(** * Properties of the escaping *)

Lemma replaceChar_absent c rep s :
  all_chars (fun d => negb (Ascii.eqb d c)) s = true ->
  JsonHandler.replaceChar c rep s = s.
Proof.
  induction s as [|d s IH]; intros Hall; [reflexivity|].
  simpl in Hall. apply andb_prop in Hall as [Hd Hs].
  simpl. apply negb_true_iff in Hd. rewrite Hd, IH by exact Hs. reflexivity.
Qed.

Lemma all_chars_impl (f g : ascii -> bool) s :
  (forall c, f c = true -> g c = true) -> all_chars f s = true -> all_chars g s = true.
Proof.
  intros Himpl. induction s as [|c s IH]; [reflexivity|].
  simpl. intros Hall. apply andb_prop in Hall as [Hc Hs].
  rewrite (Himpl c Hc), IH by exact Hs. reflexivity.
Qed.

Lemma isWord_not_escaped c : JsonHandler.isWord c = true -> JsonHandler.escaped c = false.
Proof.
  destruct c as [[] [] [] [] [] [] [] []]; vm_compute; congruence.
Qed.

Lemma not_escaped_neq c d :
  In d [JsonHandler.backslash; JsonHandler.LF; JsonHandler.CR; JsonHandler.TAB;
        JsonHandler.FF; dquote] ->
  JsonHandler.escaped c = false -> negb (Ascii.eqb c d) = true.
Proof.
  intros Hin Hesc. apply negb_true_iff. apply not_true_is_false. intros Heq.
  apply Ascii.eqb_eq in Heq. subst d.
  assert (JsonHandler.escaped c = true); [|congruence].
  unfold JsonHandler.escaped. apply existsb_exists. exists c. split; [exact Hin|].
  apply Ascii.eqb_refl.
Qed.

Lemma atWordBoundaries_word rep s :
  all_chars JsonHandler.isWord s = true ->
  JsonHandler.atWordBoundaries rep true s = s +:+ rep.
Proof.
  induction s as [|c s IH]; intros Hall; [reflexivity|].
  simpl in Hall. apply andb_prop in Hall as [Hc Hs].
  simpl. rewrite Hc. simpl. now rewrite IH.
Qed.

Lemma atWordBoundaries_plain rep s :
  all_chars (fun c => negb (JsonHandler.isWord c)) s = true ->
  JsonHandler.atWordBoundaries rep false s = s.
Proof.
  induction s as [|c s IH]; intros Hall; [reflexivity|].
  simpl in Hall. apply andb_prop in Hall as [Hc Hs]. apply negb_true_iff in Hc.
  simpl. rewrite Hc. simpl. now rewrite IH.
Qed.

(** X24: the pattern [/\b/g] of [escapeSpecialChars] does not match the
    backspace character but every word boundary.  A word, that is a
    string of letters, digits and underscores that is not empty, comes
    back with a backslash and the letter b put before and after it; a
    string without such characters and without the other characters
    that have a pattern, the backspace among them, comes back as it is;
    what is not a string is returned untouched. *)
Theorem X24_escapeSpecialChars_marks_word_boundaries :
  (forall s, s <> "" -> all_chars JsonHandler.isWord s = true ->
             JsonHandler.escapeSpecialChars (JsString s)
             = JsString (String JsonHandler.backslash "b" +:+ s
                         +:+ String JsonHandler.backslash "b")) /\
  (forall s, all_chars (fun c => negb (JsonHandler.isWord c || JsonHandler.escaped c)) s = true ->
             JsonHandler.escapeSpecialChars (JsString s) = JsString s) /\
  JsonHandler.escapeSpecialChars (JsString (String JsonHandler.BS ""))
  = JsString (String JsonHandler.BS "") /\
  (forall v, (forall s, v <> JsString s) -> JsonHandler.escapeSpecialChars v = v).
Proof.
  split; [|split; [|split]].
  - intros s Hne Hword. unfold JsonHandler.escapeSpecialChars.
    assert (Hfree : forall d,
               In d [JsonHandler.backslash; JsonHandler.LF; JsonHandler.CR; JsonHandler.TAB;
                     JsonHandler.FF; dquote] ->
               all_chars (fun c => negb (Ascii.eqb c d)) s = true).
    { intros d Hin. apply (all_chars_impl JsonHandler.isWord); [|exact Hword].
      intros c Hc. apply not_escaped_neq; [exact Hin|]. now apply isWord_not_escaped. }
    rewrite (replaceChar_absent JsonHandler.backslash _ s),
      (replaceChar_absent JsonHandler.LF _ s), (replaceChar_absent JsonHandler.CR _ s),
      (replaceChar_absent JsonHandler.TAB _ s), (replaceChar_absent JsonHandler.FF _ s)
      by (apply Hfree; simpl; tauto).
    destruct s as [|c s]; [congruence|].
    simpl in Hword. apply andb_prop in Hword as [Hc Hs].
    cbn [JsonHandler.atWordBoundaries]. rewrite Hc. cbn [xorb].
    rewrite atWordBoundaries_word by exact Hs. f_equal.
    change (String JsonHandler.backslash "b" +:+ String c (s +:+ String JsonHandler.backslash "b"))
      with (String JsonHandler.backslash (String "b" (String c (s +:+ String JsonHandler.backslash "b")))).
    change (String JsonHandler.backslash "b" +:+ String c s +:+ String JsonHandler.backslash "b")
      with (String JsonHandler.backslash (String "b" (String c (s +:+ String JsonHandler.backslash "b")))).
    apply replaceChar_absent. cbn [all_chars].
    rewrite all_chars_app.
    rewrite (all_chars_impl JsonHandler.isWord (fun d => negb (Ascii.eqb d dquote)) s).
    + assert (Hcq : negb (Ascii.eqb c dquote) = true).
      { apply not_escaped_neq; [simpl; tauto|]. now apply isWord_not_escaped. }
      rewrite Hcq. reflexivity.
    + intros d Hd. apply not_escaped_neq; [simpl; tauto|]. now apply isWord_not_escaped.
    + exact Hs.
  - intros s Hplain. unfold JsonHandler.escapeSpecialChars.
    assert (Hfree : forall d,
               In d [JsonHandler.backslash; JsonHandler.LF; JsonHandler.CR; JsonHandler.TAB;
                     JsonHandler.FF; dquote] ->
               all_chars (fun c => negb (Ascii.eqb c d)) s = true).
    { intros d Hin. eapply all_chars_impl; [|exact Hplain].
      intros c Hc. cbv beta in Hc. apply negb_true_iff, orb_false_iff in Hc as [_ Hc].
      now apply not_escaped_neq. }
    rewrite (replaceChar_absent JsonHandler.backslash _ s),
      (replaceChar_absent JsonHandler.LF _ s), (replaceChar_absent JsonHandler.CR _ s),
      (replaceChar_absent JsonHandler.TAB _ s), (replaceChar_absent JsonHandler.FF _ s)
      by (apply Hfree; simpl; tauto).
    rewrite atWordBoundaries_plain.
    + rewrite replaceChar_absent by (apply Hfree; simpl; tauto). reflexivity.
    + eapply all_chars_impl; [|exact Hplain].
      intros c Hc. cbv beta in Hc. apply negb_true_iff, orb_false_iff in Hc as [Hc _].
      now rewrite Hc.
  - reflexivity.
  - intros v Hv. destruct v; try reflexivity. now destruct (Hv s).
Qed.
